(* ===== verification/_CoqProject ===== *)
-Q . S2P
Prelude.v
Result.v
MachineInt.v
Decimal.v
DecimalRef.v
Double.v
DoubleText.v
Ostream.v
Locals.v
Program.v
Specs.v
Main.v
Invariants.v
Simulation.v
Trace.v
Process.v
Syntax.v
Lexer.v
Parser.v
Source.v
Printer.v
Grammar.v
Lexical.v
LexerComplete.v
LexerProofs.v
LexerSound.v
LexerInvariant.v
ParserProofs.v
ParserSound.v
ParserFuel.v
ParserInvariant.v
FrontEnd.v
Typing.v
Toolchain.v
