(* ===== verification/Prelude.v ===== *)
(** * Verification of [src/CPP/3_variables.cpp]

    The program is one translation unit with one function, [main]: a
    straight-line sequence of declarations, assignments and insertions into
    [std::cout], ending in [return 0].  What makes it worth a development is
    everything the statements rely on without saying so: the frame of typed
    local variables (one of them declared without an initialiser, one of
    them [const]), the arithmetic of the machine type [int] (whose overflow is
    undefined behaviour), the overloads of [operator<<] and the formatting
    state of the stream (no [boolalpha], precision 6), the conversion of
    numbers to text, the names that the include and the using-directive
    bring into scope, the checks that the compiler makes before the program
    runs, and the device that receives the output when the process exits.

    The development has the program three times.  [Source] has the file as
    it is on disk, character by character; [Syntax] has it as a syntax tree
    with an interpreter; [Program] gives each statement its meaning
    directly, as a computation on the frame and the stream.
    [Typing.source_unit_checked] proves that the front end ([Lexer], then
    [Parser]) reads the characters as the tree, and that the interpreter on
    the tree and [main] are the same function of the state, errors
    included, so that what is proved of [main] holds of the text and what
    the checker decides of the tree holds of [main].

    ** Files, in dependency order

    - [Prelude] (this file): the scope [cxx_scope], the tactics ([zdiv10],
      [split_all], [case_inner]) and the hint database [cxx] of the
      development, and the lemmas on strings and on division by ten that
      the components share.
    - [Result]: the error type ([error]: ill-formed uses and undefined
      behaviour), the result type [res], the state-and-error monad [exec]
      in which the statements are written, pointwise equivalence of
      computations with its [Proper] instances, total-correctness Hoare
      triples [hoare], invariants ([preserves], [yields]), transition
      invariants ([respects]) and simulation between computations over two
      types of state ([exec_sim]), each with its rules for [mret], [lift],
      bind and [seq].
    - [MachineInt]: the type [int].  Its width is a parameter (class
      [IntWidth], at least 16 bits as the standard requires; [int16],
      [int32], [int64] are instances).  Values are integers in [in_range];
      [int_add] and [int_mul] are [operator+] (line 19) and [operator*]
      (line 38), whose overflow is the error [SignedOverflow]; [wrap] is the
      two's complement result of the hardware.
    - [Decimal]: base-ten formatting of integers as the library does it, by
      the digit loop [int_to_char] with the capacity of its buffer as fuel,
      and a parser used to state round trips.
    - [DecimalRef]: the Standard Library's rendering of an integer
      ([reference_render], by doubling a sequence of decimal digits, with
      no division) as the reference for the digit loop, and the proof that
      the two agree on every number within the capacity of the loop.
    - [Double]: binary64 values (the Standard Library's [spec_float]), the
      literal of line 10 ([double_lit]: the correctly rounded quotient), and
      the formatting of a double by [fmt_general] (the conversion [%g] with
      the precision of the stream), in exact integer arithmetic.
    - [DoubleText]: a reader of decimal numbers ([parse_decimal]: sign,
      digits, point, digits, exponent), the specification against which
      the text of a double is judged.  It models no code of the program.
    - [Ostream]: [std::cout].  [Insertable] is the overloading of
      [operator<<] (one instance per type inserted by the program),
      [OStream] with its laws [OStreamLaws] is a stream as a character sink
      with formatting flags, [insert] is [operator<<].  Two implementations:
      [ostream] (unbuffered) and [bufstream] (buffered, with [flush]).
    - [Locals]: the frame of local variables, a finite map from names to
      slots (type, [const] qualifier, value if any), with the four things
      the source does with a variable: [declare] (line 6), [init] (lines 9
      to 13, 18, 28, 34, 35, 38), [assign] (lines 7, 22) and [read]; the
      well-formedness invariant [wf_frame], the extension order [frame_le]
      and the step relation [frame_step] of the frames a block can reach.
    - [Program]: [main].  The state is the record [state] (the frame and the
      stream).  Each statement of the source is one definition, named after
      what it declares or prints ([decl_n], [assign_n], [init_myNum], ...,
      [print_primitives], [init_xyz], [print_sum], [chain_assign], ...,
      [print_area]); [main_body] lists them in the order of the source (the
      statement of line 19 occurs again at line 23) and [main] runs them and
      returns 0.  The file also says what each statement evaluates to (the
      lemmas [..._run]).
    - [Specs]: the specification of each computing statement, for every
      frame that satisfies its precondition, and of the text of an [int]
      and of a [double] variable.
    - [Main]: the run of [main] from its initial state: the final frame
      [final_frame], the text written as a function of the flags
      ([program_text]) and the literal output [expected_output].
    - [Invariants]: what holds at every point of [main]: [wf_state] and the
      extension order [state_le].
    - [Simulation]: what the run does not depend on: the implementation of
      the stream (a simulation between streams, the buffered stream against
      the unbuffered one) and the width of [int].
    - [Trace]: the body of [main] read statement by statement: a machine
      with a program counter ([step], [step_fn], [run]) that halts at the
      [return 0;] of line 45 and fails at the statement that is undefined;
      the configurations that a run passes through ([reaches]) and what
      every continuation of a run arrives at ([eventually]).
    - [Process]: the run from the call of [main] to the exit of the
      process ([run_process]): [std::cout] over a device that receives
      writes ([devstream], for every buffering policy: none, by line, by
      block) and has a given amount of room (a write that does not fit is
      cut, the stream fails, later insertions do nothing), the flush at
      exit, and the exit status.  [tracks] relates the stream of the
      device to the unbuffered stream that is never full.
    - [Syntax]: the file as a syntax tree ([source_unit]: line 1 as
      [includes], line 2 as [usings], lines 4 to 46 as [main_function] with
      the 21 statements [main_stmts]); the names that a library's headers
      declare and the scope of the unit ([unit_scope]); the interpreter of
      the fragment ([eval_expr], [exec_stmt], [exec_block], [call_main],
      [run_unit]), built from the same operations on the frame and the
      stream as [Program].
    - [Lexer]: the tokens of the file ([token], with its [keyword]s and its
      operators and punctuators [punct]) and the lexer: a state machine
      over the characters ([lex_state], [lex_step], and [lex_end] at the
      end of the text), run by [lex_go], which counts the lines for the
      errors ([lex_fault] at a line).  It reads words (keywords, [true],
      [false], identifiers; a keyword of the language that the fragment
      does not have is an error), decimal literals, character and string
      literals with the simple escapes, the directive [#include <...>] at
      the start of a line, and drops white space and [//] comments.
    - [Parser]: the grammar of the fragment as a parser by recursive
      descent with fuel, one function per nonterminal ([parse_primary],
      [parse_mul], [parse_add], [parse_assign], [parse_expr];
      [parse_declarators], [parse_operands], [parse_stmt], [parse_block],
      [parse_function], [parse_unit]); [front_end] is the lexer, then the
      parser.
    - [Source]: the file: its 1227 characters ([source_text], six parts
      that follow its blank lines) and its 154 tokens ([source_tokens], in
      the same parts).
    - [Printer]: a tree as tokens ([unit_tokens], with the parentheses
      that the grouping needs) and tokens as text ([show_tokens]), and the
      trees and tokens that can be written ([wf_unit], [wf_token]).  It is
      the specification of the front end and models no code.
    - [Grammar]: the grammar of the fragment without a parser, as
      inductive relations between tokens and trees ([expr_at] by levels:
      3 primary, 2 product, 1 sum, 0 assignment; [stmt_g], [function_g],
      [unit_g]).  It is the abstract specification of the parser and
      models no code.
    - [Lexical]: the lexical grammar of the fragment without a state
      machine, as inductive relations between a text and its tokens
      ([lexeme]: the spellings of a token; [follows]: what can come after
      it; [include_line]: the text of a directive; [scans]: a text as a
      sequence of line breaks, blanks, comments, directives and tokens).
      It is the abstract specification of the lexer and models no code.
    - [LexerComplete], [LexerProofs], [LexerSound], [LexerInvariant],
      [ParserProofs], [ParserSound], [ParserFuel], [ParserInvariant],
      [FrontEnd]: the proofs about the front end (below).
    - [Typing]: the static checks ([type_expr], [check_stmt],
      [check_block], [check_unit]) as the interpreter run on what is known
      of a frame without its values ([tenv], [abs_frame]), with a strict
      mode that also rejects the read of a variable without a value; the
      relation [abstracts] between a computation and its check, and its
      rules.
    - [Toolchain]: the parts put together ([compile_and_run] from the
      text, [build_and_run] from the tree): the front end, the check of
      the unit against a library, then, if the check accepts it, the run
      of its tree on the stream of a device, the flush and the exit.

    ** What is proved

    - The output ([Main.main_output], [Main.main_refines_text]): for every
      width of [int] and every lawful stream, [main] returns 0 without
      error and appends exactly the expected text.
    - The statements ([Specs]): a specification of each
      computing statement for every frame that satisfies its precondition,
      not only the frame that [main] reaches: the sum, the chained
      assignment, the rectangle report, the line of primitives; and their
      undefined cases (overflow of a partial sum or of the product, a read
      of [n] before line 7, a write to the [const]).
    - The invariants ([Invariants]): every prefix of [main] completes, in a
      well-formed state that extends the earlier ones; the statements keep
      both invariants from any state.
    - The parameters ([Simulation]): on a buffered stream nothing is
      flushed before exit and the flushed text is that of the unbuffered
      run ([Simulation.main_buffered]); the run is the same for every width
      of [int] ([Simulation.main_width_independent]).  That [main]
      simulates itself across related streams ([Simulation.main_sim]) is a
      lemma of the library: it holds of every program that only writes to
      its stream.
    - The machine ([Trace]).  For any list of statements (lemmas of the
      library, which say nothing of the file): the transition relation is
      a total function, the machine agrees with [seq], errors included,
      and one transition more than there are statements ends every run.
      For [main]: from the initial state the machine passes through the 20
      statements without failing and has halted, in the final state, with
      fuel 21 ([Trace.main_machine_run]).  Liveness
      ([Trace.main_eventually_halts]): from every configuration that a run
      from the initial state reaches, execution eventually halts, in the
      final state.
    - The front end.  On the file: the lexer reads each part of the text
      as its tokens and the parser reads the tokens as the tree
      ([Source.lex_sections], [Source.parse_source_tokens]); the tokens of
      the tree, printed, are the tokens of the file
      ([FrontEnd.source_tokens_printed]).  On every tree
      ([FrontEnd.front_end_show_unit]): the front end is a left inverse of
      the printer, so that the grammar loses no tree and groups operators
      as the tree does.  On every text ([LexerSound.lex_grammar]): the
      lexer implements the grammar of [Lexical].  It returns tokens
      exactly when the text is made of them, and no text is made of two
      lists of tokens.  Completeness follows the state machine through
      the characters of an item ([LexerComplete.lex_accumulate],
      [LexerComplete.lex_go_emits], [LexerComplete.lex_scans]); soundness
      is a simulation in which a state stands for the characters of the
      item under way ([LexerSound.pending], [LexerSound.lex_step_sound]).
      What the printer writes is in the grammar
      ([LexerProofs.show_tokens_scans]).  On every
      list of tokens ([ParserSound.parse_unit_grammar]): the parser
      implements the grammar of [Grammar].  It returns a tree exactly when
      the tokens are a phrase of the tree, it rejects a phrase followed by
      one more token at that token, and no list of tokens is a phrase of
      two trees.  Completeness says what it is to read tokens with a tail
      ([ParserProofs.reads], [ParserProofs.extends]) and is an induction
      on the derivation of a phrase ([ParserProofs.expr_at_read],
      [ParserProofs.parse_unit_phrase]); soundness inverts each parser
      ([ParserSound.parses], [ParserSound.parse_unit_sound]).  What the
      printer writes is a phrase ([Grammar.unit_tokens_g]), which gives
      the round trip.  Together ([FrontEnd.front_end_specification]): the
      front end accepts a text as a tree exactly when the text is made of
      tokens that are a phrase of the tree.  On every
      text: the parser never runs out of fuel
      ([ParserFuel.parse_unit_fuel]); errors are reported with the
      line they are on ([LexerProofs.lex_after_tokens]); the tree of a
      text that is accepted can be written, and the text written for it
      is read as the same tree ([FrontEnd.front_end_canonical]), by an
      invariant of the states of the lexer
      ([LexerInvariant.lex_step_wf]) and of the results of the parsers
      ([ParserInvariant.keeps]).
    - The process ([Process.process_run]): for every buffering policy and
      every amount of room on the device the exit status is 0 and the
      writes that the device has received concatenate to the expected
      output cut at the room of the device, hence to all of it when the
      device has room; the policy decides where the writes are cut (21
      writes without a buffer, 7 with a line buffer, one with a block),
      never what is written.
    - The syntax and the checks ([Typing]): the interpreter on the tree of
      the file is [main] ([Typing.source_unit_checked]); the checker is the
      abstraction of the interpreter ([Typing.abstracts_block]), hence type
      soundness ([Typing.check_block_sound]: an accepted block fails with
      undefined behaviour only, and under the strict check with signed
      overflow only) and its converse ([Typing.check_block_rejects]); the
      check does not depend on the width of [int] when the literals fit
      sixteen bits; the file is accepted when [<iostream>] declares
      [std::string] and rejected at line 12 when the library declares only
      what the standard promises, or when line 2 is dropped.
    - From the text to the exit ([Toolchain.source_to_exit]): a unit that
      the strict check rejects is not run, and the build fails with the
      error of the check, also when the run would have failed earlier with
      another error; a unit that the check accepts exits or fails with
      signed overflow; the text of the file of the repository, read by the
      front end, checked and run, exits with status 0 after writing the
      expected output, as far as the device has room.
    - The components: checked arithmetic against two's complement
      ([MachineInt]), the frames reachable by declarations and assignments
      ([Locals]), the text of an [int] (round trip, injectivity,
      termination of the digit loop, agreement with the reference
      rendering), the value of the literal 5.99, and
      the text of a [double] (for every finite binary64 value the digits
      printed are the value rounded to the precision of the stream, within
      half a unit in the last place; the text is read back by
      [DoubleText.parse_decimal] as that rounded number, in fixed and in
      scientific notation, with the removed zeros moved into the exponent
      ([Specs.double_text_roundtrip]); two values with the same text were
      rounded to the same number ([Specs.double_text_injective]); the texts
      of the infinities and of a value that is not a number are not read as
      numbers).

    Each theorem with hypotheses is applied once to a concrete input (the
    lemmas named [..._witness]), with [int] of 32 bits and the unbuffered
    stream unless the theorem is about something else.

    ** Bounds and fuel

    - [IntWidth] requires a width of at least 16 bits.  All numbers of the
      program are below 32768 in magnitude, so every theorem about [main]
      holds for every such width.
    - The digit loop [int_to_char] takes the capacity of the formatter's
      buffer as fuel: [int_capacity], the width of [int] in bits, which
      allows one digit more than that.  A value of [w] bits has fewer than
      [w] decimal digits
      ([Ostream.in_range_capacity]), so the loop never runs out
      ([Specs.int_text_terminates]: more fuel gives the same text).
    - [Double.exponent_fuel] (400) bounds the search for the decimal
      exponent of a double; binary64 values lie between 10^-324 and 10^309
      ([Double.frac_of_range]), so the search ends with the exponent that
      brackets the value ([Double.decimal_exponent_spec]).  The same 400
      is the fuel of the digit loop for the integer part of a double and
      for an exponent of three digits: both are below 10^401
      ([DoubleText.bracket_bound]).
    - [Trace.run] takes the number of transitions as fuel.  The body has 20
      statements and no loop, so 21 transitions end every run, from any
      state ([Trace.run_terminated]: the outcome is terminated;
      [Trace.run_fuel]: more fuel gives the same outcome), and from the
      initial state in the final state ([Trace.main_machine_run]).
      [Trace.eventually] is inductive: a derivation is a finite run, so
      liveness needs no fuel.
    - The interpreter and the checker of [Syntax] and [Typing] are
      structural recursions on the tree: the fragment has no loop.  An
      integer literal is an [int] when [int] can represent it; the literals
      of the file fit sixteen bits, so what the checker decides of the file
      holds at every width ([Typing.check_unit_width]).
    - The lexer is a structural recursion on the text.  The parser takes
      fuel for what is not structural: the operands of an operator, the
      declarators of a declaration, the operands of an insertion, the
      statements of the block, and the depth of the parentheses.
      [parse_unit] gives the number of tokens for each of them.  That is
      enough for every list of tokens, because a parser that returns has
      read a token ([ParserFuel.fine]): [TooDeep] is never the result
      ([ParserFuel.parse_unit_fuel]).  The file has 154 tokens; what it
      needs is 21, the number of the statements of [main]: with 20 the
      parser of the function runs out ([ParserFuel.source_fuel]).

    ** What is not modelled

    - The text of the header [<iostream>], macros and conditional
      compilation: a header is the set of names it declares in namespace
      [std].  Qualified names, and local variables that hide a name of
      [std]: the file has none ([Syntax.in_fragment]).
    - Of the language, what the file does not use: branches and loops,
      functions other than [main], pointers and references, classes,
      overload resolution, templates.  In the fragment an initialiser is
      evaluated before its variable is declared (in C++ the variable is
      already in scope in its own initialiser) and a string literal has the
      type of [std::string].
    - The operating system side of the standard output: a device of the
      model fails only by running out of room; signals (a closed pipe ends
      the process before [main] returns), [errno] and interrupted writes
      are not modelled.  The stream's width, fill and locale, the
      manipulators, and the exceptions that a stream can be asked to throw:
      the program uses none.
    - Implicit conversions between the arithmetic types: the program has
      none, and the frame rejects a value of another type.
    - Arithmetic on [double]: the program stores and prints one literal.
      That a literal denotes the nearest binary64 value is proved for 5.99
      by computation ([Specs.myFloatNum_value]), not for every literal:
      [double_lit] is the Standard Library's division, which comes without
      a proof of correct rounding.
    - The compiler beyond its front end and its checks: no machine code is
      generated, and the meaning of a unit that the check accepts is that
      of the interpreter of [Syntax].  Of the front end: trigraphs, line
      splicing, comments between [/*] and [*/], macros and the expansion
      of the header, literals in other bases or with suffixes, and the
      grammar of what the file does not use (a keyword outside the
      fragment is a lexical error).  The lexer and the parser are proved
      sound and complete against grammars given separately ([Lexical],
      [Grammar]); these grammars are those of the fragment, written for
      this development, and are not proved against the grammar of the
      language standard.
    - The library code behind [operator<<] is not part of the repository;
      [Decimal], [Double] and [Ostream] model it from the language standard.
*)

From Stdlib Require Export Ascii ZArith Lia.
From stdpp Require Export base tactics option strings numbers.

#[global] Open Scope Z_scope.

Declare Scope cxx_scope.
Delimit Scope cxx_scope with cxx.

Create HintDb cxx discriminated.
Create Rewrite HintDb cxx.

(** ** Strings

    The standard output is a sequence of characters that only grows; the
    lemmas below are the algebra of [String.append] that every theorem on the
    output uses. *)

Section Strings.
Implicit Types s t u : string.

Lemma str_app_cons a s t : String a s +:+ t = String a (s +:+ t).
Proof. reflexivity. Qed.

Lemma str_app_nil_l s : "" +:+ s = s.
Proof. reflexivity. Qed.

Lemma str_app_nil_r s : s +:+ "" = s.
Proof. induction s as [|a s IH]; [done | by rewrite !str_app_cons, ?IH]. Qed.

Lemma str_app_assoc s t u : s +:+ (t +:+ u) = (s +:+ t) +:+ u.
Proof. induction s as [|a s IH]; [done | by rewrite !str_app_cons, ?IH]. Qed.

Lemma str_app_length s t :
  String.length (s +:+ t) = (String.length s + String.length t)%nat.
Proof.
  induction s as [|a s IH]; [done |]. rewrite str_app_cons; simpl. by rewrite IH.
Qed.

Lemma str_app_inv_l s t u : s +:+ t = s +:+ u → t = u.
Proof. induction s; [done | rewrite !str_app_cons; intros [= ?]; auto]. Qed.

Lemma str_app_eq_nil s t : s +:+ t = "" → s = "" ∧ t = "".
Proof. destruct s; [done | rewrite str_app_cons; discriminate]. Qed.

(** [str_prefix s t]: [t] starts with [s].  Everything ever written to the
    stream stays a prefix of what is written later. *)
Definition str_prefix s t : Prop := ∃ u, t = s +:+ u.

#[export] Instance str_prefix_refl : Reflexive str_prefix.
Proof. intros s. exists "". by rewrite str_app_nil_r. Qed.

#[export] Instance str_prefix_trans : Transitive str_prefix.
Proof.
  intros s t u [v ->] [w ->]. exists (v +:+ w). by rewrite str_app_assoc.
Qed.

Lemma str_prefix_app s t : str_prefix s (s +:+ t).
Proof. by exists t. Qed.

Lemma str_prefix_app_r s t u : str_prefix s t → str_prefix s (t +:+ u).
Proof. intros H. etrans; [exact H | apply str_prefix_app]. Qed.

Lemma str_prefix_length s t :
  str_prefix s t → (String.length s ≤ String.length t)%nat.
Proof. intros [u ->]. rewrite str_app_length. lia. Qed.

Lemma str_prefix_antisym s t : str_prefix s t → str_prefix t s → s = t.
Proof.
  intros [u ->] [v Hv]. rewrite <- str_app_assoc in Hv.
  rewrite <- (str_app_nil_r s) in Hv at 1.
  apply str_app_inv_l in Hv. symmetry in Hv.
  apply str_app_eq_nil in Hv as [-> _]. by rewrite str_app_nil_r.
Qed.

(** [str_infix s t]: [s] occurs somewhere in [t] (the meaning of "the
    output contains the line ..."). *)
Definition str_infix s t : Prop := ∃ u v, t = u +:+ s +:+ v.

Lemma str_infix_app_l s t u : str_infix s t → str_infix s (u +:+ t).
Proof.
  intros (v & w & ->). exists (u +:+ v), w. by rewrite !str_app_assoc.
Qed.

Lemma str_infix_app_r s t u : str_infix s t → str_infix s (t +:+ u).
Proof.
  intros (v & w & ->). exists v, (w +:+ u). by rewrite !str_app_assoc.
Qed.

Lemma str_infix_here s t u : str_infix s (t +:+ s +:+ u).
Proof. by exists t, u. Qed.
End Strings.

(** [str_take n s]: the first [n] characters of [s], all of [s] if it has
    no more (the part of a write that a device with room for [n] bytes
    takes). *)
Fixpoint str_take (n : nat) (s : string) : string :=
  match n, s with
  | O, _ | _, EmptyString => ""
  | S n, String a s => String a (str_take n s)
  end.

Section Take.
Implicit Types (n : nat) (s t : string).

Lemma str_take_0 s : str_take 0 s = "".
Proof. by destruct s. Qed.

Lemma str_take_all n s : (String.length s ≤ n)%nat → str_take n s = s.
Proof.
  revert n. induction s as [|a s IH]; intros [|n] Hn; simpl in *; try done; [lia|].
  rewrite IH by lia. done.
Qed.

Lemma str_take_app n s t :
  str_take (String.length s + n) (s +:+ t) = s +:+ str_take n t.
Proof. induction s as [|a s IH]; simpl; [done | by rewrite IH]. Qed.

Lemma str_take_app_le n s t :
  (n ≤ String.length s)%nat → str_take n (s +:+ t) = str_take n s.
Proof.
  revert n. induction s as [|a s IH]; intros [|n] Hn; simpl in *; try done; [lia|].
  rewrite IH by lia. done.
Qed.

Lemma str_take_prefix n s : str_prefix (str_take n s) s.
Proof.
  revert n. induction s as [|a s IH]; intros [|n]; simpl; try (by eexists).
  destruct (IH n) as [u Hu]. exists u. rewrite str_app_cons. by rewrite <- Hu.
Qed.

Lemma str_take_length n s : String.length (str_take n s) = (n `min` String.length s)%nat.
Proof.
  revert n. induction s as [|a s IH]; intros [|n]; simpl; try done. by rewrite IH.
Qed.

Lemma str_take_nonempty n s : (0 < n)%nat → s ≠ "" → str_take n s ≠ "".
Proof. intros Hn Hs. destruct n, s; simpl; [lia.. | done | done]. Qed.
End Take.

#[export] Hint Rewrite str_app_nil_r str_app_length : cxx.
#[export] Hint Rewrite <- str_app_assoc : cxx.
#[export] Hint Resolve str_prefix_app str_prefix_app_r str_infix_here : cxx.

(** ** Division by ten

    The digit loop of the integer formatter divides by ten until the quotient
    is zero; these are the facts on [/] and [mod] it needs. *)

Section Div10.
Implicit Types n : Z.

Lemma div10_lt n : 0 < n → n / 10 < n.
Proof. intros. apply Z.div_lt; lia. Qed.

Lemma div10_nonneg n : 0 ≤ n → 0 ≤ n / 10.
Proof. intros. apply Z.div_pos; lia. Qed.

Lemma mod10_range n : 0 ≤ n mod 10 < 10.
Proof. apply Z.mod_pos_bound. lia. Qed.

Lemma div10_mod10 n : n = 10 * (n / 10) + n mod 10.
Proof. apply Z.div_mod. lia. Qed.

Lemma div10_zero_iff n : 0 ≤ n → n / 10 = 0 ↔ n < 10.
Proof.
  intros. split; intros.
  - pose proof (div10_mod10 n). pose proof (mod10_range n). lia.
  - apply Z.div_small. lia.
Qed.

Lemma div10_pow n (k : nat) : 0 ≤ n < 10 ^ Z.of_nat (S k) → 0 ≤ n / 10 < 10 ^ Z.of_nat k.
Proof.
  rewrite Nat2Z.inj_succ, Z.pow_succ_r by lia. intros [? ?]. split.
  - by apply div10_nonneg.
  - apply Z.div_lt_upper_bound; lia.
Qed.
End Div10.

(** ** Tactics *)

(** [zdiv10 n] brings the decomposition of [n] by ten into the context, so
    that [lia] can use it. *)
Ltac zdiv10 n :=
  pose proof (div10_mod10 n); pose proof (mod10_range n).

(** [split_all] splits a conjunction of any length. *)
Ltac split_all := repeat match goal with |- _ ∧ _ => split end.

(** [case_inner] makes the case analysis that the goal makes first: it
    destructs the scrutinee of a [match] of the goal that is not itself a
    [match], and remembers the equation.  On nested case analyses this
    follows one path at a time, where [case_match] may take the outer
    scrutinee first and repeat the inner analysis in every branch. *)
Ltac destruct_inner t :=
  lazymatch t with
  | context [match ?y with _ => _ end] => destruct_inner y
  | _ => destruct t eqn:?
  end.

Ltac case_inner :=
  match goal with |- context [match ?x with _ => _ end] => destruct_inner x end.
