(* ===== verification/Result.v ===== *)
(** * Results, errors and the monad of statements

    A C++ statement either completes, changing the state of the function
    (its local variables and the stream), or has no defined outcome.  [error]
    names the ways in which the constructs that [main] uses can go wrong,
    [res] is the outcome of an expression, and [exec S A] is a statement or
    expression that runs in a state of type [S].  [hoare] is the
    total-correctness triple, [preserves] and [yields] state invariants,
    [respects] states a relation between the state before and after, and
    [exec_sim] relates two computations over different types of state. *)

From S2P Require Import Prelude.

(** ** Errors *)

(** The first four are violations that a compiler diagnoses (the program is
    ill-formed); the last two are undefined behaviour at run time. *)
Inductive error : Type :=
| Undeclared (x : string)
| Redeclared (x : string)
| TypeMismatch (x : string)
| ConstWrite (x : string)
| UninitRead (x : string)
| SignedOverflow.

#[export] Instance error_eq_dec : EqDecision error.
Proof. solve_decision. Defined.

Inductive error_class : Type := IllFormed | UndefinedBehaviour.

Definition classify (e : error) : error_class :=
  match e with
  | Undeclared _ | Redeclared _ | TypeMismatch _ | ConstWrite _ => IllFormed
  | UninitRead _ | SignedOverflow => UndefinedBehaviour
  end.

(** ** Results *)

Inductive res (A : Type) : Type :=
| OK (a : A)
| Err (e : error).
Arguments OK {A} a.
Arguments Err {A} e.

#[export] Instance res_ret : MRet res := @OK.
#[export] Instance res_bind : MBind res := λ A B f r,
  match r with OK a => f a | Err e => Err e end.
#[export] Instance res_fmap : FMap res := λ A B f r,
  match r with OK a => OK (f a) | Err e => Err e end.

Definition is_ok {A} (r : res A) : bool :=
  match r with OK _ => true | Err _ => false end.

Definition res_to_option {A} (r : res A) : option A :=
  match r with OK a => Some a | Err _ => None end.

(** ** The state-and-error monad *)

Definition exec (S A : Type) : Type := S → res (A * S).

#[export] Instance exec_ret {S} : MRet (exec S) := λ A a s, OK (a, s).
#[export] Instance exec_bind {S} : MBind (exec S) := λ A B f c s,
  match c s with OK (a, s') => f a s' | Err e => Err e end.

Definition get {S} : exec S S := λ s, OK (s, s).
Definition put {S} (s : S) : exec S unit := λ _, OK (tt, s).
Definition modify {S} (f : S → S) : exec S unit := λ s, OK (tt, f s).
Definition raise {S A} (e : error) : exec S A := λ _, Err e.
Definition lift {S A} (r : res A) : exec S A := λ s,
  match r with OK a => OK (a, s) | Err e => Err e end.

(** [seq cs]: the statements [cs] one after the other. *)
Fixpoint seq {S} (cs : list (exec S unit)) : exec S unit :=
  match cs with
  | [] => mret tt
  | c :: cs => c ;; seq cs
  end.

(** ** Equivalence of computations

    Two computations are equivalent when they agree on every state.  This is
    coarser than Leibniz equality (no function extensionality is assumed), so
    it comes with its [Equivalence] and [Proper] instances. *)

Definition exec_eq {S A} (c d : exec S A) : Prop := ∀ s, c s = d s.
Infix "≈" := exec_eq (at level 70, no associativity) : cxx_scope.
#[global] Open Scope cxx_scope.

Section ExecLaws.
Context {S : Type}.

#[export] Instance exec_eq_equiv {A} : Equivalence (@exec_eq S A).
Proof.
  split; [by intros c s | by intros c d H s; rewrite H |].
  intros c d e H1 H2 s. by rewrite H1.
Qed.

#[export] Instance exec_bind_proper {A B} :
  Proper (pointwise_relation A exec_eq ==> exec_eq ==> exec_eq)
    (mbind (M := exec S) (A := A) (B := B)).
Proof.
  intros f g Hfg c d Hcd s. unfold mbind, exec_bind. rewrite Hcd.
  destruct (d s) as [[a s']|e]; [apply Hfg | done].
Qed.

Lemma exec_bind_ret_l {A B} (a : A) (f : A → exec S B) : (mret a ≫= f) ≈ f a.
Proof. by intros s. Qed.

Lemma exec_bind_ret_r {A} (c : exec S A) : (c ≫= mret) ≈ c.
Proof. intros s. unfold mbind, exec_bind. by destruct (c s) as [[a s']|e]. Qed.

Lemma exec_bind_assoc {A B C} (c : exec S A) (f : A → exec S B) (g : B → exec S C) :
  ((c ≫= f) ≫= g) ≈ (c ≫= λ a, f a ≫= g).
Proof. intros s. unfold mbind, exec_bind. by destruct (c s) as [[a s']|e]. Qed.

(** Running a bind: the two outcomes of the first computation. *)
Lemma bind_ok {A B} (c : exec S A) (f : A → exec S B) s a s' :
  c s = OK (a, s') → (c ≫= f) s = f a s'.
Proof. unfold mbind, exec_bind. by intros ->. Qed.

Lemma bind_err {A B} (c : exec S A) (f : A → exec S B) s e :
  c s = Err e → (c ≫= f) s = Err e.
Proof. unfold mbind, exec_bind. by intros ->. Qed.

Lemma bind_ok_inv {A B} (c : exec S A) (f : A → exec S B) s b s'' :
  (c ≫= f) s = OK (b, s'') → ∃ a s', c s = OK (a, s') ∧ f a s' = OK (b, s'').
Proof.
  unfold mbind, exec_bind. destruct (c s) as [[a s']|e]; [eauto | done].
Qed.

Lemma lift_ok {A} (r : res A) a (s : S) : r = OK a → lift r s = OK (a, s).
Proof. by intros ->. Qed.

Lemma lift_err {A} (r : res A) e (s : S) : r = Err e → lift r s = Err e.
Proof. by intros ->. Qed.

Lemma seq_app (cs ds : list (exec S unit)) : seq (cs ++ ds) ≈ (seq cs ;; seq ds).
Proof.
  induction cs as [|c cs IH]; intros s; simpl.
  - done.
  - unfold mbind, exec_bind. destruct (c s) as [[[] s']|e]; [apply IH | done].
Qed.

(** A sequence that completes has completed each of its prefixes. *)
Lemma seq_split (cs ds : list (exec S unit)) s u s'' :
  seq (cs ++ ds) s = OK (u, s'') →
  ∃ s', seq cs s = OK (tt, s') ∧ seq ds s' = OK (u, s'').
Proof.
  rewrite (seq_app cs ds s). intros ([] & s' & Hcs & Hds)%bind_ok_inv. eauto.
Qed.

Lemma seq_take_drop (k : nat) (cs : list (exec S unit)) s u s'' :
  seq cs s = OK (u, s'') →
  ∃ s', seq (take k cs) s = OK (tt, s') ∧ seq (drop k cs) s' = OK (u, s'').
Proof. rewrite <- (take_drop k cs) at 1. apply seq_split. Qed.
End ExecLaws.

(** ** Hoare triples

    [hoare P c Q]: from every state that satisfies [P], [c] completes without
    error, in a state and with a value that satisfy [Q].  The triple is one
    of total correctness: it asserts the absence of errors. *)

Definition hoare {S A} (P : S → Prop) (c : exec S A) (Q : A → S → Prop) : Prop :=
  ∀ s, P s → ∃ a s', c s = OK (a, s') ∧ Q a s'.

(** [preserves I c]: a completed run of [c] keeps the invariant [I]. *)
Definition preserves {S A} (I : S → Prop) (c : exec S A) : Prop :=
  ∀ s a s', I s → c s = OK (a, s') → I s'.

Section HoareRules.
Context {S : Type}.
Implicit Types P : S → Prop.

Lemma hoare_ret {A} P (a : A) : hoare P (mret a) (λ b s, b = a ∧ P s).
Proof. intros s HP. by exists a, s. Qed.

Lemma hoare_bind {A B} P (c : exec S A) (f : A → exec S B) Q R :
  hoare P c Q → (∀ a, hoare (Q a) (f a) R) → hoare P (c ≫= f) R.
Proof.
  intros Hc Hf s HP. destruct (Hc s HP) as (a & s' & Hrun & HQ).
  destruct (Hf a s' HQ) as (b & s'' & Hrun' & HR).
  exists b, s''. by rewrite (bind_ok _ _ _ _ _ Hrun).
Qed.

Lemma hoare_consequence {A} P P' (c : exec S A) (Q Q' : A → S → Prop) :
  hoare P c Q → (∀ s, P' s → P s) → (∀ a s, Q a s → Q' a s) → hoare P' c Q'.
Proof.
  intros Hc HP HQ s HP'. destruct (Hc s (HP s HP')) as (a & s' & ? & ?). eauto.
Qed.

Lemma hoare_conj {A} P (c : exec S A) (Q1 Q2 : A → S → Prop) :
  hoare P c Q1 → hoare P c Q2 → hoare P c (λ a s, Q1 a s ∧ Q2 a s).
Proof.
  intros H1 H2 s HP. destruct (H1 s HP) as (a & s' & Hrun & ?).
  destruct (H2 s HP) as (a' & s'' & Hrun' & ?).
  rewrite Hrun in Hrun'. injection Hrun' as <- <-. eauto.
Qed.

Lemma hoare_preserves {A} P (I : S → Prop) (c : exec S A) (Q : A → S → Prop) :
  hoare P c Q → preserves I c → hoare (λ s, P s ∧ I s) c (λ a s, Q a s ∧ I s).
Proof.
  intros Hc HI s [HP Hs]. destruct (Hc s HP) as (a & s' & Hrun & ?). eauto 10.
Qed.

Lemma preserves_ret {A} (I : S → Prop) (a : A) : preserves I (mret a).
Proof. intros s b s' HI [= <- <-]. done. Qed.

Lemma preserves_bind {A B} (I : S → Prop) (c : exec S A) (f : A → exec S B) :
  preserves I c → (∀ a, preserves I (f a)) → preserves I (c ≫= f).
Proof.
  intros Hc Hf s b s'' HI (a & s' & Hrun & Hrun')%bind_ok_inv.
  eapply Hf; [eapply Hc |]; eassumption.
Qed.

Lemma preserves_lift {A} (I : S → Prop) (r : res A) : preserves I (lift r).
Proof. intros s a s' HI. unfold lift. destruct r; [by intros [= <- <-] | done]. Qed.

Lemma preserves_seq (I : S → Prop) (cs : list (exec S unit)) :
  Forall (preserves I) cs → preserves I (seq cs).
Proof.
  induction 1; simpl; [apply preserves_ret | by apply preserves_bind].
Qed.
End HoareRules.

#[export] Hint Resolve preserves_ret preserves_bind preserves_lift : cxx.

(** ** Invariants with a fact on the value, and transition invariants *)

(** [yields I c Q]: a completed run of [c] from a state in [I] keeps [I] and
    returns a value in [Q]. *)
Definition yields {S A} (I : S → Prop) (c : exec S A) (Q : A → Prop) : Prop :=
  ∀ s a s', I s → c s = OK (a, s') → I s' ∧ Q a.

(** [respects R c]: a completed run of [c] relates the state before to the
    state after by [R]. *)
Definition respects {S A} (R : relation S) (c : exec S A) : Prop :=
  ∀ s a s', c s = OK (a, s') → R s s'.

Section Yields.
Context {S : Type}.
Implicit Types (I : S → Prop) (R : relation S).

Lemma yields_preserves {A} I (c : exec S A) Q : yields I c Q → preserves I c.
Proof. intros Hc s a s' HI Hrun. by destruct (Hc s a s' HI Hrun). Qed.

Lemma preserves_yields {A} I (c : exec S A) : preserves I c → yields I c (λ _, True).
Proof. intros Hc s a s' HI Hrun. split; [by eapply Hc | done]. Qed.

Lemma yields_ret {A} I (a : A) (Q : A → Prop) : Q a → yields I (mret a) Q.
Proof. intros HQ s b s' HI [= <- <-]. done. Qed.

Lemma yields_lift {A} I (r : res A) (Q : A → Prop) :
  (∀ a, r = OK a → Q a) → yields I (lift r) Q.
Proof.
  intros HQ s a s' HI. unfold lift. destruct r; [|done]. intros [= <- <-]. auto.
Qed.

Lemma yields_bind {A B} I (c : exec S A) (f : A → exec S B) Q Q' :
  yields I c Q → (∀ a, Q a → yields I (f a) Q') → yields I (c ≫= f) Q'.
Proof.
  intros Hc Hf s b s'' HI (a & s' & Hrun & Hrun')%bind_ok_inv.
  destruct (Hc s a s' HI Hrun) as [HI' HQ]. by eapply Hf.
Qed.

Lemma yields_weaken {A} I (c : exec S A) (Q Q' : A → Prop) :
  yields I c Q → (∀ a, Q a → Q' a) → yields I c Q'.
Proof. intros Hc HQ s a s' HI Hrun. destruct (Hc s a s' HI Hrun). auto. Qed.

Lemma respects_ret {A} R `{!Reflexive R} (a : A) : respects R (mret a).
Proof. intros s b s' [= <- <-]. done. Qed.

Lemma respects_lift {A} R `{!Reflexive R} (r : res A) : respects R (lift r).
Proof. intros s a s'. unfold lift. destruct r; [by intros [= <- <-] | done]. Qed.

Lemma respects_bind {A B} R `{!Transitive R} (c : exec S A) (f : A → exec S B) :
  respects R c → (∀ a, respects R (f a)) → respects R (c ≫= f).
Proof.
  intros Hc Hf s b s'' (a & s' & Hrun & Hrun')%bind_ok_inv.
  etrans; [by eapply Hc | by eapply Hf].
Qed.

Lemma respects_seq R `{!PreOrder R} (cs : list (exec S unit)) :
  Forall (respects R) cs → respects R (seq cs).
Proof.
  induction 1 as [|c cs Hc _ IH]; simpl.
  - apply respects_ret, _.
  - apply respects_bind; [apply _ | exact Hc | intros _; exact IH].
Qed.
End Yields.

(** ** Simulation

    [exec_sim R c1 c2]: from states related by [R], the computations [c1]
    and [c2] (over two types of state) either both fail, with the same
    error, or both complete, with the same value and in related states. *)

Definition res_sim {A S1 S2} (R : S1 → S2 → Prop)
    (r1 : res (A * S1)) (r2 : res (A * S2)) : Prop :=
  match r1, r2 with
  | OK (a1, s1), OK (a2, s2) => a1 = a2 ∧ R s1 s2
  | Err e1, Err e2 => e1 = e2
  | _, _ => False
  end.

Definition exec_sim {A S1 S2} (R : S1 → S2 → Prop)
    (c1 : exec S1 A) (c2 : exec S2 A) : Prop :=
  ∀ s1 s2, R s1 s2 → res_sim R (c1 s1) (c2 s2).

Section Simulation.
Context {S1 S2 : Type} (R : S1 → S2 → Prop).

Lemma res_sim_ok {A} (r1 : res (A * S1)) (r2 : res (A * S2)) a s1 :
  res_sim R r1 r2 → r1 = OK (a, s1) → ∃ s2, r2 = OK (a, s2) ∧ R s1 s2.
Proof.
  intros Hsim ->. destruct r2 as [[a2 s2]|e]; [|done].
  destruct Hsim as [-> HR]. eauto.
Qed.

Lemma res_sim_err {A} (r1 : res (A * S1)) (r2 : res (A * S2)) e :
  res_sim R r1 r2 → r1 = Err e → r2 = Err e.
Proof. intros Hsim ->. destruct r2 as [[a2 s2]|e2]; [done | by rewrite Hsim]. Qed.

Lemma sim_ret {A} (a : A) : exec_sim R (mret a) (mret a).
Proof. by intros s1 s2 HR. Qed.

Lemma sim_lift {A} (r : res A) : exec_sim R (lift r) (lift r).
Proof. intros s1 s2 HR. unfold lift. by destruct r. Qed.

Lemma sim_bind {A B} (c1 : exec S1 A) (c2 : exec S2 A)
    (f1 : A → exec S1 B) (f2 : A → exec S2 B) :
  exec_sim R c1 c2 → (∀ a, exec_sim R (f1 a) (f2 a)) →
  exec_sim R (c1 ≫= f1) (c2 ≫= f2).
Proof.
  intros Hc Hf s1 s2 HR. specialize (Hc s1 s2 HR).
  unfold mbind, exec_bind.
  destruct (c1 s1) as [[a1 s1']|e1], (c2 s2) as [[a2 s2']|e2]; try done.
  destruct Hc as [-> HR']. by apply Hf.
Qed.

Lemma sim_seq (cs1 : list (exec S1 unit)) (cs2 : list (exec S2 unit)) :
  Forall2 (exec_sim R) cs1 cs2 → exec_sim R (seq cs1) (seq cs2).
Proof.
  induction 1 as [|c1 c2 cs1 cs2 Hc _ IH]; simpl; [apply sim_ret|].
  apply sim_bind; [exact Hc | intros _; exact IH].
Qed.
End Simulation.
