(* ===== verification/MachineInt.v ===== *)
(** * The machine type [int]

    Every number that [main] computes with has the type [int].  The language
    fixes neither its width (at least 16 bits; 32 on the usual platforms) nor
    the outcome of an overflow (undefined behaviour).  The width is therefore
    a parameter of the development, the class [IntWidth], and arithmetic is
    checked: [int_add] and [int_mul] return [Err SignedOverflow] when the
    mathematical result is not representable.  [wrap] is what two's
    complement hardware computes; it agrees with the checked operations
    wherever these are defined. *)

From S2P Require Import Prelude Result.

(** ** The width of [int] *)

Class IntWidth : Type := {
  int_width : Z;
  int_width_min : 16 ≤ int_width
}.

(** The platforms: ILP32, LP64 and LLP64 all have a 32-bit [int]; a 16-bit
    [int] is the least a conforming implementation may have, and a 64-bit
    one is what the specification's data model speaks of. *)
Definition int16 : IntWidth := {| int_width := 16; int_width_min := ltac:(lia) |}.
Definition int32 : IntWidth := {| int_width := 32; int_width_min := ltac:(lia) |}.
Definition int64 : IntWidth := {| int_width := 64; int_width_min := ltac:(lia) |}.

Section Int.
Context `{IntWidth}.
Implicit Types a b c z : Z.

Definition int_min : Z := - 2 ^ (int_width - 1).
Definition int_max : Z := 2 ^ (int_width - 1) - 1.

Definition in_range z : Prop := int_min ≤ z ≤ int_max.

#[export] Instance in_range_dec z : Decision (in_range z).
Proof. unfold in_range. apply _. Defined.

(** Reduction modulo [2 ^ int_width] into the signed range. *)
Definition wrap z : Z := (z - int_min) mod 2 ^ int_width + int_min.

(** The value of an arithmetic expression of type [int] whose mathematical
    result is [z]. *)
Definition checked z : res Z :=
  if decide (in_range z) then OK z else Err SignedOverflow.

Definition int_add a b : res Z := checked (a + b).
Definition int_mul a b : res Z := checked (a * b).

(** ** The range *)

Lemma int_width_pos : 0 < int_width - 1.
Proof. pose proof int_width_min. lia. Qed.

Lemma int_pow_split : 2 ^ int_width = 2 * 2 ^ (int_width - 1).
Proof.
  rewrite <- Z.pow_succ_r by (pose proof int_width_pos; lia). f_equal. lia.
Qed.

(** Every [int] has at least the range of a 16-bit one. *)
Lemma int_half_ge : 32768 ≤ 2 ^ (int_width - 1).
Proof.
  change 32768 with (2 ^ 15). apply Z.pow_le_mono_r; [lia|].
  pose proof int_width_min. lia.
Qed.

Lemma int_min_le : int_min ≤ -32768.
Proof. unfold int_min. pose proof int_half_ge. lia. Qed.

Lemma int_max_ge : 32767 ≤ int_max.
Proof. unfold int_max. pose proof int_half_ge. lia. Qed.

Lemma in_range_small z : -32768 ≤ z ≤ 32767 → in_range z.
Proof. unfold in_range. pose proof int_min_le. pose proof int_max_ge. lia. Qed.

Lemma in_range_0 : in_range 0.
Proof. apply in_range_small. lia. Qed.

(** ** [wrap] *)

Lemma wrap_in_range z : in_range (wrap z).
Proof.
  unfold in_range, wrap, int_max.
  pose proof (Z.mod_pos_bound (z - int_min) (2 ^ int_width)) as Hm.
  rewrite int_pow_split in *. unfold int_min in *.
  pose proof int_half_ge. lia.
Qed.

Lemma wrap_id z : in_range z → wrap z = z.
Proof.
  unfold in_range, wrap, int_max. intros Hz.
  rewrite Z.mod_small; [lia|].
  rewrite int_pow_split. unfold int_min in *. lia.
Qed.

Lemma wrap_idemp z : wrap (wrap z) = wrap z.
Proof. apply wrap_id, wrap_in_range. Qed.

Lemma wrap_congruent z : (wrap z - z) mod 2 ^ int_width = 0.
Proof.
  unfold wrap.
  replace ((z - int_min) mod 2 ^ int_width + int_min - z)
    with ((z - int_min) mod 2 ^ int_width - (z - int_min)) by lia.
  rewrite Zminus_mod_idemp_l, Z.sub_diag. apply Z.mod_0_l.
  pose proof int_half_ge. rewrite int_pow_split. lia.
Qed.

(** ** Checked arithmetic *)

Lemma checked_ok z : in_range z → checked z = OK z.
Proof. intros. unfold checked. by rewrite decide_True. Qed.

Lemma checked_err z : ¬ in_range z → checked z = Err SignedOverflow.
Proof. intros. unfold checked. by rewrite decide_False. Qed.

Lemma checked_ok_inv z r : checked z = OK r → in_range z ∧ r = z.
Proof. unfold checked. case_decide; [by intros [= <-] | done]. Qed.

Lemma checked_err_inv z e : checked z = Err e → ¬ in_range z ∧ e = SignedOverflow.
Proof. unfold checked. case_decide; [done | by intros [= <-]]. Qed.

Lemma int_add_comm a b : int_add a b = int_add b a.
Proof. unfold int_add. by rewrite Z.add_comm. Qed.

Lemma int_mul_comm a b : int_mul a b = int_mul b a.
Proof. unfold int_mul. by rewrite Z.mul_comm. Qed.

Lemma int_add_0_r a : in_range a → int_add a 0 = OK a.
Proof. intros. unfold int_add. rewrite Z.add_0_r. by apply checked_ok. Qed.

Lemma int_mul_1_r a : in_range a → int_mul a 1 = OK a.
Proof. intros. unfold int_mul. rewrite Z.mul_1_r. by apply checked_ok. Qed.

(** A product of two factors of magnitude at most 181 fits every [int]. *)
Lemma in_range_mul_small a b :
  -181 ≤ a ≤ 181 → -181 ≤ b ≤ 181 → in_range (a * b).
Proof. intros. apply in_range_small. nia. Qed.

Lemma in_range_add_small a b :
  -16384 ≤ a ≤ 16383 → -16384 ≤ b ≤ 16383 → in_range (a + b).
Proof. intros. apply in_range_small. lia. Qed.

(** ** Overflow and the two's complement result *)

Lemma int_pow_pos : 0 < 2 ^ int_width.
Proof. rewrite int_pow_split. pose proof int_half_ge. lia. Qed.

Lemma int_max_min : int_max = - int_min - 1.
Proof. unfold int_max, int_min. lia. Qed.

Lemma int_pow_min : 2 ^ int_width = - 2 * int_min.
Proof. rewrite int_pow_split. unfold int_min. lia. Qed.

(** One period above the range, [wrap] subtracts [2 ^ int_width]. *)
Lemma wrap_above z : int_max < z ≤ int_max + 2 ^ int_width → wrap z = z - 2 ^ int_width.
Proof.
  intros Hz. unfold wrap.
  replace (z - int_min) with ((z - 2 ^ int_width - int_min) + 1 * 2 ^ int_width) by lia.
  rewrite Z_mod_plus_full, Z.mod_small; [lia|].
  rewrite int_max_min in Hz. rewrite int_pow_min in *. lia.
Qed.

(** One period below the range, [wrap] adds [2 ^ int_width]. *)
Lemma wrap_below z : int_min - 2 ^ int_width ≤ z < int_min → wrap z = z + 2 ^ int_width.
Proof.
  intros Hz. unfold wrap.
  replace (z - int_min) with ((z + 2 ^ int_width - int_min) + (-1) * 2 ^ int_width) by lia.
  rewrite Z_mod_plus_full, Z.mod_small; [lia|].
  rewrite int_pow_min in *. lia.
Qed.

Lemma wrap_neq z : ¬ in_range z → wrap z ≠ z.
Proof. intros Hz Heq. apply Hz. rewrite <- Heq. apply wrap_in_range. Qed.

Lemma in_range_min : in_range int_min.
Proof. unfold in_range. rewrite int_max_min. pose proof int_min_le. lia. Qed.

Lemma in_range_max : in_range int_max.
Proof. unfold in_range. rewrite int_max_min. pose proof int_min_le. lia. Qed.

(** C33: where [+] and [*] on [int] are defined, their value is the
    mathematical one and coincides with the two's complement result that
    the hardware computes; where they are undefined (the only error is
    signed overflow), the two's complement result differs from the
    mathematical one. *)
Theorem int_arith_wrap a b :
  (∀ r, int_add a b = OK r → r = a + b ∧ wrap (a + b) = r) ∧
  (∀ e, int_add a b = Err e → e = SignedOverflow ∧ wrap (a + b) ≠ a + b) ∧
  (∀ r, int_mul a b = OK r → r = a * b ∧ wrap (a * b) = r) ∧
  (∀ e, int_mul a b = Err e → e = SignedOverflow ∧ wrap (a * b) ≠ a * b).
Proof.
  unfold int_add, int_mul. split_all.
  - intros r [Hr ->]%checked_ok_inv. by rewrite wrap_id.
  - intros e [Hr ->]%checked_err_inv. by split; [|apply wrap_neq].
  - intros r [Hr ->]%checked_ok_inv. by rewrite wrap_id.
  - intros e [Hr ->]%checked_err_inv. by split; [|apply wrap_neq].
Qed.

(** C34: a sum of two [int]s that overflows wraps around by exactly one
    period: the hardware result of a positive overflow is negative
    ([a + b - 2 ^ int_width]), that of a negative overflow is not. *)
Theorem int_add_overflow_wraps a b :
  in_range a → in_range b → int_add a b = Err SignedOverflow →
  (0 < a ∧ 0 < b ∧ wrap (a + b) = a + b - 2 ^ int_width ∧ wrap (a + b) < 0) ∨
  (a < 0 ∧ b < 0 ∧ wrap (a + b) = a + b + 2 ^ int_width ∧ 0 ≤ wrap (a + b)).
Proof.
  unfold int_add, in_range. intros Ha Hb [Hr _]%checked_err_inv. unfold in_range in Hr.
  rewrite int_max_min in *. pose proof int_min_le. pose proof int_pow_min.
  destruct (decide (- int_min - 1 < a + b)).
  - left. rewrite wrap_above by (rewrite int_max_min; lia). lia.
  - right. rewrite wrap_below by lia. lia.
Qed.

(** The edges of the range, for every width.  [int_max + 1] and
    [int_min - 1] overflow; so does [int_min * -1], while [int_max * -1]
    does not (the range is not symmetric); and [+] is not associative:
    [(int_max + 1) + -1] is undefined although [int_max + (1 + -1)] is
    [int_max]. *)
Theorem int_edge_cases :
  int_add int_max 1 = Err SignedOverflow ∧
  int_add int_min (-1) = Err SignedOverflow ∧
  int_mul int_min (-1) = Err SignedOverflow ∧
  int_mul int_max (-1) = OK (int_min + 1) ∧
  (xy ← int_add int_max 1; int_add xy (-1)) = Err SignedOverflow ∧
  (yz ← int_add 1 (-1); int_add int_max yz) = OK int_max.
Proof.
  pose proof int_min_le. pose proof in_range_max as Hmax.
  assert (int_add int_max 1 = Err SignedOverflow) as Hadd
    by (apply checked_err; unfold in_range; lia).
  split_all; [done | ..].
  - apply checked_err. unfold in_range. lia.
  - apply checked_err. unfold in_range. rewrite int_max_min. lia.
  - unfold int_mul. rewrite int_max_min.
    replace ((- int_min - 1) * -1) with (int_min + 1) by lia.
    apply checked_ok. unfold in_range. rewrite int_max_min. lia.
  - by rewrite Hadd.
  - change (int_add 1 (-1)) with (checked 0).
    rewrite (checked_ok 0) by apply in_range_0. simpl.
    unfold int_add. rewrite Z.add_0_r. by apply checked_ok.
Qed.
End Int.

(** The overflow of a sum at 32 bits. *)
Lemma int_add_overflow_wraps_witness :
  (0 < 2147483647 ∧ 0 < 1 ∧
   wrap (H := int32) (2147483647 + 1) = 2147483647 + 1 - 2 ^ int_width (IntWidth := int32) ∧
   wrap (H := int32) (2147483647 + 1) < 0) ∨
  (2147483647 < 0 ∧ 1 < 0 ∧
   wrap (H := int32) (2147483647 + 1) = 2147483647 + 1 + 2 ^ int_width (IntWidth := int32) ∧
   0 ≤ wrap (H := int32) (2147483647 + 1)).
Proof.
  exact (int_add_overflow_wraps (H := int32) 2147483647 1
           ltac:(by vm_compute) ltac:(by vm_compute) eq_refl).
Defined.

#[export] Hint Resolve in_range_small in_range_0 wrap_in_range : cxx.
#[export] Hint Rewrite @wrap_idemp : cxx.
