(* ===== verification/Decimal.v ===== *)
(** * Integers as decimal text

    [operator<<] for [int] formats its argument in base ten (the stream's
    default).  The formatter fills a character buffer from its end:
    [do { *--p = '0' + v % 10; v /= 10; } while (v != 0);] and puts a minus
    sign in front of a negative value's magnitude.  [int_to_char] is that
    loop, its fuel the capacity of the buffer (one digit is always written);
    [render_int] adds the sign.  [parse_int] reads such a text back, and the
    round trip shows that the text determines the number. *)

From S2P Require Import Prelude.

(** ** Digits *)

Definition digit_char (d : Z) : ascii := ascii_of_N (48 + Z.to_N d).

Definition digit_of (c : ascii) : option Z :=
  let n := Z.of_N (N_of_ascii c) in
  if decide (48 ≤ n ≤ 57) then Some (n - 48) else None.

Definition is_digit (c : ascii) : Prop := is_Some (digit_of c).

(** ** Formatting *)

Fixpoint int_to_char (fuel : nat) (v : Z) (buf : string) : string :=
  let buf' := String (digit_char (v mod 10)) buf in
  match fuel with
  | O => buf'
  | S fuel' => if decide (v / 10 = 0) then buf' else int_to_char fuel' (v / 10) buf'
  end.

Definition render_unsigned (cap : nat) (v : Z) : string := int_to_char cap v "".

Definition render_int (cap : nat) (z : Z) : string :=
  if decide (z < 0) then String "-" (render_unsigned cap (- z))
  else render_unsigned cap z.

(** ** Parsing *)

Fixpoint parse_go (s : string) (acc : Z) : option Z :=
  match s with
  | EmptyString => Some acc
  | String c s' => d ← digit_of c; parse_go s' (acc * 10 + d)
  end.

Definition parse_unsigned (s : string) : option Z :=
  match s with
  | EmptyString => None
  | _ => parse_go s 0
  end.

Definition parse_int (s : string) : option Z :=
  match s with
  | String c s' =>
      if decide (c = "-"%char) then Z.opp <$> parse_unsigned s' else parse_unsigned s
  | EmptyString => None
  end.

(** [all_digits s]: every character of [s] is a decimal digit. *)
Fixpoint all_digits (s : string) : Prop :=
  match s with
  | EmptyString => True
  | String c s' => is_digit c ∧ all_digits s'
  end.

(** ** Digits are characters ['0'] to ['9'] *)

Lemma digit_cases (d : Z) :
  0 ≤ d < 10 → d = 0 ∨ d = 1 ∨ d = 2 ∨ d = 3 ∨ d = 4 ∨ d = 5 ∨ d = 6 ∨ d = 7 ∨ d = 8 ∨ d = 9.
Proof. lia. Qed.

(** [by_digit_cases]: close a goal on a digit [d] by trying its ten values. *)
Ltac by_digit_cases :=
  let H := fresh in
  intros H; apply digit_cases in H; destruct_or!; subst; done.

Lemma digit_of_digit_char (d : Z) : 0 ≤ d < 10 → digit_of (digit_char d) = Some d.
Proof. by_digit_cases. Qed.

Lemma digit_char_is_digit (d : Z) : 0 ≤ d < 10 → is_digit (digit_char d).
Proof. intros. unfold is_digit. rewrite digit_of_digit_char by done. eauto. Qed.

Lemma digit_char_not_minus (d : Z) : 0 ≤ d < 10 → digit_char d ≠ "-"%char.
Proof. by_digit_cases. Qed.

Lemma digit_char_inj (d e : Z) :
  0 ≤ d < 10 → 0 ≤ e < 10 → digit_char d = digit_char e → d = e.
Proof.
  intros Hd He Heq. apply (f_equal digit_of) in Heq.
  rewrite !digit_of_digit_char in Heq by done. congruence.
Qed.

Lemma digit_of_range (c : ascii) (d : Z) : digit_of c = Some d → 0 ≤ d < 10.
Proof. unfold digit_of. case_decide; [intros [= <-]; lia | done]. Qed.

#[export] Hint Resolve mod10_range digit_char_is_digit digit_char_not_minus : cxx.

(** ** The digit loop *)

Section Loop.
Implicit Types (fuel : nat) (v acc : Z) (buf : string).

(** One unfolding of the loop. *)
Lemma int_to_char_last fuel v buf :
  v / 10 = 0 → int_to_char fuel v buf = String (digit_char (v mod 10)) buf.
Proof. intros Hv. destruct fuel; simpl; [done | by rewrite decide_True]. Qed.

Lemma int_to_char_step fuel v buf :
  v / 10 ≠ 0 →
  int_to_char (S fuel) v buf =
  int_to_char fuel (v / 10) (String (digit_char (v mod 10)) buf).
Proof. intros Hv. simpl. by rewrite decide_False. Qed.

(** The loop only prepends to the buffer. *)
Lemma int_to_char_app fuel v buf :
  int_to_char fuel v buf = int_to_char fuel v "" +:+ buf.
Proof.
  revert v buf. induction fuel as [|fuel IH]; intros v buf; simpl; [done|].
  case_decide; [done|].
  rewrite (IH _ (String _ buf)), (IH _ (String _ "")).
  by rewrite <- str_app_assoc.
Qed.

(** It writes at least one and at most [fuel + 1] characters. *)
Lemma int_to_char_length fuel v buf :
  (String.length buf < String.length (int_to_char fuel v buf)
                     ≤ S fuel + String.length buf)%nat.
Proof.
  revert v buf. induction fuel as [|fuel IH]; intros v buf; simpl; [lia|].
  case_decide; simpl; [lia|].
  specialize (IH (v / 10) (String (digit_char (v mod 10)) buf)). simpl in IH. lia.
Qed.

(** The first character of the result is a digit. *)
Lemma int_to_char_head fuel v buf :
  ∃ d t, 0 ≤ d < 10 ∧ int_to_char fuel v buf = String (digit_char d) t.
Proof.
  revert v buf. induction fuel as [|fuel IH]; intros v buf; simpl.
  - eauto with cxx.
  - case_decide; eauto with cxx.
Qed.

Lemma int_to_char_all_digits fuel v buf :
  all_digits buf → all_digits (int_to_char fuel v buf).
Proof.
  revert v buf. induction fuel as [|fuel IH]; intros v buf Hbuf; simpl.
  - auto with cxx.
  - case_decide; [simpl; auto with cxx|]. apply IH. simpl. auto with cxx.
Qed.

(** With enough fuel, reading the result back continues from the value:
    the loop wrote [k] digits whose value is [v]. *)
Lemma parse_go_int_to_char fuel v buf :
  0 ≤ v < 10 ^ Z.of_nat (S fuel) →
  ∃ k : nat, (k ≤ S fuel)%nat ∧
    ∀ acc, parse_go (int_to_char fuel v buf) acc = parse_go buf (acc * 10 ^ Z.of_nat k + v).
Proof.
  revert v buf. induction fuel as [|fuel IH]; intros v buf Hv.
  - exists 1%nat. split; [lia|]. intros acc. simpl.
    rewrite digit_of_digit_char by auto with cxx. simpl.
    rewrite Z.mod_small by (simpl in Hv; lia). f_equal; lia.
  - destruct (decide (v / 10 = 0)) as [Hz|Hnz].
    + exists 1%nat. split; [lia|]. intros acc. rewrite int_to_char_last by done.
      simpl. rewrite digit_of_digit_char by auto with cxx. simpl.
      apply div10_zero_iff in Hz; [|lia]. rewrite Z.mod_small by lia. f_equal; lia.
    + destruct (IH (v / 10) (String (digit_char (v mod 10)) buf)) as (k & Hk & Hparse).
      { apply div10_pow. done. }
      exists (S k). split; [lia|]. intros acc.
      rewrite int_to_char_step, Hparse by done. simpl.
      rewrite digit_of_digit_char by auto with cxx. simpl; f_equal.
      rewrite Nat2Z.inj_succ, Z.pow_succ_r by lia. zdiv10 v; lia.
Qed.

(** More fuel than needed changes nothing. *)
Lemma int_to_char_fuel fuel fuel' v buf :
  0 ≤ v < 10 ^ Z.of_nat (S fuel) → (fuel ≤ fuel')%nat →
  int_to_char fuel' v buf = int_to_char fuel v buf.
Proof.
  revert fuel' v buf. induction fuel as [|fuel IH]; intros fuel' v buf Hv Hle.
  - rewrite !int_to_char_last; [done | |]; apply div10_zero_iff; simpl in Hv; lia.
  - destruct fuel' as [|fuel']; [lia|]. simpl. case_decide; [done|].
    apply IH; [by apply div10_pow | lia].
Qed.
End Loop.

(** ** Round trip *)

Lemma parse_unsigned_cons (c : ascii) (s : string) :
  parse_unsigned (String c s) = parse_go (String c s) 0.
Proof. done. Qed.

Lemma parse_int_minus (s : string) :
  parse_int (String "-" s) = Z.opp <$> parse_unsigned s.
Proof. done. Qed.

Lemma parse_int_digit (c : ascii) (s : string) :
  c ≠ "-"%char → parse_int (String c s) = parse_unsigned (String c s).
Proof. intros. unfold parse_int. by rewrite decide_False. Qed.

Lemma parse_render_unsigned (cap : nat) (v : Z) :
  0 ≤ v < 10 ^ Z.of_nat (S cap) → parse_unsigned (render_unsigned cap v) = Some v.
Proof.
  intros Hv. unfold render_unsigned.
  destruct (int_to_char_head cap v "") as (d & t & _ & Heq).
  destruct (parse_go_int_to_char cap v "" Hv) as (k & _ & Hparse).
  rewrite Heq, parse_unsigned_cons, <- Heq, Hparse. simpl; f_equal; lia.
Qed.

Lemma parse_render_int (cap : nat) (z : Z) :
  - 10 ^ Z.of_nat (S cap) < z < 10 ^ Z.of_nat (S cap) →
  parse_int (render_int cap z) = Some z.
Proof.
  intros Hz. unfold render_int. case_decide as Hneg.
  - rewrite parse_int_minus, parse_render_unsigned by lia. simpl; f_equal; lia.
  - assert (render_unsigned cap z = int_to_char cap z "") as Hr by done.
    destruct (int_to_char_head cap z "") as (d & t & Hd & Heq).
    rewrite Hr, Heq, parse_int_digit by auto with cxx.
    rewrite <- Heq, <- Hr. apply parse_render_unsigned. lia.
Qed.

Lemma render_int_inj (cap : nat) (y z : Z) :
  - 10 ^ Z.of_nat (S cap) < y < 10 ^ Z.of_nat (S cap) →
  - 10 ^ Z.of_nat (S cap) < z < 10 ^ Z.of_nat (S cap) →
  render_int cap y = render_int cap z → y = z.
Proof.
  intros Hy Hz Heq. apply (f_equal parse_int) in Heq.
  rewrite !parse_render_int in Heq by done. congruence.
Qed.

(** A larger buffer than needed gives the same text. *)
Lemma render_int_fuel (cap cap' : nat) (z : Z) :
  - 10 ^ Z.of_nat (S cap) < z < 10 ^ Z.of_nat (S cap) → (cap ≤ cap')%nat →
  render_int cap' z = render_int cap z.
Proof.
  intros Hz Hle. unfold render_int, render_unsigned.
  case_decide; [f_equal|]; apply int_to_char_fuel; lia.
Qed.

Lemma render_int_length (cap : nat) (z : Z) :
  (1 ≤ String.length (render_int cap z) ≤ cap + 2)%nat.
Proof.
  unfold render_int, render_unsigned. case_decide; simpl.
  - pose proof (int_to_char_length cap (- z) ""). simpl in *. lia.
  - pose proof (int_to_char_length cap z ""). simpl in *. lia.
Qed.

Lemma render_unsigned_all_digits (cap : nat) (v : Z) :
  all_digits (render_unsigned cap v).
Proof. by apply int_to_char_all_digits. Qed.
