(* ===== verification/DecimalRef.v ===== *)
(** * The integer formatter against a reference

    The Standard Library has its own decimal rendering of an integer:
    [Z.to_int] converts a number to a sequence of decimal digits
    ([Decimal.int], built by repeated doubling, with no division) and
    [NilZero.string_of_int] writes the sequence as a string.  It serves as
    the reference definition for [render_int], the digit loop of the
    formatter: for every number within the capacity of the loop the two
    texts are equal.

    The proof goes through the sequence of digits that the loop computes
    ([int_to_uint]): its text is that of the loop, its value is the number
    (by the round trip through [parse_unsigned]), and it has no leading
    zero; the reference computes the only such sequence. *)

From S2P Require Import Prelude Decimal.
From Stdlib Require Import DecimalString DecimalPos DecimalN DecimalZ.
Import Stdlib.Init.Decimal.

(** ** The digits of the loop as a sequence *)

Definition digit_cons (k : Z) (d : uint) : uint :=
  match k with
  | 0 => D0 d | 1 => D1 d | 2 => D2 d | 3 => D3 d | 4 => D4 d
  | 5 => D5 d | 6 => D6 d | 7 => D7 d | 8 => D8 d | _ => D9 d
  end.

(** [int_to_char] on sequences of digits instead of strings. *)
Fixpoint int_to_uint (fuel : nat) (v : Z) (acc : uint) : uint :=
  let acc' := digit_cons (v mod 10) acc in
  match fuel with
  | O => acc'
  | S fuel' => if decide (v / 10 = 0) then acc' else int_to_uint fuel' (v / 10) acc'
  end.

(** The value of a sequence of digits, the most significant first, after
    the digits of [acc]. *)
Fixpoint uint_value (d : uint) (acc : Z) : Z :=
  match d with
  | Nil => acc
  | D0 d => uint_value d (acc * 10 + 0)
  | D1 d => uint_value d (acc * 10 + 1)
  | D2 d => uint_value d (acc * 10 + 2)
  | D3 d => uint_value d (acc * 10 + 3)
  | D4 d => uint_value d (acc * 10 + 4)
  | D5 d => uint_value d (acc * 10 + 5)
  | D6 d => uint_value d (acc * 10 + 6)
  | D7 d => uint_value d (acc * 10 + 7)
  | D8 d => uint_value d (acc * 10 + 8)
  | D9 d => uint_value d (acc * 10 + 9)
  end.

(** The reference rendering. *)
Definition reference_render (z : Z) : string := NilZero.string_of_int (Z.to_int z).

Section Reference.
Implicit Types (fuel cap : nat) (v z acc : Z) (d : uint).

(** ** The loop computes the text of its sequence *)

Lemma string_of_digit_cons (k : Z) d :
  0 ≤ k < 10 →
  NilEmpty.string_of_uint (digit_cons k d) = String (digit_char k) (NilEmpty.string_of_uint d).
Proof. by_digit_cases. Qed.

Lemma int_to_char_uint fuel v d :
  int_to_char fuel v (NilEmpty.string_of_uint d) = NilEmpty.string_of_uint (int_to_uint fuel v d).
Proof.
  revert v d. induction fuel as [|fuel IH]; intros v d; simpl;
    rewrite <- string_of_digit_cons by apply mod10_range; [done|].
  case_decide; [done | apply IH].
Qed.

Lemma render_unsigned_uint cap v :
  render_unsigned cap v = NilEmpty.string_of_uint (int_to_uint cap v Nil).
Proof. apply (int_to_char_uint cap v Nil). Qed.

(** ** The value of a sequence *)

(** Reading the text of a sequence gives its value. *)
Lemma parse_go_string_of_uint d acc :
  parse_go (NilEmpty.string_of_uint d) acc = Some (uint_value d acc).
Proof. revert acc. induction d; intros acc; simpl; [done | apply IHd..]. Qed.

(** The Standard Library's value of a sequence is [uint_value]. *)
Lemma of_lu_revapp_value d (l : uint) :
  Z.of_N (DecimalPos.Unsigned.of_lu (revapp d l)) =
  uint_value d (Z.of_N (DecimalPos.Unsigned.of_lu l)).
Proof.
  revert l. induction d; intros l; simpl; [done|..];
    rewrite IHd; f_equal; simpl DecimalPos.Unsigned.of_lu; lia.
Qed.

Lemma of_uint_value d : Z.of_N (N.of_uint d) = uint_value d 0.
Proof.
  unfold N.of_uint. rewrite DecimalPos.Unsigned.of_uint_alt.
  apply (of_lu_revapp_value d Nil).
Qed.

(** The sequence of the loop has the value of the number. *)
Lemma int_to_uint_value cap v :
  0 ≤ v < 10 ^ Z.of_nat (S cap) → N.of_uint (int_to_uint cap v Nil) = Z.to_N v.
Proof.
  intros Hv. apply N2Z.inj. rewrite of_uint_value, Z2N.id by lia.
  pose proof (parse_render_unsigned cap v Hv) as Hparse.
  rewrite render_unsigned_uint in Hparse.
  destruct (NilEmpty.string_of_uint (int_to_uint cap v Nil)) as [|c s] eqn:Hs.
  - done.
  - rewrite parse_unsigned_cons, <- Hs, parse_go_string_of_uint in Hparse. congruence.
Qed.

(** ** The sequence has no leading zero *)

Lemma unorm_digit_cons (k : Z) d : 1 ≤ k < 10 → unorm (digit_cons k d) = digit_cons k d.
Proof.
  intros Hk. assert (0 ≤ k < 10) as Hk' by lia. revert Hk. apply digit_cases in Hk'.
  destruct_or!; subst; (lia || done).
Qed.

Lemma int_to_uint_head fuel v d :
  0 < v < 10 ^ Z.of_nat (S fuel) →
  ∃ k d', 1 ≤ k < 10 ∧ int_to_uint fuel v d = digit_cons k d'.
Proof.
  revert v d. induction fuel as [|fuel IH]; intros v d Hv.
  - change (10 ^ Z.of_nat 1) with 10 in Hv. exists (v mod 10), d.
    split; [rewrite Z.mod_small by lia; lia | done].
  - cbn [int_to_uint]. case_decide as Hq.
    + apply div10_zero_iff in Hq; [|lia]. exists (v mod 10), d.
      split; [rewrite Z.mod_small by lia; lia | done].
    + apply IH. rewrite Nat2Z.inj_succ, Z.pow_succ_r in Hv by lia.
      zdiv10 v. lia.
Qed.

Lemma int_to_uint_norm cap v :
  0 ≤ v < 10 ^ Z.of_nat (S cap) → unorm (int_to_uint cap v Nil) = int_to_uint cap v Nil.
Proof.
  intros Hv. destruct (decide (v = 0)) as [->|Hnz].
  - by destruct cap.
  - destruct (int_to_uint_head cap v Nil) as (k & d' & Hk & ->); [lia|].
    by apply unorm_digit_cons.
Qed.

Lemma int_to_uint_not_nil fuel v d : int_to_uint fuel v d ≠ Nil.
Proof.
  assert (∀ k d', digit_cons k d' ≠ Nil) as Hcons
    by (intros k d'; unfold digit_cons; by repeat case_match).
  revert v d. induction fuel as [|fuel IH]; intros v d; simpl; [apply Hcons|].
  case_decide; [apply Hcons | apply IH].
Qed.

(** ** The reference computes the sequence of the loop *)

Lemma to_uint_int_to_uint cap v :
  0 ≤ v < 10 ^ Z.of_nat (S cap) → N.to_uint (Z.to_N v) = int_to_uint cap v Nil.
Proof.
  intros Hv. rewrite <- (int_to_uint_value cap v Hv), DecimalN.Unsigned.to_of.
  by apply int_to_uint_norm.
Qed.

Lemma render_unsigned_reference cap v :
  0 ≤ v < 10 ^ Z.of_nat (S cap) →
  render_unsigned cap v = NilZero.string_of_uint (N.to_uint (Z.to_N v)).
Proof.
  intros Hv. rewrite (to_uint_int_to_uint cap v Hv), render_unsigned_uint.
  pose proof (int_to_uint_not_nil cap v Nil). by destruct (int_to_uint cap v Nil).
Qed.

(** The digit loop writes what the reference writes. *)
Lemma render_int_reference cap z :
  - 10 ^ Z.of_nat (S cap) < z < 10 ^ Z.of_nat (S cap) →
  render_int cap z = reference_render z.
Proof.
  intros Hz. unfold render_int, reference_render. case_decide as Hneg.
  - rewrite render_unsigned_reference by lia. by destruct z.
  - rewrite render_unsigned_reference by lia. by destruct z.
Qed.
End Reference.
