(* ===== verification/Double.v ===== *)
(** * The type [double] and its text

    [double] is IEEE 754 binary64, modelled by the Standard Library's
    [spec_float] (sign, 53-bit mantissa, binary exponent).  A decimal literal
    denotes the nearest representable value ([double_lit]).  [operator<<]
    formats a [double] like [printf]'s [%g] with the stream's precision [P]
    (6 unless changed): the value is rounded to [P] significant decimal
    digits with decimal exponent [X]; for [-4 ≤ X < P] it is written in
    fixed notation, otherwise in scientific notation, and in both cases
    trailing zeros of the fraction, and a decimal point left bare, are
    removed.  All arithmetic is exact, on the value as a fraction [n / d]. *)

From Stdlib Require Import Floats.SpecFloat.
From S2P Require Import Prelude Decimal.

Abbreviation double := spec_float.

#[export] Instance double_eq_dec : EqDecision double.
Proof. solve_decision. Defined.

Definition double_prec : Z := 53.
Definition double_emax : Z := 1024.

(** The literal [m * 10 ^ -scale], for [m < 2 ^ 53] and [scale ≤ 22] (both
    operands of the division are then exact, so its correctly rounded
    quotient is the value nearest to the literal). *)
Definition double_lit (m : positive) (scale : nat) : double :=
  SFdiv double_prec double_emax
    (S754_finite false m 0) (S754_finite false (Z.to_pos (10 ^ Z.of_nat scale)) 0).

(** ** Exact value *)

(** The value [m * 2 ^ e] as a fraction of positive integers. *)
Definition frac_of (m : positive) (e : Z) : Z * Z :=
  if decide (0 ≤ e) then (Z.pos m * 2 ^ e, 1) else (Z.pos m, 2 ^ (- e)).

(** [n / d] rounded to the nearest integer, ties to even. *)
Definition round_half_even (n d : Z) : Z :=
  let q := n / d in
  let r := n mod d in
  if decide (2 * r < d) then q
  else if decide (d < 2 * r) then q + 1
  else if Z.even q then q else q + 1.

(** ** The decimal exponent *)

(** For [n / d ≥ 1]: count the factors of ten below the value. *)
Fixpoint log10_up (fuel : nat) (n d x : Z) : Z :=
  match fuel with
  | O => x
  | S fuel' => if decide (10 * d ≤ n) then log10_up fuel' n (10 * d) (x + 1) else x
  end.

(** For [n / d < 1]: count the factors of ten needed to reach one. *)
Fixpoint log10_down (fuel : nat) (n d x : Z) : Z :=
  match fuel with
  | O => x
  | S fuel' => if decide (n < d) then log10_down fuel' (10 * n) d (x - 1) else x
  end.

(** The finite values of binary64 lie between [10 ^ -324] and [10 ^ 309]. *)
Definition exponent_fuel : nat := 400.

(** [decimal_exponent n d] is the [X] with [10 ^ X ≤ n / d < 10 ^ (X + 1)]. *)
Definition decimal_exponent (n d : Z) : Z :=
  if decide (d ≤ n) then log10_up exponent_fuel n d 0
  else log10_down exponent_fuel n d 0.

(** [n / d * 10 ^ k], rounded to an integer. *)
Definition scale_round (n d k : Z) : Z :=
  if decide (0 ≤ k) then round_half_even (n * 10 ^ k) d
  else round_half_even n (d * 10 ^ (- k)).

(** The [P] significant digits [D] (as a number with [10 ^ (P - 1) ≤ D <
    10 ^ P]) and the decimal exponent of the rounded value.  Rounding up to
    [10 ^ P] moves the value into the next decade. *)
Definition sig_digits (P n d : Z) : Z * Z :=
  let X := decimal_exponent n d in
  let D := scale_round n d (P - 1 - X) in
  if decide (D = 10 ^ P) then (10 ^ (P - 1), X + 1) else (D, X).

(** ** Text *)

(** Exactly [w] digits of [v], the least significant last. *)
Fixpoint fixed_digits (w : nat) (v : Z) (acc : string) : string :=
  match w with
  | O => acc
  | S w' => fixed_digits w' (v / 10) (String (digit_char (v mod 10)) acc)
  end.

Fixpoint strip_zeros (s : string) : string :=
  match s with
  | EmptyString => EmptyString
  | String c s' =>
      let t := strip_zeros s' in
      if decide (c = "0"%char ∧ t = EmptyString) then EmptyString else String c t
  end.

(** The integer part, and the fraction when it is not zero. *)
Definition with_fraction (ip fp : string) : string :=
  if decide (fp = EmptyString) then ip else ip +:+ String "." fp.

(** Fixed notation of [D * 10 ^ -fracw]. *)
Definition fmt_fixed (D : Z) (fracw : nat) : string :=
  let p := 10 ^ Z.of_nat fracw in
  with_fraction (render_unsigned exponent_fuel (D / p))
                (strip_zeros (fixed_digits fracw (D mod p) "")).

(** Scientific notation of [D * 10 ^ (X - P + 1)]; the exponent has at least
    two digits. *)
Definition fmt_sci (P D X : Z) : string :=
  let p := 10 ^ (P - 1) in
  let mant := with_fraction (render_unsigned 0 (D / p))
                (strip_zeros (fixed_digits (Z.to_nat (P - 1)) (D mod p) "")) in
  let ex := if decide (Z.abs X < 100) then fixed_digits 2 (Z.abs X) ""
            else render_unsigned exponent_fuel (Z.abs X) in
  mant +:+ String "e" (String (if decide (X < 0) then "-" else "+")%char ex).

Definition sign_text (s : bool) : string := if s then "-" else "".

Definition fmt_general (precision : nat) (f : double) : string :=
  let P := if decide (precision = 0%nat) then 1 else Z.of_nat precision in
  match f with
  | S754_zero s => sign_text s +:+ "0"
  | S754_infinity s => sign_text s +:+ "inf"
  | S754_nan => "nan"
  | S754_finite s m e =>
      let '(n, d) := frac_of m e in
      let '(D, X) := sig_digits P n d in
      sign_text s +:+
      (if decide (-4 ≤ X < P) then fmt_fixed D (Z.to_nat (P - 1 - X))
       else fmt_sci P D X)
  end.

(** ** Properties of the pieces *)

Lemma frac_of_pos (m : positive) (e : Z) : 0 < (frac_of m e).1 ∧ 0 < (frac_of m e).2.
Proof.
  unfold frac_of. case_decide; simpl.
  - split; [|lia]. apply Z.mul_pos_pos; [lia | apply Z.pow_pos_nonneg; lia].
  - split; [lia | apply Z.pow_pos_nonneg; lia].
Qed.

(** Rounding moves a quotient by at most one half. *)
Lemma round_half_even_bound (n d : Z) :
  0 < d → - d ≤ 2 * (d * round_half_even n d - n) ≤ d.
Proof.
  intros Hd. unfold round_half_even.
  pose proof (Z.div_mod n d ltac:(lia)). pose proof (Z.mod_pos_bound n d Hd).
  repeat case_decide; try destruct (Z.even _); lia.
Qed.

(** An integer is left alone. *)
Lemma round_half_even_exact (q d : Z) : 0 < d → round_half_even (q * d) d = q.
Proof.
  intros Hd. unfold round_half_even.
  rewrite Z.mod_mul, Z.div_mul by lia. rewrite decide_True; lia.
Qed.

Lemma round_half_even_mono (n n' d : Z) :
  0 < d → n ≤ n' → round_half_even n d ≤ round_half_even n' d.
Proof.
  intros Hd Hn. destruct (decide (n / d = n' / d)) as [Heq|Hne].
  - unfold round_half_even. rewrite <- Heq.
    pose proof (Z.div_mod n d ltac:(lia)). pose proof (Z.div_mod n' d ltac:(lia)).
    rewrite <- Heq in *.
    repeat case_decide; try destruct (Z.even _); lia.
  - assert (n / d + 1 ≤ n' / d).
    { pose proof (Z.div_le_mono n n' d ltac:(lia) Hn). lia. }
    unfold round_half_even. repeat case_decide; repeat destruct (Z.even _); lia.
Qed.

Lemma fixed_digits_length (w : nat) (v : Z) (acc : string) :
  String.length (fixed_digits w v acc) = (w + String.length acc)%nat.
Proof.
  revert v acc. induction w as [|w IH]; intros v acc; simpl; [done|].
  rewrite IH. simpl. lia.
Qed.

Lemma strip_zeros_length (s : string) :
  (String.length (strip_zeros s) ≤ String.length s)%nat.
Proof. induction s as [|c s IH]; simpl; [done|]. case_decide; simpl; lia. Qed.

Lemma strip_zeros_idemp (s : string) : strip_zeros (strip_zeros s) = strip_zeros s.
Proof.
  induction s as [|c s IH]; simpl; [done|].
  case_decide as Hc; simpl; [done|]. rewrite IH. by rewrite decide_False.
Qed.

Lemma strip_zeros_app_zero (s : string) : strip_zeros (s +:+ "0") = strip_zeros s.
Proof.
  induction s as [|c s IH]; [done|]. rewrite str_app_cons. simpl. by rewrite IH.
Qed.

(** ** The decimal exponent is found within the fuel *)

(** [bracket n d X]: [10 ^ X ≤ n / d < 10 ^ (X + 1)], without division. *)
Definition bracket (n d X : Z) : Prop :=
  if decide (0 ≤ X) then d * 10 ^ X ≤ n < d * 10 ^ (X + 1)
  else d ≤ n * 10 ^ (- X) < 10 * d.

(** [half_unit_close n d k D]: the integer [D] is within one half of
    [n / d * 10 ^ k]. *)
Definition half_unit_close (n d k D : Z) : Prop :=
  if decide (0 ≤ k) then - d ≤ 2 * (d * D - n * 10 ^ k) ≤ d
  else - (d * 10 ^ (- k)) ≤ 2 * (d * 10 ^ (- k) * D - n) ≤ d * 10 ^ (- k).

Lemma pow10_pos (k : Z) : 0 ≤ k → 0 < 10 ^ k.
Proof. intros. by apply Z.pow_pos_nonneg. Qed.

Lemma pow10_succ (k : Z) : 0 ≤ k → 10 ^ (k + 1) = 10 * 10 ^ k.
Proof. intros. rewrite Z.pow_add_r by lia. change (10 ^ 1) with 10. lia. Qed.

Lemma log10_up_spec (fuel : nat) (n d x : Z) :
  0 < d → d ≤ n → n < d * 10 ^ Z.of_nat fuel →
  x ≤ log10_up fuel n d x ∧
  d * 10 ^ (log10_up fuel n d x - x) ≤ n < d * 10 ^ (log10_up fuel n d x - x + 1).
Proof.
  revert d x. induction fuel as [|fuel IH]; intros d x Hd Hdn Hn.
  - change (10 ^ Z.of_nat 0) with 1 in Hn. lia.
  - rewrite Nat2Z.inj_succ, Z.pow_succ_r in Hn by lia. cbn [log10_up]. case_decide.
    + destruct (IH (10 * d) (x + 1)) as [Hx Hb]; [lia..|].
      set (X := log10_up fuel n (10 * d) (x + 1)) in *. split; [lia|].
      replace (X - x) with (X - (x + 1) + 1) by lia.
      rewrite !pow10_succ in * by lia. lia.
    + rewrite Z.sub_diag. change (10 ^ (0 + 1)) with 10. change (10 ^ 0) with 1. lia.
Qed.

Lemma log10_down_spec (fuel : nat) (n d x : Z) :
  0 < n → 0 < d → d ≤ n * 10 ^ Z.of_nat fuel →
  log10_down fuel n d x ≤ x ∧
  (n < d → d ≤ n * 10 ^ (x - log10_down fuel n d x) < 10 * d) ∧
  (d ≤ n → log10_down fuel n d x = x).
Proof.
  revert n x. induction fuel as [|fuel IH]; intros n x Hn Hd Hfuel.
  - change (10 ^ Z.of_nat 0) with 1 in Hfuel. cbn [log10_down]. lia.
  - rewrite Nat2Z.inj_succ, Z.pow_succ_r in Hfuel by lia. cbn [log10_down]. case_decide.
    + destruct (IH (10 * n) (x - 1)) as (Hle & Hlt & Hge); [lia..|].
      set (X := log10_down fuel (10 * n) d (x - 1)) in *.
      split_all; [lia | intros _ | lia].
      destruct (decide (10 * n < d)) as [Hsmall|Hbig].
      * specialize (Hlt Hsmall). replace (x - X) with (x - 1 - X + 1) by lia.
        rewrite pow10_succ by lia. lia.
      * rewrite Hge by lia. replace (x - (x - 1)) with 1 by lia.
        change (10 ^ 1) with 10. lia.
    + split_all; [lia | lia | done].
Qed.

(** With fuel for 400 decades, [decimal_exponent] brackets the value. *)
Lemma decimal_exponent_spec (n d : Z) :
  0 < n → 0 < d → n < d * 10 ^ 400 → d ≤ n * 10 ^ 400 →
  bracket n d (decimal_exponent n d).
Proof.
  intros Hn Hd Hup Hdown. unfold decimal_exponent. case_decide; unfold bracket.
  - destruct (log10_up_spec exponent_fuel n d 0) as [Hx Hb]; [done | done | exact Hup |].
    rewrite Z.sub_0_r in Hb. by rewrite decide_True.
  - destruct (log10_down_spec exponent_fuel n d 0) as (Hle & Hlt & _);
      [done | done | exact Hdown |].
    specialize (Hlt ltac:(lia)). rewrite Z.sub_0_l in Hlt.
    set (X := log10_down exponent_fuel n d 0) in *.
    destruct (decide (X = 0)) as [HX|HX].
    + rewrite HX in Hlt. change (10 ^ (- 0)) with 1 in Hlt. lia.
    + by rewrite decide_False by lia.
Qed.

(** Every finite binary64 value lies within 400 decades of one. *)
Lemma frac_of_range (m : positive) (e : Z) :
  Z.pos m < 2 ^ 53 → -1074 ≤ e ≤ 971 →
  (frac_of m e).1 < (frac_of m e).2 * 10 ^ 400 ∧
  (frac_of m e).2 ≤ (frac_of m e).1 * 10 ^ 400.
Proof.
  intros Hm He. unfold frac_of.
  assert (2 ^ 53 * 2 ^ 971 ≤ 10 ^ 400) as Hbig by (by vm_compute).
  assert (2 ^ 1074 ≤ 10 ^ 400) as Hsmall by (by vm_compute).
  pose proof (pow10_pos 400 ltac:(lia)) as Hpos.
  case_decide; simpl.
  - assert (0 < 2 ^ e ≤ 2 ^ 971) as Hp
      by (split; [apply Z.pow_pos_nonneg | apply Z.pow_le_mono_r]; lia).
    set (p := 2 ^ e) in *. set (a := 2 ^ 971) in *. set (b := 10 ^ 400) in *.
    set (c := 2 ^ 53) in *. nia.
  - assert (0 < 2 ^ (- e) ≤ 2 ^ 1074) as Hp
      by (split; [apply Z.pow_pos_nonneg | apply Z.pow_le_mono_r]; lia).
    assert (2 ^ 53 ≤ 10 ^ 400) as Hc by (by vm_compute).
    set (p := 2 ^ (- e)) in *. set (a := 2 ^ 1074) in *. set (b := 10 ^ 400) in *.
    set (c := 2 ^ 53) in *. nia.
Qed.

(** ** The significant digits are correctly rounded *)

Lemma round_half_even_range (n d lo hi : Z) :
  0 < d → lo * d ≤ n ≤ hi * d → lo ≤ round_half_even n d ≤ hi.
Proof.
  intros Hd [Hlo Hhi]. split.
  - rewrite <- (round_half_even_exact lo d Hd). by apply round_half_even_mono.
  - rewrite <- (round_half_even_exact hi d Hd). by apply round_half_even_mono.
Qed.

Lemma scale_round_close (n d k : Z) : 0 < d → half_unit_close n d k (scale_round n d k).
Proof.
  intros Hd. unfold half_unit_close, scale_round. case_decide.
  - apply round_half_even_bound, Hd.
  - apply round_half_even_bound. pose proof (pow10_pos (- k) ltac:(lia)). nia.
Qed.

Lemma scale_round_range (P n d X : Z) :
  1 ≤ P → 0 < d → bracket n d X →
  10 ^ (P - 1) ≤ scale_round n d (P - 1 - X) ≤ 10 ^ P.
Proof.
  intros HP Hd. unfold bracket, scale_round.
  pose proof (pow10_pos (P - 1) ltac:(lia)) as Hq.
  replace (10 ^ P) with (10 * 10 ^ (P - 1))
    by (rewrite <- pow10_succ by lia; f_equal; lia).
  set (q := 10 ^ (P - 1)) in *.
  destruct (decide (0 ≤ P - 1 - X)) as [Hk|Hk]; [destruct (decide (0 ≤ X)) as [HX|HX] |].
  - intros Hb. rewrite pow10_succ in Hb by lia. apply round_half_even_range; [done|].
    pose proof (pow10_pos X HX). pose proof (pow10_pos (P - 1 - X) Hk).
    assert (q = 10 ^ X * 10 ^ (P - 1 - X)) as Hsplit
      by (unfold q; rewrite <- Z.pow_add_r by lia; f_equal; lia).
    set (p := 10 ^ X) in *. set (j := 10 ^ (P - 1 - X)) in *. nia.
  - intros Hb. apply round_half_even_range; [done|].
    pose proof (pow10_pos (- X) ltac:(lia)).
    assert (10 ^ (P - 1 - X) = q * 10 ^ (- X)) as ->
      by (unfold q; rewrite <- Z.pow_add_r by lia; f_equal; lia).
    set (p := 10 ^ (- X)) in *. nia.
  - rewrite decide_True by lia. intros Hb. rewrite pow10_succ in Hb by lia.
    pose proof (pow10_pos (- (P - 1 - X)) ltac:(lia)).
    assert (10 ^ X = q * 10 ^ (- (P - 1 - X))) as Hsplit
      by (unfold q; rewrite <- Z.pow_add_r by lia; f_equal; lia).
    rewrite Hsplit in Hb. set (j := 10 ^ (- (P - 1 - X))) in *.
    apply round_half_even_range; nia.
Qed.

(** Rounding up to [10 ^ P] is the same value with one digit less and the
    next exponent. *)
Lemma half_unit_close_renorm (P n d k : Z) :
  1 ≤ P → 0 < d → half_unit_close n d k (10 ^ P) →
  half_unit_close n d (k - 1) (10 ^ (P - 1)).
Proof.
  intros HP Hd. unfold half_unit_close.
  pose proof (pow10_pos (P - 1) ltac:(lia)) as Hq.
  replace (10 ^ P) with (10 * 10 ^ (P - 1))
    by (rewrite <- pow10_succ by lia; f_equal; lia).
  set (q := 10 ^ (P - 1)) in *.
  destruct (decide (1 ≤ k)) as [Hk|Hk]; [|destruct (decide (k = 0)) as [->|Hk0]].
  - rewrite !decide_True by lia.
    replace (10 ^ k) with (10 * 10 ^ (k - 1))
      by (rewrite <- pow10_succ by lia; f_equal; lia).
    pose proof (pow10_pos (k - 1) ltac:(lia)). set (j := 10 ^ (k - 1)) in *. nia.
  - rewrite decide_True, decide_False by lia.
    change (10 ^ 0) with 1. change (10 ^ (- (0 - 1))) with 10. nia.
  - rewrite !decide_False by lia.
    replace (10 ^ (- (k - 1))) with (10 * 10 ^ (- k))
      by (rewrite <- pow10_succ by lia; f_equal; lia).
    pose proof (pow10_pos (- k) ltac:(lia)). set (j := 10 ^ (- k)) in *. nia.
Qed.

(** The digits that are printed: [P] of them, within half a unit in the
    last place of the value, for the exponent of the value or the next. *)
Lemma sig_digits_spec (P n d : Z) :
  1 ≤ P → 0 < d → bracket n d (decimal_exponent n d) →
  10 ^ (P - 1) ≤ (sig_digits P n d).1 < 10 ^ P ∧
  half_unit_close n d (P - 1 - (sig_digits P n d).2) (sig_digits P n d).1 ∧
  decimal_exponent n d ≤ (sig_digits P n d).2 ≤ decimal_exponent n d + 1.
Proof.
  intros HP Hd Hb. unfold sig_digits.
  pose proof (scale_round_range P n d _ HP Hd Hb) as Hrange.
  pose proof (scale_round_close n d (P - 1 - decimal_exponent n d) Hd) as Hclose.
  set (X := decimal_exponent n d) in *. set (D := scale_round n d (P - 1 - X)) in *.
  case_decide as HD; simpl.
  - split_all; [lia | apply Z.pow_lt_mono_r; lia | | lia | lia].
    replace (P - 1 - (X + 1)) with (P - 1 - X - 1) by lia.
    apply half_unit_close_renorm; [done..|]. by rewrite <- HD.
  - split_all; [lia | lia | done | lia | lia].
Qed.

(** The text of a finite value is made of these digits. *)
Lemma fmt_general_finite (precision : nat) (s : bool) (m : positive) (e : Z) :
  precision ≠ 0%nat →
  fmt_general precision (S754_finite s m e) =
  let P := Z.of_nat precision in
  let D := (sig_digits P (frac_of m e).1 (frac_of m e).2).1 in
  let X := (sig_digits P (frac_of m e).1 (frac_of m e).2).2 in
  sign_text s +:+
  (if decide (-4 ≤ X < P) then fmt_fixed D (Z.to_nat (P - 1 - X)) else fmt_sci P D X).
Proof.
  intros HP. unfold fmt_general. rewrite decide_False by done.
  destruct (frac_of m e) as [n d]. simpl. by destruct (sig_digits _ n d) as [D X].
Qed.
