(* ===== verification/DoubleText.v ===== *)
(** * The text of a [double], read back

    [Double.fmt_general] writes a number; this file reads one.  The reader
    ([parse_decimal]) accepts an optional minus sign, a run of digits, an
    optional point with a run of digits, and an optional exponent [e] with a
    sign and digits, and returns the number as a sign, an integer and a power
    of ten ([decimal]).  It is the specification against which the formatter
    is judged: the text that is written for a finite value is read back as
    the significant digits that were rounded, at the decimal exponent they
    were rounded at, with the zeros that the formatter removed moved into
    the exponent ([fmt_general_roundtrip]).  The texts of infinities and of
    a value that is not a number are not numbers. *)

From Stdlib Require Import Floats.SpecFloat.
From S2P Require Import Prelude Decimal Double.

(** ** The reader *)

(** [dec_digits * 10 ^ dec_exp], negated if [dec_neg]. *)
Record decimal : Type := Decimal {
  dec_neg : bool;
  dec_digits : Z;
  dec_exp : Z
}.

(** The digits at the head of [s]: their value on top of [acc], their number
    on top of [n], and what follows them. *)
Fixpoint read_digits (s : string) (acc : Z) (n : nat) : Z * nat * string :=
  match s with
  | EmptyString => (acc, n, EmptyString)
  | String c s' =>
      match digit_of c with
      | Some d => read_digits s' (acc * 10 + d) (S n)
      | None => (acc, n, s)
      end
  end.

Definition read_sign (s : string) : bool * string :=
  match s with
  | String c s' => if decide (c = "-"%char) then (true, s') else (false, s)
  | EmptyString => (false, s)
  end.

(** The digits before and after the point as one integer, the number of
    digits after the point, and what follows.  There is at least one digit
    before the point. *)
Definition read_mantissa (s : string) : option (Z * nat * string) :=
  let '(ip, n, rest) := read_digits s 0 0 in
  if decide (n = 0%nat) then None
  else
    match rest with
    | String c s' => if decide (c = "."%char) then Some (read_digits s' ip 0)
                     else Some (ip, 0%nat, rest)
    | EmptyString => Some (ip, 0%nat, rest)
    end.

(** Nothing, or [e], a sign, and at least one digit up to the end. *)
Definition read_exponent (s : string) : option Z :=
  match s with
  | EmptyString => Some 0
  | String c (String sg s') =>
      let '(x, n, rest) := read_digits s' 0 0 in
      if decide (c = "e"%char ∧ n ≠ 0%nat ∧ rest = EmptyString) then
        if decide (sg = "-"%char) then Some (- x)
        else if decide (sg = "+"%char) then Some x else None
      else None
  | String _ EmptyString => None
  end.

Definition parse_magnitude (neg : bool) (s : string) : option decimal :=
  '(m, n, rest) ← read_mantissa s;
  x ← read_exponent rest;
  Some (Decimal neg m (x - Z.of_nat n)).

Definition parse_decimal (s : string) : option decimal :=
  let '(neg, s') := read_sign s in parse_magnitude neg s'.

(** [stops s]: a run of digits ends where [s] begins. *)
Definition stops (s : string) : Prop :=
  match s with
  | EmptyString => True
  | String c _ => digit_of c = None
  end.

(** [ends_mantissa s]: [s] is empty or starts an exponent. *)
Definition ends_mantissa (s : string) : Prop :=
  match s with
  | EmptyString => True
  | String c _ => c = "e"%char
  end.

(** ** Reading a run of digits *)

Section Digits.
Implicit Types (s t rest : string) (acc v : Z) (n w : nat).

Lemma ends_mantissa_stops rest : ends_mantissa rest → stops rest.
Proof. destruct rest as [|c rest]; [done|]. by intros ->. Qed.

Lemma parse_go_app s t acc : parse_go (s +:+ t) acc = parse_go s acc ≫= parse_go t.
Proof.
  revert acc. induction s as [|c s IH]; intros acc; [done|].
  rewrite str_app_cons. simpl. destruct (digit_of c); simpl; [apply IH | done].
Qed.

(** A run of digits of value [v] followed by something that is no digit:
    the reader returns [v], counts the digits, and stops there. *)
Lemma read_digits_app s rest acc n v :
  parse_go s acc = Some v → stops rest →
  read_digits (s +:+ rest) acc n = (v, (n + String.length s)%nat, rest).
Proof.
  intros Hs Hrest. revert acc n Hs. induction s as [|c s IH]; intros acc n Hs.
  - injection Hs as <-. rewrite Nat.add_0_r. destruct rest as [|c rest]; [done|].
    simpl in *. by rewrite Hrest.
  - rewrite str_app_cons. simpl in *. destruct (digit_of c) as [d|]; [|done].
    simpl in Hs. rewrite (IH _ (S n) Hs). do 2 f_equal. lia.
Qed.

Lemma read_digits_all s acc n v :
  parse_go s acc = Some v → read_digits s acc n = (v, (n + String.length s)%nat, "").
Proof. intros Hs. by rewrite <- (str_app_nil_r s) at 1; apply read_digits_app. Qed.

(** The digit loop writes a run of digits of its value, and at least one. *)
Lemma parse_go_render_unsigned (cap : nat) v :
  0 ≤ v < 10 ^ Z.of_nat (S cap) →
  parse_go (render_unsigned cap v) 0 = Some v ∧ render_unsigned cap v ≠ "" ∧
  ∃ d t, 0 ≤ d < 10 ∧ render_unsigned cap v = String (digit_char d) t.
Proof.
  intros Hv. pose proof (parse_render_unsigned cap v Hv) as Hp.
  destruct (int_to_char_head cap v "") as (d & t & Hd & Heq).
  unfold render_unsigned in *. rewrite Heq in *. split_all; [exact Hp | done | eauto].
Qed.

(** *** Digits at a fixed width *)

Lemma fixed_digits_app w v s : fixed_digits w v s = fixed_digits w v "" +:+ s.
Proof.
  revert v s. induction w as [|w IH]; intros v s; simpl; [done|].
  rewrite IH, (IH _ (String _ "")). by rewrite <- str_app_assoc.
Qed.

Lemma fixed_digits_S w v :
  fixed_digits (S w) v "" = fixed_digits w (v / 10) "" +:+ String (digit_char (v mod 10)) "".
Proof. simpl. apply fixed_digits_app. Qed.

(** [w] digits are read back as the value, up to [10 ^ w]. *)
Lemma parse_go_fixed_digits w v acc :
  parse_go (fixed_digits w v "") acc = Some (acc * 10 ^ Z.of_nat w + v mod 10 ^ Z.of_nat w).
Proof.
  revert v acc. induction w as [|w IH]; intros v acc.
  - simpl. rewrite Z.mod_1_r. f_equal; lia.
  - rewrite fixed_digits_S, parse_go_app, IH. simpl.
    rewrite digit_of_digit_char by auto with cxx. simpl. f_equal.
    rewrite Nat2Z.inj_succ, Z.pow_succ_r by lia.
    rewrite (Z.rem_mul_r v 10) by lia. lia.
Qed.

(** *** Trailing zeros *)

Lemma strip_zeros_app_nonzero s c :
  c ≠ "0"%char → strip_zeros (s +:+ String c "") = s +:+ String c "".
Proof.
  intros Hc. induction s as [|a s IH].
  - simpl. by rewrite decide_False by (by intros [? _]).
  - rewrite str_app_cons. simpl. rewrite IH.
    rewrite decide_False; [done|]. intros [_ [_ [=]]%str_app_eq_nil].
Qed.

(** Removing the trailing zeros of [w] digits leaves the digits of the value
    without its [k] factors of ten. *)
Lemma strip_fixed_digits w v :
  0 ≤ v < 10 ^ Z.of_nat w →
  ∃ (k : nat) u, (k ≤ w)%nat ∧ v = u * 10 ^ Z.of_nat k ∧ 0 ≤ u < 10 ^ Z.of_nat (w - k) ∧
    strip_zeros (fixed_digits w v "") = fixed_digits (w - k) u "".
Proof.
  revert v. induction w as [|w IH]; intros v Hv.
  - exists 0%nat, v. split_all; [done | simpl; lia | lia.. | done].
  - rewrite fixed_digits_S. destruct (decide (v mod 10 = 0)) as [Hz|Hnz].
    + rewrite Hz. change (String (digit_char 0) "") with "0".
      rewrite strip_zeros_app_zero.
      destruct (IH (v / 10)) as (k & u & Hk & Hu & Hrange & Hstrip); [by apply div10_pow|].
      exists (S k), u. rewrite Hstrip, Nat2Z.inj_succ, Z.pow_succ_r by lia.
      destruct Hrange. split_all; [lia | zdiv10 v; lia | done..].
    + exists 0%nat, v. rewrite Nat.sub_0_r, strip_zeros_app_nonzero, <- fixed_digits_S.
      * split_all; [lia | simpl; lia | lia.. | done].
      * intros Heq. apply Hnz, digit_char_inj; [auto with cxx | lia | done].
Qed.
End Digits.

(** ** Reading what the formatter writes *)

Section Formatted.
Implicit Types (ip rest : string) (a v x D X : Z) (w : nat) (neg : bool).

Lemma length_nonzero ip : ip ≠ "" → (0 + String.length ip)%nat ≠ 0%nat.
Proof. destruct ip; simpl; [done | lia]. Qed.

(** The integer part [ip] of value [a], then the fraction of [w] digits of
    value [v] without its trailing zeros: the mantissa is read as an
    integer with [w - k] digits after the point, where [k] zeros were
    removed. *)
Lemma read_mantissa_fraction ip a w v rest :
  parse_go ip 0 = Some a → ip ≠ "" → 0 ≤ v < 10 ^ Z.of_nat w → ends_mantissa rest →
  ∃ (k : nat) q, (k ≤ w)%nat ∧ q * 10 ^ Z.of_nat k = a * 10 ^ Z.of_nat w + v ∧
    read_mantissa (with_fraction ip (strip_zeros (fixed_digits w v "")) +:+ rest)
    = Some (q, (w - k)%nat, rest).
Proof.
  intros Hip Hne Hv Hrest.
  destruct (strip_fixed_digits w v Hv) as (k & u & Hk & -> & Hu & ->).
  exists k, (a * 10 ^ Z.of_nat (w - k) + u). split; [done|]. split.
  { replace (Z.of_nat w) with (Z.of_nat (w - k) + Z.of_nat k) by lia.
    rewrite Z.pow_add_r by lia. lia. }
  pose proof (fixed_digits_length (w - k) u "") as Hlen. rewrite Nat.add_0_r in Hlen.
  unfold with_fraction, read_mantissa. case_decide as Hfp.
  - assert (w - k = 0)%nat as Hwk by (by rewrite <- Hlen, Hfp).
    rewrite Hwk in *. change (10 ^ Z.of_nat 0) with 1 in *.
    rewrite (read_digits_app ip rest 0 0 a) by auto using ends_mantissa_stops.
    rewrite decide_False by by apply length_nonzero.
    replace (a * 1 + u) with a by lia.
    destruct rest as [|c rest]; [done|]. simpl in Hrest. by rewrite Hrest, decide_False.
  - rewrite <- str_app_assoc, str_app_cons.
    rewrite (read_digits_app ip _ 0 0 a) by done.
    rewrite decide_False by by apply length_nonzero. rewrite decide_True by done.
    rewrite (read_digits_app _ rest a 0 (a * 10 ^ Z.of_nat (w - k) + u));
      [by rewrite Hlen | | by apply ends_mantissa_stops].
    by rewrite parse_go_fixed_digits, Z.mod_small.
Qed.

(** An exponent as the formatter writes it: [e], a sign, digits. *)
Lemma read_exponent_digits ex x (sg : ascii) :
  parse_go ex 0 = Some x → ex ≠ "" →
  read_exponent (String "e" (String sg ex)) =
  if decide (sg = "-"%char) then Some (- x)
  else if decide (sg = "+"%char) then Some x else None.
Proof.
  intros Hex Hne. unfold read_exponent. rewrite (read_digits_all ex 0 0 x) by done.
  by rewrite decide_True by (split_all; [done | by apply length_nonzero | done]).
Qed.

Lemma read_sign_text neg (c : ascii) t :
  c ≠ "-"%char → read_sign (sign_text neg +:+ String c t) = (neg, String c t).
Proof. intros Hc. destruct neg; simpl; [done|]. by rewrite decide_False. Qed.

Lemma with_fraction_head ip fp (c : ascii) t :
  ip = String c t → ∃ t', with_fraction ip fp = String c t'.
Proof. intros ->. unfold with_fraction. case_decide; eauto. Qed.

(** A sign, a mantissa and an exponent as the formatter writes them. *)
Lemma parse_formatted neg ip a w v rest x :
  (∃ d t, 0 ≤ d < 10 ∧ ip = String (digit_char d) t) → parse_go ip 0 = Some a →
  0 ≤ v < 10 ^ Z.of_nat w → read_exponent rest = Some x → ends_mantissa rest →
  ∃ (k : nat) q, (k ≤ w)%nat ∧ q * 10 ^ Z.of_nat k = a * 10 ^ Z.of_nat w + v ∧
    parse_decimal (sign_text neg +:+
                   with_fraction ip (strip_zeros (fixed_digits w v "")) +:+ rest)
    = Some (Decimal neg q (x - Z.of_nat (w - k))).
Proof.
  intros (d & t & Hd & Hhead) Hip Hv Hx Hrest.
  destruct (read_mantissa_fraction ip a w v rest) as (k & q & Hk & Hq & Hread);
    [done | by rewrite Hhead | done.. |].
  exists k, q. split_all; [done..|]. unfold parse_decimal.
  destruct (with_fraction_head ip (strip_zeros (fixed_digits w v "")) _ _ Hhead) as [t' Ht'].
  rewrite Ht', str_app_cons, read_sign_text, <- str_app_cons, <- Ht' by auto with cxx.
  unfold parse_magnitude. rewrite Hread. simpl. by rewrite Hx.
Qed.
End Formatted.

(** ** The two notations *)

Section Notations.
Implicit Types (D X P : Z) (w : nat) (neg : bool).

(** Fixed notation with [w] digits after the point: the text is read back
    as [D * 10 ^ -w], with the [k] zeros that were removed in the exponent. *)
Lemma parse_fmt_fixed neg D w :
  0 ≤ D < 10 ^ (Z.of_nat w + 401) →
  ∃ (k : nat) q, (k ≤ w)%nat ∧ q * 10 ^ Z.of_nat k = D ∧
    parse_decimal (sign_text neg +:+ fmt_fixed D w)
    = Some (Decimal neg q (Z.of_nat k - Z.of_nat w)).
Proof.
  intros HD. pose proof (pow10_pos (Z.of_nat w) ltac:(lia)) as Hp.
  assert (0 ≤ D / 10 ^ Z.of_nat w < 10 ^ Z.of_nat (S exponent_fuel)) as Ha.
  { split; [apply Z.div_pos; lia|]. apply Z.div_lt_upper_bound; [done|].
    rewrite <- Z.pow_add_r by lia. apply HD. }
  destruct (parse_go_render_unsigned _ _ Ha) as (Hip & _ & Hhead).
  destruct (parse_formatted neg _ _ w (D mod 10 ^ Z.of_nat w) "" 0 Hhead Hip)
    as (k & q & Hk & Hq & Hparse); [by apply Z.mod_pos_bound | done | done |].
  exists k, q. split_all; [done | |].
  - pose proof (Z.div_mod D (10 ^ Z.of_nat w)). lia.
  - rewrite str_app_nil_r in Hparse. unfold fmt_fixed. rewrite Hparse. do 2 f_equal. lia.
Qed.

(** The exponent of the scientific notation is read back. *)
Lemma read_sci_exponent X :
  Z.abs X < 10 ^ 401 →
  read_exponent
    (String "e" (String (if decide (X < 0) then "-" else "+")%char
                        (if decide (Z.abs X < 100) then fixed_digits 2 (Z.abs X) ""
                         else render_unsigned exponent_fuel (Z.abs X)))) = Some X.
Proof.
  intros HX.
  rewrite (read_exponent_digits _ (Z.abs X)).
  - destruct (decide (X < 0)); simpl; f_equal; lia.
  - case_decide; [|by apply parse_go_render_unsigned; split; [lia|]].
    rewrite parse_go_fixed_digits, Z.mod_small; [done|]. change (10 ^ Z.of_nat 2) with 100. lia.
  - case_decide; [done|]. by apply parse_go_render_unsigned; split; [lia|].
Qed.

(** Scientific notation of [P] digits at the decimal exponent [X]. *)
Lemma parse_fmt_sci neg P D X :
  1 ≤ P → 10 ^ (P - 1) ≤ D < 10 ^ P → Z.abs X < 10 ^ 401 →
  ∃ (k : nat) q, Z.of_nat k ≤ P - 1 ∧ q * 10 ^ Z.of_nat k = D ∧
    parse_decimal (sign_text neg +:+ fmt_sci P D X)
    = Some (Decimal neg q (X - P + 1 + Z.of_nat k)).
Proof.
  intros HP HD HX. unfold fmt_sci. set (w := Z.to_nat (P - 1)).
  replace (P - 1) with (Z.of_nat w) in * by lia. replace P with (Z.of_nat w + 1) in HD by lia.
  pose proof (pow10_pos (Z.of_nat w) ltac:(lia)) as Hp. rewrite pow10_succ in HD by lia.
  assert (0 ≤ D / 10 ^ Z.of_nat w < 10 ^ Z.of_nat 1) as Ha.
  { split; [apply Z.div_pos; lia|]. apply Z.div_lt_upper_bound; [done|].
    change (10 ^ Z.of_nat 1) with 10. lia. }
  destruct (parse_go_render_unsigned _ _ Ha) as (Hip & _ & Hhead).
  destruct (parse_formatted neg _ _ w (D mod 10 ^ Z.of_nat w) _ X Hhead Hip
              (Z.mod_pos_bound _ _ Hp) (read_sci_exponent X HX) eq_refl)
    as (k & q & Hk & Hq & Hparse).
  exists k, q. split_all; [lia | |].
  - pose proof (Z.div_mod D (10 ^ Z.of_nat w)). lia.
  - rewrite Hparse. do 2 f_equal. lia.
Qed.
End Notations.

(** ** The text of a value *)

(** Every finite value is within 400 decades of one. *)
Lemma bracket_bound (n d X : Z) :
  0 < n → 0 < d → n < d * 10 ^ 400 → d ≤ n * 10 ^ 400 → bracket n d X → -400 ≤ X < 400.
Proof.
  intros Hn Hd. set (b := 10 ^ 400). intros Hup Hdown. unfold bracket.
  case_decide as HX; intros Hb.
  - split; [lia|]. apply (Z.pow_lt_mono_r_iff 10); [lia..|]. fold b.
    apply (Z.mul_lt_mono_pos_l d); lia.
  - split; [|lia]. destruct (decide (-400 ≤ X)) as [|Hsmall]; [done|].
    assert (10 * b ≤ 10 ^ (- X)) as Hpow.
    { unfold b. rewrite <- pow10_succ by lia. apply Z.pow_le_mono_r; lia. }
    assert (n * (10 * b) ≤ n * 10 ^ (- X)) by (apply Z.mul_le_mono_nonneg_l; lia). lia.
Qed.

(** The digits of a finite value: [P] of them, within half a unit in the
    last place of the value, at a decimal exponent of at most 400. *)
Lemma finite_digits (P : Z) (m : positive) (e : Z) :
  Z.pos m < 2 ^ 53 → -1074 ≤ e ≤ 971 → 1 ≤ P →
  10 ^ (P - 1) ≤ (sig_digits P (frac_of m e).1 (frac_of m e).2).1 < 10 ^ P ∧
  half_unit_close (frac_of m e).1 (frac_of m e).2
    (P - 1 - (sig_digits P (frac_of m e).1 (frac_of m e).2).2)
    (sig_digits P (frac_of m e).1 (frac_of m e).2).1 ∧
  -400 ≤ (sig_digits P (frac_of m e).1 (frac_of m e).2).2 ≤ 400.
Proof.
  intros Hm He HP.
  destruct (frac_of_pos m e) as [Hn Hd]. destruct (frac_of_range m e Hm He) as [Hup Hdown].
  pose proof (decimal_exponent_spec _ _ Hn Hd Hup Hdown) as Hb.
  pose proof (bracket_bound _ _ _ Hn Hd Hup Hdown Hb) as Hbound.
  destruct (sig_digits_spec P _ _ HP Hd Hb) as (Hrange & Hclose & HX).
  split_all; [apply Hrange.. | done | lia | lia].
Qed.

(** The text of a finite value is read back as its [P] significant digits
    at their decimal exponent: the integer read, with the [k] zeros that
    were removed, is [D], and the exponent read is [X - P + 1 + k]. *)
Theorem fmt_general_roundtrip (precision : nat) (s : bool) (m : positive) (e : Z) :
  Z.pos m < 2 ^ 53 → -1074 ≤ e ≤ 971 → precision ≠ 0%nat →
  ∃ (k : nat) q,
    q * 10 ^ Z.of_nat k = (sig_digits (Z.of_nat precision) (frac_of m e).1 (frac_of m e).2).1 ∧
    parse_decimal (fmt_general precision (S754_finite s m e))
    = Some (Decimal s q ((sig_digits (Z.of_nat precision) (frac_of m e).1 (frac_of m e).2).2
                         - Z.of_nat precision + 1 + Z.of_nat k)).
Proof.
  intros Hm He HP. rewrite fmt_general_finite by done. cbv zeta.
  destruct (finite_digits (Z.of_nat precision) m e) as (Hrange & _ & HX); [done | done | lia |].
  destruct (sig_digits _ _ _) as [D X].
  set (P := Z.of_nat precision) in *. cbn [fst snd] in *.
  pose proof (pow10_pos (P - 1) ltac:(lia)). case_decide as Hfix.
  - destruct (parse_fmt_fixed s D (Z.to_nat (P - 1 - X))) as (k & q & Hk & Hq & ->).
    { split; [lia|]. eapply Z.lt_le_trans; [apply Hrange|]. apply Z.pow_le_mono_r; lia. }
    exists k, q. split; [done|]. do 2 f_equal. lia.
  - destruct (parse_fmt_sci s P D X) as (k & q & Hk & Hq & ->); [lia | done | | by eauto].
    pose proof (Z.pow_gt_lin_r 10 401 ltac:(lia)). lia.
Qed.

(** In a decade, a number determines how many of its zeros were removed. *)
Lemma decade_le (P q : Z) (k k' : nat) :
  1 ≤ P → 10 ^ (P - 1) ≤ q * 10 ^ Z.of_nat k → q * 10 ^ Z.of_nat k' < 10 ^ P → (k' ≤ k)%nat.
Proof.
  intros HP Hlo Hhi. destruct (decide (k' ≤ k)%nat) as [|Hlt]; [done|]. exfalso.
  pose proof (pow10_pos (Z.of_nat k) ltac:(lia)) as Hk.
  pose proof (pow10_pos (P - 1) ltac:(lia)) as Hp.
  pose proof (pow10_succ (P - 1) ltac:(lia)) as HS. rewrite Z.sub_add in HS.
  assert (0 < q) as Hq by nia.
  assert (10 * 10 ^ Z.of_nat k ≤ 10 ^ Z.of_nat k') as Hpow.
  { rewrite <- pow10_succ by lia. apply Z.pow_le_mono_r; lia. }
  assert (q * (10 * 10 ^ Z.of_nat k) ≤ q * 10 ^ Z.of_nat k')
    by (apply Z.mul_le_mono_nonneg_l; lia).
  lia.
Qed.

(** The text determines the sign, the digits and the decimal exponent: two
    finite values with the same text have been rounded to the same number. *)
Theorem fmt_general_inj (precision : nat) (s s' : bool) (m m' : positive) (e e' : Z) :
  Z.pos m < 2 ^ 53 → -1074 ≤ e ≤ 971 → Z.pos m' < 2 ^ 53 → -1074 ≤ e' ≤ 971 →
  precision ≠ 0%nat →
  fmt_general precision (S754_finite s m e) = fmt_general precision (S754_finite s' m' e') →
  s = s' ∧
  sig_digits (Z.of_nat precision) (frac_of m e).1 (frac_of m e).2
  = sig_digits (Z.of_nat precision) (frac_of m' e').1 (frac_of m' e').2.
Proof.
  intros Hm He Hm' He' HP Heq.
  destruct (fmt_general_roundtrip precision s m e) as (k & q & Hq & Hparse); [done..|].
  destruct (fmt_general_roundtrip precision s' m' e') as (k' & q' & Hq' & Hparse'); [done..|].
  destruct (finite_digits (Z.of_nat precision) m e) as (Hrange & _); [done | done | lia |].
  destruct (finite_digits (Z.of_nat precision) m' e') as (Hrange' & _); [done | done | lia |].
  rewrite Heq, Hparse' in Hparse. injection Hparse as -> -> Hexp.
  rewrite <- Hq in Hrange. rewrite <- Hq' in Hrange'.
  assert (k = k') as ->.
  { apply Nat.le_antisymm; eapply (decade_le (Z.of_nat precision) q);
      [| apply Hrange' | apply Hrange | | apply Hrange | apply Hrange']; lia. }
  split; [done|]. apply injective_projections; [congruence | lia].
Qed.

(** A zero is read back as zero with its sign; the texts of the infinities
    and of a value that is not a number are not read as numbers. *)
Lemma fmt_general_special (precision : nat) (s : bool) :
  parse_decimal (fmt_general precision (S754_zero s)) = Some (Decimal s 0 0) ∧
  parse_decimal (fmt_general precision (S754_infinity s)) = None ∧
  parse_decimal (fmt_general precision S754_nan) = None.
Proof. by destruct s. Qed.

(** ** Examples *)

(** What the reader accepts: both notations; and what it rejects: words, a
    bare point, an exponent without a sign, characters after the number. *)
Lemma parse_decimal_examples :
  parse_decimal "5.99" = Some (Decimal false 599 (-2)) ∧
  parse_decimal "-0.0001" = Some (Decimal true 1 (-4)) ∧
  parse_decimal "1e+06" = Some (Decimal false 1 6) ∧
  parse_decimal "1.5e-07" = Some (Decimal false 15 (-8)) ∧
  parse_decimal "nan" = None ∧ parse_decimal ".5" = None ∧
  parse_decimal "1e6" = None ∧ parse_decimal "5.99 " = None.
Proof. by vm_compute. Qed.

(** [123456789], at six digits, is written [1.23457e+08] and read back as
    [123457 * 10 ^ 3]; [0.5] is written [0.5]: five zeros were removed. *)
Lemma fmt_general_examples :
  fmt_general 6 (double_lit 123456789 0) = "1.23457e+08" ∧
  parse_decimal (fmt_general 6 (double_lit 123456789 0)) = Some (Decimal false 123457 3) ∧
  fmt_general 6 (double_lit 5 1) = "0.5" ∧
  parse_decimal (fmt_general 6 (double_lit 5 1)) = Some (Decimal false 5 (-1)).
Proof. by vm_compute. Qed.
