(* ===== verification/Ostream.v ===== *)
(** * The output stream

    [std::cout] is used through one operation, [operator<<], overloaded on
    the type of what is inserted.  Two interfaces describe it:

    - [Insertable A]: the overload for the type [A], as the text that it
      writes under given formatting flags ([format]);
    - [OStream S] with its laws [OStreamLaws S]: a stream as something that
      text can be written to ([os_write]), whose text so far can be observed
      ([os_text]) and which carries formatting flags ([os_flags]).

    [insert] (written [s << x]) is [operator<<]: it formats its argument with
    the flags of the stream and writes the text.  The statements of [main]
    are defined and specified against [OStream]; [ostream], an unbuffered
    stream, and [bufstream], a stream that holds text back until it is
    flushed, implement it. *)

From S2P Require Import Prelude Result MachineInt Decimal Double.

(** ** Formatting flags *)

(** The part of [std::ios_base]'s state that the overloads used here read:
    [boolalpha] (off by default) and the floating-point precision (6). *)
Record fmtflags : Type := {
  boolalpha : bool;
  precision : nat
}.

Definition default_flags : fmtflags := {| boolalpha := false; precision := 6 |}.

#[export] Instance fmtflags_eq_dec : EqDecision fmtflags.
Proof. solve_decision. Defined.

(** ** The overloads of [operator<<] *)

Class Insertable (A : Type) : Type := format : fmtflags → A → string.
#[global] Hint Mode Insertable ! : typeclass_instances.

Section Overloads.
Context `{IntWidth}.

(** The digits that the formatter's buffer holds: a value of [int_width]
    bits has fewer than [int_width] decimal digits. *)
Definition int_capacity : nat := Z.to_nat int_width.

#[export] Instance insert_int : Insertable Z :=
  λ _ z, render_int int_capacity z.
#[export] Instance insert_double : Insertable double :=
  λ fl d, fmt_general (precision fl) d.
#[export] Instance insert_char : Insertable ascii :=
  λ _ c, String c "".
#[export] Instance insert_string : Insertable string :=
  λ _ s, s.
#[export] Instance insert_bool : Insertable bool :=
  λ fl b, if boolalpha fl then (if b then "true" else "false")
          else (if b then "1" else "0").
End Overloads.

(** ** The buffer of the integer formatter is large enough *)

Section Capacity.
Context `{IntWidth}.

Lemma in_range_capacity z :
  in_range z → - 10 ^ Z.of_nat (S int_capacity) < z < 10 ^ Z.of_nat (S int_capacity).
Proof.
  unfold in_range, int_min, int_max, int_capacity. intros Hz.
  pose proof int_width_min.
  assert (2 ^ (int_width - 1) ≤ 10 ^ (int_width - 1)) by (apply Z.pow_le_mono_l; lia).
  assert (10 ^ (int_width - 1) < 10 ^ Z.of_nat (S (Z.to_nat int_width)))
    by (apply Z.pow_lt_mono_r; lia).
  lia.
Qed.

(** The text of a number of at most five digits does not depend on the
    width of [int]. *)
Lemma format_int_small fl z : -100000 < z < 100000 → format fl z = render_int 4 z.
Proof.
  intros Hz. unfold format, insert_int. apply render_int_fuel.
  - change (10 ^ Z.of_nat 5) with 100000. lia.
  - unfold int_capacity. pose proof int_width_min. lia.
Qed.

Lemma parse_format_int fl z : in_range z → parse_int (format fl z) = Some z.
Proof. intros Hz. apply parse_render_int, in_range_capacity, Hz. Qed.
End Capacity.

(** ** Streams *)

Class OStream (S : Type) : Type := {
  os_write : string → S → S;
  os_text : S → string;
  os_flags : S → fmtflags
}.

Class OStreamLaws (S : Type) `{OStream S} : Prop := {
  os_text_write t s : os_text (os_write t s) = os_text s +:+ t;
  os_flags_write t s : os_flags (os_write t s) = os_flags s
}.

Definition insert {S A} `{OStream S, Insertable A} (s : S) (x : A) : S :=
  os_write (format (os_flags s) x) s.

Notation "s << x" := (insert s x) (at level 50, left associativity) : cxx_scope.

(** Two streams are equivalent when no insertion can tell them apart. *)
Definition os_equiv {S} `{OStream S} (s t : S) : Prop :=
  os_text s = os_text t ∧ os_flags s = os_flags t.

(** ** An unbuffered stream *)

Record ostream : Type := {
  buffer : string;
  flags : fmtflags
}.

Definition cout_init : ostream := {| buffer := ""; flags := default_flags |}.

#[export] Instance ostream_stream : OStream ostream := {
  os_write t s := {| buffer := buffer s +:+ t; flags := flags s |};
  os_text := buffer;
  os_flags := flags
}.

#[export] Instance ostream_laws : OStreamLaws ostream.
Proof. by split. Qed.

(** ** A buffered stream

    [std::cout] holds the characters written to it in a buffer; they reach
    the standard output when the buffer is flushed, which happens at the
    latest when the program exits normally.  Inserting ["\n"] (as [main]
    does) does not flush, unlike [std::endl]. *)

Record bufstream : Type := {
  flushed : string;
  pending : string;
  bflags : fmtflags
}.

Definition bufstream_init : bufstream :=
  {| flushed := ""; pending := ""; bflags := default_flags |}.

Definition flush (s : bufstream) : bufstream :=
  {| flushed := flushed s +:+ pending s; pending := ""; bflags := bflags s |}.

#[export] Instance bufstream_stream : OStream bufstream := {
  os_write t s :=
    {| flushed := flushed s; pending := pending s +:+ t; bflags := bflags s |};
  os_text s := flushed s +:+ pending s;
  os_flags := bflags
}.

#[export] Instance bufstream_laws : OStreamLaws bufstream.
Proof. split; [intros; simpl; by rewrite str_app_assoc | done]. Qed.

(** ** Properties of insertion, for every lawful stream *)

Section Insert.
Context {S : Type} `{OStreamLaws S}.
Implicit Types s : S.

#[export] Instance os_equiv_equivalence : Equivalence (os_equiv (S := S)).
Proof.
  split; [done | by intros s t [] |].
  intros s t u [] []. split; congruence.
Qed.

#[export] Instance os_write_proper t : Proper (os_equiv ==> os_equiv) (os_write t).
Proof.
  intros s s' [Ht Hf]. split; [by rewrite !os_text_write, Ht|].
  by rewrite !os_flags_write.
Qed.

#[export] Instance insert_proper {A} `{Insertable A} :
  Proper (os_equiv ==> eq ==> os_equiv) (insert (S := S) (A := A)).
Proof.
  intros s s' Hs x ? <-. unfold insert.
  destruct Hs as [Ht Hf]. rewrite Hf. by apply os_write_proper.
Qed.

Lemma insert_text {A} `{Insertable A} s (x : A) :
  os_text (s << x) = os_text s +:+ format (os_flags s) x.
Proof. apply os_text_write. Qed.

Lemma insert_flags {A} `{Insertable A} s (x : A) : os_flags (s << x) = os_flags s.
Proof. apply os_flags_write. Qed.

(** What has been written stays written. *)
Lemma insert_prefix {A} `{Insertable A} s (x : A) :
  str_prefix (os_text s) (os_text (s << x)).
Proof. rewrite insert_text. apply str_prefix_app. Qed.

(** Inserting a text equals inserting its pieces one after the other. *)
Lemma insert_string_app s (t u : string) : os_equiv (s << t << u) (s << (t +:+ u)).
Proof.
  split; [|by rewrite !insert_flags].
  rewrite !insert_text, !insert_flags. unfold format, insert_string.
  by rewrite str_app_assoc.
Qed.

Lemma insert_empty s : os_equiv (s << "") s.
Proof.
  split; [|by rewrite insert_flags].
  rewrite insert_text. apply str_app_nil_r.
Qed.
End Insert.

#[export] Hint Rewrite @insert_text @insert_flags using (typeclasses eauto) : cxx.

(** ** The buffered stream against the unbuffered one *)

(** [unbuffer s]: the unbuffered stream that has written what [s] has
    accepted. *)
Definition unbuffer (s : bufstream) : ostream :=
  {| buffer := flushed s +:+ pending s; flags := bflags s |}.

Lemma unbuffer_write (t : string) (s : bufstream) :
  unbuffer (os_write t s) = os_write t (unbuffer s).
Proof. unfold unbuffer; simpl. by rewrite str_app_assoc. Qed.

Lemma unbuffer_insert {A} `{Insertable A} (s : bufstream) (x : A) :
  unbuffer (s << x) = unbuffer s << x.
Proof. unfold insert. by rewrite unbuffer_write. Qed.

Lemma unbuffer_flush (s : bufstream) : unbuffer (flush s) = unbuffer s.
Proof. unfold unbuffer, flush; simpl. by rewrite str_app_nil_r. Qed.

Lemma flush_flushed (s : bufstream) : flushed (flush s) = os_text s.
Proof. done. Qed.

Lemma flush_idemp (s : bufstream) : flush (flush s) = flush s.
Proof. unfold flush; simpl. by rewrite str_app_nil_r. Qed.
