(* ===== verification/Locals.v ===== *)
(** * Values and the frame of local variables

    [main] has thirteen local variables of five types.  A variable is a slot
    of the frame: its declared type, whether it is [const], and its value if
    it has one ([int n;] declares [n] without giving it a value; reading it
    before the assignment of line 7 would be undefined behaviour).  The
    operations are the four things the source does with a variable: declare
    it, declare it with an initialiser, assign to it and read it.  Each
    returns an [error] where the real construct is ill-formed or undefined.

    Implicit conversions are not modelled, because the program has none: a
    value stored in a variable must have the variable's type.

    [wf_frame] is the invariant of the frame, [frame_le] the order in which
    a frame evolves, and [frame_step] the relation of one completed
    operation; the frames of a block are those reachable by it from the
    empty frame. *)

From stdpp Require Import gmap.
From S2P Require Import Prelude Result MachineInt Double.

(** ** Types and values *)

Inductive ctype : Type := TInt | TDouble | TChar | TString | TBool.

#[export] Instance ctype_eq_dec : EqDecision ctype.
Proof. solve_decision. Defined.

Inductive value : Type :=
| VInt (z : Z)
| VDouble (d : double)
| VChar (c : ascii)
| VString (s : string)
| VBool (b : bool).

#[export] Instance value_eq_dec : EqDecision value.
Proof. solve_decision. Defined.

Definition type_of (v : value) : ctype :=
  match v with
  | VInt _ => TInt
  | VDouble _ => TDouble
  | VChar _ => TChar
  | VString _ => TString
  | VBool _ => TBool
  end.

(** ** Slots and frames *)

Record slot : Type := Slot {
  slot_type : ctype;
  slot_const : bool;
  slot_value : option value
}.

#[export] Instance slot_eq_dec : EqDecision slot.
Proof. solve_decision. Defined.

Abbreviation frame := (gmap string slot).

(** ** Operations *)

(** [T x;] *)
Definition declare (x : string) (t : ctype) (f : frame) : res frame :=
  match f !! x with
  | Some _ => Err (Redeclared x)
  | None => OK (<[x := Slot t false None]> f)
  end.

(** [T x = v;] and, with [c = true], [const T x = v;] *)
Definition init (x : string) (t : ctype) (c : bool) (v : value) (f : frame) : res frame :=
  match f !! x with
  | Some _ => Err (Redeclared x)
  | None =>
      if decide (type_of v = t) then OK (<[x := Slot t c (Some v)]> f)
      else Err (TypeMismatch x)
  end.

(** [x = v] *)
Definition assign (x : string) (v : value) (f : frame) : res frame :=
  match f !! x with
  | None => Err (Undeclared x)
  | Some sl =>
      if slot_const sl then Err (ConstWrite x)
      else if decide (type_of v = slot_type sl)
           then OK (<[x := Slot (slot_type sl) false (Some v)]> f)
           else Err (TypeMismatch x)
  end.

(** The value of [x] in an expression. *)
Definition read (x : string) (f : frame) : res value :=
  match f !! x with
  | None => Err (Undeclared x)
  | Some sl =>
      match slot_value sl with
      | None => Err (UninitRead x)
      | Some v => OK v
      end
  end.

(** The value of the [int] variable [x]. *)
Definition read_int (x : string) (f : frame) : res Z :=
  v ← read x f;
  match v with
  | VInt z => OK z
  | _ => Err (TypeMismatch x)
  end.

(** ** Well-formed frames *)

Section WellFormed.
Context `{IntWidth}.

(** A value of type [int] is representable. *)
Definition wf_value (v : value) : Prop :=
  match v with
  | VInt z => in_range z
  | _ => True
  end.

(** A value has the type of its slot; a [const] slot has a value. *)
Definition wf_slot (sl : slot) : Prop :=
  match slot_value sl with
  | Some v => type_of v = slot_type sl ∧ wf_value v
  | None => slot_const sl = false
  end.

Definition wf_frame (f : frame) : Prop := map_Forall (λ _, wf_slot) f.

#[export] Instance wf_value_dec v : Decision (wf_value v).
Proof. destruct v; simpl; apply _. Defined.

#[export] Instance wf_slot_dec sl : Decision (wf_slot sl).
Proof. unfold wf_slot. destruct (slot_value sl); apply _. Defined.

#[export] Instance wf_frame_dec f : Decision (wf_frame f).
Proof. unfold wf_frame. apply _. Defined.

Lemma wf_frame_empty : wf_frame ∅.
Proof. apply map_Forall_empty. Qed.

Lemma wf_frame_insert x sl f : wf_slot sl → wf_frame f → wf_frame (<[x := sl]> f).
Proof. intros. by apply map_Forall_insert_2. Qed.

Lemma wf_frame_lookup x sl f : wf_frame f → f !! x = Some sl → wf_slot sl.
Proof. intros Hf Hx. exact (Hf x sl Hx). Qed.

Lemma declare_wf x t f f' : wf_frame f → declare x t f = OK f' → wf_frame f'.
Proof.
  unfold declare. intros Hf. destruct (f !! x); [done|]. intros [= <-].
  by apply wf_frame_insert.
Qed.

Lemma init_wf x t c v f f' :
  wf_frame f → wf_value v → init x t c v f = OK f' → wf_frame f'.
Proof.
  unfold init. intros Hf Hv. destruct (f !! x); [done|].
  case_decide; [|done]. intros [= <-]. by apply wf_frame_insert.
Qed.

Lemma assign_wf x v f f' :
  wf_frame f → wf_value v → assign x v f = OK f' → wf_frame f'.
Proof.
  unfold assign. intros Hf Hv. destruct (f !! x) as [sl|]; [|done].
  destruct (slot_const sl); [done|]. case_decide; [|done]. intros [= <-].
  by apply wf_frame_insert.
Qed.

(** What is read from a well-formed frame is well-formed. *)
Lemma read_wf x v f : wf_frame f → read x f = OK v → wf_value v.
Proof.
  unfold read. intros Hf. destruct (f !! x) as [sl|] eqn:Hx; [|done].
  destruct (slot_value sl) as [w|] eqn:Hw; [|done]. intros [= <-].
  pose proof (wf_frame_lookup _ _ _ Hf Hx) as Hsl.
  unfold wf_slot in Hsl. rewrite Hw in Hsl. tauto.
Qed.

Lemma read_int_wf x z f : wf_frame f → read_int x f = OK z → in_range z.
Proof.
  unfold read_int. intros Hf. destruct (read x f) as [v|] eqn:Hr; [|done].
  simpl. destruct v; try done. intros [= <-]. exact (read_wf _ _ _ Hf Hr).
Qed.
End WellFormed.

(** ** What each operation does *)

Section Operations.
Implicit Types (x y : string) (t : ctype) (v : value) (f : frame).

Lemma declare_ok x t f :
  f !! x = None → declare x t f = OK (<[x := Slot t false None]> f).
Proof. unfold declare. by intros ->. Qed.

Lemma declare_err x t f : is_Some (f !! x) → declare x t f = Err (Redeclared x).
Proof. unfold declare. by intros [sl ->]. Qed.

Lemma init_ok x t c v f :
  f !! x = None → type_of v = t → init x t c v f = OK (<[x := Slot t c (Some v)]> f).
Proof. unfold init. intros -> ?. by rewrite decide_True. Qed.

Lemma init_err_redeclared x t c v f :
  is_Some (f !! x) → init x t c v f = Err (Redeclared x).
Proof. unfold init. by intros [sl ->]. Qed.

Lemma init_err_type x t c v f :
  f !! x = None → type_of v ≠ t → init x t c v f = Err (TypeMismatch x).
Proof. unfold init. intros -> ?. by rewrite decide_False. Qed.

Lemma assign_ok x v f sl :
  f !! x = Some sl → slot_const sl = false → type_of v = slot_type sl →
  assign x v f = OK (<[x := Slot (slot_type sl) false (Some v)]> f).
Proof. unfold assign. intros -> -> ?. by rewrite decide_True. Qed.

Lemma assign_err_undeclared x v f : f !! x = None → assign x v f = Err (Undeclared x).
Proof. unfold assign. by intros ->. Qed.

Lemma assign_err_const x v f sl :
  f !! x = Some sl → slot_const sl = true → assign x v f = Err (ConstWrite x).
Proof. unfold assign. by intros -> ->. Qed.

Lemma assign_err_type x v f sl :
  f !! x = Some sl → slot_const sl = false → type_of v ≠ slot_type sl →
  assign x v f = Err (TypeMismatch x).
Proof. unfold assign. intros -> -> ?. by rewrite decide_False. Qed.

Lemma read_ok x v f sl : f !! x = Some sl → slot_value sl = Some v → read x f = OK v.
Proof. unfold read. by intros -> ->. Qed.

Lemma read_err_undeclared x f : f !! x = None → read x f = Err (Undeclared x).
Proof. unfold read. by intros ->. Qed.

Lemma read_err_uninit x f sl :
  f !! x = Some sl → slot_value sl = None → read x f = Err (UninitRead x).
Proof. unfold read. by intros -> ->. Qed.

Lemma read_int_ok x z f sl :
  f !! x = Some sl → slot_value sl = Some (VInt z) → read_int x f = OK z.
Proof. intros Hx Hv. unfold read_int. by rewrite (read_ok _ _ _ _ Hx Hv). Qed.

(** Inversion: a successful operation changed exactly one slot. *)
Lemma declare_ok_inv x t f f' :
  declare x t f = OK f' → f !! x = None ∧ f' = <[x := Slot t false None]> f.
Proof. unfold declare. destruct (f !! x); [done | by intros [= <-]]. Qed.

Lemma init_ok_inv x t c v f f' :
  init x t c v f = OK f' →
  f !! x = None ∧ type_of v = t ∧ f' = <[x := Slot t c (Some v)]> f.
Proof.
  unfold init. destruct (f !! x); [done|]. case_decide; [by intros [= <-] | done].
Qed.

Lemma assign_ok_inv x v f f' :
  assign x v f = OK f' →
  ∃ sl, f !! x = Some sl ∧ slot_const sl = false ∧ type_of v = slot_type sl ∧
        f' = <[x := Slot (slot_type sl) false (Some v)]> f.
Proof.
  unfold assign. destruct (f !! x) as [sl|]; [|done].
  destruct (slot_const sl) eqn:?; [done|]. case_decide; [|done].
  intros [= <-]. eauto.
Qed.

(** Declared, then read without an assignment in between. *)
Lemma read_after_declare x t f f' :
  declare x t f = OK f' → read x f' = Err (UninitRead x).
Proof.
  intros [_ ->]%declare_ok_inv. eapply read_err_uninit; [apply lookup_insert_eq | done].
Qed.

Lemma read_after_init x t c v f f' : init x t c v f = OK f' → read x f' = OK v.
Proof.
  intros (_ & _ & ->)%init_ok_inv. eapply read_ok; [apply lookup_insert_eq | done].
Qed.

Lemma read_after_assign x v f f' : assign x v f = OK f' → read x f' = OK v.
Proof.
  intros (sl & _ & _ & _ & ->)%assign_ok_inv.
  eapply read_ok; [apply lookup_insert_eq | done].
Qed.

(** The other variables are not touched. *)
Lemma declare_other x y t f f' : declare x t f = OK f' → x ≠ y → f' !! y = f !! y.
Proof. intros [_ ->]%declare_ok_inv ?. by apply lookup_insert_ne. Qed.

Lemma init_other x y t c v f f' : init x t c v f = OK f' → x ≠ y → f' !! y = f !! y.
Proof. intros (_ & _ & ->)%init_ok_inv ?. by apply lookup_insert_ne. Qed.

Lemma assign_other x y v f f' : assign x v f = OK f' → x ≠ y → f' !! y = f !! y.
Proof. intros (sl & _ & _ & _ & ->)%assign_ok_inv ?. by apply lookup_insert_ne. Qed.

(** An assignment changes neither the type nor the set of variables. *)
Lemma assign_type x v f f' sl :
  assign x v f = OK f' → f !! x = Some sl →
  ∃ sl', f' !! x = Some sl' ∧ slot_type sl' = slot_type sl.
Proof.
  intros (sl0 & Hx & _ & _ & ->)%assign_ok_inv Hsl. simplify_eq.
  eexists. split; [apply lookup_insert_eq | done].
Qed.

Lemma assign_dom x v f f' : assign x v f = OK f' → dom f' = dom f.
Proof.
  intros (sl & Hx & _ & _ & ->)%assign_ok_inv. by apply dom_insert_lookup_L.
Qed.
End Operations.

(** ** Assignable variables of type [int]

    [int_var f x]: [x] is declared in [f] as a non-[const] [int] (with or
    without a value).  This is what an assignment [x = 50] needs. *)

Definition int_var (f : frame) (x : string) : Prop :=
  ∃ sl, f !! x = Some sl ∧ slot_type sl = TInt ∧ slot_const sl = false.

Section IntVar.
Implicit Types (x y : string) (f : frame) (z : Z).

Lemma assign_int_ok x z f :
  int_var f x → assign x (VInt z) f = OK (<[x := Slot TInt false (Some (VInt z))]> f).
Proof.
  intros (sl & Hx & Ht & Hc). rewrite (assign_ok _ _ _ _ Hx Hc); [by rewrite Ht|].
  by rewrite Ht.
Qed.

Lemma int_var_insert x sl f :
  slot_type sl = TInt → slot_const sl = false → int_var (<[x := sl]> f) x.
Proof. intros. exists sl. by rewrite lookup_insert_eq. Qed.

Lemma int_var_insert_ne x y sl f : int_var f x → y ≠ x → int_var (<[y := sl]> f) x.
Proof. intros (sl' & Hx & ?) ?. exists sl'. by rewrite lookup_insert_ne. Qed.

Lemma read_int_read x z f : read_int x f = OK z → read x f = OK (VInt z).
Proof.
  unfold read_int. destruct (read x f) as [v|]; [|done]. simpl.
  destruct v; try done. by intros [= ->].
Qed.

Lemma read_read_int x z f : read x f = OK (VInt z) → read_int x f = OK z.
Proof. unfold read_int. by intros ->. Qed.

Lemma read_int_insert x z f t c :
  read_int x (<[x := Slot t c (Some (VInt z))]> f) = OK z.
Proof. eapply read_int_ok; [apply lookup_insert_eq | done]. Qed.

Lemma read_int_insert_ne x y sl f : y ≠ x → read_int x (<[y := sl]> f) = read_int x f.
Proof. intros. unfold read_int, read. by rewrite lookup_insert_ne. Qed.

Lemma read_insert_ne x y sl f : y ≠ x → read x (<[y := sl]> f) = read x f.
Proof. intros. unfold read. by rewrite lookup_insert_ne. Qed.

(** An assignment that fails also fails after a change to another slot. *)
Lemma assign_err_insert_ne x y v sl f e :
  y ≠ x → assign x v f = Err e → assign x v (<[y := sl]> f) = Err e.
Proof.
  intros Hy. unfold assign. rewrite lookup_insert_ne by done.
  destruct (f !! x) as [sl0|]; [|done]. destruct (slot_const sl0); [done|].
  by case_decide.
Qed.
End IntVar.

(** ** Constants

    [const_slot f x sl]: [x] is a constant of [f], with slot [sl].  No
    operation that succeeds changes it. *)

Definition const_slot (f : frame) (x : string) (sl : slot) : Prop :=
  f !! x = Some sl ∧ slot_const sl = true.

Section Constants.
Implicit Types (x y : string) (f : frame) (sl : slot).

Lemma const_declare x y t f f' sl :
  const_slot f x sl → declare y t f = OK f' → const_slot f' x sl.
Proof.
  intros [Hx Hc] Hd. split; [|done].
  destruct (declare_ok_inv _ _ _ _ Hd) as [Hy _].
  rewrite (declare_other _ x _ _ _ Hd); [done | congruence].
Qed.

Lemma const_init x y t c v f f' sl :
  const_slot f x sl → init y t c v f = OK f' → const_slot f' x sl.
Proof.
  intros [Hx Hc] Hi. split; [|done].
  destruct (init_ok_inv _ _ _ _ _ _ Hi) as [Hy _].
  rewrite (init_other _ x _ _ _ _ _ Hi); [done | congruence].
Qed.

Lemma const_assign x y v f f' sl :
  const_slot f x sl → assign y v f = OK f' → const_slot f' x sl.
Proof.
  intros [Hx Hc] Ha. split; [|done].
  destruct (assign_ok_inv _ _ _ _ Ha) as (sl' & Hy & Hnc & _).
  rewrite (assign_other _ x _ _ _ Ha); [done | congruence].
Qed.
End Constants.

(** ** How a frame evolves

    [frame_le f f']: [f'] is a later frame of the same block.  Every
    variable of [f] is still declared, with its type and its qualifier; a
    [const] variable is unchanged; a variable that had a value has one. *)

Definition slot_le (sl sl' : slot) : Prop :=
  slot_type sl' = slot_type sl ∧ slot_const sl' = slot_const sl ∧
  (slot_const sl = true → sl' = sl) ∧
  (is_Some (slot_value sl) → is_Some (slot_value sl')).

Definition frame_le (f f' : frame) : Prop :=
  ∀ x sl, f !! x = Some sl → ∃ sl', f' !! x = Some sl' ∧ slot_le sl sl'.

Section Extension.
Implicit Types (x : string) (f : frame) (sl : slot).

#[export] Instance slot_le_preorder : PreOrder slot_le.
Proof.
  split; [by intros sl|].
  intros sl1 sl2 sl3 (Ht & Hc & Hk & Hv) (Ht' & Hc' & Hk' & Hv').
  unfold slot_le. split_all; [congruence.. | | auto].
  intros Hc1. rewrite Hk' by congruence. auto.
Qed.

#[export] Instance frame_le_preorder : PreOrder frame_le.
Proof.
  split; [intros f x sl Hx; by exists sl|].
  intros f1 f2 f3 H12 H23 x sl Hx.
  destruct (H12 x sl Hx) as (sl2 & Hx2 & Hle). destruct (H23 x sl2 Hx2) as (sl3 & Hx3 & Hle').
  exists sl3. split; [done | by etrans].
Qed.

Lemma frame_le_insert_fresh x sl f : f !! x = None → frame_le f (<[x := sl]> f).
Proof.
  intros Hx y sl' Hy. exists sl'. split; [|done].
  rewrite lookup_insert_ne; [done | congruence].
Qed.

Lemma frame_le_insert x sl sl' f :
  f !! x = Some sl → slot_le sl sl' → frame_le f (<[x := sl']> f).
Proof.
  intros Hx Hle y sl0 Hy. destruct (decide (x = y)) as [<-|Hne].
  - exists sl'. rewrite lookup_insert_eq. split; [done | congruence].
  - exists sl0. by rewrite lookup_insert_ne.
Qed.

Lemma declare_le x t f f' : declare x t f = OK f' → frame_le f f'.
Proof. intros [Hx ->]%declare_ok_inv. by apply frame_le_insert_fresh. Qed.

Lemma init_le x t c v f f' : init x t c v f = OK f' → frame_le f f'.
Proof. intros (Hx & _ & ->)%init_ok_inv. by apply frame_le_insert_fresh. Qed.

Lemma assign_le x v f f' : assign x v f = OK f' → frame_le f f'.
Proof.
  intros (sl & Hx & Hc & _ & ->)%assign_ok_inv.
  apply (frame_le_insert _ sl); [done|]. unfold slot_le. split_all; simpl; [done | done | congruence | eauto].
Qed.

Lemma frame_le_dom f f' : frame_le f f' → dom f ⊆ dom f'.
Proof.
  intros Hle x [sl Hx]%elem_of_dom. destruct (Hle x sl Hx) as (sl' & Hx' & _).
  apply elem_of_dom. eauto.
Qed.

Lemma frame_le_const x sl f f' : frame_le f f' → const_slot f x sl → const_slot f' x sl.
Proof.
  intros Hle [Hx Hc]. destruct (Hle x sl Hx) as (sl' & Hx' & _ & _ & Hk & _).
  rewrite (Hk Hc) in Hx'. by split.
Qed.

Lemma frame_le_read x v f f' : frame_le f f' → read x f = OK v → is_ok (read x f') = true.
Proof.
  intros Hle. unfold read. destruct (f !! x) as [sl|] eqn:Hx; [|done].
  destruct (slot_value sl) as [w|] eqn:Hw; [|done]. intros _.
  destruct (Hle x sl Hx) as (sl' & -> & _ & _ & _ & Hv).
  by destruct Hv as [w' ->]; [rewrite Hw; eauto|].
Qed.
End Extension.

(** ** The frames that a block can reach

    [frame_step]: one declaration, initialisation or assignment that
    completes, with a well-formed value.  The frames of a block are those
    reachable from the empty frame by such steps. *)

Section Reachable.
Context `{IntWidth}.
Implicit Types (x : string) (f : frame) (sl : slot) (v : value).

Inductive frame_step : relation frame :=
| step_declare x t f f' : declare x t f = OK f' → frame_step f f'
| step_init x t c v f f' : wf_value v → init x t c v f = OK f' → frame_step f f'
| step_assign x v f f' : wf_value v → assign x v f = OK f' → frame_step f f'.

Lemma frame_step_wf f f' : frame_step f f' → wf_frame f → wf_frame f'.
Proof.
  destruct 1; intros Hf; [by eapply declare_wf | by eapply init_wf | by eapply assign_wf].
Qed.

Lemma frame_step_le f f' : frame_step f f' → frame_le f f'.
Proof. destruct 1; [by eapply declare_le | by eapply init_le | by eapply assign_le]. Qed.

Lemma frame_steps_wf f f' : rtc frame_step f f' → wf_frame f → wf_frame f'.
Proof. induction 1 as [|f1 f2 f3 Hstep _ IH]; [done|]. intros. by eapply IH, frame_step_wf. Qed.

Lemma frame_steps_le f f' : rtc frame_step f f' → frame_le f f'.
Proof.
  induction 1 as [|f1 f2 f3 Hstep _ IH]; [done|].
  etrans; [by apply frame_step_le | done].
Qed.

(** C35: every frame that a block reaches from the empty frame is
    well-formed: whatever is read from it has the declared type of its
    variable and, if it is an [int], is representable; and a [const]
    variable can always be read. *)
Theorem reachable_wf f x sl :
  rtc frame_step ∅ f → f !! x = Some sl →
  (∀ v, read x f = OK v → type_of v = slot_type sl ∧ wf_value v) ∧
  (slot_const sl = true → is_ok (read x f) = true).
Proof.
  intros Hwf%frame_steps_wf Hx; [|apply wf_frame_empty].
  pose proof (wf_frame_lookup _ _ _ Hwf Hx) as Hsl.
  unfold read, wf_slot in *. rewrite Hx. destruct (slot_value sl) as [w|]; split.
  - by intros v [= <-].
  - done.
  - done.
  - congruence.
Qed.

(** C36: a [const] variable never changes: in every frame reached later
    it has the slot it was declared with, every assignment to it is
    rejected and it cannot be declared again. *)
Theorem const_stable f f' x sl v t :
  const_slot f x sl → rtc frame_step f f' →
  f' !! x = Some sl ∧ read x f' = read x f ∧
  assign x v f' = Err (ConstWrite x) ∧ declare x t f' = Err (Redeclared x).
Proof.
  intros Hc Hle%frame_steps_le.
  destruct (frame_le_const _ _ _ _ Hle Hc) as [Hx' Hk]. destruct Hc as [Hx _].
  split_all; [done | | by eapply assign_err_const | by apply declare_err].
  unfold read. by rewrite Hx, Hx'.
Qed.

(** C30: an assignment that completes stores the value and nothing else:
    the variable then reads as the value assigned, it keeps its type, which
    is the type of the value, every other variable is untouched and no
    variable is added or removed. *)
Theorem assign_read_roundtrip x v f f' :
  assign x v f = OK f' →
  read x f' = OK v ∧
  (∃ sl sl', f !! x = Some sl ∧ f' !! x = Some sl' ∧ slot_type sl' = slot_type sl ∧
             type_of v = slot_type sl) ∧
  (∀ y, y ≠ x → f' !! y = f !! y) ∧ dom f' = dom f.
Proof.
  intros Ha. split_all.
  - by eapply read_after_assign.
  - destruct (assign_ok_inv _ _ _ _ Ha) as (sl & Hx & _ & Ht & ->).
    exists sl. eexists. rewrite lookup_insert_eq. by split_all.
  - intros y Hy. by eapply assign_other.
  - by eapply assign_dom.
Qed.

(** A variable declared without initialiser has no value: reading it
    is an error until it is assigned, and an assignment of a value of its
    type makes it readable. *)
Theorem declared_uninitialised x t v f f' :
  declare x t f = OK f' → type_of v = t →
  read x f' = Err (UninitRead x) ∧
  ∃ f'', assign x v f' = OK f'' ∧ read x f'' = OK v.
Proof.
  intros Hd Ht. split; [by eapply read_after_declare|].
  destruct (declare_ok_inv _ _ _ _ Hd) as [_ ->].
  eexists. split; [by eapply assign_ok; [apply lookup_insert_eq|..]|].
  eapply read_ok; [apply lookup_insert_eq | done].
Qed.

(** A name is declared once in a block: once a variable is in the
    frame, every later declaration of the same name is rejected, with or
    without initialiser. *)
Theorem redeclaration_rejected x t c v f f' :
  is_Some (f !! x) → rtc frame_step f f' →
  declare x t f' = Err (Redeclared x) ∧ init x t c v f' = Err (Redeclared x).
Proof.
  intros [sl Hx] Hle%frame_steps_le. destruct (Hle x sl Hx) as (sl' & Hx' & _).
  split; [apply declare_err | apply init_err_redeclared]; eauto.
Qed.
End Reachable.

(** ** The theorems at the frame of [const int minutesPerHour = 60;] *)

Definition frame_const : frame := <["minutesPerHour" := Slot TInt true (Some (VInt 60))]> ∅.

Lemma frame_const_reachable : rtc (frame_step (H := int32)) ∅ frame_const.
Proof.
  apply rtc_once, (step_init "minutesPerHour" TInt true (VInt 60)); [by vm_compute | done].
Qed.

Lemma reachable_wf_witness :
  (∀ v, read "minutesPerHour" frame_const = OK v →
        type_of v = slot_type (Slot TInt true (Some (VInt 60))) ∧ wf_value (H := int32) v) ∧
  (slot_const (Slot TInt true (Some (VInt 60))) = true →
   is_ok (read "minutesPerHour" frame_const) = true).
Proof.
  exact (reachable_wf (H := int32) frame_const "minutesPerHour" _
           frame_const_reachable eq_refl).
Defined.

Definition frame_const_length : frame :=
  <["length" := Slot TInt false (Some (VInt 4))]> frame_const.

Lemma frame_const_later : rtc (frame_step (H := int32)) frame_const frame_const_length.
Proof.
  apply rtc_once, (step_init "length" TInt false (VInt 4)); [by vm_compute | done].
Qed.

Lemma const_stable_witness :
  frame_const_length !! "minutesPerHour" = Some (Slot TInt true (Some (VInt 60))) ∧
  read "minutesPerHour" frame_const_length = read "minutesPerHour" frame_const ∧
  assign "minutesPerHour" (VInt 61) frame_const_length = Err (ConstWrite "minutesPerHour") ∧
  declare "minutesPerHour" TInt frame_const_length = Err (Redeclared "minutesPerHour").
Proof.
  exact (const_stable (H := int32) frame_const frame_const_length "minutesPerHour" _
           (VInt 61) TInt (conj eq_refl eq_refl) frame_const_later).
Defined.

Lemma assign_read_roundtrip_witness :
  read "n" (<["n" := Slot TInt false (Some (VInt 10))]> (<["n" := Slot TInt false None]> ∅))
    = OK (VInt 10) ∧
  (∃ sl sl', (<["n" := Slot TInt false None]> ∅ : frame) !! "n" = Some sl ∧
     (<["n" := Slot TInt false (Some (VInt 10))]> (<["n" := Slot TInt false None]> ∅) : frame)
       !! "n" = Some sl' ∧
     slot_type sl' = slot_type sl ∧ type_of (VInt 10) = slot_type sl) ∧
  (∀ y, y ≠ "n" →
     (<["n" := Slot TInt false (Some (VInt 10))]> (<["n" := Slot TInt false None]> ∅) : frame)
       !! y = (<["n" := Slot TInt false None]> ∅ : frame) !! y) ∧
  dom (<["n" := Slot TInt false (Some (VInt 10))]> (<["n" := Slot TInt false None]> ∅) : frame)
    = dom (<["n" := Slot TInt false None]> ∅ : frame).
Proof.
  exact (assign_read_roundtrip "n" (VInt 10) (<["n" := Slot TInt false None]> ∅) _ eq_refl).
Defined.

Lemma declared_uninitialised_witness :
  read "n" (<["n" := Slot TInt false None]> ∅) = Err (UninitRead "n") ∧
  ∃ f'', assign "n" (VInt 10) (<["n" := Slot TInt false None]> ∅) = OK f'' ∧
         read "n" f'' = OK (VInt 10).
Proof. exact (declared_uninitialised "n" TInt (VInt 10) ∅ _ eq_refl eq_refl). Defined.

Lemma redeclaration_rejected_witness :
  declare "minutesPerHour" TInt frame_const_length = Err (Redeclared "minutesPerHour") ∧
  init "minutesPerHour" TInt false (VInt 1) frame_const_length
    = Err (Redeclared "minutesPerHour").
Proof.
  exact (redeclaration_rejected (H := int32) "minutesPerHour" TInt false (VInt 1)
           frame_const frame_const_length (mk_is_Some _ _ eq_refl) frame_const_later).
Defined.

#[export] Hint Resolve wf_frame_empty wf_frame_insert : cxx.
#[export] Hint Resolve declare_wf init_wf assign_wf read_wf read_int_wf : cxx.
#[export] Hint Resolve declare_le init_le assign_le : cxx.
