(* ===== verification/Program.v ===== *)
(** * The program: [main] of [src/CPP/3_variables.cpp]

    The state of [main] is its frame of local variables and the stream
    [std::cout].  Each statement of the source is one definition, a
    computation in [exec state]; [main_body] lists them in the order of the
    source and [main] runs them and returns 0.  The definitions are generic
    in the width of [int] and in the implementation of the stream.

    After the definitions: what each primitive step, expression and
    statement evaluates to ([Section Run], [Section Statements]).  The
    specifications of the statements are in [Specs]. *)

From Stdlib Require Import Floats.SpecFloat.
From stdpp Require Import gmap.
From S2P Require Import Prelude Result MachineInt Decimal Double Ostream Locals.

(** The character written for ["\n"]. *)
Definition newline : string := String "010" "".

(** The overload of [operator<<] for a variable is selected by its type; in
    a well-formed frame that is the type of its value. *)
#[export] Instance insert_value `{IntWidth} : Insertable value := λ fl v,
  match v with
  | VInt z => format fl z
  | VDouble d => format fl d
  | VChar c => format fl c
  | VString s => format fl s
  | VBool b => format fl b
  end.

Section Program.
Context `{IntWidth} {S : Type} `{OStream S}.

Record state : Type := State {
  locals : frame;
  cout : S
}.

(** ** Primitive steps *)

(** A declaration or an assignment: an operation on the frame. *)
Definition on_locals (op : frame → res frame) : exec state unit := λ s,
  match op (locals s) with
  | OK f => OK (tt, State f (cout s))
  | Err e => Err e
  end.

(** An expression that reads the frame. *)
Definition eval {A} (e : frame → res A) : exec state A := λ s,
  match e (locals s) with
  | OK a => OK (a, s)
  | Err e => Err e
  end.

(** [cout << x] *)
Definition print {A} `{Insertable A} (x : A) : exec state unit := λ s,
  OK (tt, State (locals s) (cout s << x)).

(** [cout << x] for a variable [x] *)
Definition print_var (x : string) : exec state unit :=
  v ← eval (read x); print v.

(** [x = v] as an expression: the assignment, then the value of [x]. *)
Definition assign_expr (x : string) (v : value) : exec state value :=
  on_locals (assign x v) ;; eval (read x).

(** ** The statements, in the order of the source *)

(** [int n;] *)
Definition decl_n : exec state unit := on_locals (declare "n" TInt).

(** [n = 10;] *)
Definition assign_n : exec state unit := on_locals (assign "n" (VInt 10)).

(** [int myNum = 5;] *)
Definition init_myNum : exec state unit :=
  on_locals (init "myNum" TInt false (VInt 5)).

(** [double myFloatNum = 5.99;] *)
Definition init_myFloatNum : exec state unit :=
  on_locals (init "myFloatNum" TDouble false (VDouble (double_lit 599 2))).

(** [char myLetter = 'D';] *)
Definition init_myLetter : exec state unit :=
  on_locals (init "myLetter" TChar false (VChar "D")).

(** [string myText = "Hello";] *)
Definition init_myText : exec state unit :=
  on_locals (init "myText" TString false (VString "Hello")).

(** [bool myBoolean = true;] *)
Definition init_myBoolean : exec state unit :=
  on_locals (init "myBoolean" TBool false (VBool true)).

(** [cout << n << myNum << myFloatNum << myLetter << myText << myBoolean <<"\n";] *)
Definition print_primitives : exec state unit :=
  print_var "n" ;; print_var "myNum" ;; print_var "myFloatNum" ;;
  print_var "myLetter" ;; print_var "myText" ;; print_var "myBoolean" ;;
  print newline.

(** [int x = 4, y = 6, z = 9;] *)
Definition init_xyz : exec state unit :=
  on_locals (init "x" TInt false (VInt 4)) ;;
  on_locals (init "y" TInt false (VInt 6)) ;;
  on_locals (init "z" TInt false (VInt 9)).

(** The expression [x+y+z], that is [(x + y) + z]. *)
Definition sum_xyz : exec state Z :=
  x ← eval (read_int "x");
  y ← eval (read_int "y");
  xy ← lift (int_add x y);
  z ← eval (read_int "z");
  lift (int_add xy z).

(** [cout << "\n" << x+y+z;] (lines 19 and 23) *)
Definition print_sum : exec state unit :=
  print newline ;; s ← sum_xyz; print s.

(** [x = y = z = 50;], that is [x = (y = (z = 50))] *)
Definition chain_assign : exec state unit :=
  v ← assign_expr "z" (VInt 50);
  v ← assign_expr "y" v;
  _ ← assign_expr "x" v;
  mret tt.

(** [const int minutesPerHour = 60;] *)
Definition init_minutesPerHour : exec state unit :=
  on_locals (init "minutesPerHour" TInt true (VInt 60)).

(** [cout << "##################################\n";] *)
Definition print_separator : exec state unit :=
  print ("##################################" +:+ newline).

(** [int length = 4;] *)
Definition init_length : exec state unit :=
  on_locals (init "length" TInt false (VInt 4)).

(** [int width = 6;] *)
Definition init_width : exec state unit :=
  on_locals (init "width" TInt false (VInt 6)).

(** The expression [length * width]. *)
Definition area_expr : exec state Z :=
  l ← eval (read_int "length");
  w ← eval (read_int "width");
  lift (int_mul l w).

(** [int area = length * width;] *)
Definition init_area : exec state unit :=
  a ← area_expr; on_locals (init "area" TInt false (VInt a)).

(** [cout << "Length is: " << length << "\n";] *)
Definition print_length : exec state unit :=
  print "Length is: " ;; print_var "length" ;; print newline.

(** [cout << "Width is: " << width << "\n";] *)
Definition print_width : exec state unit :=
  print "Width is: " ;; print_var "width" ;; print newline.

(** [cout << "Area of the rectangle is: " << area << "\n";] *)
Definition print_area : exec state unit :=
  print "Area of the rectangle is: " ;; print_var "area" ;; print newline.

(** ** [main] *)

Definition main_body : list (exec state unit) :=
  [ decl_n; assign_n;
    init_myNum; init_myFloatNum; init_myLetter; init_myText; init_myBoolean;
    print_primitives;
    init_xyz; print_sum;
    chain_assign; print_sum;
    init_minutesPerHour;
    print_separator;
    init_length; init_width; init_area;
    print_length; print_width; print_area ].

(** [int main() { ...; return 0; }] *)
Definition main : exec state Z := seq main_body ;; mret 0.

(** The state in which [main] is entered. *)
Definition initial (o : S) : state := State ∅ o.
End Program.

Arguments state S : clear implicits.
Arguments State {S} locals cout.

(** * Running the statements

    The lemmas of this section say what each primitive step, expression and
    statement evaluates to on a state [State f o].  They hold for every
    stream, lawful or not: the final stream is given as the term built by
    the insertions. *)

Section Run.
Context `{IntWidth} {S : Type} `{OStream S}.
Implicit Types (f : frame) (o : S) (x : string) (v : value).

Lemma on_locals_run op f f' o :
  op f = OK f' → on_locals op (State f o) = OK (tt, State f' o).
Proof. unfold on_locals; simpl. by intros ->. Qed.

Lemma on_locals_fail op f e o : op f = Err e → on_locals op (State f o) = Err e.
Proof. unfold on_locals; simpl. by intros ->. Qed.

Lemma on_locals_inv op (s s' : state S) u :
  on_locals op s = OK (u, s') → op (locals s) = OK (locals s') ∧ cout s' = cout s.
Proof. unfold on_locals. destruct (op (locals s)); [by intros [= <- <-] | done]. Qed.

Lemma eval_run {A} (e : frame → res A) f a o :
  e f = OK a → eval e (State f o) = OK (a, State f o).
Proof. unfold eval; simpl. by intros ->. Qed.

Lemma eval_fail {A} (e : frame → res A) f err o :
  e f = Err err → eval e (State f o) = Err err.
Proof. unfold eval; simpl. by intros ->. Qed.

Lemma eval_inv {A} (e : frame → res A) (s s' : state S) a :
  eval e s = OK (a, s') → e (locals s) = OK a ∧ s' = s.
Proof. unfold eval. destruct (e (locals s)); [by intros [= <- <-] | done]. Qed.

Lemma print_run {A} `{Insertable A} (a : A) f o :
  print a (State f o) = OK (tt, State f (o << a)).
Proof. done. Qed.

Lemma print_var_run x v f o :
  read x f = OK v → print_var x (State f o) = OK (tt, State f (o << v)).
Proof. intros Hr. unfold print_var. by erewrite bind_ok by (by apply eval_run). Qed.

Lemma print_var_fail x e f o : read x f = Err e → print_var x (State f o) = Err e.
Proof. intros Hr. unfold print_var. by erewrite bind_err by (by apply eval_fail). Qed.

Lemma assign_expr_run x v f f' o :
  assign x v f = OK f' → assign_expr x v (State f o) = OK (v, State f' o).
Proof.
  intros Ha. unfold assign_expr.
  erewrite bind_ok by (by apply on_locals_run).
  by apply eval_run, (read_after_assign x v f).
Qed.

Lemma assign_expr_fail x v f e o :
  assign x v f = Err e → assign_expr x v (State f o) = Err e.
Proof.
  intros Ha. unfold assign_expr. by erewrite bind_err by (by apply on_locals_fail).
Qed.

(** One statement of a sequence. *)
Lemma seq_step (c : exec (state S) unit) cs (s s' : state S) :
  c s = OK (tt, s') → seq (c :: cs) s = seq cs s'.
Proof. intros Hc. simpl. by erewrite bind_ok. Qed.

Lemma seq_fail (c : exec (state S) unit) cs (s : state S) e :
  c s = Err e → seq (c :: cs) s = Err e.
Proof. intros Hc. simpl. by erewrite bind_err. Qed.

(** ** Expressions *)

Lemma sum_xyz_run f o (x y z : Z) :
  read_int "x" f = OK x → read_int "y" f = OK y → read_int "z" f = OK z →
  in_range (x + y) → in_range (x + y + z) →
  sum_xyz (State f o) = OK (x + y + z, State f o).
Proof.
  intros Hx Hy Hz Hxy Hxyz. unfold sum_xyz.
  do 2 erewrite bind_ok by (by apply eval_run).
  erewrite bind_ok by (by apply lift_ok, checked_ok).
  erewrite bind_ok by (by apply eval_run).
  by apply lift_ok, checked_ok.
Qed.

Lemma sum_xyz_overflow_xy f o (x y : Z) :
  read_int "x" f = OK x → read_int "y" f = OK y → ¬ in_range (x + y) →
  sum_xyz (State f o) = Err SignedOverflow.
Proof.
  intros Hx Hy Hxy. unfold sum_xyz.
  do 2 erewrite bind_ok by (by apply eval_run).
  by erewrite bind_err by (by apply lift_err, checked_err).
Qed.

Lemma sum_xyz_overflow_xyz f o (x y z : Z) :
  read_int "x" f = OK x → read_int "y" f = OK y → read_int "z" f = OK z →
  in_range (x + y) → ¬ in_range (x + y + z) →
  sum_xyz (State f o) = Err SignedOverflow.
Proof.
  intros Hx Hy Hz Hxy Hxyz. unfold sum_xyz.
  do 2 erewrite bind_ok by (by apply eval_run).
  erewrite bind_ok by (by apply lift_ok, checked_ok).
  erewrite bind_ok by (by apply eval_run).
  by apply lift_err, checked_err.
Qed.

Lemma area_expr_run f o l w :
  read_int "length" f = OK l → read_int "width" f = OK w → in_range (l * w) →
  area_expr (State f o) = OK (l * w, State f o).
Proof.
  intros Hl Hw Hlw. unfold area_expr.
  do 2 erewrite bind_ok by (by apply eval_run).
  by apply lift_ok, checked_ok.
Qed.

Lemma area_expr_overflow f o l w :
  read_int "length" f = OK l → read_int "width" f = OK w → ¬ in_range (l * w) →
  area_expr (State f o) = Err SignedOverflow.
Proof.
  intros Hl Hw Hlw. unfold area_expr.
  do 2 erewrite bind_ok by (by apply eval_run).
  by apply lift_err, checked_err.
Qed.
End Run.

(** [exec_one] proves that a primitive step or an expression completes, from
    the facts on the frame in the context; [exec_run] runs the binds of a
    statement with it. *)
Ltac exec_one :=
  first [ by apply print_run
        | by apply print_var_run
        | by apply eval_run
        | by apply on_locals_run
        | by apply assign_expr_run
        | by apply sum_xyz_run
        | by apply area_expr_run ].

Ltac exec_run := repeat (erewrite bind_ok by exec_one).

Section Statements.
Context `{IntWidth} {S : Type} `{OStream S}.
Implicit Types (f : frame) (o : S) (v : value).

(** ** Line 15 *)

Lemma print_primitives_run f o vn vm vf vl vt vb :
  read "n" f = OK vn → read "myNum" f = OK vm → read "myFloatNum" f = OK vf →
  read "myLetter" f = OK vl → read "myText" f = OK vt → read "myBoolean" f = OK vb →
  print_primitives (State f o) =
  OK (tt, State f (o << vn << vm << vf << vl << vt << vb << newline)).
Proof. intros. unfold print_primitives. exec_run. exec_one. Qed.

(** ** Lines 19 and 23 *)

Lemma print_sum_run f o (x y z : Z) :
  read_int "x" f = OK x → read_int "y" f = OK y → read_int "z" f = OK z →
  in_range (x + y) → in_range (x + y + z) →
  print_sum (State f o) = OK (tt, State f (o << newline << (x + y + z))).
Proof. intros. unfold print_sum. exec_run. exec_one. Qed.

Lemma print_sum_overflow f o (x y z : Z) :
  read_int "x" f = OK x → read_int "y" f = OK y → read_int "z" f = OK z →
  ¬ (in_range (x + y) ∧ in_range (x + y + z)) →
  print_sum (State f o) = Err SignedOverflow.
Proof.
  intros Hx Hy Hz Hr. unfold print_sum. exec_run. apply bind_err.
  destruct (decide (in_range (x + y))).
  - eapply sum_xyz_overflow_xyz; eauto.
  - eapply sum_xyz_overflow_xy; eauto.
Qed.

(** ** Line 22 *)

Lemma chain_assign_run f o :
  int_var f "x" → int_var f "y" → int_var f "z" →
  chain_assign (State f o) =
  OK (tt, State (<["x" := Slot TInt false (Some (VInt 50))]>
                (<["y" := Slot TInt false (Some (VInt 50))]>
                 (<["z" := Slot TInt false (Some (VInt 50))]> f))) o).
Proof.
  intros Hx Hy Hz. unfold chain_assign.
  erewrite bind_ok by (by apply assign_expr_run, assign_int_ok).
  erewrite bind_ok
    by (by apply assign_expr_run, assign_int_ok, int_var_insert_ne).
  by erewrite bind_ok
    by (apply assign_expr_run, assign_int_ok;
        by repeat (apply int_var_insert_ne; [|done])).
Qed.

Lemma chain_assign_fail f o x e :
  x ∈ ["z"; "y"; "x"] → assign x (VInt 50) f = Err e →
  (∀ y, y ∈ ["z"; "y"; "x"] → y ≠ x → int_var f y) →
  chain_assign (State f o) = Err e.
Proof.
  intros Hx He Hothers. unfold chain_assign.
  set_unfold in Hx. destruct_or! Hx; subst x.
  - by erewrite bind_err by (by apply assign_expr_fail).
  - erewrite bind_ok
      by (apply assign_expr_run, assign_int_ok, Hothers; set_solver).
    by erewrite bind_err by (by apply assign_expr_fail, assign_err_insert_ne).
  - erewrite bind_ok
      by (apply assign_expr_run, assign_int_ok, Hothers; set_solver).
    erewrite bind_ok
      by (apply assign_expr_run, assign_int_ok, int_var_insert_ne;
          [apply Hothers; set_solver | done]).
    by erewrite bind_err
      by (by apply assign_expr_fail; do 2 (apply assign_err_insert_ne; [done|])).
Qed.

(** ** Line 38 *)

Lemma init_area_run f o (l w : Z) :
  read_int "length" f = OK l → read_int "width" f = OK w → in_range (l * w) →
  f !! "area" = None →
  init_area (State f o) =
  OK (tt, State (<["area" := Slot TInt false (Some (VInt (l * w)))]> f) o).
Proof.
  intros. unfold init_area. exec_run. by apply on_locals_run, init_ok.
Qed.

Lemma init_area_overflow f o (l w : Z) :
  read_int "length" f = OK l → read_int "width" f = OK w → ¬ in_range (l * w) →
  init_area (State f o) = Err SignedOverflow.
Proof.
  intros. unfold init_area. by erewrite bind_err by (by eapply area_expr_overflow).
Qed.

(** ** Lines 41 to 43 *)

Lemma print_length_run f o v :
  read "length" f = OK v →
  print_length (State f o) = OK (tt, State f (o << "Length is: " << v << newline)).
Proof. intros. unfold print_length. exec_run. exec_one. Qed.

Lemma print_width_run f o v :
  read "width" f = OK v →
  print_width (State f o) = OK (tt, State f (o << "Width is: " << v << newline)).
Proof. intros. unfold print_width. exec_run. exec_one. Qed.

Lemma print_area_run f o v :
  read "area" f = OK v →
  print_area (State f o) =
  OK (tt, State f (o << "Area of the rectangle is: " << v << newline)).
Proof. intros. unfold print_area. exec_run. exec_one. Qed.
End Statements.
