(* ===== verification/Specs.v ===== *)
(** * Specifications of the statements of [main]

    What the statements of [Program] promise, for every frame that satisfies
    their preconditions and every lawful stream: the text that is appended,
    the variables that change, and the cases in which the statement is
    undefined.  Each specification is then applied to a concrete frame, with
    [int] of 32 bits and the unbuffered stream.  The file ends with the text
    that is written for an [int] and for a [double] variable and with the
    values that the program computes. *)

From Stdlib Require Import Floats.SpecFloat.
From stdpp Require Import gmap.
From S2P Require Import Prelude Result MachineInt Decimal DecimalRef Double Ostream Locals.
From S2P Require Import DoubleText Program.

Section Specs.
Context `{IntWidth} {S : Type} `{OStreamLaws S}.
Implicit Types (f : frame) (o : S) (v : value).

(** C14: [cout << "\n" << x+y+z;] in any frame in which [x], [y] and [z] are
    [int]s with values and both sums are representable: a line break and
    the decimal digits of [x + y + z] are appended (after [x = 4, y = 6,
    z = 9] that is 19, after the chained assignment 150), the digits read
    back as the sum, and neither the frame nor the flags change. *)
Theorem print_sum_spec f o (x y z : Z) :
  read_int "x" f = OK x → read_int "y" f = OK y → read_int "z" f = OK z →
  in_range (x + y) → in_range (x + y + z) →
  ∃ o', print_sum (State f o) = OK (tt, State f o') ∧
        os_text o' = os_text o +:+ newline +:+ render_int int_capacity (x + y + z) ∧
        parse_int (render_int int_capacity (x + y + z)) = Some (x + y + z) ∧
        os_flags o' = os_flags o.
Proof.
  intros Hx Hy Hz Hxy Hxyz. eexists. split; [by apply print_sum_run|].
  rewrite !insert_text, !insert_flags, <- str_app_assoc.
  split_all; [done | by apply (parse_format_int (os_flags o)) | done].
Qed.

(** C15: [x = y = z = 50;] in any frame in which [x], [y] and [z] are
    assignable [int]s (with or without a value): afterwards each of the
    three holds 50, no other variable has changed, no variable has been
    added, and nothing has been written. *)
Theorem chain_assign_spec f o :
  int_var f "x" → int_var f "y" → int_var f "z" →
  ∃ f', chain_assign (State f o) = OK (tt, State f' o) ∧
        read_int "x" f' = OK 50 ∧ read_int "y" f' = OK 50 ∧ read_int "z" f' = OK 50 ∧
        (∀ w, w ∉ ["x"; "y"; "z"] → f' !! w = f !! w) ∧ dom f' = dom f.
Proof.
  intros Hx Hy Hz. eexists. split; [by apply chain_assign_run|].
  split_all.
  - apply read_int_insert.
  - rewrite read_int_insert_ne by done. apply read_int_insert.
  - rewrite !read_int_insert_ne by done. apply read_int_insert.
  - intros w Hw. rewrite !lookup_insert_ne; [done | set_solver..].
  - destruct Hx as (? & Hx & _), Hy as (? & Hy & _), Hz as (? & Hz & _).
    rewrite !dom_insert_lookup_L; rewrite ?lookup_insert_ne by done; eauto.
Qed.

(** C19: the sum of line 19 is evaluated as [(x + y) + z]; if either
    addition leaves the range of [int] the statement has undefined
    behaviour, also when [x + y + z] itself is representable. *)
Theorem print_sum_undefined f o (x y z : Z) :
  read_int "x" f = OK x → read_int "y" f = OK y → read_int "z" f = OK z →
  ¬ in_range (x + y) ∨ ¬ in_range (x + y + z) →
  print_sum (State f o) = Err SignedOverflow.
Proof. intros Hx Hy Hz Hr. eapply print_sum_overflow; eauto. tauto. Qed.

(** C26: [int area = length * width;] in any frame in which [length] and
    [width] are [int]s with values, their product is representable and
    [area] is not yet declared: [area] is declared with the product as its
    value, no other variable changes and nothing is written. *)
Theorem init_area_spec f o (l w : Z) :
  read_int "length" f = OK l → read_int "width" f = OK w → f !! "area" = None →
  in_range (l * w) →
  ∃ f', init_area (State f o) = OK (tt, State f' o) ∧
        read_int "area" f' = OK (l * w) ∧ int_var f' "area" ∧
        (∀ x, x ≠ "area" → f' !! x = f !! x).
Proof.
  intros Hl Hw Ha Hlw. eexists. split; [by apply init_area_run|].
  split_all; [apply read_int_insert | by apply int_var_insert |].
  intros x Hx. by rewrite lookup_insert_ne.
Qed.

(** C20: when the product [length * width] is not representable, the
    initialisation of [area] has undefined behaviour. *)
Theorem init_area_undefined f o (l w : Z) :
  read_int "length" f = OK l → read_int "width" f = OK w → ¬ in_range (l * w) →
  init_area (State f o) = Err SignedOverflow.
Proof. intros. by eapply init_area_overflow. Qed.

(** C16: lines 38 to 43 in any frame in which [length] and [width] are [int]s
    with values [l] and [w], their product is representable and [area] is
    not yet declared: the three labelled lines are appended, the third one
    reporting [l * w], and [area] holds [l * w].  (For [l = 4] and [w = 6]
    the lines are [Length is: 4], [Width is: 6] and [Area of the rectangle
    is: 24].) *)
Theorem rectangle_report_spec f o (l w : Z) :
  read_int "length" f = OK l → read_int "width" f = OK w → f !! "area" = None →
  in_range (l * w) →
  ∃ f' o', (init_area ;; print_length ;; print_width ;; print_area) (State f o)
             = OK (tt, State f' o') ∧
           read_int "area" f' = OK (l * w) ∧
           os_text o' = os_text o +:+
             "Length is: " +:+ render_int int_capacity l +:+ newline +:+
             "Width is: " +:+ render_int int_capacity w +:+ newline +:+
             "Area of the rectangle is: " +:+ render_int int_capacity (l * w) +:+ newline.
Proof.
  intros Hl%read_int_read Hw%read_int_read Ha Hlw. do 2 eexists. split.
  - erewrite bind_ok by (by apply init_area_run; try apply read_read_int).
    erewrite bind_ok
      by (by apply (print_length_run _ _ (VInt l)); rewrite read_insert_ne).
    erewrite bind_ok
      by (by apply (print_width_run _ _ (VInt w)); rewrite read_insert_ne).
    apply (print_area_run _ _ (VInt (l * w))), read_int_read, read_int_insert.
  - split; [apply read_int_insert|].
    rewrite !insert_text, !insert_flags. by rewrite <- !str_app_assoc.
Qed.

(** C17: line 15 in any frame in which the six variables have values of
    their types: the texts of [n], [myNum], [myFloatNum], [myLetter],
    [myText] and [myBoolean] are appended in this order with nothing
    between them, then a line break. *)
Theorem print_primitives_spec f o (n m : Z) (d : double) (c : ascii) (t : string) (b : bool) :
  read "n" f = OK (VInt n) → read "myNum" f = OK (VInt m) →
  read "myFloatNum" f = OK (VDouble d) → read "myLetter" f = OK (VChar c) →
  read "myText" f = OK (VString t) → read "myBoolean" f = OK (VBool b) →
  ∃ o', print_primitives (State f o) = OK (tt, State f o') ∧
        os_text o' = os_text o +:+
          render_int int_capacity n +:+ render_int int_capacity m +:+
          fmt_general (precision (os_flags o)) d +:+ String c "" +:+ t +:+
          format (os_flags o) b +:+ newline ∧
        os_flags o' = os_flags o.
Proof.
  intros. eexists. split; [by apply print_primitives_run|].
  rewrite !insert_text, !insert_flags. by rewrite <- !str_app_assoc.
Qed.

(** C24: [int n;] gives [n] no value: printing [n] directly after its
    declaration would read an indeterminate value (undefined behaviour);
    the assignment of line 7 makes the read defined. *)
Theorem read_before_assign_undefined f o :
  f !! "n" = None →
  (decl_n ;; print_var "n") (State f o) = Err (UninitRead "n") ∧
  ∃ f', (decl_n ;; assign_n ;; print_var "n") (State f o)
          = OK (tt, State f' (o << VInt 10)).
Proof.
  intros Hn. split.
  - unfold decl_n. erewrite bind_ok by (by apply on_locals_run, declare_ok).
    eapply print_var_fail, read_err_uninit; [apply lookup_insert_eq | done].
  - eexists. unfold decl_n, assign_n.
    erewrite bind_ok by (by apply on_locals_run, declare_ok).
    erewrite bind_ok
      by (by eapply on_locals_run, assign_ok; [apply lookup_insert_eq|..]).
    eapply print_var_run, read_ok; [apply lookup_insert_eq | done].
Qed.

(** C25: [minutesPerHour] is [const]: an assignment to it after its
    declaration is rejected, whatever the value. *)
Theorem const_is_read_only f o v :
  f !! "minutesPerHour" = None →
  (init_minutesPerHour ;; on_locals (assign "minutesPerHour" v)) (State f o)
    = Err (ConstWrite "minutesPerHour").
Proof.
  intros Hm. unfold init_minutesPerHour.
  erewrite bind_ok by (by apply on_locals_run, init_ok).
  eapply on_locals_fail, assign_err_const; [apply lookup_insert_eq | done].
Qed.
End Specs.

(** C27: [double myFloatNum = 5.99;] stores the binary64 value nearest to
    5.99, which is not 5.99: its mantissa [m] has 53 bits, its exponent is
    -50, it differs from 5.99 by at most half a unit in the last place and
    by more than nothing.  The stream's default precision of six digits
    hides the difference ([5.99]); seventeen digits show it. *)
Theorem myFloatNum_value `{IntWidth} {S : Type} `{OStream S} (f : frame) (o : S) :
  f !! "myFloatNum" = None →
  ∃ f' m e, init_myFloatNum (State f o) = OK (tt, State f' o) ∧
    read "myFloatNum" f' = OK (VDouble (S754_finite false m e)) ∧
    e = -50 ∧ 2 ^ 52 ≤ Z.pos m < 2 ^ 53 ∧
    Z.abs (100 * Z.pos m - 599 * 2 ^ 50) ≤ 50 ∧
    100 * Z.pos m ≠ 599 * 2 ^ 50 ∧
    fmt_general 6 (S754_finite false m e) = "5.99" ∧
    fmt_general 17 (S754_finite false m e) = "5.9900000000000002".
Proof.
  intros Hf. do 3 eexists. split; [by apply on_locals_run, init_ok|].
  split; [eapply read_ok; [apply lookup_insert_eq | reflexivity]|].
  split_all; by vm_compute.
Qed.

(** * The specifications at concrete frames

    Each specification applied to a frame that satisfies its hypotheses,
    with [int] of 32 bits and the unbuffered stream. *)

Definition int_slot (z : Z) : slot := Slot TInt false (Some (VInt z)).

Definition frame_xyz (x y z : Z) : frame :=
  <["x" := int_slot x]> (<["y" := int_slot y]> (<["z" := int_slot z]> ∅)).

Definition frame_rect (l w : Z) : frame :=
  <["length" := int_slot l]> (<["width" := int_slot w]> ∅).

Definition frame_primitives : frame :=
  list_to_map
    [ ("n", int_slot 10); ("myNum", int_slot 5);
      ("myFloatNum", Slot TDouble false (Some (VDouble (double_lit 599 2))));
      ("myLetter", Slot TChar false (Some (VChar "D")));
      ("myText", Slot TString false (Some (VString "Hello")));
      ("myBoolean", Slot TBool false (Some (VBool true))) ].

Lemma frame_xyz_int_var (a b c : Z) (x : string) :
  x ∈ ["x"; "y"; "z"] → int_var (frame_xyz a b c) x.
Proof.
  rewrite !elem_of_cons, elem_of_nil. intros Hx.
  destruct_or! Hx; try done; subst x; eexists; (split; [reflexivity | done]).
Qed.

Lemma in_range32_small (z : Z) : bool_decide (-32768 ≤ z ≤ 32767) = true → in_range (H := int32) z.
Proof. intros Hz%bool_decide_eq_true. unfold in_range, int_min, int_max; simpl. lia. Qed.

Lemma print_sum_spec_witness :
  ∃ o', print_sum (H := int32) (State (frame_xyz 4 6 9) cout_init)
          = OK (tt, State (frame_xyz 4 6 9) o') ∧
        os_text o' = os_text cout_init +:+ newline +:+ render_int (int_capacity (H := int32)) (4 + 6 + 9) ∧
        parse_int (render_int (int_capacity (H := int32)) (4 + 6 + 9)) = Some (4 + 6 + 9) ∧
        os_flags o' = os_flags cout_init.
Proof.
  exact (print_sum_spec (H := int32) (frame_xyz 4 6 9) cout_init 4 6 9
           eq_refl eq_refl eq_refl
           (in_range32_small (4 + 6) eq_refl) (in_range32_small (4 + 6 + 9) eq_refl)).
Defined.

Lemma chain_assign_spec_witness :
  ∃ f', chain_assign (State (frame_xyz 4 6 9) cout_init) = OK (tt, State f' cout_init) ∧
        read_int "x" f' = OK 50 ∧ read_int "y" f' = OK 50 ∧ read_int "z" f' = OK 50 ∧
        (∀ w, w ∉ ["x"; "y"; "z"] → f' !! w = frame_xyz 4 6 9 !! w) ∧
        dom f' = dom (frame_xyz 4 6 9).
Proof.
  exact (chain_assign_spec (frame_xyz 4 6 9) cout_init
           (frame_xyz_int_var 4 6 9 "x" ltac:(set_solver))
           (frame_xyz_int_var 4 6 9 "y" ltac:(set_solver))
           (frame_xyz_int_var 4 6 9 "z" ltac:(set_solver))).
Defined.

Lemma not_in_range32 (z : Z) : bool_decide (2147483647 < z) = true → ¬ in_range (H := int32) z.
Proof. intros Hz%bool_decide_eq_true. unfold in_range, int_min, int_max; simpl. lia. Qed.

(** [x + y] overflows although [x + y + z] is representable. *)
Lemma print_sum_undefined_witness :
  in_range (H := int32) (2147483647 + 1 + -1) ∧
  print_sum (H := int32) (State (frame_xyz 2147483647 1 (-1)) cout_init) = Err SignedOverflow.
Proof.
  split; [by vm_compute|].
  exact (print_sum_undefined (H := int32) (frame_xyz 2147483647 1 (-1)) cout_init
           2147483647 1 (-1) eq_refl eq_refl eq_refl
           (or_introl (not_in_range32 (2147483647 + 1) eq_refl))).
Defined.

Lemma init_area_spec_witness :
  ∃ f', init_area (H := int32) (State (frame_rect 4 6) cout_init) = OK (tt, State f' cout_init) ∧
        read_int "area" f' = OK (4 * 6) ∧ int_var f' "area" ∧
        (∀ x, x ≠ "area" → f' !! x = frame_rect 4 6 !! x).
Proof.
  exact (init_area_spec (H := int32) (frame_rect 4 6) cout_init 4 6
           eq_refl eq_refl eq_refl (in_range32_small (4 * 6) eq_refl)).
Defined.

Lemma init_area_undefined_witness :
  init_area (H := int32) (State (frame_rect 65536 32768) cout_init) = Err SignedOverflow.
Proof.
  exact (init_area_undefined (H := int32) (frame_rect 65536 32768) cout_init 65536 32768
           eq_refl eq_refl (not_in_range32 (65536 * 32768) eq_refl)).
Defined.

Lemma rectangle_report_spec_witness :
  ∃ f' o', (init_area (H := int32) ;; print_length (H := int32) ;;
            print_width (H := int32) ;; print_area (H := int32))
             (State (frame_rect 4 6) cout_init) = OK (tt, State f' o') ∧
           read_int "area" f' = OK (4 * 6) ∧
           os_text o' = os_text cout_init +:+
             "Length is: " +:+ render_int (int_capacity (H := int32)) 4 +:+ newline +:+
             "Width is: " +:+ render_int (int_capacity (H := int32)) 6 +:+ newline +:+
             "Area of the rectangle is: " +:+
               render_int (int_capacity (H := int32)) (4 * 6) +:+ newline.
Proof.
  exact (rectangle_report_spec (H := int32) (frame_rect 4 6) cout_init 4 6
           eq_refl eq_refl eq_refl (in_range32_small (4 * 6) eq_refl)).
Defined.

Lemma print_primitives_spec_witness :
  ∃ o', print_primitives (H := int32) (State frame_primitives cout_init)
          = OK (tt, State frame_primitives o') ∧
        os_text o' = os_text cout_init +:+
          render_int (int_capacity (H := int32)) 10 +:+
          render_int (int_capacity (H := int32)) 5 +:+
          fmt_general (precision (os_flags cout_init)) (double_lit 599 2) +:+
          String "D" "" +:+ "Hello" +:+ format (os_flags cout_init) true +:+ newline ∧
        os_flags o' = os_flags cout_init.
Proof.
  exact (print_primitives_spec (H := int32) frame_primitives cout_init
           10 5 (double_lit 599 2) "D" "Hello" true
           eq_refl eq_refl eq_refl eq_refl eq_refl eq_refl).
Defined.

Lemma read_before_assign_undefined_witness :
  (decl_n ;; print_var (H := int32) "n") (State ∅ cout_init) = Err (UninitRead "n") ∧
  ∃ f', (decl_n ;; assign_n ;; print_var (H := int32) "n") (State ∅ cout_init)
          = OK (tt, State f' (insert (H0 := insert_value (H := int32)) cout_init (VInt 10))).
Proof. exact (read_before_assign_undefined (H := int32) ∅ cout_init eq_refl). Defined.

Lemma const_is_read_only_witness :
  (init_minutesPerHour ;; on_locals (assign "minutesPerHour" (VInt 61))) (State ∅ cout_init)
    = Err (ConstWrite "minutesPerHour").
Proof. exact (const_is_read_only ∅ cout_init (VInt 61) eq_refl). Defined.

Lemma myFloatNum_value_witness :
  ∃ f' m e, init_myFloatNum (State ∅ cout_init) = OK (tt, State f' cout_init) ∧
    read "myFloatNum" f' = OK (VDouble (S754_finite false m e)) ∧
    e = -50 ∧ 2 ^ 52 ≤ Z.pos m < 2 ^ 53 ∧
    Z.abs (100 * Z.pos m - 599 * 2 ^ 50) ≤ 50 ∧
    100 * Z.pos m ≠ 599 * 2 ^ 50 ∧
    fmt_general 6 (S754_finite false m e) = "5.99" ∧
    fmt_general 17 (S754_finite false m e) = "5.9900000000000002".
Proof. exact (myFloatNum_value (H := int32) ∅ cout_init eq_refl). Defined.

(** * The text of an [int] variable *)

Section IntText.
Context `{IntWidth}.

(** C37: for every width of [int] and all flags, the text that
    [cout << x] writes for an [int] variable determines its value: it reads
    back as the value, two values with the same text are equal, and the
    text has between one character and a sign and [int_capacity + 1]
    digits. *)
Theorem int_text_roundtrip (fl : fmtflags) (y z : Z) :
  in_range y → in_range z →
  parse_int (insert_value fl (VInt z)) = Some z ∧
  (insert_value fl (VInt y) = insert_value fl (VInt z) → y = z) ∧
  (1 ≤ String.length (insert_value fl (VInt z)) ≤ int_capacity + 2)%nat.
Proof.
  intros Hy%in_range_capacity Hz%in_range_capacity. split_all.
  - by apply parse_render_int.
  - by apply render_int_inj.
  - apply render_int_length.
  - apply render_int_length.
Qed.

(** C38: the digit loop of the formatter ends within its buffer for every
    [int]: a larger buffer gives the same text, which is an optional minus
    sign followed by digits only. *)
Theorem int_text_terminates (fl : fmtflags) (z : Z) (cap : nat) :
  in_range z → (int_capacity ≤ cap)%nat →
  render_int cap z = insert_value fl (VInt z) ∧
  ∃ ds, all_digits ds ∧ ds ≠ "" ∧
        insert_value fl (VInt z) = (if decide (z < 0) then "-" else "") +:+ ds.
Proof.
  intros Hz%in_range_capacity Hcap. split; [by apply render_int_fuel|].
  unfold format, insert_value, format, insert_int, render_int.
  exists (render_unsigned int_capacity (Z.abs z)).
  split_all; [apply render_unsigned_all_digits | |].
  - unfold render_unsigned.
    destruct (int_to_char_head int_capacity (Z.abs z) "") as (d & t & _ & ->). done.
  - case_decide; [rewrite Z.abs_neq by lia | rewrite Z.abs_eq by lia]; done.
Qed.
End IntText.

Lemma int_text_roundtrip_witness :
  parse_int (insert_value (H := int32) default_flags (VInt (-2147483648)))
    = Some (-2147483648) ∧
  (insert_value (H := int32) default_flags (VInt 2147483647)
     = insert_value (H := int32) default_flags (VInt (-2147483648)) →
   2147483647 = -2147483648) ∧
  (1 ≤ String.length
         (insert_value (H := int32) default_flags (VInt (-2147483648)))
     ≤ int_capacity (H := int32) + 2)%nat.
Proof.
  exact (int_text_roundtrip (H := int32) default_flags 2147483647 (-2147483648)
           ltac:(by vm_compute) ltac:(by vm_compute)).
Defined.

Lemma int_text_terminates_witness :
  render_int 40 (-2147483648)
    = insert_value (H := int32) default_flags (VInt (-2147483648)) ∧
  ∃ ds, all_digits ds ∧ ds ≠ "" ∧
        insert_value (H := int32) default_flags (VInt (-2147483648))
          = (if decide (-2147483648 < 0) then "-" else "") +:+ ds.
Proof.
  exact (int_text_terminates (H := int32) default_flags (-2147483648) 40
           ltac:(by vm_compute) ltac:(vm_compute; lia)).
Defined.

(** ** Against the reference rendering *)

(** C39: the formatter agrees with a reference.  For every width of [int],
    all flags and every [int] value, the text inserted for the value is the
    Standard Library's decimal rendering of the number
    ([DecimalRef.reference_render]), which is computed without the digit
    loop and without division. *)
Theorem int_text_reference `{IntWidth} (fl : fmtflags) (z : Z) :
  in_range z → insert_value fl (VInt z) = reference_render z.
Proof. intros Hz%in_range_capacity. by apply render_int_reference. Qed.

Lemma int_text_reference_witness :
  in_range (H := int32) (-2147483648) ∧
  insert_value (H := int32) default_flags (VInt (-2147483648))
    = reference_render (-2147483648).
Proof.
  split; [by vm_compute|].
  exact (int_text_reference (H := int32) default_flags (-2147483648) ltac:(by vm_compute)).
Defined.

(** * The text of a [double] variable *)

(** The shape of the text: for every finite binary64 value [m * 2 ^ e]
    and every precision [P] of at least one digit, the text that
    [cout << x] writes for a
    [double] variable is the sign followed by the fixed or scientific
    notation of [P] significant digits [D] with a decimal exponent [X] such
    that [10 ^ (P - 1) ≤ D < 10 ^ P] and [D * 10 ^ (X - P + 1)] is within
    half a unit in the last place of the value.  The search for the
    exponent never runs out of fuel. *)
Theorem double_text_rounded `{IntWidth} (fl : fmtflags) (s : bool) (m : positive) (e : Z) :
  Z.pos m < 2 ^ 53 → -1074 ≤ e ≤ 971 → precision fl ≠ 0%nat →
  ∃ D X, 10 ^ (Z.of_nat (precision fl) - 1) ≤ D < 10 ^ Z.of_nat (precision fl) ∧
    (bracket (frac_of m e).1 (frac_of m e).2 X ∨
     D = 10 ^ (Z.of_nat (precision fl) - 1) ∧
     bracket (frac_of m e).1 (frac_of m e).2 (X - 1)) ∧
    half_unit_close (frac_of m e).1 (frac_of m e).2 (Z.of_nat (precision fl) - 1 - X) D ∧
    insert_value fl (VDouble (S754_finite s m e)) =
      sign_text s +:+
      (if decide (-4 ≤ X < Z.of_nat (precision fl))
       then fmt_fixed D (Z.to_nat (Z.of_nat (precision fl) - 1 - X))
       else fmt_sci (Z.of_nat (precision fl)) D X).
Proof.
  intros Hm He HP.
  destruct (frac_of_pos m e) as [Hn Hd]. destruct (frac_of_range m e Hm He) as [Hup Hdown].
  pose proof (decimal_exponent_spec _ _ Hn Hd Hup Hdown) as Hb.
  destruct (sig_digits_spec (Z.of_nat (precision fl)) _ _ ltac:(lia) Hd Hb)
    as (Hrange & Hclose & HX).
  eexists _, _. split_all; [apply Hrange.. | | exact Hclose | by apply fmt_general_finite].
  unfold sig_digits. case_decide; simpl; [right | by left].
  split; [done|]. by rewrite Z.add_simpl_r.
Qed.

Lemma double_text_rounded_witness :
  ∃ D X, 10 ^ (Z.of_nat (precision default_flags) - 1) ≤ D
           < 10 ^ Z.of_nat (precision default_flags) ∧
    (bracket (frac_of 6744140441987318 (-50)).1 (frac_of 6744140441987318 (-50)).2 X ∨
     D = 10 ^ (Z.of_nat (precision default_flags) - 1) ∧
     bracket (frac_of 6744140441987318 (-50)).1 (frac_of 6744140441987318 (-50)).2 (X - 1)) ∧
    half_unit_close (frac_of 6744140441987318 (-50)).1 (frac_of 6744140441987318 (-50)).2
      (Z.of_nat (precision default_flags) - 1 - X) D ∧
    insert_value (H := int32) default_flags
      (VDouble (S754_finite false 6744140441987318 (-50))) =
      sign_text false +:+
      (if decide (-4 ≤ X < Z.of_nat (precision default_flags))
       then fmt_fixed D (Z.to_nat (Z.of_nat (precision default_flags) - 1 - X))
       else fmt_sci (Z.of_nat (precision default_flags)) D X).
Proof.
  exact (double_text_rounded (H := int32) default_flags false 6744140441987318 (-50)
           ltac:(by vm_compute) ltac:(lia) ltac:(done)).
Defined.

(** C28: the text of a [double] is a number, and the number is the value
    rounded.  For every finite binary64 value [m * 2 ^ e] and every
    precision [P] of at least one digit, the text that [cout << x] writes
    is accepted by the reader of decimal numbers
    ([DoubleText.parse_decimal]: sign, digits, point, digits, exponent).
    The number read has the sign of the value; its digits, with the [k]
    zeros that the formatter removed put back, are [P] significant digits;
    and it is within half a unit in the last of these digits of the value.
    Fixed and scientific notation are two writings of the same number. *)
Theorem double_text_roundtrip `{IntWidth} (fl : fmtflags) (s : bool) (m : positive) (e : Z) :
  Z.pos m < 2 ^ 53 → -1074 ≤ e ≤ 971 → precision fl ≠ 0%nat →
  ∃ q (k : nat),
    parse_decimal (insert_value fl (VDouble (S754_finite s m e))) = Some q ∧
    dec_neg q = s ∧
    10 ^ (Z.of_nat (precision fl) - 1) ≤ dec_digits q * 10 ^ Z.of_nat k
      < 10 ^ Z.of_nat (precision fl) ∧
    half_unit_close (frac_of m e).1 (frac_of m e).2 (Z.of_nat k - dec_exp q)
      (dec_digits q * 10 ^ Z.of_nat k).
Proof.
  intros Hm He HP.
  destruct (finite_digits (Z.of_nat (precision fl)) m e Hm He ltac:(lia))
    as (Hrange & Hclose & _).
  destruct (fmt_general_roundtrip (precision fl) s m e Hm He HP) as (k & q & Hq & Hparse).
  eexists _, k. split; [exact Hparse|]. cbn [dec_neg dec_digits dec_exp]. rewrite Hq.
  split_all; [done | apply Hrange.. |].
  by replace (Z.of_nat k - _) with
    (Z.of_nat (precision fl) - 1
     - (sig_digits (Z.of_nat (precision fl)) (frac_of m e).1 (frac_of m e).2).2) by lia.
Qed.

Lemma double_text_roundtrip_witness :
  ∃ q (k : nat),
    parse_decimal (insert_value (H := int32) default_flags
                     (VDouble (S754_finite false 6744140441987318 (-50)))) = Some q ∧
    dec_neg q = false ∧
    10 ^ (Z.of_nat (precision default_flags) - 1) ≤ dec_digits q * 10 ^ Z.of_nat k
      < 10 ^ Z.of_nat (precision default_flags) ∧
    half_unit_close (frac_of 6744140441987318 (-50)).1 (frac_of 6744140441987318 (-50)).2
      (Z.of_nat k - dec_exp q) (dec_digits q * 10 ^ Z.of_nat k).
Proof.
  exact (double_text_roundtrip (H := int32) default_flags false 6744140441987318 (-50)
           ltac:(by vm_compute) ltac:(lia) ltac:(done)).
Defined.

(** C29: the text of a [double] determines the number that was rounded.
    Two finite binary64 values for which [cout << x] writes the same text
    (with the same flags, at a precision of at least one digit) have the
    same sign, the same significant digits and the same decimal exponent:
    the choice between fixed and scientific notation and the removal of
    trailing zeros never make two different numbers look alike. *)
Theorem double_text_injective `{IntWidth} (fl : fmtflags)
    (s s' : bool) (m m' : positive) (e e' : Z) :
  Z.pos m < 2 ^ 53 → -1074 ≤ e ≤ 971 → Z.pos m' < 2 ^ 53 → -1074 ≤ e' ≤ 971 →
  precision fl ≠ 0%nat →
  insert_value fl (VDouble (S754_finite s m e))
  = insert_value fl (VDouble (S754_finite s' m' e')) →
  s = s' ∧
  sig_digits (Z.of_nat (precision fl)) (frac_of m e).1 (frac_of m e).2
  = sig_digits (Z.of_nat (precision fl)) (frac_of m' e').1 (frac_of m' e').2.
Proof. intros Hm He Hm' He' HP Heq. by apply (fmt_general_inj (precision fl)). Qed.

(** The literal [5.99] and the next binary64 value have the same text. *)
Lemma double_text_injective_witness :
  insert_value (H := int32) default_flags (VDouble (S754_finite false 6744140441987318 (-50)))
  = insert_value (H := int32) default_flags (VDouble (S754_finite false 6744140441987319 (-50))) ∧
  false = false ∧
  sig_digits (Z.of_nat (precision default_flags))
    (frac_of 6744140441987318 (-50)).1 (frac_of 6744140441987318 (-50)).2
  = sig_digits (Z.of_nat (precision default_flags))
    (frac_of 6744140441987319 (-50)).1 (frac_of 6744140441987319 (-50)).2.
Proof.
  split; [by vm_compute|].
  exact (double_text_injective (H := int32) default_flags false false
           6744140441987318 6744140441987319 (-50) (-50)
           ltac:(by vm_compute) ltac:(lia) ltac:(by vm_compute) ltac:(lia) ltac:(done)
           ltac:(by vm_compute)).
Defined.

(** * The values that the program computes *)

(** A read of one of several variables stored on top of a frame. *)
Ltac read_stored :=
  unfold int_slot; rewrite ?read_int_insert_ne by done; apply read_int_insert.

(** One of several [int] variables stored on top of a frame is assignable. *)
Ltac stored_int_var :=
  unfold int_slot; repeat (apply int_var_insert_ne; [|done]); by apply int_var_insert.

Section Values.
Context `{IntWidth} {S : Type} `{OStream S}.
Implicit Types (f : frame) (o : S).

Lemma init_xyz_run f o :
  f !! "x" = None → f !! "y" = None → f !! "z" = None →
  init_xyz (State f o) =
  OK (tt, State (<["z" := int_slot 9]> (<["y" := int_slot 6]> (<["x" := int_slot 4]> f))) o).
Proof.
  intros Hx Hy Hz. unfold init_xyz, int_slot.
  erewrite bind_ok by (by apply on_locals_run, init_ok).
  erewrite bind_ok by (apply on_locals_run, init_ok; [by rewrite lookup_insert_ne | done]).
  apply on_locals_run, init_ok; [by rewrite !lookup_insert_ne | done].
Qed.

Lemma init_rectangle_run f o :
  f !! "length" = None → f !! "width" = None → f !! "area" = None →
  (init_length ;; init_width ;; init_area) (State f o) =
  OK (tt, State (<["area" := int_slot (4 * 6)]>
                   (<["width" := int_slot 6]> (<["length" := int_slot 4]> f))) o).
Proof.
  intros Hl Hw Ha. unfold init_length, init_width.
  erewrite bind_ok by (by apply on_locals_run, init_ok).
  erewrite bind_ok by (apply on_locals_run, init_ok; [by rewrite lookup_insert_ne | done]).
  apply init_area_run; [read_stored | read_stored | apply in_range_small; lia |].
  by rewrite !lookup_insert_ne.
Qed.

(** The sums.  In any frame in which [x], [y] and [z] are not yet
    declared and for every width of [int]: after line 18 the value of
    [x+y+z] is 19, after line 22 it is 150; evaluating the sum writes
    nothing, and the chained assignment declares no variable. *)
Theorem sums_19_and_150 f o :
  f !! "x" = None → f !! "y" = None → f !! "z" = None →
  ∃ f1 f2, (init_xyz ;; sum_xyz) (State f o) = OK (19, State f1 o) ∧
           (init_xyz ;; chain_assign ;; sum_xyz) (State f o) = OK (150, State f2 o) ∧
           dom f2 = dom f1.
Proof.
  intros Hx Hy Hz. do 2 eexists. split_all.
  - erewrite bind_ok by (by apply init_xyz_run).
    apply (sum_xyz_run _ _ 4 6 9); first [read_stored | apply in_range_small; lia].
  - erewrite bind_ok by (by apply init_xyz_run).
    erewrite bind_ok by (apply chain_assign_run; stored_int_var).
    apply (sum_xyz_run _ _ 50 50 50); first [read_stored | apply in_range_small; lia].
  - rewrite 3!dom_insert_lookup_L; [done | ..]; unfold int_slot;
      rewrite ?lookup_insert_ne by done; rewrite lookup_insert_eq; eauto.
Qed.

(** The rectangle.  In any frame in which [length], [width] and
    [area] are not yet declared and for every width of [int]: after lines
    34 to 38 the three variables hold 4, 6 and 24, and [area] equals
    [length * width]. *)
Theorem area_is_24 f o :
  f !! "length" = None → f !! "width" = None → f !! "area" = None →
  ∃ f', (init_length ;; init_width ;; init_area) (State f o) = OK (tt, State f' o) ∧
        read_int "length" f' = OK 4 ∧ read_int "width" f' = OK 6 ∧
        read_int "area" f' = OK 24 ∧
        (l ← read_int "length" f'; w ← read_int "width" f'; int_mul l w) = read_int "area" f'.
Proof.
  intros Hl Hw Ha. eexists. split; [by apply init_rectangle_run|].
  set (f' := <["area" := _]> _).
  assert (read_int "length" f' = OK 4) as Hrl by (subst f'; read_stored).
  assert (read_int "width" f' = OK 6) as Hrw by (subst f'; read_stored).
  assert (read_int "area" f' = OK 24) as Hra by (subst f'; read_stored).
  rewrite Hrl, Hrw, Hra. split_all; [done..|].
  apply (checked_ok (4 * 6)), in_range_small. lia.
Qed.

(** C18: the values that the program computes, for every width of [int],
    every stream and every frame in which the six variables are not yet
    declared.  After [int x = 4, y = 6, z = 9] the value of [x+y+z] is 19;
    after [x = y = z = 50] it is 150, and the chained assignment has
    declared no variable; evaluating a sum writes nothing.  After lines 34
    to 38 [length], [width] and [area] hold 4, 6 and 24, and [area] is
    [length * width]. *)
Theorem computed_values f o :
  f !! "x" = None → f !! "y" = None → f !! "z" = None →
  f !! "length" = None → f !! "width" = None → f !! "area" = None →
  (∃ f1 f2, (init_xyz ;; sum_xyz) (State f o) = OK (19, State f1 o) ∧
            (init_xyz ;; chain_assign ;; sum_xyz) (State f o) = OK (150, State f2 o) ∧
            dom f2 = dom f1) ∧
  (∃ f', (init_length ;; init_width ;; init_area) (State f o) = OK (tt, State f' o) ∧
         read_int "length" f' = OK 4 ∧ read_int "width" f' = OK 6 ∧
         read_int "area" f' = OK 24 ∧
         (l ← read_int "length" f'; w ← read_int "width" f'; int_mul l w)
           = read_int "area" f').
Proof. intros. split; [by apply sums_19_and_150 | by apply area_is_24]. Qed.
End Values.

Lemma sums_19_and_150_witness :
  ∃ f1 f2, (init_xyz ;; sum_xyz (H := int32)) (State ∅ cout_init) = OK (19, State f1 cout_init) ∧
           (init_xyz ;; chain_assign ;; sum_xyz (H := int32)) (State ∅ cout_init)
             = OK (150, State f2 cout_init) ∧
           dom f2 = dom f1.
Proof. exact (sums_19_and_150 (H := int32) ∅ cout_init eq_refl eq_refl eq_refl). Defined.

Lemma area_is_24_witness :
  ∃ f', (init_length ;; init_width ;; init_area (H := int32)) (State ∅ cout_init)
          = OK (tt, State f' cout_init) ∧
        read_int "length" f' = OK 4 ∧ read_int "width" f' = OK 6 ∧
        read_int "area" f' = OK 24 ∧
        (l ← read_int "length" f'; w ← read_int "width" f'; int_mul (H := int32) l w)
          = read_int "area" f'.
Proof. exact (area_is_24 (H := int32) ∅ cout_init eq_refl eq_refl eq_refl). Defined.

Lemma computed_values_witness :
  (∃ f1 f2, (init_xyz ;; sum_xyz (H := int32)) (State ∅ cout_init)
              = OK (19, State f1 cout_init) ∧
            (init_xyz ;; chain_assign ;; sum_xyz (H := int32)) (State ∅ cout_init)
              = OK (150, State f2 cout_init) ∧
            dom f2 = dom f1) ∧
  (∃ f', (init_length ;; init_width ;; init_area (H := int32)) (State ∅ cout_init)
           = OK (tt, State f' cout_init) ∧
         read_int "length" f' = OK 4 ∧ read_int "width" f' = OK 6 ∧
         read_int "area" f' = OK 24 ∧
         (l ← read_int "length" f'; w ← read_int "width" f'; int_mul (H := int32) l w)
           = read_int "area" f').
Proof.
  exact (computed_values (H := int32) ∅ cout_init eq_refl eq_refl eq_refl
           eq_refl eq_refl eq_refl).
Defined.
