(* ===== verification/Main.v ===== *)
(** * The whole program

    What a run of [main] does, from the state in which it is entered to its
    return: the frame and the stream at the end ([main_run]), the text that
    has been written ([program_text], a function of the formatting flags
    only) and, for a stream with the default flags, the literal output
    ([expected_output]). *)

From stdpp Require Import gmap.
From S2P Require Import Prelude Result MachineInt Decimal Double Ostream Locals Program.

(** ** The state at the end *)

(** The thirteen variables when [main] returns. *)
Definition final_frame : frame :=
  list_to_map
    [ ("n", Slot TInt false (Some (VInt 10)));
      ("myNum", Slot TInt false (Some (VInt 5)));
      ("myFloatNum", Slot TDouble false (Some (VDouble (double_lit 599 2))));
      ("myLetter", Slot TChar false (Some (VChar "D")));
      ("myText", Slot TString false (Some (VString "Hello")));
      ("myBoolean", Slot TBool false (Some (VBool true)));
      ("x", Slot TInt false (Some (VInt 50)));
      ("y", Slot TInt false (Some (VInt 50)));
      ("z", Slot TInt false (Some (VInt 50)));
      ("minutesPerHour", Slot TInt true (Some (VInt 60)));
      ("length", Slot TInt false (Some (VInt 4)));
      ("width", Slot TInt false (Some (VInt 6)));
      ("area", Slot TInt false (Some (VInt 24))) ].

(** The insertions that [main] makes, in order. *)
Definition final_cout `{IntWidth} {S} `{OStream S} (o : S) : S :=
  o << VInt 10 << VInt 5 << VDouble (double_lit 599 2) << VChar "D"
    << VString "Hello" << VBool true << newline
    << newline << 19
    << newline << 150
    << ("##################################" +:+ newline)
    << "Length is: " << VInt 4 << newline
    << "Width is: " << VInt 6 << newline
    << "Area of the rectangle is: " << VInt 24 << newline.

(** ** The text *)

(** What [main] writes to a stream whose flags are [fl]. *)
Definition program_text `{IntWidth} (fl : fmtflags) : string :=
  format fl 10 +:+ format fl 5 +:+ format fl (double_lit 599 2) +:+
  format fl "D"%char +:+ "Hello" +:+ format fl true +:+ newline +:+
  newline +:+ format fl 19 +:+
  newline +:+ format fl 150 +:+
  "##################################" +:+ newline +:+
  "Length is: " +:+ format fl 4 +:+ newline +:+
  "Width is: " +:+ format fl 6 +:+ newline +:+
  "Area of the rectangle is: " +:+ format fl 24 +:+ newline.

(** The output of the program under the default flags. *)
Definition expected_output : string :=
  "1055.99DHello1" +:+ newline +:+
  newline +:+ "19" +:+
  newline +:+ "150" +:+ "##################################" +:+ newline +:+
  "Length is: 4" +:+ newline +:+
  "Width is: 6" +:+ newline +:+
  "Area of the rectangle is: 24" +:+ newline.

Section Main.
Context `{IntWidth} {S : Type} `{OStream S}.
Implicit Types o : S.

(** [step_by tac]: run the next statement of a sequence, [tac] proving
    that it completes. *)
Ltac step_by tac := erewrite seq_step by tac.

(** A declaration or initialisation with a literal runs by computation on
    the frame. *)
Ltac frame_step := step_by ltac:(apply on_locals_run; reflexivity).

Ltac small := apply in_range_small; lia.

(** The run of [main], statement by statement. *)
Lemma main_body_run o :
  seq main_body (initial o) = OK (tt, State final_frame (final_cout o)).
Proof.
  unfold main_body, initial.
  do 7 frame_step.
  step_by ltac:(by apply print_primitives_run).
  step_by ltac:(unfold init_xyz; exec_run; apply on_locals_run; reflexivity).
  step_by ltac:(apply (print_sum_run _ _ 4 6 9); first [reflexivity | small]).
  step_by ltac:(apply chain_assign_run; (eexists; split; [reflexivity | done])).
  step_by ltac:(apply (print_sum_run _ _ 50 50 50); first [reflexivity | small]).
  frame_step.
  step_by ltac:(apply print_run).
  do 2 frame_step.
  step_by ltac:(apply (init_area_run _ _ 4 6); first [reflexivity | small]).
  step_by ltac:(by apply print_length_run).
  step_by ltac:(by apply print_width_run).
  step_by ltac:(by apply print_area_run).
  reflexivity.
Qed.

Lemma main_run o : main (initial o) = OK (0, State final_frame (final_cout o)).
Proof. unfold main. by erewrite bind_ok by apply main_body_run. Qed.
End Main.

(** ** The text that has been written *)

Section Text.
Context `{IntWidth} {S : Type} `{OStreamLaws S}.
Implicit Types o : S.

Lemma final_cout_flags o : os_flags (final_cout o) = os_flags o.
Proof. unfold final_cout. by rewrite !insert_flags. Qed.

Lemma final_cout_text o :
  os_text (final_cout o) = os_text o +:+ program_text (os_flags o).
Proof.
  unfold final_cout, program_text. rewrite !insert_text, !insert_flags.
  by rewrite <- !str_app_assoc.
Qed.

(** The numbers of the program have at most three digits: their text is
    the same for every width of [int]. *)
Lemma program_text_default : program_text default_flags = expected_output.
Proof. unfold program_text. by rewrite !format_int_small by lia. Qed.

(** C2: [main] implements its specification as a text: entered with an
    empty frame, on any lawful stream and for any width of [int], it
    returns 0 without error, leaves the thirteen variables of
    [final_frame], has appended [program_text] of the stream's flags to
    the stream and has not changed the flags. *)
Theorem main_refines_text o :
  ∃ s', main (initial o) = OK (0, s') ∧ locals s' = final_frame ∧
        os_text (cout s') = os_text o +:+ program_text (os_flags o) ∧
        os_flags (cout s') = os_flags o.
Proof.
  eexists. split; [apply main_run|]. simpl.
  by rewrite final_cout_text, final_cout_flags.
Qed.

(** C1: on a stream with the default formatting flags, [main] returns 0
    and has written exactly [expected_output] after what the stream held:
    the six values of line 15 joined, the sums 19 and 150 each after a
    line break, the separator directly after 150, and the three labelled
    lines of the rectangle. *)
Theorem main_output o :
  os_flags o = default_flags →
  ∃ s', main (initial o) = OK (0, s') ∧
        os_text (cout s') = os_text o +:+ expected_output ∧
        os_flags (cout s') = default_flags.
Proof.
  intros Hfl. eexists. split; [apply main_run|]. simpl.
  by rewrite final_cout_text, final_cout_flags, Hfl, program_text_default.
Qed.
End Text.

(** ** Witnesses *)

Lemma main_refines_text_witness :
  ∃ s', main (H := int32) (initial cout_init) = OK (0, s') ∧ locals s' = final_frame ∧
        os_text (cout s') = os_text cout_init +:+ program_text (H := int32) (os_flags cout_init) ∧
        os_flags (cout s') = os_flags cout_init.
Proof. exact (main_refines_text (H := int32) cout_init). Defined.

Lemma main_output_witness :
  os_flags cout_init = default_flags ∧
  ∃ s', main (H := int32) (initial cout_init) = OK (0, s') ∧
        os_text (cout s') = os_text cout_init +:+ expected_output ∧
        os_flags (cout s') = default_flags.
Proof. split; [reflexivity | exact (main_output (H := int32) cout_init eq_refl)]. Defined.
