(* ===== verification/Invariants.v ===== *)
(** * Invariants of the run

    Two facts hold at every point of [main], whatever state the statements
    are started in:

    - [wf_state]: the frame is well-formed (every value has the type of its
      variable, every [int] is representable, every [const] has a value);
    - [state_le]: from one point to a later one, variables are only added,
      keep their type and qualifier, [const] variables keep their value,
      the text of the stream only grows and its flags do not change.

    They are proved for the primitive steps, follow for the statements by
    the rules of [yields] and [respects], and are then stated for the run of
    [main] from its initial state, where every prefix of the body completes. *)

From stdpp Require Import gmap.
From S2P Require Import Prelude Result MachineInt Decimal Double Ostream Locals Program Main.

Section Invariants.
Context `{IntWidth} {S : Type} `{OStreamLaws S}.
Implicit Types (s : state S) (x : string) (v : value).

Definition wf_state s : Prop := wf_frame (locals s).

Definition state_le s s' : Prop :=
  frame_le (locals s) (locals s') ∧
  str_prefix (os_text (cout s)) (os_text (cout s')) ∧
  os_flags (cout s') = os_flags (cout s).

#[export] Instance state_le_preorder : PreOrder state_le.
Proof.
  split; [by intros s|].
  intros s1 s2 s3 (Hf & Ht & Hfl) (Hf' & Ht' & Hfl').
  unfold state_le. split_all; [by etrans | by etrans | congruence].
Qed.

(** ** The primitive steps keep the frame well-formed *)

Lemma on_locals_wf op :
  (∀ f f', wf_frame f → op f = OK f' → wf_frame f') →
  yields wf_state (on_locals op) (λ _, True).
Proof.
  intros Hop s u s' Hs [Hrun _]%on_locals_inv. split; [by eapply Hop | done].
Qed.

Lemma declare_step_wf x t : yields wf_state (on_locals (declare x t)) (λ _, True).
Proof. apply on_locals_wf. eauto with cxx. Qed.

Lemma init_step_wf x t c v :
  wf_value v → yields wf_state (on_locals (init x t c v)) (λ _, True).
Proof. intros. apply on_locals_wf. eauto with cxx. Qed.

Lemma assign_step_wf x v :
  wf_value v → yields wf_state (on_locals (assign x v)) (λ _, True).
Proof. intros. apply on_locals_wf. eauto with cxx. Qed.

Lemma eval_wf {A} (e : frame → res A) (Q : A → Prop) :
  (∀ f a, wf_frame f → e f = OK a → Q a) → yields wf_state (eval e) Q.
Proof. intros He s a s' Hs [Hrun ->]%eval_inv. split; [done | by eapply He]. Qed.

Lemma read_step_wf x : yields wf_state (eval (read x)) wf_value.
Proof. apply eval_wf. eauto with cxx. Qed.

Lemma read_int_step_wf x : yields wf_state (eval (read_int x)) in_range.
Proof. apply eval_wf. eauto with cxx. Qed.

Lemma checked_step_wf z : yields wf_state (lift (checked z)) in_range.
Proof. apply yields_lift. by intros r [? ->]%checked_ok_inv. Qed.

Lemma print_wf {A} `{Insertable A} (a : A) : yields wf_state (print a) (λ _, True).
Proof. unfold print. by intros s u s' Hs [= <- <-]. Qed.

(** ** The primitive steps only extend the state *)

Lemma on_locals_le op :
  (∀ f f', op f = OK f' → frame_le f f') → respects state_le (on_locals op).
Proof.
  intros Hop s u s' [Hrun Hc]%on_locals_inv.
  unfold state_le. rewrite Hc. split_all; [by apply Hop | done..].
Qed.

Lemma eval_le {A} (e : frame → res A) : respects state_le (eval e).
Proof. by intros s a s' [_ ->]%eval_inv. Qed.

Lemma print_le {A} `{Insertable A} (a : A) : respects state_le (print a).
Proof.
  unfold print. intros s u s' [= <- <-].
  unfold state_le; simpl. split_all; [done | apply insert_prefix | apply insert_flags].
Qed.
End Invariants.

(** ** Automation *)

(** The statements as compositions of primitive steps. *)
Ltac unfold_statements :=
  unfold decl_n, assign_n, init_myNum, init_myFloatNum, init_myLetter, init_myText,
    init_myBoolean, print_primitives, init_xyz, print_sum, sum_xyz, chain_assign,
    init_minutesPerHour, print_separator, init_length, init_width, init_area,
    area_expr, print_length, print_width, print_area, print_var, assign_expr,
    int_add, int_mul.

(** A value is well-formed: by assumption, or a small literal. *)
Ltac wf_side := first [done | simpl; apply in_range_small; lia].

(** [yields_wf]: a composition of primitive steps keeps [wf_state]. *)
Ltac yields_wf :=
  lazymatch goal with
  | |- yields _ (_ ≫= _) _ => eapply yields_bind; [yields_wf | intros ? ?; yields_wf]
  | |- _ =>
      first [ apply declare_step_wf | apply init_step_wf; wf_side
            | apply assign_step_wf; wf_side | apply read_step_wf
            | apply read_int_step_wf | apply checked_step_wf | apply print_wf
            | by apply yields_ret ]
  end.

(** [respects_le]: a composition of primitive steps only extends the state. *)
Ltac respects_le :=
  lazymatch goal with
  | |- respects _ (_ ≫= _) =>
      apply respects_bind; [apply _ | respects_le | intros ?; respects_le]
  | |- _ =>
      first [ apply on_locals_le; eauto with cxx | apply eval_le | apply print_le
            | apply respects_lift, _ | apply respects_ret, _ ]
  end.

(** ** The statements of [main] *)

Section Body.
Context `{IntWidth} {S : Type} `{OStreamLaws S}.
Implicit Types (s : state S) (o : S).

Lemma main_body_yields :
  Forall (λ c : exec (state S) unit, yields wf_state c (λ _, True)) main_body.
Proof.
  unfold main_body. repeat (constructor 2; [unfold_statements; yields_wf|]). constructor.
Qed.

Lemma main_body_preserves : Forall (preserves wf_state) (main_body (S := S)).
Proof.
  eapply Forall_impl; [|exact main_body_yields]. intros c. apply yields_preserves.
Qed.

Lemma main_body_respects : Forall (respects state_le) (main_body (S := S)).
Proof.
  unfold main_body. repeat (constructor 2; [unfold_statements; respects_le|]). constructor.
Qed.

Lemma prefix_preserves (k : nat) : preserves wf_state (seq (take k (main_body (S := S)))).
Proof. apply preserves_seq, Forall_take, main_body_preserves. Qed.

Lemma segment_respects (j k : nat) :
  respects state_le (seq (take k (drop j (main_body (S := S))))).
Proof. apply respects_seq; [apply _|]. apply Forall_take, Forall_drop, main_body_respects. Qed.

(** Every prefix of the body completes from the initial state, and the rest
    of the body leads from there to the final state. *)
Lemma main_point_run o (k : nat) :
  ∃ s, seq (take k main_body) (initial o) = OK (tt, s) ∧
       seq (drop k main_body) s = OK (tt, State final_frame (final_cout o)).
Proof. apply seq_take_drop, main_body_run. Qed.

(** C21: at every point of [main], run from its initial state on any lawful
    stream: the statements before the point have completed without error,
    the frame is well-formed, the text written so far extends what the
    stream held at entry and is a prefix of the text at the end, the flags
    are those at entry, and every variable declared so far is still in the
    final frame with its type (a [const] one with its value). *)
Theorem main_points o (k : nat) :
  ∃ s, seq (take k main_body) (initial o) = OK (tt, s) ∧
       wf_state s ∧ state_le (initial o) s ∧
       state_le s (State final_frame (final_cout o)).
Proof.
  destruct (main_point_run o k) as (s & Hpre & Hpost). exists s. split_all; [done|..].
  - eapply prefix_preserves; [|exact Hpre]. apply wf_frame_empty.
  - rewrite <- (drop_0 main_body) in Hpre. exact (segment_respects 0 k _ _ _ Hpre).
  - rewrite <- (take_ge (drop k main_body) 20) in Hpost
      by (rewrite length_drop; unfold main_body; simpl; lia).
    exact (segment_respects k 20 _ _ _ Hpost).
Qed.

(** C22: the statements of [main] keep the frame well-formed from any
    state, not only from the one [main] is entered in: if the first [k]
    statements complete from a well-formed frame, the frame they leave is
    well-formed (no [int] outside its range, no value of the wrong type, no
    [const] without a value). *)
Theorem main_body_wf (k : nat) s u s' :
  wf_state s → seq (take k main_body) s = OK (u, s') → wf_state s'.
Proof. intros Hs Hrun. by eapply prefix_preserves. Qed.

(** C23: from any state, any run of consecutive statements of [main] (the
    [k] statements after the first [j]) only extends the state: no variable
    disappears or changes its type or qualifier, a [const] variable keeps
    its value, a variable with a value keeps having one, what has been
    written stays written and the formatting flags are not touched. *)
Theorem main_body_monotone (j k : nat) s u s' :
  seq (take k (drop j main_body)) s = OK (u, s') → state_le s s'.
Proof. apply segment_respects. Qed.
End Body.

(** ** The invariants at concrete points *)

Lemma main_points_witness :
  ∃ s, seq (take 10 (main_body (H := int32))) (initial cout_init) = OK (tt, s) ∧
       wf_state (H := int32) s ∧ state_le (initial cout_init) s ∧
       state_le s (State final_frame (final_cout (H := int32) cout_init)).
Proof. exact (main_points (H := int32) cout_init 10). Defined.

Lemma main_body_wf_witness :
  wf_state (H := int32) (State final_frame (final_cout (H := int32) cout_init)).
Proof.
  exact (main_body_wf (H := int32) 20 (initial cout_init) tt _
           wf_frame_empty (main_body_run (H := int32) cout_init)).
Defined.

Lemma main_body_monotone_witness :
  state_le (initial cout_init) (State final_frame (final_cout (H := int32) cout_init)).
Proof.
  exact (main_body_monotone (H := int32) 0 20 (initial cout_init) tt _
           (main_body_run (H := int32) cout_init)).
Defined.
