(* ===== verification/Simulation.v ===== *)
(** * What the run does not depend on

    [main] is defined for any stream and any width of [int].  This file
    relates its runs across both parameters.

    - Streams: a relation between two streams that is kept by writing and
      implies equal flags ([StreamSim]) is kept by every statement of
      [main], errors included ([main_sim], which holds of any program that
      only writes to its stream).  The buffered stream is related to the
      unbuffered one by [unbuffer]; the text that reaches the output when
      the buffer is flushed at exit is the text of the unbuffered run, and
      nothing reaches it before ([main_buffered]).
    - Widths: the numbers that the program computes have at most three
      digits, so for every width of at least 16 bits the run completes with
      the same frame and the same text. *)

From stdpp Require Import gmap.
From S2P Require Import Prelude Result MachineInt Decimal Double Ostream Locals Program Main.

(** ** Related streams *)

Class StreamSim {S1 S2} `{OStream S1, OStream S2} (R : S1 → S2 → Prop) : Prop := {
  sim_flags o1 o2 : R o1 o2 → os_flags o1 = os_flags o2;
  sim_write t o1 o2 : R o1 o2 → R (os_write t o1) (os_write t o2)
}.

(** States are related when their frames are equal and their streams are
    related. *)
Definition state_sim {S1 S2} (R : S1 → S2 → Prop) (s1 : state S1) (s2 : state S2) : Prop :=
  locals s1 = locals s2 ∧ R (cout s1) (cout s2).

(** The unbuffered stream [o] has written what the buffered stream [b] has
    accepted. *)
Definition unbuffered (b : bufstream) (o : ostream) : Prop := unbuffer b = o.

#[export] Instance unbuffer_sim : StreamSim unbuffered.
Proof.
  split; [by intros b o <-|].
  intros t b o <-. apply unbuffer_write.
Qed.

#[export] Instance os_equiv_sim {S} `{OStreamLaws S} : StreamSim (os_equiv (S := S)).
Proof. split; [by intros o1 o2 [_ ?] | intros t o1 o2 Heq; by apply os_write_proper]. Qed.

Section Simulation.
Context `{IntWidth} {S1 S2 : Type} `{OStream S1, OStream S2}.
Context (R : S1 → S2 → Prop) `{!StreamSim R}.

Lemma insert_sim {A} `{Insertable A} o1 o2 (x : A) : R o1 o2 → R (o1 << x) (o2 << x).
Proof. intros HR. unfold insert. rewrite (sim_flags _ _ HR). by apply sim_write. Qed.

(** *** The primitive steps *)

Lemma on_locals_sim op : exec_sim (state_sim R) (on_locals op) (on_locals op).
Proof.
  intros s1 s2 [Hf HR]. unfold on_locals. rewrite Hf.
  by destruct (op (locals s2)).
Qed.

Lemma eval_sim {A} (e : frame → res A) : exec_sim (state_sim R) (eval e) (eval e).
Proof.
  intros s1 s2 [Hf HR]. unfold eval. rewrite Hf.
  by destruct (e (locals s2)).
Qed.

Lemma print_sim {A} `{Insertable A} (x : A) : exec_sim (state_sim R) (print x) (print x).
Proof.
  intros s1 s2 [Hf HR]. unfold print; simpl.
  split; [done|]. split; [done | by apply insert_sim].
Qed.
End Simulation.

(** [sim_steps]: a composition of primitive steps simulates itself. *)
Ltac sim_steps :=
  lazymatch goal with
  | |- exec_sim _ (_ ≫= _) (_ ≫= _) => apply sim_bind; [sim_steps | intros ?; sim_steps]
  | |- _ =>
      first [ apply on_locals_sim | apply eval_sim | by apply print_sim
            | apply sim_lift | apply sim_ret ]
  end.

Section Main.
Context `{IntWidth} {S1 S2 : Type} `{OStream S1, OStream S2}.
Context (R : S1 → S2 → Prop) `{!StreamSim R}.

Lemma main_body_sim : Forall2 (exec_sim (state_sim R)) main_body main_body.
Proof.
  unfold main_body.
  repeat (constructor 2;
    [unfold decl_n, assign_n, init_myNum, init_myFloatNum, init_myLetter, init_myText,
       init_myBoolean, print_primitives, init_xyz, print_sum, sum_xyz, chain_assign,
       init_minutesPerHour, print_separator, init_length, init_width, init_area,
       area_expr, print_length, print_width, print_area, print_var, assign_expr;
     sim_steps|]).
  constructor.
Qed.

(** [main] reads no stream: it holds of every program made of these
    steps, and says of [main] only that it is one.  What it gives for the
    two streams of this development is [main_buffered] below. *)
Lemma main_sim : exec_sim (state_sim R) main main.
Proof. unfold main. apply sim_bind; [apply sim_seq, main_body_sim | intros _; apply sim_ret]. Qed.
End Main.

(** ** The buffered stream *)

Section Buffered.
Context `{IntWidth}.

(** C31: run on a buffered stream, [main] returns 0 and has flushed
    nothing itself (it inserts ["\n"], never [endl]): what had been flushed
    before is all that has reached the output.  When the buffer is flushed
    at exit, the output is the text of the stream at entry followed by
    [program_text]: the text of the unbuffered run. *)
Theorem main_buffered (b : bufstream) :
  ∃ sb so, main (initial b) = OK (0, sb) ∧
           main (initial (unbuffer b)) = OK (0, so) ∧
           state_sim unbuffered sb so ∧
           flushed (cout sb) = flushed b ∧
           flushed (flush (cout sb)) = os_text b +:+ program_text (bflags b).
Proof.
  exists (State final_frame (final_cout b)), (State final_frame (final_cout (unbuffer b))).
  split_all; [apply main_run | apply main_run | ..].
  - split; [done|]. unfold unbuffered, final_cout. cbn [cout]. by rewrite !unbuffer_insert.
  - done.
  - rewrite flush_flushed. cbn [cout]. by rewrite final_cout_text.
Qed.
End Buffered.

(** ** The width of [int] *)

Section Width.
Context (W1 W2 : IntWidth) {S : Type} `{OStreamLaws S}.

Lemma program_text_width fl : program_text (H := W1) fl = program_text (H := W2) fl.
Proof. unfold program_text. by rewrite !format_int_small by lia. Qed.

(** C32: the run of [main] does not depend on the width of [int]: for any
    two widths of at least 16 bits, on any lawful stream, both runs return 0
    with the same frame and the same text.  No arithmetic of the program
    can overflow on an implementation that conforms to the standard. *)
Theorem main_width_independent (o : S) :
  ∃ s1 s2, main (H := W1) (initial o) = OK (0, s1) ∧
           main (H := W2) (initial o) = OK (0, s2) ∧
           state_sim os_equiv s1 s2.
Proof.
  do 2 eexists. split_all; [apply main_run | apply main_run |].
  split; [done|]. split; cbn [cout].
  - by rewrite !final_cout_text, program_text_width.
  - by rewrite !final_cout_flags.
Qed.
End Width.

(** ** At concrete streams and widths *)

Lemma main_buffered_witness :
  ∃ sb so, main (H := int32) (initial bufstream_init) = OK (0, sb) ∧
           main (H := int32) (initial (unbuffer bufstream_init)) = OK (0, so) ∧
           state_sim unbuffered sb so ∧
           flushed (cout sb) = flushed bufstream_init ∧
           flushed (flush (cout sb)) =
             os_text bufstream_init +:+ program_text (H := int32) (bflags bufstream_init).
Proof. exact (main_buffered (H := int32) bufstream_init). Defined.

Lemma main_width_independent_witness :
  ∃ s1 s2, main (H := int16) (initial cout_init) = OK (0, s1) ∧
           main (H := int64) (initial cout_init) = OK (0, s2) ∧
           state_sim os_equiv s1 s2.
Proof. exact (main_width_independent int16 int64 cout_init). Defined.
