(* ===== verification/Trace.v ===== *)
(** * [main] statement by statement

    [Program.main] runs its body as one computation.  This file gives the
    same body a small-step reading: a machine whose configuration is a
    program counter and a state, which executes the statement at the
    counter, halts when the counter leaves the body (the [return 0;] of
    line 45) and fails, with the index of the statement, when the statement
    is undefined.

    The machine is defined for any list of statements ([Section Machine]):
    [step] is its transition relation, [step_fn] the function that computes
    it, [run] its iteration with fuel.  The machine is a reading of the
    semantics and not a translation of lines of the file: what it holds of
    the file is the list [Program.main_body].  It is related to [seq] for
    any list ([run_seq_ok], [run_seq_err], [run_terminated], [run_fuel]:
    one step more than the list has statements always terminates, and more
    fuel changes nothing); the theorems on [main] are those that depend on
    its 20 statements: the states it passes through ([main_machine_run])
    and that it halts, in the final state, from wherever it has got to
    ([main_eventually_halts]).

    [reaches] is the reflexive and transitive closure of the transitions
    between running configurations; [eventually P] holds of a configuration
    from which the machine halts, in a state that satisfies [P].  Both are
    inductive, so liveness is proved without fuel. *)

From stdpp Require Import gmap.
From S2P Require Import Prelude Result MachineInt Decimal Double Ostream Locals Program Main.

Section Machine.
Context {St : Type} (cs : list (exec St unit)).
Implicit Types (pc k n fuel : nat) (s : St) (c : exec St unit).

Inductive outcome : Type :=
| Running (pc : nat) (s : St)
| Halted (s : St)
| Failed (pc : nat) (e : error).

(** One transition from the configuration [(pc, s)]. *)
Inductive step : nat → St → outcome → Prop :=
| step_stmt pc s (c : exec St unit) u s' :
    cs !! pc = Some c → c s = OK (u, s') → step pc s (Running (S pc) s')
| step_undefined pc s (c : exec St unit) e :
    cs !! pc = Some c → c s = Err e → step pc s (Failed pc e)
| step_return pc s :
    cs !! pc = None → step pc s (Halted s).

Definition step_fn pc s : outcome :=
  match lookup (A := exec St unit) pc cs with
  | None => Halted s
  | Some c =>
      match c s with
      | OK (_, s') => Running (S pc) s'
      | Err e => Failed pc e
      end
  end.

(** At most [fuel] transitions from [(pc, s)]. *)
Fixpoint run fuel pc s : outcome :=
  match fuel with
  | O => Running pc s
  | S fuel =>
      match step_fn pc s with
      | Running pc' s' => run fuel pc' s'
      | o => o
      end
  end.

Definition terminated (o : outcome) : Prop :=
  match o with Running _ _ => False | _ => True end.

(** ** The transition relation is a total function *)

Lemma step_fn_step pc s : step pc s (step_fn pc s).
Proof.
  unfold step_fn. destruct (cs !! pc) as [c|] eqn:Hc; [|by constructor].
  destruct (c s) as [[u s']|e] eqn:Hrun; by econstructor.
Qed.

Lemma step_step_fn pc s o : step pc s o → step_fn pc s = o.
Proof.
  destruct 1 as [pc s c u s' Hc Hrun|pc s c e Hc Hrun|pc s Hc];
    unfold step_fn; by rewrite Hc, ?Hrun.
Qed.

(** ** Unfolding [run] *)

Lemma run_step fuel pc s c u s' :
  cs !! pc = Some c → c s = OK (u, s') → run (S fuel) pc s = run fuel (S pc) s'.
Proof. intros Hc Hrun. simpl. unfold step_fn. by rewrite Hc, Hrun. Qed.

Lemma run_fail fuel pc s c e :
  cs !! pc = Some c → c s = Err e → run (S fuel) pc s = Failed pc e.
Proof. intros Hc Hrun. simpl. unfold step_fn. by rewrite Hc, Hrun. Qed.

Lemma run_halt fuel pc s : cs !! pc = None → run (S fuel) pc s = Halted s.
Proof. intros Hc. simpl. unfold step_fn. by rewrite Hc. Qed.

Lemma drop_lookup pc c : cs !! pc = Some c → drop pc cs = c :: drop (S pc) cs.
Proof. intros Hc. by rewrite (drop_S _ _ _ Hc). Qed.

(** ** The machine against [seq] *)

(** A run of the rest of the body that completes is a run of the machine
    that halts in the same state. *)
Lemma run_seq_ok n pc s u s' :
  length cs = (pc + n)%nat → seq (drop pc cs) s = OK (u, s') →
  run (S n) pc s = Halted s'.
Proof.
  revert pc s. induction n as [|n IH]; intros pc s Hlen.
  - rewrite drop_ge by lia. intros [= _ <-]. apply run_halt, lookup_ge_None. lia.
  - destruct (lookup_lt_is_Some_2 cs pc) as [c Hc]; [lia|].
    rewrite (drop_lookup _ _ Hc). cbn [seq firstn].
    intros ([] & s1 & Hrun & Hrest)%bind_ok_inv.
    rewrite (run_step _ _ _ _ _ _ Hc Hrun). apply IH; [lia | done].
Qed.

(** A run of the rest of the body that fails is a run of the machine that
    fails with the same error, at a statement of the body. *)
Lemma run_seq_err n pc s e :
  length cs = (pc + n)%nat → seq (drop pc cs) s = Err e →
  ∃ k, (pc ≤ k < length cs)%nat ∧ run (S n) pc s = Failed k e.
Proof.
  revert pc s. induction n as [|n IH]; intros pc s Hlen.
  - by rewrite drop_ge by lia.
  - destruct (lookup_lt_is_Some_2 cs pc) as [c Hc]; [lia|].
    rewrite (drop_lookup _ _ Hc). cbn [seq firstn]. unfold mbind, exec_bind.
    destruct (c s) as [[[] s1]|e1] eqn:Hrun.
    + intros Hrest. rewrite (run_step _ _ _ _ _ _ Hc Hrun).
      destruct (IH (S pc) s1 ltac:(lia) Hrest) as (k & Hk & Hfail).
      exists k. split; [lia | done].
    + intros [= <-]. exists pc. split; [lia|]. by eapply run_fail.
Qed.

(** A prefix of the rest of the body that completes is a run of the
    machine that is still running, at the statement after the prefix. *)
Lemma run_take k pc s u s' :
  (pc + k ≤ length cs)%nat → seq (take k (drop pc cs)) s = OK (u, s') →
  run k pc s = Running (pc + k) s'.
Proof.
  revert pc s. induction k as [|k IH]; intros pc s Hlen.
  - rewrite take_0, Nat.add_0_r. by intros [= _ <-].
  - destruct (lookup_lt_is_Some_2 cs pc) as [c Hc]; [lia|].
    rewrite (drop_lookup _ _ Hc). cbn [seq firstn].
    intros ([] & s1 & Hrun & Hrest)%bind_ok_inv.
    rewrite (run_step _ _ _ _ _ _ Hc Hrun), (IH (S pc) s1) by (done || lia).
    f_equal. lia.
Qed.

(** The machine terminates: after as many steps as statements remain, and
    one more, it has halted or failed. *)
Lemma run_terminated n pc s : length cs = (pc + n)%nat → terminated (run (S n) pc s).
Proof.
  intros Hlen. destruct (seq (drop pc cs) s) as [[u s']|e] eqn:Hseq.
  - by rewrite (run_seq_ok _ _ _ _ _ Hlen Hseq).
  - by destruct (run_seq_err _ _ _ _ Hlen Hseq) as (k & _ & ->).
Qed.

(** More fuel does not change the outcome of a run that has terminated. *)
Lemma run_fuel fuel fuel' pc s :
  terminated (run fuel pc s) → (fuel ≤ fuel')%nat → run fuel' pc s = run fuel pc s.
Proof.
  revert fuel' pc s. induction fuel as [|fuel IH]; intros fuel' pc s; [done|].
  intros Ht Hle. destruct fuel' as [|fuel']; [lia|]. simpl in *.
  destruct (step_fn pc s); [apply IH; [done | lia] | done..].
Qed.

(** ** Reachability and liveness *)

(** [reaches pc s pc' s']: the machine gets from [(pc, s)] to [(pc', s')]. *)
Inductive reaches : nat → St → nat → St → Prop :=
| reaches_here pc s : reaches pc s pc s
| reaches_next pc s pc1 s1 pc' s' :
    step pc s (Running pc1 s1) → reaches pc1 s1 pc' s' → reaches pc s pc' s'.

(** [eventually P pc s]: from [(pc, s)] the machine halts, in a state that
    satisfies [P].  The relation [step] is a function, so this is a
    statement about the one run from [(pc, s)]. *)
Inductive eventually (P : St → Prop) : nat → St → Prop :=
| eventually_halted pc s : step pc s (Halted s) → P s → eventually P pc s
| eventually_next pc s pc1 s1 :
    step pc s (Running pc1 s1) → eventually P pc1 s1 → eventually P pc s.

Lemma eventually_weaken (P Q : St → Prop) pc s :
  (∀ s', P s' → Q s') → eventually P pc s → eventually Q pc s.
Proof. intros HPQ. induction 1; [apply eventually_halted | eapply eventually_next]; eauto. Qed.

(** A run that halts within its fuel is a proof of [eventually]. *)
Lemma run_eventually fuel pc s s' : run fuel pc s = Halted s' → eventually (eq s') pc s.
Proof.
  revert pc s. induction fuel as [|fuel IH]; intros pc s; [done|]. simpl.
  pose proof (step_fn_step pc s) as Hstep. destruct (step_fn pc s) as [pc1 s1|s1|k e].
  - intros Hrun. eapply eventually_next; [exact Hstep | by apply IH].
  - intros [= <-]. assert (s1 = s) as -> by (by inversion Hstep). by apply eventually_halted.
  - done.
Qed.

(** And conversely: what happens eventually happens within some fuel. *)
Lemma eventually_run (P : St → Prop) pc s :
  eventually P pc s → ∃ fuel s', run fuel pc s = Halted s' ∧ P s'.
Proof.
  induction 1 as [pc s Hstep HP|pc s pc1 s1 Hstep _ (fuel & s' & Hrun & HP)].
  - exists 1%nat, s. simpl. by rewrite (step_step_fn _ _ _ Hstep).
  - exists (S fuel), s'. simpl. by rewrite (step_step_fn _ _ _ Hstep).
Qed.

(** Liveness is kept along the run: the machine is deterministic. *)
Lemma reaches_eventually (P : St → Prop) pc s pc' s' :
  reaches pc s pc' s' → eventually P pc s → eventually P pc' s'.
Proof.
  induction 1 as [|pc s pc1 s1 pc' s' Hstep _ IH]; [done|].
  intros Hev. apply IH.
  destruct Hev as [? ? Hhalt _|? ? pc2 s2 Hstep' Hev].
  - apply step_step_fn in Hstep, Hhalt. congruence.
  - apply step_step_fn in Hstep, Hstep'. congruence.
Qed.

Lemma reaches_trans pc s pc1 s1 pc2 s2 :
  reaches pc s pc1 s1 → reaches pc1 s1 pc2 s2 → reaches pc s pc2 s2.
Proof. induction 1; [done|]. intros. eapply reaches_next; eauto. Qed.

(** The program counter only grows. *)
Lemma reaches_pc pc s pc' s' : reaches pc s pc' s' → (pc ≤ pc')%nat.
Proof.
  induction 1 as [|pc s pc1 s1 pc' s' Hstep _ IH]; [done|].
  inversion Hstep; subst. lia.
Qed.

(** It never leaves the body by more than the step to the return. *)
Lemma reaches_bound pc s pc' s' :
  reaches pc s pc' s' → (pc ≤ length cs)%nat → (pc' ≤ length cs)%nat.
Proof.
  induction 1 as [|pc s pc1 s1 pc' s' Hstep _ IH]; [done|]. intros _. apply IH.
  inversion Hstep as [? ? c u ? Hc| |]; subst. by apply lookup_lt_Some in Hc.
Qed.
End Machine.

Arguments Running {St} pc s.
Arguments Halted {St} s.
Arguments Failed {St} pc e.

(** ** The machine of [main] *)

Section Main.
Context `{IntWidth} {S : Type} `{OStream S}.
Implicit Types (s : state S) (o : S).

Lemma main_body_length : length (main_body (S := S)) = 20%nat.
Proof. done. Qed.

(** The transition relation of the machine of [main] is a total
    function: every configuration has exactly one successor, the one that
    [step_fn] computes. *)
Theorem main_step_deterministic (pc : nat) s (o1 o2 : outcome) :
  step main_body pc s o1 → step main_body pc s o2 →
  o1 = o2 ∧ step_fn main_body pc s = o1.
Proof. intros H1%step_step_fn H2%step_step_fn. split; congruence. Qed.

(** C40: the run of [main] with fuel.  From the initial state the machine
    of [main] never fails: for every [k] up to 20 it is, after [k]
    transitions, at statement [k] in the state that the first [k]
    statements produce, and with fuel 21 it has halted, in the final state:
    the thirteen variables of [final_frame] and every insertion made. *)
Theorem main_machine_run o (k : nat) :
  (k ≤ 20)%nat →
  (∃ s, run main_body k 0 (initial o) = Running k s ∧
        seq (take k main_body) (initial o) = OK (tt, s)) ∧
  run main_body 21 0 (initial o) = Halted (State final_frame (final_cout o)).
Proof.
  intros Hk. split.
  - destruct (seq_take_drop k main_body _ _ _ (main_body_run o)) as (s & Hpre & _).
    exists s. split; [|done].
    by apply (run_take main_body k 0 (initial o) tt).
  - apply (run_seq_ok main_body 20 0 (initial o) tt); [done | apply main_body_run].
Qed.

(** C7: liveness.  From every configuration that the machine of [main]
    reaches from the initial state, it eventually halts, and it halts in
    the final state: with the thirteen variables of [final_frame] and with
    every insertion of the program made.  No reachable configuration is
    stuck or fails, and the program counter stays within the body. *)
Theorem main_eventually_halts o (pc : nat) s :
  reaches main_body 0 (initial o) pc s →
  (pc ≤ 20)%nat ∧
  eventually main_body (eq (State final_frame (final_cout o))) pc s.
Proof.
  intros Hreach. split.
  - apply (reaches_bound _ _ _ _ _ Hreach). rewrite main_body_length. lia.
  - eapply reaches_eventually; [exact Hreach|]. apply (run_eventually _ 21).
    apply (run_seq_ok main_body 20 0 (initial o) tt); [done | apply main_body_run].
Qed.
End Main.

(** ** The machine at concrete configurations *)

(** The state after [int n;]. *)
Definition state_after_decl_n : state ostream :=
  State (<["n" := Slot TInt false None]> ∅) cout_init.

Lemma main_first_step :
  step (main_body (H := int32)) 0 (initial cout_init) (Running 1 state_after_decl_n).
Proof. by apply (step_stmt _ 0 (initial cout_init) decl_n tt). Qed.

Lemma main_step_deterministic_witness :
  Running 1 state_after_decl_n = Running 1 state_after_decl_n ∧
  step_fn (main_body (H := int32)) 0 (initial cout_init) = Running 1 state_after_decl_n.
Proof.
  exact (main_step_deterministic (H := int32) 0 (initial cout_init) _ _
           main_first_step main_first_step).
Defined.

Lemma main_machine_run_witness :
  (∃ s, run (main_body (H := int32)) 10 0 (initial cout_init) = Running 10 s ∧
        seq (take 10 (main_body (H := int32))) (initial cout_init) = OK (tt, s)) ∧
  run (main_body (H := int32)) 21 0 (initial cout_init)
    = Halted (State final_frame (final_cout (H := int32) cout_init)).
Proof. exact (main_machine_run (H := int32) cout_init 10 ltac:(lia)). Defined.

Lemma main_reaches_decl_n :
  reaches (main_body (H := int32)) 0 (initial cout_init) 1 state_after_decl_n.
Proof. eapply reaches_next; [exact main_first_step | apply reaches_here]. Qed.

Lemma main_eventually_halts_witness :
  (1 ≤ 20)%nat ∧
  eventually (main_body (H := int32))
    (eq (State final_frame (final_cout (H := int32) cout_init))) 1 state_after_decl_n.
Proof.
  exact (main_eventually_halts (H := int32) cout_init 1 state_after_decl_n
           main_reaches_decl_n).
Defined.
