(* ===== verification/Process.v ===== *)
(** * The process: from the call of [main] to the exit

    What a user of the program observes is not the stream but the device
    behind it, and the exit status.  [std::cout] hands its characters to the
    standard output in writes whose boundaries depend on the buffering in
    force (none, by line, by block), and hands over what it still holds when
    the program exits; the value that [main] returns becomes the exit
    status.  The device may have room for less than the program writes (a
    full disk, a pipe whose reader has gone): it then takes the part of the
    write that it has room for, the stream is marked as failed, and every
    later insertion does nothing.  The program never looks at the state of
    the stream, and returns 0 all the same.

    [devstream] is a stream over a device: the writes that the device has
    received ([delivered], oldest first), the text still held, the room
    left on the device, whether a write has failed, and a [policy] that
    says, after each insertion, whether the held text is handed over.
    [run_process] is the whole run: [main] from its initial state on the
    device's stream, then the flush at exit.

    A device stream is related to the unbuffered stream that is never full
    ([tracks]); the relation is kept by writing, so the run of [main] on
    the one simulates its run on the other ([Simulation.StreamSim]). *)

From stdpp Require Import gmap.
From S2P Require Import Prelude Result MachineInt Decimal Double Ostream Locals Program Main.
From S2P Require Import Simulation.

(** ** The device and its stream *)

Record devstream : Type := {
  delivered : list string;
  held : string;
  room : nat;
  failed : bool;
  dflags : fmtflags
}.

Definition dev_init (room : nat) : devstream :=
  {| delivered := []; held := ""; room := room; failed := false; dflags := default_flags |}.

(** The text that the device has received. *)
Fixpoint concat_events (evs : list string) : string :=
  match evs with
  | [] => ""
  | e :: evs => e +:+ concat_events evs
  end.

(** Hand the held text to the device as one write.  Nothing is written for
    an empty buffer.  A device that has no room for all of the text takes
    what it has room for, and the stream fails. *)
Definition dev_flush (s : devstream) : devstream :=
  if decide (held s = "") then s
  else if decide (String.length (held s) ≤ room s)%nat then
    {| delivered := delivered s ++ [held s]; held := "";
       room := room s - String.length (held s); failed := failed s; dflags := dflags s |}
  else
    {| delivered := delivered s ++ (if decide (room s = 0%nat) then []
                                    else [str_take (room s) (held s)]);
       held := ""; room := 0; failed := true; dflags := dflags s |}.

(** Accept [t], unless the stream has failed; hand the held text over if the
    policy says so. *)
Definition dev_write (policy : string → bool) (t : string) (s : devstream) : devstream :=
  if failed s then s
  else
    let s' := {| delivered := delivered s; held := held s +:+ t; room := room s;
                 failed := false; dflags := dflags s |} in
    if policy (held s') then dev_flush s' else s'.

Definition dev_text (s : devstream) : string := concat_events (delivered s) +:+ held s.

(** ** Buffering policies *)

Definition unbuffered_policy : string → bool := λ _, true.

Definition block_policy (size : nat) : string → bool :=
  λ t, bool_decide (size ≤ String.length t)%nat.

Fixpoint has_newline (t : string) : bool :=
  match t with
  | EmptyString => false
  | String c t' => bool_decide (c = "010"%char) || has_newline t'
  end.

Definition line_policy : string → bool := has_newline.

(** ** The process *)

Record exit_record : Type := {
  exit_status : Z;
  output : list string
}.

(** The device stream follows the stream that is never full: it has the
    same flags; as long as no write has failed, it has delivered or holds
    all the text, and the room left is the room at the start less what was
    delivered; once a write has failed, it holds nothing and has delivered
    the text up to the room at the start. *)
Definition tracks (cap : nat) (s : devstream) (o : ostream) : Prop :=
  dflags s = os_flags o ∧ Forall (λ e, e ≠ "") (delivered s) ∧
  if failed s then
    held s = "" ∧ concat_events (delivered s) = str_take cap (os_text o) ∧
    (cap < String.length (os_text o))%nat
  else
    dev_text s = os_text o ∧
    (String.length (concat_events (delivered s)) + room s = cap)%nat.

Section Process.
Context `{IntWidth} (policy : string → bool).

#[local] Instance devstream_stream : OStream devstream := {
  os_write := dev_write policy;
  os_text := dev_text;
  os_flags := dflags
}.

(** [main], then the flush at exit.  A run of [main] that is undefined
    gives no exit record. *)
Definition run_process (room : nat) : res exit_record :=
  match main (initial (dev_init room)) with
  | OK (r, s) => OK {| exit_status := r; output := delivered (dev_flush (cout s)) |}
  | Err e => Err e
  end.

(** *** The device stream follows the ideal stream *)

Lemma concat_events_snoc evs e : concat_events (evs ++ [e]) = concat_events evs +:+ e.
Proof.
  induction evs as [|e' evs IH]; simpl; [by rewrite str_app_nil_r|].
  by rewrite IH, str_app_assoc.
Qed.

Lemma dev_flush_held s : held (dev_flush s) = "".
Proof. unfold dev_flush. by repeat case_decide. Qed.

Lemma dev_flush_flags s : dflags (dev_flush s) = dflags s.
Proof. unfold dev_flush. by repeat case_decide. Qed.

Lemma tracks_init cap : tracks cap (dev_init cap) cout_init.
Proof. by split_all. Qed.

(** The flush does not change the text that the stream has accepted. *)
Lemma tracks_flush cap s o : tracks cap s o → tracks cap (dev_flush s) o.
Proof.
  intros (Hfl & Hne & Hs). unfold dev_flush. case_decide as Hh; [done|].
  destruct (failed s) eqn:Hf; [by destruct Hs as [? _]|]. destruct Hs as [Ht Hroom].
  unfold dev_text in Ht.
  case_decide as Hfit; unfold tracks; cbn [failed held delivered room dflags]; rewrite ?Hf.
  - split_all; [done | apply Forall_app; split; [done | by constructor] | |].
    + unfold dev_text; cbn [held delivered]. by rewrite concat_events_snoc, str_app_nil_r.
    + rewrite concat_events_snoc, str_app_length. lia.
  - assert (String.length (os_text o)
            = String.length (concat_events (delivered s)) + String.length (held s))%nat
      as Hlen by (by rewrite <- Ht, str_app_length).
    split_all; [done | | done | | lia].
    + apply Forall_app. split; [done|]. case_decide; [done|].
      constructor; [|done]. apply str_take_nonempty; [lia | done].
    + rewrite <- Ht, <- Hroom, str_take_app. case_decide as H0.
      * by rewrite app_nil_r, H0, str_take_0, str_app_nil_r.
      * by rewrite concat_events_snoc.
Qed.

(** Writing keeps the relation. *)
Lemma tracks_write cap t s o :
  tracks cap s o → tracks cap (dev_write policy t s) (os_write t o).
Proof.
  intros (Hfl & Hne & Hs). unfold dev_write. destruct (failed s) eqn:Hf.
  - destruct Hs as (Hh & Hd & Hcap). unfold tracks.
    rewrite Hf, os_text_write, os_flags_write.
    split_all; [done.. | | rewrite str_app_length; lia].
    by rewrite str_take_app_le by lia.
  - destruct Hs as [Ht Hroom].
    assert (tracks cap {| delivered := delivered s; held := held s +:+ t; room := room s;
                          failed := false; dflags := dflags s |} (os_write t o)) as Hs'.
    { unfold tracks, dev_text in *. rewrite os_text_write, os_flags_write.
      cbn [failed held delivered room dflags]. split_all; [done.. | | done].
      by rewrite str_app_assoc, Ht. }
    destruct (policy _); [by apply tracks_flush | done].
Qed.

#[local] Instance tracks_sim cap : StreamSim (tracks cap).
Proof. split; [by intros s o (? & _) | intros t s o; apply tracks_write]. Qed.

(** What the device has received after the flush at exit. *)
Lemma tracks_exit cap s o :
  tracks cap s o →
  concat_events (delivered (dev_flush s)) = str_take cap (os_text o) ∧
  Forall (λ e, e ≠ "") (delivered (dev_flush s)).
Proof.
  intros Hs%tracks_flush. destruct Hs as (_ & Hne & Hs). split; [|done].
  destruct (failed (dev_flush s)); [by destruct Hs as (_ & ? & _)|].
  destruct Hs as [Ht Hroom]. unfold dev_text in Ht.
  rewrite dev_flush_held, str_app_nil_r in Ht. rewrite <- Ht.
  symmetry. apply str_take_all. lia.
Qed.

(** *** The run *)

Lemma final_cout_tracks cap : tracks cap (final_cout (dev_init cap)) (final_cout cout_init).
Proof. unfold final_cout. repeat apply (insert_sim (tracks cap)). apply tracks_init. Qed.

Lemma final_cout_expected : os_text (final_cout cout_init) = expected_output.
Proof. by rewrite final_cout_text, program_text_default. Qed.

Lemma run_process_eq cap :
  run_process cap =
  OK {| exit_status := 0; output := delivered (dev_flush (final_cout (dev_init cap))) |}.
Proof. unfold run_process. by rewrite main_run. Qed.

(** The exit record of the run: the status and what the device received. *)
Lemma run_process_output cap :
  ∃ evs, run_process cap = OK {| exit_status := 0; output := evs |} ∧
         concat_events evs = str_take cap expected_output ∧ Forall (λ e, e ≠ "") evs.
Proof.
  eexists. split; [apply run_process_eq|].
  destruct (tracks_exit cap _ _ (final_cout_tracks cap)) as [Hd Hne].
  by rewrite final_cout_expected in Hd.
Qed.

(** C6: the process.  For every width of [int], every buffering policy
    and every amount of room on the device, the run from the call of [main]
    to the exit is defined and the exit status is 0.  The writes that the
    device has received, put together, are the expected output up to the
    room of the device: all of it if the device has room for it.  No write
    is empty.  The policy decides where the writes are cut, never what is
    written. *)
Theorem process_run cap :
  ∃ evs, run_process cap = OK {| exit_status := 0; output := evs |} ∧
         concat_events evs = str_take cap expected_output ∧
         ((String.length expected_output ≤ cap)%nat → concat_events evs = expected_output) ∧
         Forall (λ e, e ≠ "") evs.
Proof.
  destruct (run_process_output cap) as (evs & Hrun & Hd & Hne).
  exists evs. split_all; [done.. | | done]. intros Hcap. by rewrite Hd, str_take_all.
Qed.
End Process.

(** ** Three policies at 32 bits *)

(** On a device with room: without a buffer every insertion is a write (21
    of them); with a line buffer every line is (seven); with a block larger
    than the output there is one write, at exit. *)
Lemma process_policies :
  (length <$> res_to_option (output <$> run_process (H := int32) unbuffered_policy 4096),
   output <$> run_process (H := int32) line_policy 4096,
   output <$> run_process (H := int32) (block_policy 4096) 4096)
  = (Some 21%nat,
     OK [ "1055.99DHello1" +:+ newline; newline; "19" +:+ newline;
          "150##################################" +:+ newline;
          "Length is: 4" +:+ newline; "Width is: 6" +:+ newline;
          "Area of the rectangle is: 24" +:+ newline ],
     OK [ expected_output ]).
Proof. by vm_compute. Qed.

(** On a device with room for twenty bytes: the first line and the empty
    line arrive, the third write is cut, and the exit status is 0. *)
Lemma process_full_device :
  run_process (H := int32) line_policy 20
  = OK {| exit_status := 0;
          output := [ "1055.99DHello1" +:+ newline; newline; "19" +:+ newline; "1" ] |}.
Proof. by vm_compute. Qed.

Lemma process_run_witness :
  ∃ evs, run_process (H := int32) line_policy 100 = OK {| exit_status := 0; output := evs |} ∧
         concat_events evs = str_take 100 expected_output ∧
         ((String.length expected_output ≤ 100)%nat → concat_events evs = expected_output) ∧
         Forall (λ e, e ≠ "") evs.
Proof. exact (process_run (H := int32) line_policy 100). Defined.
