(* ===== verification/Syntax.v ===== *)
(** * The source file as syntax

    [Program] gives each statement of [main] its meaning directly.  This
    file has the other half: the text of [src/CPP/3_variables.cpp] as a
    syntax tree ([source_unit]: the include, the using-directive and the
    definition of [main], statement by statement), the rules by which the
    names [cout] and [string] are found, and an interpreter for the fragment
    of the language that the file is written in.  [run_source_unit] proves
    that the interpreter on the tree is [Program.main], on every state.

    The fragment: literals of the five types, variables, [+] and [*] on
    [int], assignment as an expression, declarations with a list of
    declarators (with or without [const] and initialisers), insertion of a
    list of expressions into a stream, [return].  Three simplifications are
    made, none of which the program can observe:
    - an initialiser is evaluated before its variable is declared, so
      [int x = x;] is an undeclared name here (in C++ the variable is
      already in scope and the read is undefined);
    - a string literal has the type of [std::string] (the program only
      inserts string literals and initialises a [string] with one);
    - a local variable is assumed not to have the name of an entity of
      namespace [std] ([in_fragment] checks it). *)

From Stdlib Require Import Floats.SpecFloat.
From stdpp Require Import gmap.
From S2P Require Import Prelude Result MachineInt Decimal Double Ostream Locals Program.

(** ** Expressions and statements *)

Inductive literal : Type :=
| LInt (z : Z)
| LFloat (digits : positive) (decimals : nat)
| LChar (c : ascii)
| LString (s : string)
| LBool (b : bool).

Variant binop : Type := Add | Mul.

Inductive expr : Type :=
| ELit (l : literal)
| EVar (x : string)
| EBin (op : binop) (e1 e2 : expr)
| EAssign (x : string) (e : expr).

(** A type as it is written: a keyword, or a name to be looked up. *)
Inductive tyname : Type :=
| TyInt
| TyDouble
| TyChar
| TyBool
| TyName (n : string).

Record declarator : Type := Declarator {
  decl_name : string;
  decl_init : option expr
}.

Inductive stmt : Type :=
| SDecl (is_const : bool) (t : tyname) (ds : list declarator)
| SExpr (e : expr)
| SInsert (stream : string) (es : list expr)
| SReturn (e : expr).

Record function : Type := {
  fn_type : tyname;
  fn_name : string;
  fn_body : list stmt
}.

Record translation_unit : Type := {
  includes : list string;
  usings : list string;
  unit_main : function
}.

#[export] Instance literal_eq_dec : EqDecision literal.
Proof. solve_decision. Defined.
#[export] Instance binop_eq_dec : EqDecision binop.
Proof. solve_decision. Defined.
#[export] Instance expr_eq_dec : EqDecision expr.
Proof. solve_decision. Defined.
#[export] Instance tyname_eq_dec : EqDecision tyname.
Proof. solve_decision. Defined.

(** ** The source file *)

Definition int_lit (z : Z) : expr := ELit (LInt z).
Definition str_lit (s : string) : expr := ELit (LString s).

(** [T x = e] and [T x] as declarators. *)
Definition with_init (x : string) (e : expr) : declarator := Declarator x (Some e).
Definition without_init (x : string) : declarator := Declarator x None.

(** The 21 statements of [main] in the order of the source: lines 6, 7, 9
    to 13, 15, 18, 19, 22, 23, 28, 30, 34, 35, 38, 41 to 43 and 45.  The
    string with the line break is [newline]; [x+y+z] is [(x+y)+z] and
    [x = y = z = 50] is [x = (y = (z = 50))], as the grammar has them. *)
Definition main_stmts : list stmt :=
  [ SDecl false TyInt [without_init "n"];
    SExpr (EAssign "n" (int_lit 10));
    SDecl false TyInt [with_init "myNum" (int_lit 5)];
    SDecl false TyDouble [with_init "myFloatNum" (ELit (LFloat 599 2))];
    SDecl false TyChar [with_init "myLetter" (ELit (LChar "D"))];
    SDecl false (TyName "string") [with_init "myText" (str_lit "Hello")];
    SDecl false TyBool [with_init "myBoolean" (ELit (LBool true))];
    SInsert "cout" [EVar "n"; EVar "myNum"; EVar "myFloatNum"; EVar "myLetter";
                    EVar "myText"; EVar "myBoolean"; str_lit newline];
    SDecl false TyInt [with_init "x" (int_lit 4); with_init "y" (int_lit 6);
                       with_init "z" (int_lit 9)];
    SInsert "cout" [str_lit newline; EBin Add (EBin Add (EVar "x") (EVar "y")) (EVar "z")];
    SExpr (EAssign "x" (EAssign "y" (EAssign "z" (int_lit 50))));
    SInsert "cout" [str_lit newline; EBin Add (EBin Add (EVar "x") (EVar "y")) (EVar "z")];
    SDecl true TyInt [with_init "minutesPerHour" (int_lit 60)];
    SInsert "cout" [str_lit ("##################################" +:+ newline)];
    SDecl false TyInt [with_init "length" (int_lit 4)];
    SDecl false TyInt [with_init "width" (int_lit 6)];
    SDecl false TyInt [with_init "area" (EBin Mul (EVar "length") (EVar "width"))];
    SInsert "cout" [str_lit "Length is: "; EVar "length"; str_lit newline];
    SInsert "cout" [str_lit "Width is: "; EVar "width"; str_lit newline];
    SInsert "cout" [str_lit "Area of the rectangle is: "; EVar "area"; str_lit newline];
    SReturn (int_lit 0) ].

(** Lines 4 to 46: [int main() { ... }]. *)
Definition main_function : function :=
  {| fn_type := TyInt; fn_name := "main"; fn_body := main_stmts |}.

(** The file: [#include <iostream>], [using namespace std;], [main]. *)
Definition source_unit : translation_unit :=
  {| includes := ["iostream"]; usings := ["std"]; unit_main := main_function |}.

(** ** Names of namespace [std] *)

(** What a name of namespace [std] can denote in this fragment. *)
Inductive entity : Type :=
| EntStream
| EntType (t : ctype).

#[export] Instance entity_eq_dec : EqDecision entity.
Proof. solve_decision. Defined.

(** A library says which names each header declares in namespace [std]. *)
Definition library : Type := string → gmap string entity.

(** The names the language standard promises: [<iostream>] declares the
    standard streams, [<string>] declares [std::string]. *)
Definition strict_library : library := λ h,
  if decide (h = "iostream") then {[ "cout" := EntStream ]}
  else if decide (h = "string") then {[ "string" := EntType TString ]}
  else ∅.

(** The common implementations: [<iostream>] includes enough of [<string>]
    to declare [std::string] as well. *)
Definition hosted_library : library := λ h,
  if decide (h = "iostream") then {[ "cout" := EntStream; "string" := EntType TString ]}
  else strict_library h.

(** The names found by unqualified lookup outside the block: those of the
    included headers, if a using-directive nominates [std]. *)
Definition unit_scope (lib : library) (tu : translation_unit) : gmap string entity :=
  if decide ("std" ∈ usings tu) then foldr (λ h m, lib h ∪ m) ∅ (includes tu) else ∅.

(** The variables that a statement declares. *)
Definition declared (st : stmt) : list string :=
  match st with
  | SDecl _ _ ds => decl_name <$> ds
  | _ => []
  end.

(** No variable has the name of an entity of the scope. *)
Definition in_fragment (scope : gmap string entity) (sts : list stmt) : bool :=
  bool_decide (Forall (λ x, scope !! x = None) (sts ≫= declared)).

(** ** The meaning of the fragment *)

Section Semantics.
Context `{IntWidth} {S : Type} `{OStream S}.
Context (scope : gmap string entity).

(** An integer literal has type [int] if [int] can represent it; a larger
    one has a wider type, which is outside the fragment. *)
Definition lit_value (l : literal) : res value :=
  match l with
  | LInt z => if decide (in_range z) then OK (VInt z) else Err (TypeMismatch "literal")
  | LFloat m k => OK (VDouble (double_lit m k))
  | LChar c => OK (VChar c)
  | LString s => OK (VString s)
  | LBool b => OK (VBool b)
  end.

(** The name under which an ill-typed operand is reported. *)
Definition expr_name (e : expr) : string :=
  match e with
  | ELit _ => "literal"
  | EVar x => x
  | EBin Add _ _ => "+"
  | EBin Mul _ _ => "*"
  | EAssign x _ => x
  end.

(** An operand of [+] or [*] is an [int]. *)
Definition as_int (e : expr) (v : value) : res Z :=
  match v with
  | VInt z => OK z
  | _ => Err (TypeMismatch (expr_name e))
  end.

Definition binop_apply (op : binop) (a b : Z) : res Z :=
  match op with
  | Add => int_add a b
  | Mul => int_mul a b
  end.

(** The operands of [+] and [*] are evaluated from left to right, as are
    those of a chain of insertions; an assignment evaluates its right side
    first and has the value of the variable afterwards. *)
Fixpoint eval_expr (e : expr) : exec (state S) value :=
  match e with
  | ELit l => lift (lit_value l)
  | EVar x => eval (read x)
  | EBin op e1 e2 =>
      a ← (v ← eval_expr e1; lift (as_int e1 v));
      b ← (v ← eval_expr e2; lift (as_int e2 v));
      z ← lift (binop_apply op a b);
      mret (VInt z)
  | EAssign x e => v ← eval_expr e; assign_expr x v
  end.

Definition resolve_type (t : tyname) : res ctype :=
  match t with
  | TyInt => OK TInt
  | TyDouble => OK TDouble
  | TyChar => OK TChar
  | TyBool => OK TBool
  | TyName n =>
      match scope !! n with
      | Some (EntType t) => OK t
      | Some EntStream => Err (TypeMismatch n)
      | None => Err (Undeclared n)
      end
  end.

Definition resolve_stream (o : string) : res unit :=
  match scope !! o with
  | Some EntStream => OK tt
  | Some (EntType _) => Err (TypeMismatch o)
  | None => Err (Undeclared o)
  end.

(** One declarator of a declaration of type [t].  A [const] variable needs
    its initialiser: it cannot be given a value later. *)
Definition exec_declarator (c : bool) (t : ctype) (d : declarator) : exec (state S) unit :=
  match decl_init d with
  | None =>
      if c then raise (ConstWrite (decl_name d))
      else on_locals (declare (decl_name d) t)
  | Some e => v ← eval_expr e; on_locals (init (decl_name d) t c v)
  end.

(** [cout << e]: the value of [e], then its insertion. *)
Definition exec_insert (e : expr) : exec (state S) unit :=
  v ← eval_expr e; print v.

(** A statement completes normally ([None]) or returns a value. *)
Definition exec_stmt (st : stmt) : exec (state S) (option value) :=
  match st with
  | SDecl c t ds =>
      t' ← lift (resolve_type t); seq (exec_declarator c t' <$> ds) ;; mret None
  | SExpr e => eval_expr e ;; mret None
  | SInsert o es =>
      lift (resolve_stream o) ;; seq (exec_insert <$> es) ;; mret None
  | SReturn e => v ← eval_expr e; mret (Some v)
  end.

(** The statements of a block in order, up to the first [return]. *)
Fixpoint exec_block (sts : list stmt) : exec (state S) (option value) :=
  match sts with
  | [] => mret None
  | st :: sts =>
      r ← exec_stmt st;
      match r with
      | Some v => mret (Some v)
      | None => exec_block sts
      end
  end.

(** The call of [main]: its type is [int]; flowing off its end returns 0. *)
Definition call_main (f : function) : exec (state S) Z :=
  t ← lift (resolve_type (fn_type f));
  if decide (t = TInt) then
    r ← exec_block (fn_body f);
    match r with
    | None => mret 0
    | Some (VInt z) => mret z
    | Some _ => raise (TypeMismatch (fn_name f))
    end
  else raise (TypeMismatch (fn_name f)).
End Semantics.

(** The run of a translation unit with a library. *)
Definition run_unit `{IntWidth} {S : Type} `{OStream S}
    (lib : library) (tu : translation_unit) : exec (state S) Z :=
  call_main (unit_scope lib tu) (unit_main tu).

(** * The tree means what [Program] says

    Each statement of [main_stmts], run by the interpreter, is the
    definition that [Program] gives for its line. *)

Section Agreement.
Context `{IntWidth} {S : Type} `{OStream S}.
Context (scope : gmap string entity).
Hypothesis scope_cout : scope !! "cout" = Some EntStream.
Hypothesis scope_string : scope !! "string" = Some (EntType TString).
Implicit Types (x : string) (v : value) (e : expr) (c : exec (state S) unit).

Lemma lit_value_small z : -32768 ≤ z ≤ 32767 → lit_value (LInt z) = OK (VInt z).
Proof. intros Hz. simpl. by rewrite decide_True by by apply in_range_small. Qed.

Lemma lift_ok_bind {A B} (a : A) (k : A → exec (state S) B) s : (lift (OK a) ≫= k) s = k a s.
Proof. done. Qed.

(** [exec_unfold] writes a statement of either kind as the case analysis
    that it makes on the operations of the frame; [exec_cases] follows the
    cases.  A variable that has just been assigned has a value. *)
Ltac exec_unfold :=
  repeat (progress (
    unfold exec_stmt, exec_declarator, exec_insert, resolve_type, resolve_stream,
      print_var, assign_expr, eval, on_locals, print, lift, raise, read_int,
      as_int, mbind, exec_bind, res_bind, mret, exec_ret;
    cbn [fmap list_fmap seq eval_expr decl_init decl_name with_init without_init
         int_lit str_lit locals cout lit_value binop_apply expr_name]));
  rewrite ?scope_cout, ?scope_string, ?decide_True by (apply in_range_small; lia).

Ltac exec_cases :=
  repeat first
    [ reflexivity
    | discriminate
    | progress (cbn [locals cout] in * )
    | progress simplify_eq
    | match goal with
      | Ha : assign ?x ?v ?f = OK ?f', Hr : read ?x ?f' = _ |- _ =>
          rewrite (read_after_assign _ _ _ _ Ha) in Hr
      end
    | case_inner ].

Ltac stmt_agrees :=
  intros [f o];
  unfold decl_n, assign_n, init_myNum, init_myFloatNum, init_myLetter, init_myText,
    init_myBoolean, print_primitives, init_xyz, print_sum, sum_xyz, chain_assign,
    init_minutesPerHour, print_separator, init_length, init_width, init_area, area_expr,
    print_length, print_width, print_area;
  exec_unfold; exec_cases.

(** A statement of the tree and a statement of [Program] agree when they do
    the same on every state; the statement of the tree completes normally. *)
Definition agrees (st : stmt) (c : exec (state S) unit) : Prop :=
  exec_stmt scope st ≈ (c ;; mret None).

Lemma main_stmts_agree : Forall2 agrees (take 20 main_stmts) main_body.
Proof. repeat (constructor; [stmt_agrees|]). constructor. Qed.

(** A block of statements that agree, followed by a [return]. *)
Lemma exec_block_return sts (cs : list (exec (state S) unit)) e :
  Forall2 agrees sts cs →
  exec_block scope (sts ++ [SReturn e]) ≈ (seq cs ;; v ← eval_expr e; mret (Some v)).
Proof.
  induction 1 as [|st c sts cs Hst _ IH]; intros s; cbn [app exec_block seq].
  - unfold exec_stmt, mbind, exec_bind, mret, exec_ret.
    by destruct (eval_expr e s) as [[v s']|err].
  - pose proof (Hst s) as Hs. rewrite (exec_bind_assoc c _ _ s).
    destruct (c s) as [[[] s']|err] eqn:Hc.
    + rewrite (bind_ok _ _ _ _ _ Hc) in Hs.
      rewrite (bind_ok _ _ _ _ _ Hs), (bind_ok _ _ _ _ _ Hc). apply IH.
    + rewrite (bind_err _ _ _ _ Hc) in Hs.
      by rewrite (bind_err _ _ _ _ Hs), (bind_err _ _ _ _ Hc).
Qed.

Lemma call_main_function : call_main scope main_function ≈ main.
Proof.
  intros s. unfold call_main, main.
  pose proof (exec_block_return _ _ (int_lit 0) main_stmts_agree s) as Hs.
  change (take 20 main_stmts ++ [SReturn (int_lit 0)]) with (fn_body main_function) in Hs.
  cbn [fn_type resolve_type]. rewrite (lift_ok_bind TInt), decide_True by done.
  destruct (seq main_body s) as [[[] s']|err] eqn:Hc.
  - rewrite (bind_ok _ _ _ _ _ Hc) in Hs. cbn [eval_expr int_lit] in Hs.
    rewrite lit_value_small in Hs by lia.
    by rewrite (bind_ok _ _ _ _ _ Hs), (bind_ok _ _ _ _ _ Hc).
  - rewrite (bind_err _ _ _ _ Hc) in Hs.
    by rewrite (bind_err _ _ _ _ Hs), (bind_err _ _ _ _ Hc).
Qed.
End Agreement.

(** The names of the program in the scope of the file. *)
Lemma source_scope :
  unit_scope hosted_library source_unit !! "cout" = Some EntStream ∧
  unit_scope hosted_library source_unit !! "string" = Some (EntType TString).
Proof. by vm_compute. Qed.

(** The interpreter on the tree of the file is [main]. *)
Lemma run_source_unit `{IntWidth} {S : Type} `{OStream S} :
  run_unit hosted_library source_unit ≈ (main : exec (state S) Z).
Proof. destruct source_scope. by apply call_main_function. Qed.
