(* ===== verification/Lexer.v ===== *)
(** * From characters to tokens

    The first phases of translation, for the fragment of the language that
    [src/CPP/3_variables.cpp] is written in.  The text of the file is a
    string; the lexer reads it one character at a time and produces the
    tokens of the file: the directive [#include <iostream>], keywords,
    identifiers, literals and punctuators.  Blanks, line breaks and
    comments ([//] to the end of the line) separate tokens and are dropped.

    The lexer is a state machine: [lex_state] says what has been read of
    the token under way, [lex_step] is the transition on one character
    (with the tokens that it completes), [lex_end] is the transition at the
    end of the text, and [lex_go] iterates them, counting the lines for the
    errors.  The recursion is on the text, so the lexer is total.

    What is outside the fragment is an error, not a guess: a character
    that starts no token of the fragment, a keyword of the language that
    the fragment has no use for, an operator of more than one character
    other than [<<], a number with a suffix, an exponent or a leading zero,
    a directive other than [#include <...>], an unknown escape. *)

From S2P Require Import Prelude Decimal Syntax.

(** ** Tokens *)

(** The keywords that the file uses. *)
Inductive keyword : Type :=
| KUsing | KNamespace | KInt | KDouble | KChar | KBool | KConst | KReturn.

(** The punctuators that the file uses. *)
Inductive punct : Type :=
| PShl | PAssign | PPlus | PStar | PSemi | PComma
| PLParen | PRParen | PLBrace | PRBrace.

Inductive token : Type :=
| TInclude (header : string)
| TKeyword (k : keyword)
| TIdent (x : string)
| TLit (l : literal)
| TPunct (p : punct).

#[export] Instance keyword_eq_dec : EqDecision keyword.
Proof. solve_decision. Defined.
#[export] Instance punct_eq_dec : EqDecision punct.
Proof. solve_decision. Defined.
#[export] Instance token_eq_dec : EqDecision token.
Proof. solve_decision. Defined.

(** ** Errors *)

(** A result or an error: the monad of the front end. *)
#[export] Instance sum_ret {E} : MRet (sum E) := λ A, inr.
#[export] Instance sum_bind {E} : MBind (sum E) := λ A B f r,
  match r with inl e => inl e | inr a => f a end.

Inductive lex_fault : Type :=
| BadCharacter (c : ascii)
| BadNumber (digits : string)
| BadEscape (c : ascii)
| BadDirective (text : string)
| Reserved (word : string)
| Unterminated.

(** A fault, and the line on which it was found. *)
Inductive lex_error : Type := LexError (line : nat) (f : lex_fault).

#[export] Instance lex_fault_eq_dec : EqDecision lex_fault.
Proof. solve_decision. Defined.
#[export] Instance lex_error_eq_dec : EqDecision lex_error.
Proof. solve_decision. Defined.

(** ** Characters *)

(** The double quote and the backslash. *)
Definition dq : ascii := ascii_of_nat 34.
Definition backslash : ascii := ascii_of_nat 92.

Definition is_newline (c : ascii) : bool := bool_decide (c = "010"%char).

Definition is_blank (c : ascii) : bool :=
  bool_decide (c = " "%char ∨ c = "009"%char ∨ c = "013"%char).

(** [A] to [Z], [a] to [z] and the underscore. *)
Definition is_letter (c : ascii) : bool :=
  let n := N_of_ascii c in
  ((65 <=? n) && (n <=? 90) || (97 <=? n) && (n <=? 122) || (n =? 95))%N.

Definition is_digit_char (c : ascii) : bool := bool_decide (is_digit c).

Definition is_ident_char (c : ascii) : bool := is_letter c || is_digit_char c.

(** ** Words *)

Definition keyword_text (k : keyword) : string :=
  match k with
  | KUsing => "using" | KNamespace => "namespace" | KInt => "int"
  | KDouble => "double" | KChar => "char" | KBool => "bool"
  | KConst => "const" | KReturn => "return"
  end.

Definition keywords : list keyword :=
  [KUsing; KNamespace; KInt; KDouble; KChar; KBool; KConst; KReturn].

(** The keywords of the language that the fragment has no use for. *)
Definition reserved_words : list string :=
  [ "alignas"; "alignof"; "and"; "and_eq"; "asm"; "auto"; "bitand"; "bitor"; "break";
    "case"; "catch"; "char8_t"; "char16_t"; "char32_t"; "class"; "compl"; "concept";
    "consteval"; "constexpr"; "constinit"; "const_cast"; "continue"; "co_await";
    "co_return"; "co_yield"; "decltype"; "default"; "delete"; "do"; "dynamic_cast";
    "else"; "enum"; "explicit"; "export"; "extern"; "float"; "for"; "friend"; "goto";
    "if"; "inline"; "long"; "mutable"; "new"; "noexcept"; "not"; "not_eq"; "nullptr";
    "operator"; "or"; "or_eq"; "private"; "protected"; "public"; "register";
    "reinterpret_cast"; "requires"; "short"; "signed"; "sizeof"; "static";
    "static_assert"; "static_cast"; "struct"; "switch"; "template"; "this";
    "thread_local"; "throw"; "try"; "typedef"; "typeid"; "typename"; "union";
    "unsigned"; "virtual"; "void"; "volatile"; "wchar_t"; "while"; "xor"; "xor_eq" ].

(** The keyword with the text [w], if there is one. *)
Definition keyword_of (w : string) : option keyword :=
  list_find (λ k, keyword_text k = w) keywords ≫= λ r, Some r.2.

(** The token of a word. *)
Definition word_token (w : string) : lex_fault + token :=
  match keyword_of w with
  | Some k => inr (TKeyword k)
  | None =>
      if decide (w = "true") then inr (TLit (LBool true))
      else if decide (w = "false") then inr (TLit (LBool false))
      else if decide (w ∈ reserved_words) then inl (Reserved w)
      else inr (TIdent w)
  end.

(** ** Numbers *)

(** The token of the digits [ip], followed or not by a point and the digits
    [fp].  A decimal integer does not start with 0 unless it is 0; a
    floating literal has a digit other than 0 (the tree has no literal for
    a floating zero). *)
Definition leading_zero (ip : string) : bool :=
  match ip with
  | String c (String _ _) => bool_decide (c = "0"%char)
  | _ => false
  end.

Definition number_token (ip : string) (fp : option string) : lex_fault + token :=
  match fp with
  | None =>
      if leading_zero ip then inl (BadNumber ip)
      else
        match parse_go ip 0 with
        | Some v => inr (TLit (LInt v))
        | None => inl (BadNumber ip)
        end
  | Some fp =>
      match parse_go (ip +:+ fp) 0 with
      | Some (Zpos d) => inr (TLit (LFloat d (String.length fp)))
      | _ => inl (BadNumber (ip +:+ "." +:+ fp))
      end
  end.

(** ** Escapes *)

(** The character that [\c] denotes. *)
Definition unescape (c : ascii) : lex_fault + ascii :=
  if decide (c = "n"%char) then inr "010"%char
  else if decide (c = "t"%char) then inr "009"%char
  else if decide (c = "0"%char) then inr "000"%char
  else if decide (c = backslash ∨ c = "'"%char ∨ c = dq) then inr c
  else inl (BadEscape c).

(** ** Directives *)

Fixpoint skip_blanks (s : string) : string :=
  match s with
  | String c s' => if is_blank c then skip_blanks s' else s
  | EmptyString => s
  end.

Fixpoint strip_prefix (p s : string) : option string :=
  match p, s with
  | EmptyString, _ => Some s
  | String a p', String b s' => if decide (a = b) then strip_prefix p' s' else None
  | String _ _, EmptyString => None
  end.

(** The text up to the first [c], and the text after it. *)
Fixpoint split_at (c : ascii) (s : string) : option (string * string) :=
  match s with
  | EmptyString => None
  | String a s' =>
      if decide (a = c) then Some (EmptyString, s')
      else '(h, t) ← split_at c s'; Some (String a h, t)
  end.

(** The end of a directive: blanks, and possibly a comment. *)
Definition ends_line (s : string) : bool :=
  match skip_blanks s with
  | EmptyString => true
  | String a (String b _) => bool_decide (a = "/"%char ∧ b = "/"%char)
  | _ => false
  end.

(** The token of the directive with the text [text] after the [#]. *)
Definition directive_token (text : string) : lex_fault + token :=
  match
    rest ← strip_prefix "include" (skip_blanks text);
    rest ← strip_prefix "<" (skip_blanks rest);
    '(h, rest) ← split_at ">" rest;
    if decide (h ≠ "" ∧ ends_line rest = true) then Some (TInclude h) else None
  with
  | Some t => inr t
  | None => inl (BadDirective text)
  end.

(** ** The state machine *)

Inductive lex_state : Type :=
| Start (bol : bool)
| InWord (w : string)
| InNumber (ip : string)
| InFraction (ip fp : string)
| InOp (p : punct)
| InLess
| InSlash
| InComment
| InDirective (text : string)
| InChar
| InCharEsc
| InCharEnd (c : ascii)
| InString (s : string)
| InStringEsc (s : string).

(** [s] with [c] at its end. *)
Definition snoc (s : string) (c : ascii) : string := s +:+ String c "".

(** The punctuators of one character that can start a longer operator of
    the language, and the others. *)
Definition operator_of (c : ascii) : option punct :=
  if decide (c = "="%char) then Some PAssign
  else if decide (c = "+"%char) then Some PPlus
  else if decide (c = "*"%char) then Some PStar
  else None.

Definition separator_of (c : ascii) : option punct :=
  if decide (c = ";"%char) then Some PSemi
  else if decide (c = ","%char) then Some PComma
  else if decide (c = "("%char) then Some PLParen
  else if decide (c = ")"%char) then Some PRParen
  else if decide (c = "{"%char) then Some PLBrace
  else if decide (c = "}"%char) then Some PRBrace
  else None.

(** The transition between tokens.  [bol]: only blanks have been read
    since the start of the line, so that a directive can start here. *)
Definition lex_start (bol : bool) (c : ascii) : lex_fault + (list token * lex_state) :=
  if is_newline c then inr ([], Start true)
  else if is_blank c then inr ([], Start bol)
  else if is_letter c then inr ([], InWord (String c ""))
  else if is_digit_char c then inr ([], InNumber (String c ""))
  else if decide (c = "#"%char) then
    if bol then inr ([], InDirective "") else inl (BadCharacter c)
  else if decide (c = "/"%char) then inr ([], InSlash)
  else if decide (c = "<"%char) then inr ([], InLess)
  else if decide (c = "'"%char) then inr ([], InChar)
  else if decide (c = dq) then inr ([], InString "")
  else
    match operator_of c, separator_of c with
    | Some p, _ => inr ([], InOp p)
    | None, Some p => inr ([TPunct p], Start false)
    | None, None => inl (BadCharacter c)
    end.

(** Complete the token [t], then read [c] between tokens. *)
Definition emit (t : lex_fault + token) (c : ascii) : lex_fault + (list token * lex_state) :=
  t ← t; '(ts, st) ← lex_start false c; inr (t :: ts, st).

(** The transition on the character [c]. *)
Definition lex_step (st : lex_state) (c : ascii) : lex_fault + (list token * lex_state) :=
  match st with
  | Start bol => lex_start bol c
  | InWord w =>
      if is_ident_char c then inr ([], InWord (snoc w c)) else emit (word_token w) c
  | InNumber ip =>
      if is_digit_char c then inr ([], InNumber (snoc ip c))
      else if decide (c = "."%char) then inr ([], InFraction ip "")
      else if is_letter c then inl (BadNumber (snoc ip c))
      else emit (number_token ip None) c
  | InFraction ip fp =>
      if is_digit_char c then inr ([], InFraction ip (snoc fp c))
      else if is_letter c || bool_decide (c = "."%char)
      then inl (BadNumber (ip +:+ "." +:+ snoc fp c))
      else emit (number_token ip (Some fp)) c
  | InOp p =>
      if decide (c = "="%char ∨ (p = PPlus ∧ c = "+"%char)) then inl (BadCharacter c)
      else emit (inr (TPunct p)) c
  | InLess => if decide (c = "<"%char) then inr ([], InOp PShl) else inl (BadCharacter "<")
  | InSlash => if decide (c = "/"%char) then inr ([], InComment) else inl (BadCharacter "/")
  | InComment => if is_newline c then inr ([], Start true) else inr ([], InComment)
  | InDirective text =>
      if is_newline c then t ← directive_token text; inr ([t], Start true)
      else inr ([], InDirective (snoc text c))
  | InChar =>
      if decide (c = backslash) then inr ([], InCharEsc)
      else if decide (c = "'"%char) then inl (BadCharacter c)
      else if is_newline c then inl Unterminated
      else inr ([], InCharEnd c)
  | InCharEsc => c' ← unescape c; inr ([], InCharEnd c')
  | InCharEnd a =>
      if decide (c = "'"%char) then inr ([TLit (LChar a)], Start false) else inl Unterminated
  | InString s =>
      if decide (c = dq) then inr ([TLit (LString s)], Start false)
      else if decide (c = backslash) then inr ([], InStringEsc s)
      else if is_newline c then inl Unterminated
      else inr ([], InString (snoc s c))
  | InStringEsc s => c' ← unescape c; inr ([], InString (snoc s c'))
  end.

(** The transition at the end of the text. *)
Definition lex_end (st : lex_state) : lex_fault + list token :=
  match st with
  | Start _ | InComment => inr []
  | InWord w => t ← word_token w; inr [t]
  | InNumber ip => t ← number_token ip None; inr [t]
  | InFraction ip fp => t ← number_token ip (Some fp); inr [t]
  | InOp p => inr [TPunct p]
  | InDirective text => t ← directive_token text; inr [t]
  | InLess => inl (BadCharacter "<")
  | InSlash => inl (BadCharacter "/")
  | InChar | InCharEsc | InCharEnd _ | InString _ | InStringEsc _ => inl Unterminated
  end.

(** The line after the character [c] of line [line]. *)
Definition next_line (c : ascii) (line : nat) : nat :=
  if is_newline c then S line else line.

Definition at_line {A} (line : nat) (r : lex_fault + A) : lex_error + A :=
  match r with
  | inl f => inl (LexError line f)
  | inr a => inr a
  end.

(** The tokens of the text [s], read from the state [st] on line [line]. *)
Fixpoint lex_go (s : string) (st : lex_state) (line : nat) : lex_error + list token :=
  match s with
  | EmptyString => at_line line (lex_end st)
  | String c s' =>
      '(ts, st') ← at_line line (lex_step st c);
      ts' ← lex_go s' st' (next_line c line);
      inr (ts ++ ts')
  end.

(** The tokens of a text. *)
Definition lex (s : string) : lex_error + list token := lex_go s (Start true) 1.
