(* ===== verification/Parser.v ===== *)
(** * From tokens to the tree

    The grammar of the fragment, as a parser by recursive descent.  An
    expression is an assignment [x = e] (which groups to the right), a sum
    of products (which group to the left), a product of primary
    expressions, and a primary expression is a literal, a name or an
    expression in parentheses.  A statement is a declaration (a type, with
    or without [const], and a list of declarators), an insertion into a
    stream ([cout << e << e]), an expression or a [return].  A translation
    unit is its [#include] directives, its using-directives and one
    function without parameters.

    A statement that starts with a name is a declaration if a second name
    follows ([string myText]), an insertion if [<<] follows, and an
    expression otherwise: the parser needs no table of the names that
    denote types.

    Recursion that is not on the list of tokens takes fuel: [N], which
    bounds the number of operands of an operator, of declarators and of
    statements, and the depth of the parentheses.  The number of tokens is
    enough of it ([parse_unit]).  [TooDeep] is the error of a parser that
    has run out of fuel, which [parse_unit] never returns. *)

From S2P Require Import Prelude Syntax Lexer.

(** ** Errors and results *)

Inductive parse_error : Type :=
| Unexpected (found : option token)
| TooDeep.

(** What a parser returns: an error, or what it has read and the tokens
    that follow. *)
Abbreviation parsed A := (parse_error + (A * list token))%type.

(** The first of [ts] is not what the grammar allows there ([None]: the
    tokens have ended). *)
Definition unexpected {A} (ts : list token) : parse_error + A :=
  inl (Unexpected (head ts)).

(** The token [t] at the head of [ts]. *)
Definition expect (t : token) (ts : list token) : parse_error + list token :=
  match ts with
  | t' :: ts' => if decide (t' = t) then inr ts' else unexpected ts
  | [] => unexpected ts
  end.

(** ** Expressions *)

Section Levels.
Context (N : nat) (inner : list token → parsed expr).

(** A literal, a name, or an expression in parentheses, read by [inner]. *)
Definition parse_primary (ts : list token) : parsed expr :=
  match ts with
  | TLit l :: ts' => inr (ELit l, ts')
  | TIdent x :: ts' => inr (EVar x, ts')
  | TPunct PLParen :: ts' =>
      '(e, ts1) ← inner ts';
      ts2 ← expect (TPunct PRParen) ts1;
      inr (e, ts2)
  | _ => unexpected ts
  end.

(** The operands that follow [acc], each after the operator [p] and read by
    [next]; the operator groups to the left. *)
Fixpoint binary_rest (p : punct) (op : binop) (next : list token → parsed expr)
    (n : nat) (acc : expr) (ts : list token) : parsed expr :=
  match ts with
  | TPunct p' :: ts' =>
      if decide (p' = p) then
        match n with
        | O => inl TooDeep
        | S n =>
            '(e, ts1) ← next ts';
            binary_rest p op next n (EBin op acc e) ts1
        end
      else inr (acc, ts)
  | _ => inr (acc, ts)
  end.

Definition binary (p : punct) (op : binop) (next : list token → parsed expr)
    (ts : list token) : parsed expr :=
  '(e, ts1) ← next ts; binary_rest p op next N e ts1.

Definition parse_mul : list token → parsed expr := binary PStar Mul parse_primary.

Definition parse_add : list token → parsed expr := binary PPlus Add parse_mul.

(** [x = e], or a sum. *)
Fixpoint parse_assign (ts : list token) : parsed expr :=
  match ts with
  | TIdent x :: TPunct PAssign :: ts' =>
      '(e, ts1) ← parse_assign ts'; inr (EAssign x e, ts1)
  | _ => parse_add ts
  end.
End Levels.

(** An expression with parentheses nested at most [depth] deep. *)
Fixpoint parse_expr (N depth : nat) (ts : list token) : parsed expr :=
  match depth with
  | O => inl TooDeep
  | S depth => parse_assign N (parse_expr N depth) ts
  end.

(** ** Statements *)

Section Statements.
Context (N : nat).

Definition expression : list token → parsed expr := parse_expr N (S N).

(** An operand of [<<]: a sum. *)
Definition operand : list token → parsed expr := parse_add N (parse_expr N N).

Definition type_keyword (k : keyword) : option tyname :=
  match k with
  | KInt => Some TyInt
  | KDouble => Some TyDouble
  | KChar => Some TyChar
  | KBool => Some TyBool
  | _ => None
  end.

Definition parse_type (ts : list token) : parsed tyname :=
  match ts with
  | TKeyword k :: ts' =>
      match type_keyword k with
      | Some t => inr (t, ts')
      | None => unexpected ts
      end
  | TIdent t :: ts' => inr (TyName t, ts')
  | _ => unexpected ts
  end.

(** [x = e] or [x]. *)
Definition parse_declarator (ts : list token) : parsed declarator :=
  match ts with
  | TIdent x :: TPunct PAssign :: ts' =>
      '(e, ts1) ← expression ts'; inr (with_init x e, ts1)
  | TIdent x :: ts' => inr (without_init x, ts')
  | _ => unexpected ts
  end.

(** Declarators with commas between them. *)
Fixpoint parse_declarators (n : nat) (ts : list token) : parsed (list declarator) :=
  '(d, ts1) ← parse_declarator ts;
  match ts1 with
  | TPunct PComma :: ts2 =>
      match n with
      | O => inl TooDeep
      | S n => '(ds, ts3) ← parse_declarators n ts2; inr (d :: ds, ts3)
      end
  | _ => inr ([d], ts1)
  end.

(** [<< e << e ...]. *)
Fixpoint parse_operands (n : nat) (ts : list token) : parsed (list expr) :=
  match ts with
  | TPunct PShl :: ts1 =>
      match n with
      | O => inl TooDeep
      | S n =>
          '(e, ts2) ← operand ts1;
          '(es, ts3) ← parse_operands n ts2;
          inr (e :: es, ts3)
      end
  | _ => inr ([], ts)
  end.

(** A type, declarators, and the semicolon. *)
Definition parse_decl (is_const : bool) (ts : list token) : parsed stmt :=
  '(t, ts1) ← parse_type ts;
  '(ds, ts2) ← parse_declarators N ts1;
  ts3 ← expect (TPunct PSemi) ts2;
  inr (SDecl is_const t ds, ts3).

Definition parse_stmt (ts : list token) : parsed stmt :=
  match ts with
  | TKeyword KReturn :: ts' =>
      '(e, ts1) ← expression ts';
      ts2 ← expect (TPunct PSemi) ts1;
      inr (SReturn e, ts2)
  | TKeyword KConst :: ts' => parse_decl true ts'
  | TKeyword _ :: _ => parse_decl false ts
  | TIdent _ :: TIdent _ :: _ => parse_decl false ts
  | TIdent s :: (TPunct PShl :: _) as ts' =>
      '(es, ts1) ← parse_operands N ts';
      ts2 ← expect (TPunct PSemi) ts1;
      inr (SInsert s es, ts2)
  | _ =>
      '(e, ts1) ← expression ts;
      ts2 ← expect (TPunct PSemi) ts1;
      inr (SExpr e, ts2)
  end.

(** Statements, up to the closing brace. *)
Fixpoint parse_block (n : nat) (ts : list token) : parsed (list stmt) :=
  match ts with
  | TPunct PRBrace :: ts' => inr ([], ts')
  | _ =>
      match n with
      | O => inl TooDeep
      | S n =>
          '(s, ts1) ← parse_stmt ts;
          '(ss, ts2) ← parse_block n ts1;
          inr (s :: ss, ts2)
      end
  end.

(** [T f() { ... }]. *)
Definition parse_function (ts : list token) : parsed function :=
  '(t, ts1) ← parse_type ts;
  match ts1 with
  | TIdent f :: ts2 =>
      ts3 ← expect (TPunct PLParen) ts2;
      ts4 ← expect (TPunct PRParen) ts3;
      ts5 ← expect (TPunct PLBrace) ts4;
      '(b, ts6) ← parse_block N ts5;
      inr ({| fn_type := t; fn_name := f; fn_body := b |}, ts6)
  | _ => unexpected ts1
  end.
End Statements.

(** ** Translation units *)

(** The directives at the head of the tokens. *)
Fixpoint parse_includes (ts : list token) : list string * list token :=
  match ts with
  | TInclude h :: ts' => let '(hs, rest) := parse_includes ts' in (h :: hs, rest)
  | _ => ([], ts)
  end.

(** [using namespace n;], as often as it occurs. *)
Fixpoint parse_usings (ts : list token) : list string * list token :=
  match ts with
  | TKeyword KUsing :: TKeyword KNamespace :: TIdent n :: TPunct PSemi :: ts' =>
      let '(ns, rest) := parse_usings ts' in (n :: ns, rest)
  | _ => ([], ts)
  end.

(** The tree of the tokens [ts]: directives, using-directives, one
    function, and nothing after it.  The fuel is the number of tokens. *)
Definition parse_unit (ts : list token) : parse_error + translation_unit :=
  let '(hs, ts1) := parse_includes ts in
  let '(us, ts2) := parse_usings ts1 in
  '(f, ts3) ← parse_function (length ts) ts2;
  match ts3 with
  | [] => inr {| includes := hs; usings := us; unit_main := f |}
  | _ => unexpected ts3
  end.

(** ** The front end *)

Inductive front_error : Type :=
| Lexical (e : lex_error)
| Syntactic (e : parse_error).

(** The tree of a text. *)
Definition front_end (text : string) : front_error + translation_unit :=
  match lex text with
  | inl e => inl (Lexical e)
  | inr ts =>
      match parse_unit ts with
      | inl e => inl (Syntactic e)
      | inr tu => inr tu
      end
  end.
