(* ===== verification/Source.v ===== *)
(** * The text of the file

    [src/CPP/3_variables.cpp] as it is on disk: 46 lines, 1227 characters,
    no line break after the last line.  [source_text] is the string and
    [source_tokens] are its 154 tokens, both in six parts that follow the
    blank lines of the file.  The lexer reads each part of the text as its
    tokens ([lex_sections]), the parser reads the tokens as the tree
    [Syntax.source_unit] that the rest of the development gives a meaning
    to ([parse_source_tokens]), and so does the front end from the text
    ([front_end_source]).  The comments of the file, its blank lines and
    its indentation are in the text and not in the tokens
    ([lex_commented_lines]). *)

From S2P Require Import Prelude Program Syntax Lexer Parser.

(** ** The characters *)

(** [s] between double quotes. *)
Definition quoted (s : string) : string := String dq (s +:+ String dq "").

(** Lines 1 to 5. *)
Definition text_prologue : list string :=
  [ "#include <iostream>";
    "using namespace std;";
    "";
    "int main()";
    "{" ].

(** Lines 6 to 15. *)
Definition text_primitives : list string :=
  [ "    int n;  // Declaration of Integer value;";
    "    n = 10; // initialization";
    "";
    "    int myNum = 5;               // Integer (whole number without decimals)";
    "    double myFloatNum = 5.99;    // Floating point number (with decimals)";
    "    char myLetter = 'D';         // Character";
    "    string myText = " +:+ quoted "Hello" +:+ ";     // String (text)";
    "    bool myBoolean = true;       // Boolean (true or false)";
    "    ";
    "    cout << n << myNum << myFloatNum << myLetter << myText << myBoolean <<"
      +:+ quoted "\n" +:+ ";" ].

(** Lines 16 to 23. *)
Definition text_sums : list string :=
  [ "    ";
    "    // declare multiple variables;";
    "    int x = 4, y = 6, z = 9;";
    "    cout << " +:+ quoted "\n" +:+ " << x+y+z;";
    "";
    "    // same value;";
    "    x = y = z = 50;";
    "    cout << " +:+ quoted "\n" +:+ " << x+y+z;" ].

(** Lines 24 to 30. *)
Definition text_constant : list string :=
  [ "    ";
    "    // A-Z | a-z | 0-9 | _ | cannot start with digit;";
    "";
    "    // Constants: unchangeable and read-only";
    "    const int minutesPerHour = 60;";
    "";
    "    cout << " +:+ quoted "##################################\n" +:+ ";" ].

(** Lines 31 to 43. *)
Definition text_rectangle : list string :=
  [ "    ";
    "    // Calculate the Area of a Rectangle";
    "";
    "    int length = 4;";
    "    int width = 6;";
    "";
    "    // Calculate the area of a rectangle";
    "    int area = length * width;";
    "";
    "    // Print the variables";
    "    cout << " +:+ quoted "Length is: " +:+ " << length << " +:+ quoted "\n" +:+ ";";
    "    cout << " +:+ quoted "Width is: " +:+ " << width << " +:+ quoted "\n" +:+ ";";
    "    cout << " +:+ quoted "Area of the rectangle is: " +:+ " << area << "
      +:+ quoted "\n" +:+ ";" ].

(** Lines 44 to 46. *)
Definition text_epilogue : list string :=
  [ "";
    "    return 0;";
    "}" ].

Definition source_lines : list string :=
  text_prologue ++ text_primitives ++ text_sums ++ text_constant ++ text_rectangle
  ++ text_epilogue.

(** Lines with a line break between them. *)
Fixpoint unlines (ls : list string) : string :=
  match ls with
  | [] => ""
  | [l] => l
  | l :: ls => l +:+ newline +:+ unlines ls
  end.

Definition source_text : string := unlines source_lines.

(** ** The front end on the file *)

(** The file has 1227 characters on 46 lines. *)
Lemma source_text_length :
  String.length source_text = 1227%nat ∧ length source_lines = 46%nat.
Proof. by vm_compute. Qed.

(** The text of the file is read as the tree of [Syntax]. *)
Lemma front_end_source : front_end source_text = inr source_unit.
Proof. by vm_compute. Qed.

(** Lines 6 and 7 with their comments, line 25, which is a comment, and
    line 10 with its string. *)
Lemma lex_commented_lines :
  lex "    int n;  // Declaration of Integer value;"
  = inr [TKeyword KInt; TIdent "n"; TPunct PSemi] ∧
  lex "    n = 10; // initialization"
  = inr [TIdent "n"; TPunct PAssign; TLit (LInt 10); TPunct PSemi] ∧
  lex "    // A-Z | a-z | 0-9 | _ | cannot start with digit;" = inr [] ∧
  lex ("    string myText = " +:+ quoted "Hello" +:+ ";")
  = inr [TIdent "string"; TIdent "myText"; TPunct PAssign; TLit (LString "Hello");
         TPunct PSemi].
Proof. by vm_compute. Qed.

(** ** The tokens *)

(** The tokens of lines 1 to 5. *)
Definition tokens_prologue : list token :=
  [ TInclude "iostream";
    TKeyword KUsing; TKeyword KNamespace; TIdent "std"; TPunct PSemi;
    TKeyword KInt; TIdent "main"; TPunct PLParen; TPunct PRParen;
    TPunct PLBrace ].

(** The tokens of lines 6 to 15. *)
Definition tokens_primitives : list token :=
  [ TKeyword KInt; TIdent "n"; TPunct PSemi;
    TIdent "n"; TPunct PAssign; TLit (LInt 10); TPunct PSemi;
    TKeyword KInt; TIdent "myNum"; TPunct PAssign; TLit (LInt 5); TPunct PSemi;
    TKeyword KDouble; TIdent "myFloatNum"; TPunct PAssign; TLit (LFloat 599 2);
      TPunct PSemi;
    TKeyword KChar; TIdent "myLetter"; TPunct PAssign; TLit (LChar "D"); TPunct PSemi;
    TIdent "string"; TIdent "myText"; TPunct PAssign; TLit (LString "Hello");
      TPunct PSemi;
    TKeyword KBool; TIdent "myBoolean"; TPunct PAssign; TLit (LBool true);
      TPunct PSemi;
    TIdent "cout"; TPunct PShl; TIdent "n"; TPunct PShl; TIdent "myNum"; TPunct PShl;
      TIdent "myFloatNum"; TPunct PShl; TIdent "myLetter"; TPunct PShl;
      TIdent "myText"; TPunct PShl; TIdent "myBoolean"; TPunct PShl;
      TLit (LString newline); TPunct PSemi ].

(** The tokens of lines 16 to 23. *)
Definition tokens_sums : list token :=
  [ TKeyword KInt; TIdent "x"; TPunct PAssign; TLit (LInt 4); TPunct PComma;
      TIdent "y"; TPunct PAssign; TLit (LInt 6); TPunct PComma; TIdent "z";
      TPunct PAssign; TLit (LInt 9); TPunct PSemi;
    TIdent "cout"; TPunct PShl; TLit (LString newline); TPunct PShl; TIdent "x";
      TPunct PPlus; TIdent "y"; TPunct PPlus; TIdent "z"; TPunct PSemi;
    TIdent "x"; TPunct PAssign; TIdent "y"; TPunct PAssign; TIdent "z"; TPunct PAssign;
      TLit (LInt 50); TPunct PSemi;
    TIdent "cout"; TPunct PShl; TLit (LString newline); TPunct PShl; TIdent "x";
      TPunct PPlus; TIdent "y"; TPunct PPlus; TIdent "z"; TPunct PSemi ].

(** The tokens of lines 24 to 30. *)
Definition tokens_constant : list token :=
  [ TKeyword KConst; TKeyword KInt; TIdent "minutesPerHour"; TPunct PAssign;
      TLit (LInt 60); TPunct PSemi;
    TIdent "cout"; TPunct PShl;
      TLit (LString ("##################################" +:+ newline)); TPunct PSemi ].

(** The tokens of lines 31 to 43. *)
Definition tokens_rectangle : list token :=
  [ TKeyword KInt; TIdent "length"; TPunct PAssign; TLit (LInt 4); TPunct PSemi;
    TKeyword KInt; TIdent "width"; TPunct PAssign; TLit (LInt 6); TPunct PSemi;
    TKeyword KInt; TIdent "area"; TPunct PAssign; TIdent "length"; TPunct PStar;
      TIdent "width"; TPunct PSemi;
    TIdent "cout"; TPunct PShl; TLit (LString "Length is: "); TPunct PShl;
      TIdent "length"; TPunct PShl; TLit (LString newline); TPunct PSemi;
    TIdent "cout"; TPunct PShl; TLit (LString "Width is: "); TPunct PShl;
      TIdent "width"; TPunct PShl; TLit (LString newline); TPunct PSemi;
    TIdent "cout"; TPunct PShl; TLit (LString "Area of the rectangle is: ");
      TPunct PShl; TIdent "area"; TPunct PShl; TLit (LString newline); TPunct PSemi ].

(** The tokens of lines 44 to 46. *)
Definition tokens_epilogue : list token :=
  [ TKeyword KReturn; TLit (LInt 0); TPunct PSemi;
    TPunct PRBrace ].

Definition source_tokens : list token :=
  tokens_prologue ++ tokens_primitives ++ tokens_sums ++ tokens_constant
  ++ tokens_rectangle ++ tokens_epilogue.

(** The lexer reads each part of the file as its tokens, and the file as
    all of them. *)
Lemma lex_sections :
  lex (unlines text_prologue) = inr tokens_prologue ∧
  lex (unlines text_primitives) = inr tokens_primitives ∧
  lex (unlines text_sums) = inr tokens_sums ∧
  lex (unlines text_constant) = inr tokens_constant ∧
  lex (unlines text_rectangle) = inr tokens_rectangle ∧
  lex (unlines text_epilogue) = inr tokens_epilogue ∧
  lex source_text = inr source_tokens.
Proof. by vm_compute. Qed.

(** The parser reads the tokens of the file as the tree of [Syntax]. *)
Lemma parse_source_tokens :
  length source_tokens = 154%nat ∧ parse_unit source_tokens = inr source_unit.
Proof. by vm_compute. Qed.
