(* ===== verification/Printer.v ===== *)
(** * From the tree back to text

    The inverse of the front end, used to say what the front end must do:
    [unit_tokens] writes a tree as tokens, with the parentheses that the
    grouping of the tree needs and no others, and [show_tokens] writes
    tokens as text, one token on a line.  [wf_unit] says which trees can be
    written: names are identifiers of the language that are not keywords,
    integer literals are not negative (a negative number is an operator
    applied to a literal, which the fragment does not have), and a
    declaration or an insertion has at least one declarator or operand.

    The definitions of this file model no code of the program. *)

From S2P Require Import Prelude Decimal Double Syntax Lexer.

(** ** Tokens as text *)

Definition punct_text (p : punct) : string :=
  match p with
  | PShl => "<<" | PAssign => "=" | PPlus => "+" | PStar => "*" | PSemi => ";"
  | PComma => "," | PLParen => "(" | PRParen => ")" | PLBrace => "{" | PRBrace => "}"
  end.

(** A character as it is written inside quotes. *)
Definition escape (c : ascii) : string :=
  if decide (c = "010"%char) then String backslash "n"
  else if decide (c = "009"%char) then String backslash "t"
  else if decide (c = "000"%char) then String backslash "0"
  else if decide (c = backslash ∨ c = "'"%char ∨ c = dq) then String backslash (String c "")
  else String c "".

Fixpoint escape_string (s : string) : string :=
  match s with
  | EmptyString => EmptyString
  | String c s' => escape c +:+ escape_string s'
  end.

(** The decimal digits of [z]; a number has no more digits than bits. *)
Definition show_nat (z : Z) : string := render_unsigned (Z.to_nat (Z.log2 z)) z.

Definition show_literal (l : literal) : string :=
  match l with
  | LInt z => show_nat z
  | LFloat d k =>
      show_nat (Z.pos d / 10 ^ Z.of_nat k) +:+
      String "." (fixed_digits k (Z.pos d mod 10 ^ Z.of_nat k) "")
  | LChar c => String "'" (escape c +:+ "'")
  | LString s => String dq (escape_string s +:+ String dq "")
  | LBool b => if b then "true" else "false"
  end.

Definition show_token (t : token) : string :=
  match t with
  | TInclude h => "#include <" +:+ h +:+ ">"
  | TKeyword k => keyword_text k
  | TIdent x => x
  | TLit l => show_literal l
  | TPunct p => punct_text p
  end.

(** One token on a line. *)
Fixpoint show_tokens (ts : list token) : string :=
  match ts with
  | [] => ""
  | t :: ts' => show_token t +:+ String "010" (show_tokens ts')
  end.

(** ** Tokens that can be written *)

Fixpoint all_chars (P : ascii → bool) (s : string) : bool :=
  match s with
  | EmptyString => true
  | String c s' => P c && all_chars P s'
  end.

(** An identifier: a letter, then letters and digits; not a keyword. *)
Definition wf_ident (x : string) : bool :=
  match x with
  | String c w =>
      is_letter c && all_chars is_ident_char w
      && bool_decide (word_token x = inr (TIdent x))
  | EmptyString => false
  end.

(** The name of a header: not empty, without [>] and without line break. *)
Definition wf_header (h : string) : bool :=
  bool_decide (h ≠ "")
  && all_chars (λ c, negb (is_newline c) && bool_decide (c ≠ ">"%char)) h.

Definition wf_literal (l : literal) : bool :=
  match l with
  | LInt z => bool_decide (0 ≤ z)
  | _ => true
  end.

Definition wf_token (t : token) : bool :=
  match t with
  | TInclude h => wf_header h
  | TIdent x => wf_ident x
  | TLit l => wf_literal l
  | TKeyword _ | TPunct _ => true
  end.

(** ** Trees as tokens *)

(** How tightly the operator at the root of an expression binds: an
    assignment 0, a sum 1, a product 2, a literal or a name 3. *)
Definition binop_level (op : binop) : nat :=
  match op with Add => 1 | Mul => 2 end.

Definition binop_punct (op : binop) : punct :=
  match op with Add => PPlus | Mul => PStar end.

Definition level_of (e : expr) : nat :=
  match e with
  | ELit _ | EVar _ => 3
  | EBin op _ _ => binop_level op
  | EAssign _ _ => 0
  end.

(** [ts] in parentheses, if the expression binds less tightly than the
    place [level] in which it stands. *)
Definition parenthesise (own level : nat) (ts : list token) : list token :=
  if decide (own < level)%nat then TPunct PLParen :: ts ++ [TPunct PRParen] else ts.

(** The expression [e] in a place that takes an expression of [level]. *)
Fixpoint expr_tokens (level : nat) (e : expr) : list token :=
  parenthesise (level_of e) level
    match e with
    | ELit l => [TLit l]
    | EVar x => [TIdent x]
    | EBin op a b =>
        expr_tokens (binop_level op) a
        ++ TPunct (binop_punct op) :: expr_tokens (S (binop_level op)) b
    | EAssign x e' => TIdent x :: TPunct PAssign :: expr_tokens 0 e'
    end.

Definition type_tokens (t : tyname) : list token :=
  match t with
  | TyInt => [TKeyword KInt]
  | TyDouble => [TKeyword KDouble]
  | TyChar => [TKeyword KChar]
  | TyBool => [TKeyword KBool]
  | TyName n => [TIdent n]
  end.

Definition declarator_tokens (d : declarator) : list token :=
  match decl_init d with
  | Some e => TIdent (decl_name d) :: TPunct PAssign :: expr_tokens 0 e
  | None => [TIdent (decl_name d)]
  end.

(** Declarators with commas between them. *)
Fixpoint declarators_tokens (ds : list declarator) : list token :=
  match ds with
  | [] => []
  | [d] => declarator_tokens d
  | d :: ds' => declarator_tokens d ++ TPunct PComma :: declarators_tokens ds'
  end.

Fixpoint operands_tokens (es : list expr) : list token :=
  match es with
  | [] => []
  | e :: es' => TPunct PShl :: expr_tokens 1 e ++ operands_tokens es'
  end.

Definition stmt_tokens (s : stmt) : list token :=
  match s with
  | SDecl c t ds =>
      (if c then [TKeyword KConst] else [])
      ++ type_tokens t ++ declarators_tokens ds ++ [TPunct PSemi]
  | SExpr e => expr_tokens 0 e ++ [TPunct PSemi]
  | SInsert s es => TIdent s :: operands_tokens es ++ [TPunct PSemi]
  | SReturn e => TKeyword KReturn :: expr_tokens 0 e ++ [TPunct PSemi]
  end.

Definition function_tokens (f : function) : list token :=
  type_tokens (fn_type f)
  ++ [TIdent (fn_name f); TPunct PLParen; TPunct PRParen; TPunct PLBrace]
  ++ (fn_body f ≫= stmt_tokens) ++ [TPunct PRBrace].

Definition using_tokens (n : string) : list token :=
  [TKeyword KUsing; TKeyword KNamespace; TIdent n; TPunct PSemi].

Definition unit_tokens (tu : translation_unit) : list token :=
  (TInclude <$> includes tu) ++ (usings tu ≫= using_tokens)
  ++ function_tokens (unit_main tu).

(** The text of a tree. *)
Definition show_unit (tu : translation_unit) : string := show_tokens (unit_tokens tu).

(** ** Trees that can be written *)

Fixpoint wf_expr (e : expr) : bool :=
  match e with
  | ELit l => wf_literal l
  | EVar x => wf_ident x
  | EBin _ a b => wf_expr a && wf_expr b
  | EAssign x e' => wf_ident x && wf_expr e'
  end.

Definition wf_type (t : tyname) : bool :=
  match t with
  | TyName n => wf_ident n
  | _ => true
  end.

Definition wf_declarator (d : declarator) : bool :=
  wf_ident (decl_name d) && from_option wf_expr true (decl_init d).

Definition wf_stmt (s : stmt) : bool :=
  match s with
  | SDecl _ t ds => wf_type t && bool_decide (ds ≠ []) && forallb wf_declarator ds
  | SExpr e | SReturn e => wf_expr e
  | SInsert s es => wf_ident s && bool_decide (es ≠ []) && forallb wf_expr es
  end.

Definition wf_function (f : function) : bool :=
  wf_type (fn_type f) && wf_ident (fn_name f) && forallb wf_stmt (fn_body f).

Definition wf_unit (tu : translation_unit) : bool :=
  forallb wf_header (includes tu) && forallb wf_ident (usings tu)
  && wf_function (unit_main tu).
