(* ===== verification/Grammar.v ===== *)
(** * The grammar of the fragment

    What the parser of [Parser] has to decide, said without a parser: the
    relations [expr_at], [stmt_g], [function_g] and [unit_g] between a list
    of tokens and the tree that the tokens are a phrase of.  An expression
    is a phrase of a level: 3 for a primary expression (a literal, a name,
    an expression in parentheses), 2 for a product, 1 for a sum and 0 for
    an assignment; a phrase of a level is a phrase of the levels below it.
    [*] and [+] group to the left and [=] groups to the right.

    The tokens that the printer writes for a tree are a phrase of the tree
    ([unit_tokens_g]). *)

From S2P Require Import Prelude Syntax Lexer Parser Printer.

(** ** Expressions *)

Inductive expr_at : nat → list token → expr → Prop :=
| g_lit l : expr_at 3 [TLit l] (ELit l)
| g_var x : expr_at 3 [TIdent x] (EVar x)
| g_paren ts e :
    expr_at 0 ts e → expr_at 3 (TPunct PLParen :: ts ++ [TPunct PRParen]) e
| g_bin op ta a tb b :
    expr_at (binop_level op) ta a → expr_at (S (binop_level op)) tb b →
    expr_at (binop_level op) (ta ++ TPunct (binop_punct op) :: tb) (EBin op a b)
| g_assign x ts e :
    expr_at 0 ts e → expr_at 0 (TIdent x :: TPunct PAssign :: ts) (EAssign x e)
| g_up k ts e : expr_at (S k) ts e → expr_at k ts e.

(** ** Declarations and insertions *)

Inductive type_g : list token → tyname → Prop :=
| g_type_keyword k t : type_keyword k = Some t → type_g [TKeyword k] t
| g_type_name n : type_g [TIdent n] (TyName n).

Inductive declarator_g : list token → declarator → Prop :=
| g_without_init x : declarator_g [TIdent x] (without_init x)
| g_with_init x ts e :
    expr_at 0 ts e → declarator_g (TIdent x :: TPunct PAssign :: ts) (with_init x e).

(** One declarator or more, with commas between them. *)
Inductive declarators_g : list token → list declarator → Prop :=
| g_declarator ts d : declarator_g ts d → declarators_g ts [d]
| g_declarators ts d ts' ds :
    declarator_g ts d → declarators_g ts' ds →
    declarators_g (ts ++ TPunct PComma :: ts') (d :: ds).

(** Operands, each after [<<]. *)
Inductive operands_g : list token → list expr → Prop :=
| g_no_operand : operands_g [] []
| g_operand ts e ts' es :
    expr_at 1 ts e → operands_g ts' es →
    operands_g (TPunct PShl :: ts ++ ts') (e :: es).

(** ** Statements *)

Inductive stmt_g : list token → stmt → Prop :=
| g_decl (c : bool) tt t tds ds :
    type_g tt t → declarators_g tds ds →
    stmt_g ((if c then [TKeyword KConst] else []) ++ tt ++ tds ++ [TPunct PSemi])
           (SDecl c t ds)
| g_expr ts e : expr_at 0 ts e → stmt_g (ts ++ [TPunct PSemi]) (SExpr e)
| g_insert s ts es :
    operands_g ts es → es ≠ [] →
    stmt_g (TIdent s :: ts ++ [TPunct PSemi]) (SInsert s es)
| g_return ts e :
    expr_at 0 ts e → stmt_g (TKeyword KReturn :: ts ++ [TPunct PSemi]) (SReturn e).

Inductive stmts_g : list token → list stmt → Prop :=
| g_no_stmt : stmts_g [] []
| g_stmt ts s ts' ss : stmt_g ts s → stmts_g ts' ss → stmts_g (ts ++ ts') (s :: ss).

(** ** Functions and translation units *)

Inductive function_g : list token → function → Prop :=
| g_function tt t f ts b :
    type_g tt t → stmts_g ts b →
    function_g (tt ++ [TIdent f; TPunct PLParen; TPunct PRParen; TPunct PLBrace]
                ++ ts ++ [TPunct PRBrace])
               {| fn_type := t; fn_name := f; fn_body := b |}.

Inductive unit_g : list token → translation_unit → Prop :=
| g_unit hs us ts f :
    function_g ts f →
    unit_g ((TInclude <$> hs) ++ (us ≫= using_tokens) ++ ts)
           {| includes := hs; usings := us; unit_main := f |}.

(** ** What the printer writes is a phrase *)

Lemma expr_at_le (k k' : nat) (ts : list token) (e : expr) :
  (k ≤ k')%nat → expr_at k' ts e → expr_at k ts e.
Proof. induction 1; intros; [done|]. by apply IHle, g_up. Qed.

Lemma parenthesise_g (own k : nat) (ts : list token) (e : expr) :
  (k ≤ 3)%nat → expr_at own ts e → expr_at k (parenthesise own k ts) e.
Proof.
  intros Hk Hts. unfold parenthesise. case_decide.
  - apply (expr_at_le k 3); [done|]. apply g_paren. apply (expr_at_le 0 own); [lia|done].
  - apply (expr_at_le k own); [lia|done].
Qed.

Lemma expr_tokens_g (e : expr) (k : nat) : (k ≤ 3)%nat → expr_at k (expr_tokens k e) e.
Proof.
  revert k. induction e as [l|x|op a IHa b IHb|x e IHe]; intros k Hk; cbn [expr_tokens];
    (apply parenthesise_g; [done|]).
  - constructor.
  - constructor.
  - apply g_bin; [apply IHa | apply IHb]; destruct op; simpl; lia.
  - apply g_assign, IHe. lia.
Qed.

Lemma type_tokens_g (t : tyname) : type_g (type_tokens t) t.
Proof. destruct t; by constructor. Qed.

Lemma declarator_tokens_g (d : declarator) : declarator_g (declarator_tokens d) d.
Proof.
  destruct d as [x [e|]]; unfold declarator_tokens; simpl.
  - apply (g_with_init x), expr_tokens_g. lia.
  - apply (g_without_init x).
Qed.

Lemma declarators_tokens_g (ds : list declarator) :
  ds ≠ [] → declarators_g (declarators_tokens ds) ds.
Proof.
  induction ds as [|d [|d' ds] IH]; intros Hds; [done|..]; cbn [declarators_tokens].
  - apply g_declarator, declarator_tokens_g.
  - apply g_declarators; [apply declarator_tokens_g | by apply IH].
Qed.

Lemma operands_tokens_g (es : list expr) : operands_g (operands_tokens es) es.
Proof.
  induction es as [|e es IH]; [constructor|]. cbn [operands_tokens].
  apply g_operand; [apply expr_tokens_g; lia | done].
Qed.

(** A declaration has a declarator and an insertion an operand. *)
Definition complete (s : stmt) : Prop :=
  match s with
  | SDecl _ _ ds => ds ≠ []
  | SInsert _ es => es ≠ []
  | _ => True
  end.

Lemma stmt_tokens_g (s : stmt) : complete s → stmt_g (stmt_tokens s) s.
Proof.
  destruct s as [c t ds|e|x es|e]; simpl; intros Hs.
  - apply g_decl; [apply type_tokens_g | by apply declarators_tokens_g].
  - apply g_expr, expr_tokens_g. lia.
  - apply g_insert; [apply operands_tokens_g | done].
  - apply g_return, expr_tokens_g. lia.
Qed.

Lemma stmts_tokens_g (ss : list stmt) :
  Forall complete ss → stmts_g (ss ≫= stmt_tokens) ss.
Proof.
  induction 1 as [|s ss Hs Hss IH]; [constructor|]. rewrite bind_cons.
  apply g_stmt; [by apply stmt_tokens_g | done].
Qed.

Lemma unit_tokens_g (tu : translation_unit) :
  Forall complete (fn_body (unit_main tu)) → unit_g (unit_tokens tu) tu.
Proof.
  destruct tu as [hs us [t f b]]. simpl. intros Hb. apply g_unit.
  apply g_function; [apply type_tokens_g | by apply stmts_tokens_g].
Qed.
