(* ===== verification/Lexical.v ===== *)
(** * The lexical grammar of the fragment

    What the lexer of [Lexer] has to decide, said without a state machine:
    the relation [scans] between a text and the tokens that it is made of.
    A text is a sequence of items: a line break, a blank, a comment ([//]
    to the end of the line), a directive ([#], first on its line, to the
    end of the line) or the spelling of a token ([lexeme]).  A token is as
    long as it can be, and what [follows] it does not turn it into a token
    that the fragment does not have: no letter after a number, no [=] after
    an operator, no second [+] after [+].

    The definitions of this file model no code of the program: they are
    the specification that [LexerComplete] and [LexerSound] prove the lexer
    against. *)

From S2P Require Import Prelude Decimal Syntax Lexer Printer.

(** ** Classes of text *)

(** [rest] does not go on with a character of the class [P]. *)
Definition stops (P : ascii → bool) (rest : string) : Prop :=
  match rest with
  | String c _ => P c = false
  | EmptyString => True
  end.

(** Text without a line break, and text at which a line ends. *)
Definition one_line (s : string) : Prop := all_chars (λ c, negb (is_newline c)) s = true.

Definition line_ends (rest : string) : Prop := stops (λ c, negb (is_newline c)) rest.

Definition blanks (s : string) : Prop := all_chars is_blank s = true.

(** A letter, then letters and digits. *)
Definition wordlike (w : string) : Prop :=
  match w with
  | String c w' => is_letter c = true ∧ all_chars is_ident_char w' = true
  | EmptyString => False
  end.

(** One digit or more. *)
Definition digits (w : string) : Prop := w ≠ "" ∧ all_chars is_digit_char w = true.

(** A word that the language has not taken. *)
Definition identifier (x : string) : Prop :=
  wordlike x ∧ (∀ k, x ≠ keyword_text k) ∧ x ≠ "true" ∧ x ≠ "false" ∧ x ∉ reserved_words.

(** ** Characters in quotes *)

(** [written q raw c]: between quotes [q], [raw] is the spelling of the
    character [c]: the character itself, or an escape. *)
Inductive written (q : ascii) : string → ascii → Prop :=
| written_plain c :
    c ≠ backslash → c ≠ q → is_newline c = false → written q (String c "") c
| written_escape a c :
    unescape a = inr c → written q (String backslash (String a "")) c.

Inductive written_string : string → string → Prop :=
| written_nil : written_string "" ""
| written_cons raw c raws s :
    written dq raw c → written_string raws s →
    written_string (raw +:+ raws) (String c s).

(** ** Tokens *)

(** [lexeme w t]: [w] is a spelling of the token [t]. *)
Inductive lexeme : string → token → Prop :=
| lexeme_keyword k : lexeme (keyword_text k) (TKeyword k)
| lexeme_bool (b : bool) : lexeme (if b then "true" else "false") (TLit (LBool b))
| lexeme_ident x : identifier x → lexeme x (TIdent x)
| lexeme_int ip z :
    digits ip → leading_zero ip = false → parse_go ip 0 = Some z →
    lexeme ip (TLit (LInt z))
| lexeme_float ip fp d :
    digits ip → all_chars is_digit_char fp = true →
    parse_go (ip +:+ fp) 0 = Some (Z.pos d) →
    lexeme (ip +:+ String "." fp) (TLit (LFloat d (String.length fp)))
| lexeme_punct p : lexeme (punct_text p) (TPunct p)
| lexeme_char raw c :
    written "'" raw c → lexeme (String "'" (raw +:+ "'")) (TLit (LChar c))
| lexeme_string raw s :
    written_string raw s → lexeme (String dq (raw +:+ String dq "")) (TLit (LString s)).

(** The punctuators that start a longer operator of the language. *)
Definition operator (p : punct) : bool :=
  match p with
  | PShl | PAssign | PPlus | PStar => true
  | _ => false
  end.

(** What can follow a token: a word or a number ends where its characters
    end, and an operator is not the start of a longer one. *)
Definition follows (t : token) (rest : string) : Prop :=
  match t with
  | TKeyword _ | TIdent _ | TLit (LBool _) => stops is_ident_char rest
  | TLit (LInt _) | TLit (LFloat _ _) =>
      stops (λ c, is_ident_char c || bool_decide (c = "."%char)) rest
  | TPunct p =>
      operator p = true →
      stops (λ c, bool_decide (c = "="%char ∨ (p = PPlus ∧ c = "+"%char))) rest
  | TLit (LChar _) | TLit (LString _) | TInclude _ => True
  end.

(** ** Directives *)

(** The text of a directive, after its [#], that includes the header [h]:
    [include <h>] with blanks around its parts, and possibly a comment. *)
Inductive include_line : string → string → Prop :=
| include_line_intro b1 b2 b3 h tail :
    blanks b1 → blanks b2 → blanks b3 →
    h ≠ "" → all_chars (λ c, bool_decide (c ≠ ">"%char)) h = true →
    tail = "" ∨ (∃ comment, tail = "//" +:+ comment) →
    include_line (b1 +:+ "include" +:+ b2 +:+ "<" +:+ h +:+ ">" +:+ b3 +:+ tail) h.

(** ** Texts *)

(** [scans bol s ts]: the text [s] is made of the tokens [ts]; [bol]: [s]
    is at the start of a line, after blanks at most. *)
Inductive scans : bool → string → list token → Prop :=
| scans_end bol : scans bol "" []
| scans_newline bol s ts : scans true s ts → scans bol (String "010" s) ts
| scans_blank bol c s ts : is_blank c = true → scans bol s ts → scans bol (String c s) ts
| scans_comment bol body rest ts :
    one_line body → line_ends rest → scans false rest ts →
    scans bol ("//" +:+ body +:+ rest) ts
| scans_directive text h rest ts :
    one_line text → line_ends rest → include_line text h → scans false rest ts →
    scans true (String "#" (text +:+ rest)) (TInclude h :: ts)
| scans_token bol w t rest ts :
    lexeme w t → follows t rest → scans false rest ts →
    scans bol (w +:+ rest) (t :: ts).
