(* ===== verification/LexerComplete.v ===== *)
(** * The lexer reads every text of the lexical grammar

    The lexer is complete for the grammar of [Lexical]: a text that is made
    of the tokens [ts] is read as [ts] ([lex_scans]).  The proof follows
    the state machine: a run of characters of one class keeps the machine
    in one state and extends its buffer ([lex_accumulate]); where the
    characters of a token stop, the character that follows completes the
    token ([lex_go_emits]) and is then read from between tokens. *)

From S2P Require Import Prelude Decimal Syntax Lexer Printer Lexical.

(** [t], then the tokens of [r]. *)
Definition followed_by (t : token) (r : lex_error + list token) : lex_error + list token :=
  match r with
  | inl e => inl e
  | inr ts => inr (t :: ts)
  end.

(** ** Steps of the machine *)

Section Steps.
Implicit Types (c : ascii) (s w rest : string) (st : lex_state) (line : nat) (t : token).

(** A step that completes no token. *)
Lemma lex_go_silent c s st st' line :
  lex_step st c = inr ([], st') →
  lex_go (String c s) st line = lex_go s st' (next_line c line).
Proof. intros Hstep. simpl. rewrite Hstep. simpl. by destruct (lex_go _ _ _). Qed.

(** A step that completes one token. *)
Lemma lex_go_token c s st st' t line :
  lex_step st c = inr ([t], st') →
  lex_go (String c s) st line = followed_by t (lex_go s st' (next_line c line)).
Proof. intros Hstep. simpl. by rewrite Hstep. Qed.

(** A step that fails. *)
Lemma lex_go_fault c s st f line :
  lex_step st c = inl f → lex_go (String c s) st line = inl (LexError line f).
Proof. intros Hstep. simpl. by rewrite Hstep. Qed.

(** Where the characters of the token [r] stop, the token is completed and
    what follows is read from between tokens. *)
Lemma lex_go_emits st (r : lex_fault + token) t rest line :
  (∀ c s, rest = String c s → lex_step st c = emit r c) →
  lex_end st = (r ≫= λ t', inr [t']) → r = inr t →
  lex_go rest st line = followed_by t (lex_go rest (Start false) line).
Proof.
  intros Hstep Hend ->. destruct rest as [|c s]; simpl; [by rewrite Hend|].
  rewrite (Hstep c s eq_refl). unfold emit. simpl.
  destruct (lex_start false c) as [f|[ts st']]; simpl; [done|].
  by destruct (lex_go s st' _).
Qed.

(** Characters of a class [P] that a state [K buf] accumulates. *)
Lemma lex_accumulate (K : string → lex_state) (P : ascii → bool) w buf rest line :
  (∀ buf c, P c = true → lex_step (K buf) c = inr ([], K (snoc buf c))) →
  (∀ c, P c = true → is_newline c = false) →
  all_chars P w = true →
  lex_go (w +:+ rest) (K buf) line = lex_go rest (K (buf +:+ w)) line.
Proof.
  intros Hstep Hline. revert buf. induction w as [|c w IH]; intros buf Hw.
  - by rewrite str_app_nil_r.
  - simpl in Hw. apply andb_prop in Hw as [Hc Hw]. rewrite str_app_cons.
    rewrite (lex_go_silent _ _ _ _ _ (Hstep buf c Hc)). unfold next_line.
    rewrite (Hline c Hc), IH by done. unfold snoc. by rewrite <- str_app_assoc.
Qed.

(** The end of a line, read from a state that waits for it as the state
    between tokens does. *)
Lemma lex_go_line_ends st rest line :
  line_ends rest → lex_end st = inr [] →
  (∀ c, is_newline c = true → lex_step st c = inr ([], Start true)) →
  lex_go rest st line = lex_go rest (Start false) line.
Proof.
  intros Hrest Hend Hstep. destruct rest as [|c s]; simpl in *; [by rewrite Hend|].
  apply negb_false_iff in Hrest. rewrite (Hstep c Hrest). unfold lex_start.
  by rewrite Hrest.
Qed.
End Steps.

(** ** Classes of characters *)

(** [by_ascii]: a fact about every character, by trying them all. *)
Ltac by_ascii c := destruct c as [[] [] [] [] [] [] [] []]; try done.

Lemma lex_start_letter (bol : bool) (c : ascii) :
  is_letter c = true → lex_start bol c = inr ([], InWord (String c "")).
Proof. by_ascii c. Qed.

Lemma lex_start_digit (bol : bool) (c : ascii) :
  is_digit_char c = true → lex_start bol c = inr ([], InNumber (String c "")).
Proof. by_ascii c. Qed.

Lemma lex_start_blank (bol : bool) (c : ascii) :
  is_blank c = true → lex_start bol c = inr ([], Start bol) ∧ is_newline c = false.
Proof. intros Hc%bool_decide_eq_true. by destruct_or!; subst. Qed.

Lemma ident_char_not_newline (c : ascii) : is_ident_char c = true → is_newline c = false.
Proof. by_ascii c. Qed.

Lemma digit_char_not_newline (c : ascii) : is_digit_char c = true → is_newline c = false.
Proof. by_ascii c. Qed.

Lemma digit_char_not_point (c : ascii) : is_digit_char c = true → c ≠ "."%char.
Proof. by_ascii c. Qed.

Lemma unescape_not_newline (a c : ascii) : unescape a = inr c → is_newline a = false.
Proof. by_ascii a. Qed.

Lemma all_chars_app P s rest :
  all_chars P (s +:+ rest) = all_chars P s && all_chars P rest.
Proof. induction s as [|c s IH]; [done|]. simpl. by rewrite IH, andb_assoc. Qed.

Lemma all_chars_impl (P Q : ascii → bool) s :
  (∀ c, P c = true → Q c = true) → all_chars P s = true → all_chars Q s = true.
Proof.
  intros HPQ. induction s as [|c s IH]; [done|]. simpl.
  intros [Hc Hs]%andb_prop. by rewrite HPQ, IH.
Qed.

(** ** Words *)

Section Words.
Implicit Types (c : ascii) (w x rest : string) (line : nat) (t : token).

Lemma word_token_keyword (k : keyword) : word_token (keyword_text k) = inr (TKeyword k).
Proof. by destruct k. Qed.

Lemma word_token_bool (b : bool) :
  word_token (if b then "true" else "false") = inr (TLit (LBool b)).
Proof. by destruct b. Qed.

Lemma keyword_of_None w : (∀ k, w ≠ keyword_text k) → keyword_of w = None.
Proof.
  intros Hw. unfold keyword_of.
  destruct (list_find _ keywords) as [[i k]|] eqn:Hfind; [|done].
  apply list_find_Some in Hfind as (_ & Hk & _). by destruct (Hw k).
Qed.

Lemma word_token_ident x : identifier x → word_token x = inr (TIdent x).
Proof.
  intros (_ & Hk & Htrue & Hfalse & Hres). unfold word_token.
  by rewrite keyword_of_None, !decide_False.
Qed.

Lemma keyword_of_text (k : keyword) : keyword_of (keyword_text k) = Some k.
Proof. by destruct k. Qed.

Lemma keyword_of_Some w k : keyword_of w = Some k → w = keyword_text k.
Proof.
  unfold keyword_of. destruct (list_find _ keywords) as [[i k']|] eqn:Hfind; [|done].
  intros [= <-]. by apply list_find_Some in Hfind as (_ & <- & _).
Qed.

(** The token of a word is a token that the word spells. *)
Lemma word_token_lexeme w t : wordlike w → word_token w = inr t → lexeme w t.
Proof.
  intros Hw. unfold word_token. destruct (keyword_of w) as [k|] eqn:Hk.
  { apply keyword_of_Some in Hk as ->. intros [= <-]. constructor. }
  repeat case_decide; try done; intros [= <-]; subst.
  - apply (lexeme_bool true).
  - apply (lexeme_bool false).
  - apply lexeme_ident. split_and!; try done. intros k ->.
    by rewrite keyword_of_text in Hk.
Qed.

(** The characters of a word. *)
Lemma lex_wordlike w rest bol line :
  wordlike w → lex_go (w +:+ rest) (Start bol) line = lex_go rest (InWord w) line.
Proof.
  destruct w as [|c w]; [done|]. intros [Hc Hw]. rewrite str_app_cons.
  rewrite (lex_go_silent c _ (Start bol) _ _ (lex_start_letter bol c Hc)).
  rewrite (lex_accumulate InWord is_ident_char);
    [| by intros buf a Ha; simpl; rewrite Ha | apply ident_char_not_newline | done].
  unfold next_line. by rewrite ident_char_not_newline by (by unfold is_ident_char; rewrite Hc).
Qed.

Lemma lex_word w t rest bol line :
  wordlike w → word_token w = inr t → stops is_ident_char rest →
  lex_go (w +:+ rest) (Start bol) line = followed_by t (lex_go rest (Start false) line).
Proof.
  intros Hw Ht Hrest. rewrite lex_wordlike by done.
  apply (lex_go_emits _ (word_token w)); [|done..].
  intros c s ->. simpl in *. by rewrite Hrest.
Qed.
End Words.

(** ** Numbers *)

Section Numbers.
Implicit Types (c : ascii) (w ip fp rest : string) (line : nat) (z : Z).

(** The machine on digits. *)
Lemma lex_digits w ip rest line :
  all_chars is_digit_char w = true →
  lex_go (w +:+ rest) (InNumber ip) line = lex_go rest (InNumber (ip +:+ w)) line.
Proof.
  apply (lex_accumulate InNumber is_digit_char); [|apply digit_char_not_newline].
  intros buf c Hc. simpl. by rewrite Hc.
Qed.

Lemma lex_fraction w ip fp rest line :
  all_chars is_digit_char w = true →
  lex_go (w +:+ rest) (InFraction ip fp) line = lex_go rest (InFraction ip (fp +:+ w)) line.
Proof.
  apply (lex_accumulate (InFraction ip) is_digit_char); [|apply digit_char_not_newline].
  intros buf c Hc. simpl. by rewrite Hc.
Qed.

(** The digits of a number, read from between tokens. *)
Lemma lex_number ip rest bol line :
  digits ip → lex_go (ip +:+ rest) (Start bol) line = lex_go rest (InNumber ip) line.
Proof.
  destruct ip as [|c w]; intros [Hne Hip]; [done|]. simpl in Hip.
  apply andb_prop in Hip as [Hc Hw]. rewrite str_app_cons.
  rewrite (lex_go_silent c _ (Start bol) _ _ (lex_start_digit bol c Hc)).
  unfold next_line. rewrite (digit_char_not_newline c Hc). by apply lex_digits.
Qed.

(** What stops a number is no digit, no letter and no point. *)
Lemma stops_number c :
  is_ident_char c || bool_decide (c = "."%char) = false →
  is_digit_char c = false ∧ is_letter c = false ∧ c ≠ "."%char.
Proof.
  intros [[? ?]%orb_false_elim ?%bool_decide_eq_false]%orb_false_elim. done.
Qed.

Lemma lex_int ip z rest bol line :
  digits ip → leading_zero ip = false → parse_go ip 0 = Some z →
  follows (TLit (LInt z)) rest →
  lex_go (ip +:+ rest) (Start bol) line
  = followed_by (TLit (LInt z)) (lex_go rest (Start false) line).
Proof.
  intros Hip Hlead Hparse Hrest. rewrite lex_number by done.
  apply (lex_go_emits _ (number_token ip None)); [|done|].
  - intros c s ->. apply stops_number in Hrest as (Hd & Hl & Hp). simpl.
    by rewrite Hd, decide_False, Hl.
  - unfold number_token. by rewrite Hlead, Hparse.
Qed.

Lemma lex_float ip fp d rest bol line :
  digits ip → all_chars is_digit_char fp = true →
  parse_go (ip +:+ fp) 0 = Some (Z.pos d) →
  follows (TLit (LFloat d (String.length fp))) rest →
  lex_go ((ip +:+ String "." fp) +:+ rest) (Start bol) line
  = followed_by (TLit (LFloat d (String.length fp))) (lex_go rest (Start false) line).
Proof.
  intros Hip Hfp Hparse Hrest. rewrite <- str_app_assoc, lex_number, str_app_cons by done.
  rewrite (lex_go_silent "." _ _ (InFraction ip "")) by done.
  rewrite lex_fraction by done.
  apply (lex_go_emits _ (number_token ip (Some fp))); [|done|].
  - intros c s ->. apply stops_number in Hrest as (Hd & Hl & Hp). simpl.
    by rewrite Hd, Hl, bool_decide_eq_false_2.
  - unfold number_token. by rewrite Hparse.
Qed.
End Numbers.

(** ** Characters and strings *)

Section Quoted.
Implicit Types (c : ascii) (raw s buf rest : string) (line : nat).

(** A character between quotes [q], read by a state that goes to [next c]
    on a plain character and to [esc] on the backslash. *)
Lemma lex_written q raw c (st esc : lex_state) (next : ascii → lex_state) rest line :
  written q raw c →
  (∀ a, a ≠ backslash → a ≠ q → is_newline a = false →
        lex_step st a = inr ([], next a)) →
  lex_step st backslash = inr ([], esc) →
  (∀ a, lex_step esc a = (unescape a ≫= λ c', inr ([], next c'))) →
  lex_go (raw +:+ rest) st line = lex_go rest (next c) line.
Proof.
  intros [a Hb Hq Hline|a b Ha] Hplain Hback Hesc; rewrite !str_app_cons, str_app_nil_l.
  - rewrite (lex_go_silent a _ st (next a)) by auto. unfold next_line. by rewrite Hline.
  - rewrite (lex_go_silent backslash _ st esc) by done.
    rewrite (lex_go_silent a _ esc (next b)) by (by rewrite Hesc, Ha).
    unfold next_line. by rewrite (unescape_not_newline a b Ha).
Qed.

Lemma lex_written_char raw c rest line :
  written "'" raw c → lex_go (raw +:+ rest) InChar line = lex_go rest (InCharEnd c) line.
Proof.
  intros Hraw. apply (lex_written "'" raw c InChar InCharEsc InCharEnd); [done| |done..].
  intros a Hb Hq Hline. simpl. by rewrite !decide_False, Hline.
Qed.

Lemma lex_written_in_string raw c buf rest line :
  written dq raw c →
  lex_go (raw +:+ rest) (InString buf) line = lex_go rest (InString (snoc buf c)) line.
Proof.
  intros Hraw.
  apply (lex_written dq raw c (InString buf) (InStringEsc buf) (λ a, InString (snoc buf a)));
    [done| |done..].
  intros a Hb Hq Hline. simpl. by rewrite !decide_False, Hline.
Qed.

Lemma lex_written_string raw s buf rest line :
  written_string raw s →
  lex_go (raw +:+ rest) (InString buf) line = lex_go rest (InString (buf +:+ s)) line.
Proof.
  intros Hraw. revert buf.
  induction Hraw as [|raw c raws s Hc Hs IH]; intros buf; [by rewrite str_app_nil_r|].
  rewrite <- str_app_assoc, (lex_written_in_string raw c) by done.
  rewrite IH. unfold snoc. by rewrite <- str_app_assoc.
Qed.

Lemma lex_char raw c rest bol line :
  written "'" raw c →
  lex_go (String "'" (raw +:+ "'") +:+ rest) (Start bol) line
  = followed_by (TLit (LChar c)) (lex_go rest (Start false) line).
Proof.
  intros Hraw. rewrite str_app_cons, <- str_app_assoc.
  rewrite (lex_go_silent "'" _ (Start bol) InChar) by done.
  rewrite (lex_written_char raw c) by done.
  by rewrite str_app_cons, (lex_go_token "'" _ (InCharEnd c) (Start false) (TLit (LChar c))).
Qed.

Lemma lex_string raw s rest bol line :
  written_string raw s →
  lex_go (String dq (raw +:+ String dq "") +:+ rest) (Start bol) line
  = followed_by (TLit (LString s)) (lex_go rest (Start false) line).
Proof.
  intros Hraw. rewrite str_app_cons, <- str_app_assoc.
  rewrite (lex_go_silent dq _ (Start bol) (InString "")) by done.
  rewrite (lex_written_string raw s) by done.
  by rewrite str_app_cons, (lex_go_token dq _ (InString s) (Start false) (TLit (LString s))).
Qed.
End Quoted.

(** ** Punctuators *)

Lemma lex_operator (p : punct) rest line :
  operator p = true → follows (TPunct p) rest →
  lex_go rest (InOp p) line = followed_by (TPunct p) (lex_go rest (Start false) line).
Proof.
  intros Hp Hrest. apply (lex_go_emits _ (inr (TPunct p))); [|done..].
  intros c s ->. specialize (Hrest Hp). simpl in *.
  apply bool_decide_eq_false in Hrest. by rewrite decide_False.
Qed.

Lemma lex_punct (p : punct) rest bol line :
  follows (TPunct p) rest →
  lex_go (punct_text p +:+ rest) (Start bol) line
  = followed_by (TPunct p) (lex_go rest (Start false) line).
Proof.
  intros Hrest. destruct p; cbn [punct_text]; rewrite !str_app_cons, str_app_nil_l.
  - rewrite (lex_go_silent "<" _ (Start bol) InLess) by done.
    rewrite (lex_go_silent "<" _ InLess (InOp PShl)) by done. by apply lex_operator.
  - rewrite (lex_go_silent "=" _ (Start bol) (InOp PAssign)) by done. by apply lex_operator.
  - rewrite (lex_go_silent "+" _ (Start bol) (InOp PPlus)) by done. by apply lex_operator.
  - rewrite (lex_go_silent "*" _ (Start bol) (InOp PStar)) by done. by apply lex_operator.
  - by rewrite (lex_go_token ";" _ (Start bol) (Start false) (TPunct PSemi)).
  - by rewrite (lex_go_token "," _ (Start bol) (Start false) (TPunct PComma)).
  - by rewrite (lex_go_token "(" _ (Start bol) (Start false) (TPunct PLParen)).
  - by rewrite (lex_go_token ")" _ (Start bol) (Start false) (TPunct PRParen)).
  - by rewrite (lex_go_token "{" _ (Start bol) (Start false) (TPunct PLBrace)).
  - by rewrite (lex_go_token "}" _ (Start bol) (Start false) (TPunct PRBrace)).
Qed.

(** ** Tokens *)

Lemma lex_lexeme (w : string) (t : token) (rest : string) (bol : bool) (line : nat) :
  lexeme w t → follows t rest →
  lex_go (w +:+ rest) (Start bol) line = followed_by t (lex_go rest (Start false) line).
Proof.
  intros [k|b|x Hx|ip z Hip Hlead Hparse|ip fp d Hip Hfp Hparse|p|raw c Hraw|raw s Hraw] Hrest.
  - apply lex_word; [by destruct k | apply word_token_keyword | done].
  - apply lex_word; [by destruct b | apply word_token_bool | done].
  - apply lex_word; [by destruct Hx | by apply word_token_ident | done].
  - by apply lex_int.
  - by apply lex_float.
  - by apply lex_punct.
  - by apply lex_char.
  - by apply lex_string.
Qed.

(** ** Comments and directives *)

Section Lines.
Implicit Types (c : ascii) (h s text body rest : string) (line : nat).

Lemma lex_comment body rest bol line :
  one_line body → line_ends rest →
  lex_go ("//" +:+ body +:+ rest) (Start bol) line = lex_go rest (Start false) line.
Proof.
  intros Hbody Hrest. rewrite !str_app_cons, str_app_nil_l.
  rewrite (lex_go_silent "/" _ (Start bol) InSlash) by done.
  rewrite (lex_go_silent "/" _ InSlash InComment) by done.
  rewrite (lex_accumulate (λ _, InComment) (λ c, negb (is_newline c)) body "");
    [| by intros _ c Hc%negb_true_iff; simpl; rewrite Hc
     | by intros c ?%negb_true_iff | done].
  apply lex_go_line_ends; [done..|]. by intros c Hc; simpl; rewrite Hc.
Qed.

Lemma skip_blanks_app b s : blanks b → stops is_blank s → skip_blanks (b +:+ s) = s.
Proof.
  intros Hb Hs. induction b as [|c b IH]; simpl in *.
  - destruct s as [|c s]; [done|]. simpl in *. by rewrite Hs.
  - apply andb_prop in Hb as [-> Hb]. by apply IH.
Qed.

Lemma strip_prefix_app p s : strip_prefix p (p +:+ s) = Some s.
Proof. induction p as [|c p IH]; [by destruct s|]. simpl. by rewrite decide_True. Qed.

Lemma split_at_app c h rest :
  all_chars (λ a, bool_decide (a ≠ c)) h = true →
  split_at c (h +:+ String c rest) = Some (h, rest).
Proof.
  induction h as [|a h IH]; simpl; [by rewrite decide_True|].
  intros [Ha%bool_decide_eq_true Hh]%andb_prop. by rewrite decide_False, IH.
Qed.

Lemma ends_line_app b tail :
  blanks b → tail = "" ∨ (∃ comment, tail = "//" +:+ comment) → ends_line (b +:+ tail) = true.
Proof.
  intros Hb Htail. unfold ends_line.
  rewrite skip_blanks_app; [|done|]; by destruct Htail as [->|[comment ->]].
Qed.

Lemma directive_token_include text h :
  include_line text h → directive_token text = inr (TInclude h).
Proof.
  intros [b1 b2 b3 h' tail Hb1 Hb2 Hb3 Hne Hh Htail]. unfold directive_token.
  rewrite skip_blanks_app, strip_prefix_app by done. cbn [mbind option_bind].
  rewrite skip_blanks_app, (strip_prefix_app "<") by done. cbn [mbind option_bind].
  change (">" +:+ b3 +:+ tail) with (String ">" (b3 +:+ tail)).
  rewrite (split_at_app ">" h') by done. cbn [mbind option_bind].
  by rewrite decide_True by (by split; [|apply ends_line_app]).
Qed.

Lemma lex_directive text t rest line :
  one_line text → line_ends rest → directive_token text = inr t →
  lex_go (String "#" (text +:+ rest)) (Start true) line
  = followed_by t (lex_go rest (Start false) line).
Proof.
  intros Htext Hrest Ht.
  rewrite (lex_go_silent "#" _ (Start true) (InDirective "")) by done.
  rewrite (lex_accumulate InDirective (λ c, negb (is_newline c)));
    [| by intros buf c Hc%negb_true_iff; simpl; rewrite Hc
     | by intros c ?%negb_true_iff | done].
  rewrite str_app_nil_l.
  destruct rest as [|c s]; cbn [lex_go lex_end lex_step]; [by rewrite Ht|].
  apply negb_false_iff in Hrest. unfold lex_start, next_line. rewrite Hrest, Ht. simpl.
  by destruct (lex_go s (Start true) _).
Qed.
End Lines.

(** ** Texts *)

(** The lexer is complete: it reads a text that is made of the tokens [ts]
    as [ts], from whatever line. *)
Lemma lex_go_scans (bol : bool) (s : string) (ts : list token) :
  scans bol s ts → ∀ line, lex_go s (Start bol) line = inr ts.
Proof.
  induction 1 as [bol|bol s ts _ IH|bol c s ts Hc _ IH|bol body rest ts Hbody Hrest _ IH
                 |text h rest ts Htext Hrest Hh _ IH|bol w t rest ts Hw Ht _ IH]; intros line.
  - done.
  - by rewrite (lex_go_silent "010" _ (Start bol) (Start true)).
  - destruct (lex_start_blank bol c Hc) as [Hstart Hline].
    rewrite (lex_go_silent c _ (Start bol) (Start bol)) by done.
    unfold next_line. by rewrite Hline.
  - by rewrite lex_comment.
  - by rewrite (lex_directive text (TInclude h)), IH by (done || by apply directive_token_include).
  - by rewrite (lex_lexeme w t), IH.
Qed.

Lemma lex_scans (text : string) (ts : list token) : scans true text ts → lex text = inr ts.
Proof. intros Hts. by apply lex_go_scans. Qed.
