(* ===== verification/LexerProofs.v ===== *)
(** * The lexer reads what the printer writes

    The text that the printer writes for a token is a spelling of the token
    in the lexical grammar ([show_token_lexeme]), and the text of a list of
    tokens, one on a line, is made of the list ([show_tokens_scans]).  So
    the lexer, which is complete for the grammar, reads the text of every
    list of tokens that can be written back as the list
    ([lex_show_tokens]); and text that follows such tokens is read as it
    is read alone, its errors with their lines ([lex_after_tokens]).  So
    is text that follows the file of the repository ([lex_after_source]),
    by the tokens, the state and the line that the lexer has reached at
    the end of a text ([lex_prefix], [lex_go_app]). *)

From S2P Require Import Prelude Decimal Double DoubleText Syntax Lexer Source Printer.
From S2P Require Import Lexical LexerComplete.

(** ** Numbers *)

Section Numbers.
Implicit Types (c : ascii) (w ip fp rest : string) (line : nat) (z : Z).

Lemma all_digits_chars (s : string) : all_digits s → all_chars is_digit_char s = true.
Proof.
  induction s as [|c s IH]; [done|]. intros [Hc Hs]. simpl.
  unfold is_digit_char at 1. by rewrite bool_decide_eq_true_2, IH.
Qed.

(** A number of [n] bits has at most [n] decimal digits. *)
Lemma show_nat_fuel z : 0 ≤ z → 0 ≤ z < 10 ^ Z.of_nat (S (Z.to_nat (Z.log2 z))).
Proof.
  intros Hz. split; [done|]. rewrite Nat2Z.inj_succ, Z2Nat.id by apply Z.log2_nonneg.
  destruct (decide (z = 0)) as [->|Hnz]; [done|].
  destruct (Z.log2_spec z ltac:(lia)) as [_ Hlt].
  eapply Z.lt_le_trans; [exact Hlt|].
  apply Z.pow_le_mono_l. pose proof (Z.log2_nonneg z). lia.
Qed.

(** The first digit of a number other than 0 is not 0. *)
Lemma int_to_char_first fuel z buf :
  0 < z < 10 ^ Z.of_nat (S fuel) →
  ∃ d t, 0 < d < 10 ∧ int_to_char fuel z buf = String (digit_char d) t.
Proof.
  revert z buf. induction fuel as [|fuel IH]; intros z buf Hz.
  - exists z, buf. change (10 ^ Z.of_nat 1) with 10 in Hz.
    split; [lia|]. simpl. by rewrite Z.mod_small by lia.
  - destruct (decide (z / 10 = 0)) as [Hlast|Hmore].
    + rewrite int_to_char_last by done. apply div10_zero_iff in Hlast; [|lia].
      exists z, buf. split; [lia|]. by rewrite Z.mod_small by lia.
    + rewrite int_to_char_step by done. apply IH.
      pose proof (div10_pow z (S fuel) ltac:(lia)). lia.
Qed.

Lemma leading_zero_digit d t : 0 < d < 10 → leading_zero (String (digit_char d) t) = false.
Proof.
  intros Hd. destruct t; [done|]. simpl. apply bool_decide_eq_false_2.
  intros Heq. by apply (digit_char_inj d 0) in Heq; [lia | lia |].
Qed.

(** The digits of a number: digits, read back as the number, without a
    leading zero. *)
Lemma show_nat_spec z :
  0 ≤ z →
  digits (show_nat z) ∧ parse_go (show_nat z) 0 = Some z ∧ leading_zero (show_nat z) = false.
Proof.
  intros Hz. pose proof (show_nat_fuel z Hz) as Hfuel. unfold show_nat.
  destruct (parse_go_render_unsigned _ z Hfuel) as (Hparse & Hne & d & t & Hd & Heq).
  pose proof (render_unsigned_all_digits (Z.to_nat (Z.log2 z)) z) as Hall.
  apply all_digits_chars in Hall. split_all; [done..|].
  destruct (decide (z = 0)) as [->|Hnz]; [done|].
  destruct (int_to_char_first (Z.to_nat (Z.log2 z)) z "") as (d' & t' & Hd' & Heq');
    [lia|]. unfold render_unsigned. rewrite Heq'. by apply leading_zero_digit.
Qed.

Lemma fixed_digits_chars (w : nat) z : all_chars is_digit_char (fixed_digits w z "") = true.
Proof.
  revert z. induction w as [|w IH]; intros z; [done|].
  rewrite fixed_digits_S, all_chars_app, IH. simpl.
  unfold is_digit_char. rewrite bool_decide_eq_true_2; [done|]. auto with cxx.
Qed.

Lemma show_int_lexeme z : 0 ≤ z → lexeme (show_nat z) (TLit (LInt z)).
Proof. intros (? & ? & ?)%show_nat_spec. by constructor. Qed.

(** The digits before and after the point are those of the quotient and
    of the remainder. *)
Lemma show_float_lexeme (d : positive) (k : nat) :
  lexeme (show_literal (LFloat d k)) (TLit (LFloat d k)).
Proof.
  pose proof (pow10_pos (Z.of_nat k) ltac:(lia)) as Hk.
  set (a := Z.pos d / 10 ^ Z.of_nat k). set (b := Z.pos d mod 10 ^ Z.of_nat k).
  assert (0 ≤ a) as Ha by (apply Z.div_pos; lia).
  destruct (show_nat_spec a Ha) as (Hdigits & Hparse & _).
  unfold show_literal. fold a b.
  rewrite <- (Nat.add_0_r k) at 2. change 0%nat with (String.length "").
  rewrite <- (fixed_digits_length k b ""). apply lexeme_float; [done | apply fixed_digits_chars |].
  rewrite parse_go_app, Hparse. simpl. rewrite parse_go_fixed_digits. f_equal.
  unfold b. rewrite Z.mod_mod by lia. unfold a.
  pose proof (Z.div_mod (Z.pos d) (10 ^ Z.of_nat k)). lia.
Qed.
End Numbers.

(** ** Characters and strings *)

Section Quoted.
Implicit Types (c q : ascii) (s : string).

(** A character is written as it is, or as the escape that denotes it. *)
Lemma escape_written q c : q = "'"%char ∨ q = dq → written q (escape c) c.
Proof.
  intros Hq. unfold escape. repeat case_decide; subst; try by apply written_escape.
  - apply written_escape. by destruct_or!; subst.
  - apply written_plain; [tauto | by destruct Hq as [->| ->]; tauto |].
    by apply bool_decide_eq_false_2.
Qed.

Lemma escape_string_written s : written_string (escape_string s) s.
Proof.
  induction s as [|c s IH]; [constructor|]. simpl.
  apply written_cons; [apply escape_written; by right | done].
Qed.
End Quoted.

(** ** Tokens *)

(** The name of a header that can be written, after [#include]. *)
Lemma include_header (h : string) :
  wf_header h = true →
  one_line ("include <" +:+ h +:+ ">") ∧ include_line ("include <" +:+ h +:+ ">") h.
Proof.
  intros [Hne%bool_decide_eq_true Hh]%andb_prop. split.
  - unfold one_line. rewrite !all_chars_app, andb_true_r. simpl.
    revert Hh. apply all_chars_impl. by intros c [? _]%andb_prop.
  - apply (include_line_intro "" " " "" h ""); try done; [|by left].
    revert Hh. apply all_chars_impl. by intros c [_ ?]%andb_prop.
Qed.

(** The text of a token is a spelling of the token. *)
Lemma show_token_lexeme (t : token) :
  wf_token t = true → (∀ h, t ≠ TInclude h) → lexeme (show_token t) t.
Proof.
  destruct t as [h|k|x|[z|d k|c|s|b]|p]; simpl; intros Ht Hh.
  - by destruct (Hh h).
  - constructor.
  - destruct x as [|c w]; [done|]. simpl in Ht.
    apply andb_prop in Ht as [[Hc Hw]%andb_prop Ht%bool_decide_eq_true].
    by apply word_token_lexeme.
  - apply show_int_lexeme. by apply bool_decide_eq_true in Ht.
  - apply show_float_lexeme.
  - apply lexeme_char, escape_written. by left.
  - apply lexeme_string, escape_string_written.
  - constructor.
  - constructor.
Qed.

(** A line break can follow every token. *)
Lemma follows_newline (t : token) (rest : string) : follows t (String "010" rest).
Proof.
  destruct t as [| | |[]|p]; try done. intros _. apply bool_decide_eq_false_2.
  by intros [?|[_ ?]].
Qed.

Lemma lex_go_newline (rest : string) (bol : bool) (line : nat) :
  lex_go (String "010" rest) (Start bol) line = lex_go rest (Start true) (S line).
Proof. by rewrite (lex_go_silent "010" _ (Start bol) (Start true)). Qed.

(** A token on a line of its own is read as that token. *)
Lemma lex_token (t : token) (rest : string) (line : nat) :
  wf_token t = true →
  lex_go (show_token t +:+ String "010" rest) (Start true) line
  = followed_by t (lex_go rest (Start true) (S line)).
Proof.
  intros Ht. rewrite <- (lex_go_newline rest false line).
  destruct t as [h| | | |];
    try (by apply lex_lexeme; [by apply show_token_lexeme | apply follows_newline]).
  destruct (include_header h Ht) as [Hline Hinclude].
  change (show_token (TInclude h)) with (String "#" ("include <" +:+ h +:+ ">")).
  rewrite str_app_cons. by apply lex_directive; [| |apply directive_token_include].
Qed.

(** The text of a list of tokens is made of the list. *)
Lemma show_tokens_scans (ts : list token) :
  forallb wf_token ts = true → scans true (show_tokens ts) ts.
Proof.
  induction ts as [|t ts IH]; [constructor|]. intros [Ht Hts]%andb_prop.
  cbn [show_tokens]. specialize (IH Hts).
  destruct t as [h| | | |];
    try (by apply scans_token;
           [by apply show_token_lexeme | apply follows_newline | apply scans_newline]).
  destruct (include_header h Ht) as [Hline Hinclude].
  change (show_token (TInclude h)) with (String "#" ("include <" +:+ h +:+ ">")).
  rewrite str_app_cons. by apply scans_directive; [..|apply scans_newline].
Qed.

Lemma lex_go_show_tokens (ts : list token) (line : nat) :
  forallb wf_token ts = true → lex_go (show_tokens ts) (Start true) line = inr ts.
Proof. intros Hts. by apply lex_go_scans, show_tokens_scans. Qed.

(** The lexer is a left inverse of the printer of tokens. *)
Theorem lex_show_tokens (ts : list token) :
  forallb wf_token ts = true → lex (show_tokens ts) = inr ts.
Proof. apply lex_go_show_tokens. Qed.

(** ** Text after tokens *)

(** The result [r] of a text, [k] lines further down and after the tokens
    [ts]. *)
Definition after_tokens (ts : list token) (k : nat) (r : lex_error + list token) :
    lex_error + list token :=
  match r with
  | inl (LexError line f) => inl (LexError (k + line) f)
  | inr ts' => inr (ts ++ ts')
  end.

Lemma lex_go_lines (s : string) (st : lex_state) (line k : nat) :
  lex_go s st (k + line) = after_tokens [] k (lex_go s st line).
Proof.
  revert st line. induction s as [|c s IH]; intros st line; simpl.
  - by destruct (lex_end st).
  - destruct (lex_step st c) as [f|[ts st']]; simpl; [done|].
    replace (next_line c (k + line)) with (k + next_line c line)%nat
      by (unfold next_line; destruct (is_newline c); lia).
    rewrite IH. by destruct (lex_go s st' (next_line c line)) as [[]|].
Qed.

Lemma show_tokens_app (ts : list token) (rest : string) :
  show_tokens ts +:+ rest
  = foldr (λ t s, show_token t +:+ String "010" s) rest ts.
Proof.
  induction ts as [|t ts IH]; simpl; [by rewrite str_app_nil_l|].
  by rewrite <- IH, <- str_app_assoc, str_app_cons.
Qed.

Lemma lex_go_after_tokens (ts : list token) (rest : string) (line : nat) :
  forallb wf_token ts = true →
  lex_go (show_tokens ts +:+ rest) (Start true) line
  = after_tokens ts 0 (lex_go rest (Start true) (length ts + line)).
Proof.
  rewrite show_tokens_app. revert line.
  induction ts as [|t ts IH]; intros line; simpl.
  - intros _. by destruct (lex_go rest (Start true) line) as [[]|].
  - intros [Ht Hts]%andb_prop. rewrite lex_token, IH by done.
    replace (length ts + S line)%nat with (S (length ts + line)) by lia.
    by destruct (lex_go rest _ _) as [[]|].
Qed.

(** *** Text after a text

    The tokens that the characters of [s] complete, with the state and the
    line that the lexer has reached after them. *)
Fixpoint lex_prefix (s : string) (st : lex_state) (line : nat) :
    lex_error + (list token * lex_state * nat) :=
  match s with
  | EmptyString => inr ([], st, line)
  | String c s' =>
      '(ts, st') ← at_line line (lex_step st c);
      '(ts', st'', line') ← lex_prefix s' st' (next_line c line);
      inr (ts ++ ts', st'', line')
  end.

(** The lexer on a text in two parts: the tokens of the first part, then
    the second part read from where the first has left the lexer. *)
Lemma lex_go_app (s rest : string) (st : lex_state) (line : nat) :
  lex_go (s +:+ rest) st line
  = match lex_prefix s st line with
    | inl e => inl e
    | inr (ts, st', line') => after_tokens ts 0 (lex_go rest st' line')
    end.
Proof.
  revert st line. induction s as [|c s IH]; intros st line.
  - rewrite str_app_nil_l. simpl. by destruct (lex_go rest st line) as [[]|].
  - rewrite str_app_cons. simpl.
    destruct (lex_step st c) as [f|[ts st']]; simpl; [done|]. rewrite IH.
    destruct (lex_prefix s st' _) as [e|[[ts' st''] line']]; simpl; [done|].
    destruct (lex_go rest st'' line') as [[]|]; simpl; [done|].
    by rewrite app_assoc.
Qed.

(** After the 46 lines of the file and a line break the lexer has
    completed the 154 tokens and is between tokens, first on line 47. *)
Lemma lex_prefix_source :
  lex_prefix (source_text +:+ String "010" "") (Start true) 1
  = inr (source_tokens, Start true, 47%nat).
Proof. by vm_compute. Qed.

Lemma lex_after_source (rest : string) :
  lex (source_text +:+ String "010" rest) = after_tokens source_tokens 46 (lex rest).
Proof.
  unfold lex. change (String "010" rest) with (String "010" "" +:+ rest).
  rewrite str_app_assoc, lex_go_app, lex_prefix_source.
  rewrite (lex_go_lines rest (Start true) 1 46 : lex_go rest _ 47 = _).
  by destruct (lex_go rest (Start true) 1) as [[]|].
Qed.

(** C11: the errors of the lexer and their lines.  Text that follows
    tokens written one on a line is read as it is read alone: if it has
    tokens, they follow the tokens before it; if it has an error (a
    character outside the alphabet, a number that runs into a name or
    starts with a zero, an unknown escape or directive, a keyword outside
    the fragment, a literal that does not end), the error is the same and
    its line is as many lines further down as there are lines before it,
    and the result is this error alone.  The tokens before the text
    change neither whether it has an error nor which one.  The same holds
    of text that follows the file of the repository and a line break: it
    is read as it is read alone, after the 154 tokens of the file and 46
    lines further down. *)
Theorem lex_after_tokens (ts : list token) (rest : string) :
  (forallb wf_token ts = true →
   lex (show_tokens ts +:+ rest) = after_tokens ts (length ts) (lex rest)) ∧
  lex (source_text +:+ String "010" rest) = after_tokens source_tokens 46 (lex rest).
Proof.
  split; [|apply lex_after_source].
  intros Hts. unfold lex. rewrite lex_go_after_tokens, lex_go_lines by done.
  by destruct (lex_go rest (Start true) 1) as [[]|].
Qed.

(** [int x =] on three lines, then [5x;]: the error of line 4; after the
    file, the error of line 47. *)
Lemma lex_after_tokens_witness :
  lex (show_tokens [TKeyword KInt; TIdent "x"; TPunct PAssign] +:+ "5x;")
  = after_tokens [TKeyword KInt; TIdent "x"; TPunct PAssign] 3 (lex "5x;") ∧
  lex (source_text +:+ String "010" "5x;") = inl (LexError 47 (BadNumber "5x")).
Proof.
  destruct (lex_after_tokens [TKeyword KInt; TIdent "x"; TPunct PAssign] "5x;") as [Hts Hfile].
  split; [exact (Hts eq_refl) | exact Hfile].
Defined.

(** The errors of the lexer, each with its line. *)
Lemma lex_errors :
  lex "5x;" = inl (LexError 1 (BadNumber "5x")) ∧
  lex "x = 007;" = inl (LexError 1 (BadNumber "007")) ∧
  lex "while" = inl (LexError 1 (Reserved "while")) ∧
  lex ("y = 1;" +:+ String "010" "z = @") = inl (LexError 2 (BadCharacter "@")) ∧
  lex (String dq "abc") = inl (LexError 1 Unterminated) ∧
  lex (String "'" (String backslash "q'")) = inl (LexError 1 (BadEscape "q")) ∧
  lex "a < b" = inl (LexError 1 (BadCharacter "<")) ∧
  lex "#define X" = inl (LexError 1 (BadDirective "define X")) ∧
  lex "x = 1; #include <a>" = inl (LexError 1 (BadCharacter "#")).
Proof. by vm_compute. Qed.
