(* ===== verification/LexerSound.v ===== *)
(** * The lexer implements the lexical grammar

    What the lexer reads is a text of the grammar of [Lexical]: where it
    returns tokens, the text is made of them ([lex_sound]).  The proof is a
    simulation.  [pending st p] says what a state of the machine stands
    for: the characters [p] of the item under way that have been read.
    Every transition either extends what is pending or completes an item
    of the grammar ([lex_step_sound]), and at the end of the text what is
    pending is a complete item ([lex_end_sound]).

    With the completeness of [LexerComplete], the lexer accepts a text as
    a list of tokens if and only if the text is made of them
    ([lex_grammar]); so a text is made of at most one list of tokens. *)

From S2P Require Import Prelude Decimal Syntax Lexer Source Printer Lexical LexerComplete.

(** ** What a state stands for *)

Inductive pending : lex_state → string → Prop :=
| pending_start bol : pending (Start bol) ""
| pending_word w : wordlike w → pending (InWord w) w
| pending_number ip : digits ip → pending (InNumber ip) ip
| pending_fraction ip fp :
    digits ip → all_chars is_digit_char fp = true →
    pending (InFraction ip fp) (ip +:+ String "." fp)
| pending_op p : operator p = true → pending (InOp p) (punct_text p)
| pending_less : pending InLess "<"
| pending_slash : pending InSlash "/"
| pending_comment body : one_line body → pending InComment ("//" +:+ body)
| pending_directive text : one_line text → pending (InDirective text) (String "#" text)
| pending_char : pending InChar "'"
| pending_char_esc : pending InCharEsc (String "'" (String backslash ""))
| pending_char_end raw c : written "'" raw c → pending (InCharEnd c) (String "'" raw)
| pending_string raw s : written_string raw s → pending (InString s) (String dq raw)
| pending_string_esc raw s :
    written_string raw s → pending (InStringEsc s) (String dq (raw +:+ String backslash "")).

(** Whether the item under way can start at the start of a line only. *)
Definition admits (st : lex_state) (bol : bool) : Prop :=
  match st with
  | Start b => b = bol
  | InDirective _ => bol = true
  | _ => True
  end.

(** The text [s], read from the state [st] with [p] pending, is made of
    [ts]. *)
Definition scans_from (st : lex_state) (p s : string) (ts : list token) : Prop :=
  ∀ bol, admits st bol → scans bol (p +:+ s) ts.

(** [w] spells [t], which what stops the class [P] can follow. *)
Definition spells (P : ascii → bool) (w : string) (t : token) : Prop :=
  lexeme w t ∧ ∀ rest, stops P rest → follows t rest.

(** ** Texts that are equal *)

(** Equality of two texts that differ in how they are put together. *)
Ltac same_text :=
  unfold snoc;
  repeat (rewrite <- str_app_assoc || rewrite str_app_cons || rewrite str_app_nil_l
          || rewrite str_app_nil_r);
  reflexivity.

(** The goal, from the same fact about the same text. *)
Ltac by_text H :=
  match goal with
  | |- scans ?b ?X ?ts =>
      match type of H with
      | scans _ ?Y _ => replace X with Y by same_text; exact H
      end
  end.

Lemma all_chars_extend (P : ascii → bool) (s : string) (c : ascii) :
  all_chars P s = true → P c = true → all_chars P (snoc s c) = true.
Proof. intros Hs Hc. unfold snoc. by rewrite all_chars_app, Hs; simpl; rewrite Hc. Qed.

Lemma wordlike_extend (w : string) (c : ascii) :
  wordlike w → is_ident_char c = true → wordlike (snoc w c).
Proof. destruct w as [|a w]; [done|]. intros [Ha Hw] Hc. by split; [|apply all_chars_extend]. Qed.

Lemma digits_extend (ip : string) (c : ascii) :
  digits ip → is_digit_char c = true → digits (snoc ip c).
Proof.
  intros [Hne Hip] Hc. split; [by destruct ip | by apply all_chars_extend].
Qed.

Lemma written_string_extend (raw s r : string) (c : ascii) :
  written_string raw s → written dq r c → written_string (raw +:+ r) (snoc s c).
Proof.
  intros Hraw Hr. unfold snoc in *. induction Hraw as [|raw a raws s Ha Hs IH]; simpl.
  - rewrite <- (str_app_nil_r r). apply (written_cons r c "" ""); [done | constructor].
  - rewrite <- str_app_assoc. by apply (written_cons raw a).
Qed.

Lemma follows_end (t : token) : follows t "".
Proof. by destruct t as [| | |[]|]. Qed.

(** ** The tokens that are completed *)

Lemma word_token_spells (w : string) (t : token) :
  wordlike w → word_token w = inr t → spells is_ident_char w t.
Proof.
  intros Hw Ht. split; [by apply word_token_lexeme|]. revert Ht. unfold word_token.
  destruct (keyword_of w); [by intros [= <-]|]. repeat case_decide; by try intros [= <-].
Qed.

Definition stops_number (c : ascii) : bool := is_ident_char c || bool_decide (c = "."%char).

Lemma number_token_int (ip : string) (t : token) :
  digits ip → number_token ip None = inr t → spells stops_number ip t.
Proof.
  intros Hip. unfold number_token. destruct (leading_zero ip) eqn:Hlead; [done|].
  destruct (parse_go ip 0) as [z|] eqn:Hz; [|done]. intros [= <-].
  by split; [constructor|].
Qed.

Lemma number_token_float (ip fp : string) (t : token) :
  digits ip → all_chars is_digit_char fp = true →
  number_token ip (Some fp) = inr t → spells stops_number (ip +:+ String "." fp) t.
Proof.
  intros Hip Hfp. unfold number_token.
  destruct (parse_go (ip +:+ fp) 0) as [[|d|]|] eqn:Hz; try done. intros [= <-].
  by split; [constructor|].
Qed.

Lemma punct_spells (p : punct) :
  spells (λ c, bool_decide (c = "="%char ∨ (p = PPlus ∧ c = "+"%char))) (punct_text p) (TPunct p).
Proof. split; [constructor|]. by intros rest Hrest _. Qed.

(** ** Directives *)

Section Directives.
Implicit Types (c : ascii) (s p r h text : string).

Lemma skip_blanks_spec s : ∃ b, s = b +:+ skip_blanks s ∧ blanks b.
Proof.
  induction s as [|c s (b & Hs & Hb)]; [by exists ""|]. simpl.
  destruct (is_blank c) eqn:Hc; [|by exists ""].
  exists (String c b). rewrite str_app_cons, <- Hs. split; [done|].
  unfold blanks. simpl. by rewrite Hc.
Qed.

Lemma strip_prefix_Some p s r : strip_prefix p s = Some r → s = p +:+ r.
Proof.
  revert s. induction p as [|a p IH]; intros [|b s]; simpl; try by intros [= <-].
  case_decide; [|done]. subst. by intros ->%IH.
Qed.

Lemma split_at_Some c s h r :
  split_at c s = Some (h, r) →
  s = h +:+ String c r ∧ all_chars (λ a, bool_decide (a ≠ c)) h = true.
Proof.
  revert h. induction s as [|a s IH]; intros h; simpl; [done|].
  case_decide; [by intros [= <- <-]; subst|].
  destruct (split_at c s) as [[h' r']|]; [|done]. simpl. intros [= <- <-].
  destruct (IH h' eq_refl) as [-> Hh]. split; [done|]. simpl.
  by rewrite bool_decide_eq_true_2.
Qed.

Lemma ends_line_spec s :
  ends_line s = true →
  ∃ b tail, s = b +:+ tail ∧ blanks b ∧ (tail = "" ∨ ∃ comment, tail = "//" +:+ comment).
Proof.
  unfold ends_line. destruct (skip_blanks_spec s) as (b & Hs & Hb).
  destruct (skip_blanks s) as [|a [|a' tail]]; try done; intros Htail.
  - exists b, "". by eauto.
  - apply bool_decide_eq_true in Htail as [-> ->]. exists b, ("//" +:+ tail). by eauto.
Qed.

(** The token of a directive is the header that its text includes. *)
Lemma directive_token_sound text (t : token) :
  directive_token text = inr t → ∃ h, t = TInclude h ∧ include_line text h.
Proof.
  unfold directive_token.
  destruct (skip_blanks_spec text) as (b1 & Htext & Hb1).
  destruct (strip_prefix "include" (skip_blanks text)) as [r1|] eqn:H1; [|done].
  destruct (skip_blanks_spec r1) as (b2 & Hr1 & Hb2). cbn [mbind option_bind].
  destruct (strip_prefix "<" (skip_blanks r1)) as [r2|] eqn:H2; [|done].
  cbn [mbind option_bind]. destruct (split_at ">" r2) as [[h r3]|] eqn:H3; [|done].
  cbn [mbind option_bind]. case_decide as Hh; [|done]. intros [= <-].
  destruct Hh as [Hne (b3 & tail & -> & Hb3 & Htail)%ends_line_spec].
  apply split_at_Some in H3 as [-> Hh]. apply strip_prefix_Some in H1, H2.
  exists h. split; [done|]. rewrite Htext, H1, Hr1, H2.
  by apply (include_line_intro b1 b2 b3 h tail).
Qed.
End Directives.

(** ** The transitions *)

Section Transitions.
Implicit Types (c : ascii) (s p w : string) (st : lex_state) (ts : list token).

(** The transition between tokens starts an item or completes one. *)
Lemma lex_start_sound bol c ts0 st' :
  lex_start bol c = inr (ts0, st') →
  ∃ p', pending st' p' ∧
        ∀ s ts, scans_from st' p' s ts → scans bol (String c s) (ts0 ++ ts).
Proof.
  unfold lex_start.
  destruct (is_newline c) eqn:Hline.
  { apply bool_decide_eq_true in Hline as ->. intros [= <- <-]. exists "".
    split; [constructor|]. intros s ts Hs. apply scans_newline, (Hs true eq_refl). }
  destruct (is_blank c) eqn:Hblank.
  { intros [= <- <-]. exists "". split; [constructor|]. intros s ts Hs.
    by apply scans_blank, (Hs bol). }
  destruct (is_letter c) eqn:Hletter.
  { intros [= <- <-]. exists (String c ""). split; [by constructor|].
    intros s ts Hs. apply (Hs bol I). }
  destruct (is_digit_char c) eqn:Hdigit.
  { intros [= <- <-]. exists (String c ""). split; [|intros s ts Hs; apply (Hs bol I)].
    constructor. split; [done|]. simpl. by rewrite Hdigit. }
  repeat case_decide; subst.
  - destruct bol; [|done]. intros [= <- <-]. exists "#". split; [by constructor|].
    intros s ts Hs. by apply (Hs true).
  - intros [= <- <-]. exists "/". split; [constructor|]. intros s ts Hs. apply (Hs bol I).
  - intros [= <- <-]. exists "<". split; [constructor|]. intros s ts Hs. apply (Hs bol I).
  - intros [= <- <-]. exists "'". split; [constructor|]. intros s ts Hs. apply (Hs bol I).
  - intros [= <- <-]. exists (String dq ""). split; [by repeat constructor|].
    intros s ts Hs. apply (Hs bol I).
  - unfold operator_of, separator_of. repeat case_decide; subst; try done;
      intros [= <- <-];
      try (eexists (punct_text _); split; [by constructor|];
           intros s ts Hs; apply (Hs bol I));
      (exists ""; split; [constructor|]; intros s ts Hs;
       match goal with
       | |- context [TPunct ?p] => apply (scans_token bol (punct_text p) (TPunct p) s ts)
       end; [constructor | by intros ? | by apply (Hs false)]).
Qed.

(** The character that stops a token completes it, and is read from
    between tokens. *)
Lemma emit_sound (P : ascii → bool) st w (r : lex_fault + token) c ts0 st' :
  (∀ t, r = inr t → spells P w t) → P c = false →
  emit r c = inr (ts0, st') →
  ∃ p', pending st' p' ∧
        ∀ s ts, scans_from st' p' s ts → scans_from st w (String c s) (ts0 ++ ts).
Proof.
  intros Hr Hc. destruct r as [f|t]; [done|]. unfold emit. simpl.
  destruct (lex_start false c) as [f|[ts1 st1]] eqn:Hstart; [done|]. intros [= <- <-].
  destruct (lex_start_sound _ _ _ _ Hstart) as (p' & Hp' & Hscan).
  exists p'. split; [done|]. intros s ts Hs bol _. destruct (Hr t eq_refl) as [Hw Hfollows].
  by apply scans_token; [| apply Hfollows | apply Hscan].
Qed.

(** A transition that extends what is pending by its character. *)
Lemma extend_sound st st' p p' c :
  pending st' p' → p' = p +:+ String c "" → (∀ bol, admits st bol → admits st' bol) →
  ∃ p', pending st' p' ∧
        ∀ s ts, scans_from st' p' s ts → scans_from st p (String c s) ([] ++ ts).
Proof.
  intros Hp' -> Hbol. exists (p +:+ String c ""). split; [done|].
  intros s ts Hs bol Hst. specialize (Hs bol (Hbol bol Hst)). by_text Hs.
Qed.

(** A transition that completes an item with its character. *)
Lemma complete_sound st p c t bol' :
  (∀ bol s ts, admits st bol → scans bol' s ts →
               scans bol (p +:+ String c s) (t ++ ts)) →
  ∃ p', pending (Start bol') p' ∧
        ∀ s ts, scans_from (Start bol') p' s ts → scans_from st p (String c s) (t ++ ts).
Proof.
  intros Hitem. exists "". split; [constructor|]. intros s ts Hs bol Hst.
  by apply Hitem, (Hs bol').
Qed.

Lemma newline_line_ends c s : is_newline c = true → line_ends (String c s).
Proof. intros Hc. unfold line_ends. simpl. by rewrite Hc. Qed.

Lemma scans_line_end c s ts : is_newline c = true → scans true s ts → scans false (String c s) ts.
Proof. intros ->%bool_decide_eq_true Hs. by apply scans_newline. Qed.

Lemma lex_word_sound w c ts0 st' :
  wordlike w → lex_step (InWord w) c = inr (ts0, st') →
  ∃ p', pending st' p' ∧
        ∀ s ts, scans_from st' p' s ts → scans_from (InWord w) w (String c s) (ts0 ++ ts).
Proof.
  intros Hw. simpl. destruct (is_ident_char c) eqn:Hc.
  - intros [= <- <-]. by eapply extend_sound; [constructor; apply wordlike_extend| |].
  - apply (emit_sound is_ident_char); [by intros t; apply word_token_spells | done].
Qed.

Lemma lex_number_sound ip c ts0 st' :
  digits ip → lex_step (InNumber ip) c = inr (ts0, st') →
  ∃ p', pending st' p' ∧
        ∀ s ts, scans_from st' p' s ts → scans_from (InNumber ip) ip (String c s) (ts0 ++ ts).
Proof.
  intros Hip. simpl. destruct (is_digit_char c) eqn:Hd.
  { intros [= <- <-]. by eapply extend_sound; [constructor; apply digits_extend| |]. }
  case_decide as Hpoint.
  { subst. intros [= <- <-]. by eapply extend_sound; [constructor| |]. }
  destruct (is_letter c) eqn:Hl; [done|].
  apply (emit_sound stops_number); [by intros t; apply number_token_int|].
  unfold stops_number, is_ident_char. by rewrite Hl, Hd, bool_decide_eq_false_2.
Qed.

Lemma lex_fraction_sound ip fp c ts0 st' :
  digits ip → all_chars is_digit_char fp = true →
  lex_step (InFraction ip fp) c = inr (ts0, st') →
  ∃ p', pending st' p' ∧
        ∀ s ts, scans_from st' p' s ts →
                scans_from (InFraction ip fp) (ip +:+ String "." fp) (String c s) (ts0 ++ ts).
Proof.
  intros Hip Hfp. simpl. destruct (is_digit_char c) eqn:Hd.
  { intros [= <- <-].
    eapply extend_sound; [by constructor; [|apply all_chars_extend] | same_text | done]. }
  destruct (is_letter c || bool_decide (c = "."%char)) eqn:Hl; [done|].
  apply (emit_sound stops_number); [by intros t; apply number_token_float|].
  apply orb_false_elim in Hl as [Hl Hp]. unfold stops_number, is_ident_char.
  by rewrite Hl, Hd, Hp.
Qed.

Lemma lex_op_sound (op : punct) c ts0 st' :
  lex_step (InOp op) c = inr (ts0, st') →
  ∃ p', pending st' p' ∧
        ∀ s ts, scans_from st' p' s ts →
                scans_from (InOp op) (punct_text op) (String c s) (ts0 ++ ts).
Proof.
  cbn [lex_step]. case_decide as Hc; [done|].
  eapply emit_sound; [by intros t [= <-]; apply punct_spells|].
  by apply bool_decide_eq_false_2.
Qed.

Lemma lex_comment_sound body c ts0 st' :
  one_line body → lex_step InComment c = inr (ts0, st') →
  ∃ p', pending st' p' ∧
        ∀ s ts, scans_from st' p' s ts →
                scans_from InComment ("//" +:+ body) (String c s) (ts0 ++ ts).
Proof.
  intros Hbody. simpl. destruct (is_newline c) eqn:Hc; intros [= <- <-].
  - apply (complete_sound InComment). intros bol s ts _ Hs.
    rewrite <- str_app_assoc.
    by apply scans_comment; [|apply newline_line_ends|apply scans_line_end].
  - eapply extend_sound; [|same_text|done]. apply (pending_comment (snoc body c)).
    apply all_chars_extend; [done | by rewrite Hc].
Qed.

Lemma lex_directive_sound text c ts0 st' :
  one_line text → lex_step (InDirective text) c = inr (ts0, st') →
  ∃ p', pending st' p' ∧
        ∀ s ts, scans_from st' p' s ts →
                scans_from (InDirective text) (String "#" text) (String c s) (ts0 ++ ts).
Proof.
  intros Htext. simpl. destruct (is_newline c) eqn:Hc.
  - destruct (directive_token text) as [f|t] eqn:Ht; [done|]. intros [= <- <-].
    apply directive_token_sound in Ht as (h & -> & Hh).
    apply (complete_sound (InDirective text)). intros bol s ts -> Hs.
    rewrite str_app_cons.
    by apply scans_directive; [|apply newline_line_ends| |apply scans_line_end].
  - intros [= <- <-]. eapply extend_sound; [|same_text|done].
    constructor. apply all_chars_extend; [done | by rewrite Hc].
Qed.

Lemma lex_char_sound st c ts0 st' p :
  pending st p → st = InChar ∨ st = InCharEsc ∨ (∃ a, st = InCharEnd a) →
  lex_step st c = inr (ts0, st') →
  ∃ p', pending st' p' ∧
        ∀ s ts, scans_from st' p' s ts → scans_from st p (String c s) (ts0 ++ ts).
Proof.
  intros Hp [->|[->|[a ->]]]; inversion Hp as [| | | | | | | | | | |raw a' Hraw| |]; subst; simpl.
  - repeat case_decide; subst; try done.
    { intros [= <- <-]. by eapply extend_sound; [constructor| |]. }
    destruct (is_newline c) eqn:Hc; [done|]. intros [= <- <-].
    by eapply extend_sound; [repeat constructor| |].
  - destruct (unescape c) as [f|c'] eqn:Hc; [done|]. intros [= <- <-].
    eapply extend_sound; [|done..]. by apply (pending_char_end _ c'), written_escape.
  - case_decide; [|done]. subst. intros [= <- <-].
    apply (complete_sound (InCharEnd a)). intros bol s ts _ Hs.
    pose proof (scans_token bol _ _ s ts (lexeme_char raw a Hraw) I Hs) as H. by_text H.
Qed.

Lemma lex_string_sound st c ts0 st' p :
  pending st p → (∃ buf, st = InString buf ∨ st = InStringEsc buf) →
  lex_step st c = inr (ts0, st') →
  ∃ p', pending st' p' ∧
        ∀ s ts, scans_from st' p' s ts → scans_from st p (String c s) (ts0 ++ ts).
Proof.
  intros Hp [buf [->| ->]];
    inversion Hp as [| | | | | | | | | | | |raw buf' Hraw|raw buf' Hraw]; subst; simpl.
  - repeat case_decide; subst; try done.
    { intros [= <- <-]. apply (complete_sound (InString buf)). intros bol s ts _ Hs.
      pose proof (scans_token bol _ _ s ts (lexeme_string raw buf Hraw) I Hs) as H.
      by_text H. }
    { intros [= <- <-]. eapply extend_sound; [by constructor|same_text|done]. }
    destruct (is_newline c) eqn:Hc; [done|]. intros [= <- <-].
    eapply extend_sound; [|same_text|done].
    apply (pending_string (raw +:+ String c "")).
    by apply written_string_extend; [|constructor].
  - destruct (unescape c) as [f|c'] eqn:Hc; [done|]. intros [= <- <-].
    eapply extend_sound; [|same_text|done].
    apply (pending_string (raw +:+ String backslash (String c ""))).
    by apply written_string_extend; [|apply written_escape].
Qed.

(** Every transition extends what is pending or completes an item. *)
Lemma lex_step_sound st c ts0 st' p :
  pending st p → lex_step st c = inr (ts0, st') →
  ∃ p', pending st' p' ∧
        ∀ s ts, scans_from st' p' s ts → scans_from st p (String c s) (ts0 ++ ts).
Proof.
  intros Hp. destruct Hp as [bol|w Hw|ip Hip|ip fp Hip Hfp|op Hop| | |body Hbody|text Htext
                            | | |raw a Hraw|raw buf Hraw|raw buf Hraw].
  - intros (p' & Hp' & Hs)%lex_start_sound. exists p'. split; [done|].
    intros s ts Hscan bol' <-. by apply Hs.
  - by apply lex_word_sound.
  - by apply lex_number_sound.
  - by apply lex_fraction_sound.
  - by apply lex_op_sound.
  - simpl. case_decide; [|done]. subst. intros [= <- <-].
    by eapply extend_sound; [constructor| |].
  - simpl. case_decide; [|done]. subst. intros [= <- <-].
    by eapply extend_sound; [apply (pending_comment "")| |].
  - by apply lex_comment_sound.
  - by apply lex_directive_sound.
  - apply lex_char_sound; [constructor | by left].
  - apply lex_char_sound; [constructor | by right; left].
  - apply lex_char_sound; [by constructor | by right; right; eexists].
  - apply lex_string_sound; [by constructor | by eexists; left].
  - apply lex_string_sound; [by constructor | by eexists; right].
Qed.

(** At the end of the text what is pending is a complete item. *)
Lemma lex_end_sound st p ts :
  pending st p → lex_end st = inr ts → scans_from st p "" ts.
Proof.
  intros [bol|w Hw|ip Hip|ip fp Hip Hfp|op Hop| | |body Hbody|text Htext
         | | |raw a Hraw|raw buf Hraw|raw buf Hraw]; cbn [lex_end]; try done.
  - intros [= <-] bol' _. constructor.
  - destruct (word_token w) as [f|t] eqn:Ht; [done|]. intros [= <-] bol _.
    destruct (word_token_spells w t Hw Ht) as [Hlex _].
    by apply scans_token; [|apply follows_end|constructor].
  - destruct (number_token ip None) as [f|t] eqn:Ht; [done|]. intros [= <-] bol _.
    destruct (number_token_int ip t Hip Ht) as [Hlex _].
    by apply scans_token; [|apply follows_end|constructor].
  - destruct (number_token ip (Some fp)) as [f|t] eqn:Ht; [done|]. intros [= <-] bol _.
    destruct (number_token_float ip fp t Hip Hfp Ht) as [Hlex _].
    by apply scans_token; [|apply follows_end|constructor].
  - intros [= <-] bol _. by apply scans_token; [constructor|apply follows_end|constructor].
  - intros [= <-] bol _. rewrite <- str_app_assoc. by apply scans_comment; [| |constructor].
  - destruct (directive_token text) as [f|t] eqn:Ht; [done|]. intros [= <-] bol ->.
    apply directive_token_sound in Ht as (h & -> & Hh). rewrite str_app_cons.
    by apply scans_directive; [| | |constructor].
Qed.
End Transitions.

(** ** The run *)

Lemma lex_go_sound (s : string) (st : lex_state) (p : string) (line : nat) (ts : list token) :
  pending st p → lex_go s st line = inr ts → scans_from st p s ts.
Proof.
  revert st p line ts. induction s as [|c s IH]; intros st p line ts Hp; simpl.
  - destruct (lex_end st) as [f|ts'] eqn:Hend; [done|]. intros [= <-].
    by apply lex_end_sound.
  - destruct (lex_step st c) as [f|[ts0 st']] eqn:Hstep; [done|]. simpl.
    destruct (lex_go s st' _) as [e|ts'] eqn:Hgo; [done|]. intros [= <-].
    destruct (lex_step_sound st c ts0 st' p Hp Hstep) as (p' & Hp' & Hs).
    by eapply Hs, IH.
Qed.

(** The lexer is sound: the text that it reads as [ts] is made of [ts]. *)
Lemma lex_sound (text : string) (ts : list token) : lex text = inr ts → scans true text ts.
Proof. intros Hts. by apply (lex_go_sound text (Start true) "" 1 ts (pending_start true)). Qed.

(** ** The lexer and the grammar *)

(** C13: the lexer of the front end implements the lexical grammar of the
    fragment.  It returns the tokens [ts] for a text exactly when the text
    is made of [ts] in the grammar: line breaks, blanks, comments to the
    end of the line, [#include] directives first on their line, and the
    spellings of tokens, each as long as it can be and followed by nothing
    that would make it a token outside the fragment.  A text is made of no
    other list of tokens. *)
Theorem lex_grammar (text : string) (ts : list token) :
  (lex text = inr ts ↔ scans true text ts) ∧
  (scans true text ts → ∀ ts', scans true text ts' → ts' = ts).
Proof.
  split; [split; [apply lex_sound | apply lex_scans]|].
  intros Hts ts' Hts'. apply lex_scans in Hts, Hts'. congruence.
Qed.

Lemma lex_source_text : lex source_text = inr source_tokens.
Proof. by vm_compute. Qed.

(** The 1227 characters of the file are made of its 154 tokens, and of no
    others. *)
Lemma lex_grammar_witness :
  scans true source_text source_tokens ∧
  (∀ ts', scans true source_text ts' → ts' = source_tokens).
Proof.
  pose proof (lex_grammar source_text source_tokens) as [[Hscans _] Hunique].
  specialize (Hscans lex_source_text). split; [done | by apply Hunique].
Defined.
