(* ===== verification/LexerInvariant.v ===== *)
(** * What the lexer returns can be written

    An invariant of the state machine ([wf_lex_state]): the word that the
    lexer is reading starts with a letter and goes on with letters and
    digits, and the directive that it is reading has no line break.  Every
    transition keeps it, and the tokens that a transition completes from a
    state that satisfies it can be written ([lex_step_wf], [lex_end_wf]).
    So the tokens of every text that the lexer accepts can be written
    ([lex_wf]): names are identifiers that are not keywords, integers are
    not negative, the name of a header is not empty. *)

From S2P Require Import Prelude Decimal Syntax Lexer Printer.

(** ** The invariant *)

Definition no_newline (c : ascii) : bool := negb (is_newline c).

Definition wf_lex_state (st : lex_state) : bool :=
  match st with
  | InWord (String c w) => is_letter c && all_chars is_ident_char w
  | InWord EmptyString => false
  | InDirective text => all_chars no_newline text
  | _ => true
  end.

(** A transition, or the end of the text, whose tokens can be written and
    whose next state satisfies the invariant. *)
Definition wf_step (r : lex_fault + (list token * lex_state)) : Prop :=
  match r with
  | inl _ => True
  | inr (ts, st) => forallb wf_token ts = true ∧ wf_lex_state st = true
  end.

Definition wf_lexed {E} (r : E + list token) : Prop :=
  match r with
  | inl _ => True
  | inr ts => forallb wf_token ts = true
  end.

Definition wf_result (r : lex_fault + token) : Prop :=
  match r with
  | inl _ => True
  | inr t => wf_token t = true
  end.

#[local] Hint Extern 0 (wf_step (inl _)) => exact I : core.
#[local] Hint Extern 0 (wf_lexed (inl _)) => exact I : core.
#[local] Hint Extern 0 (wf_result (inl _)) => exact I : core.

(** ** Characters of a text *)

Section Chars.
Context (P : ascii → bool).

Lemma all_chars_snoc (s : string) (c : ascii) :
  all_chars P (snoc s c) = all_chars P s && P c.
Proof.
  unfold snoc. induction s as [|a s IH]; simpl; [by rewrite andb_true_r|].
  by rewrite IH, andb_assoc.
Qed.

Lemma all_chars_skip_blanks (s : string) :
  all_chars P s = true → all_chars P (skip_blanks s) = true.
Proof.
  induction s as [|c s IH]; simpl; [done|]. intros [Hc Hs]%andb_prop.
  destruct (is_blank c); [by apply IH | simpl; by rewrite Hc, Hs].
Qed.

Lemma all_chars_strip_prefix (p s rest : string) :
  strip_prefix p s = Some rest → all_chars P s = true → all_chars P rest = true.
Proof.
  revert s. induction p as [|a p IH]; intros [|b s]; simpl; try done.
  - by intros [= <-].
  - by intros [= <-].
  - case_decide; [|done]. intros Hp [_ Hs]%andb_prop. by eapply IH.
Qed.

Lemma all_chars_split_at (c : ascii) (s h rest : string) :
  split_at c s = Some (h, rest) → all_chars P s = true →
  all_chars P h = true ∧ all_chars P rest = true
  ∧ all_chars (λ a, bool_decide (a ≠ c)) h = true.
Proof.
  revert h. induction s as [|a s IH]; intros h; simpl; [done|].
  case_decide as Ha.
  - intros [= <- <-] [_ Hs]%andb_prop. done.
  - destruct (split_at c s) as [[h' t]|]; [|done]. simpl.
    intros [= <- <-] [Hc Hs]%andb_prop.
    destruct (IH h' eq_refl Hs) as (Hh & Ht & Hne). simpl.
    by rewrite Hc, Hh, Ht, Hne, bool_decide_eq_true_2.
Qed.
End Chars.

Lemma all_chars_and (P Q : ascii → bool) (s : string) :
  all_chars P s = true → all_chars Q s = true →
  all_chars (λ c, P c && Q c) s = true.
Proof.
  induction s as [|c s IH]; simpl; [done|].
  intros [-> HP]%andb_prop [-> HQ]%andb_prop. by rewrite IH.
Qed.

(** ** The tokens that are completed *)

Lemma word_token_wf (w : string) :
  wf_lex_state (InWord w) = true → wf_result (word_token w).
Proof.
  intros Hw. destruct (word_token w) as [f|t] eqn:Ht; [done|]. simpl.
  assert (t = TIdent w → wf_token t = true) as Hid.
  { intros ->. destruct w as [|c w]; [done|]. simpl in *.
    by rewrite Hw, bool_decide_eq_true_2. }
  unfold word_token in Ht. destruct (keyword_of w); [by injection Ht as <-|].
  repeat case_decide; try done; try by injection Ht as <-.
  injection Ht as <-. by apply Hid.
Qed.

Lemma parse_go_nonneg (s : string) (acc v : Z) :
  parse_go s acc = Some v → 0 ≤ acc → 0 ≤ v.
Proof.
  revert acc. induction s as [|c s IH]; intros acc; simpl; [by intros [= <-]|].
  unfold digit_of. case_decide; [|done]. simpl. intros Hv Hacc.
  apply (IH _ Hv). lia.
Qed.

Lemma number_token_wf (ip : string) (fp : option string) : wf_result (number_token ip fp).
Proof.
  unfold number_token. destruct fp as [fp|].
  - by destruct (parse_go _ _) as [[]|].
  - destruct (leading_zero ip); [done|].
    destruct (parse_go ip 0) as [v|] eqn:Hv; [|done]. simpl.
    apply bool_decide_eq_true. by eapply parse_go_nonneg.
Qed.

Lemma directive_token_wf (text : string) :
  wf_lex_state (InDirective text) = true → wf_result (directive_token text).
Proof.
  simpl. intros Htext. unfold directive_token.
  destruct (strip_prefix "include" (skip_blanks text)) as [r1|] eqn:H1;
    cbn [mbind option_bind]; [|done].
  destruct (strip_prefix "<" (skip_blanks r1)) as [r2|] eqn:H2;
    cbn [mbind option_bind]; [|done].
  destruct (split_at ">" r2) as [[h r3]|] eqn:H3; cbn [mbind option_bind]; [|done].
  case_decide as Hh; [|done]. simpl. unfold wf_header.
  rewrite bool_decide_eq_true_2 by tauto. simpl.
  apply all_chars_skip_blanks, (all_chars_strip_prefix _ _ _ _ H1) in Htext.
  apply all_chars_skip_blanks, (all_chars_strip_prefix _ _ _ _ H2) in Htext.
  destruct (all_chars_split_at _ _ _ _ _ H3 Htext) as (Hline & _ & Hgt).
  by apply all_chars_and.
Qed.

(** ** The transitions *)

Lemma lex_start_wf (bol : bool) (c : ascii) : wf_step (lex_start bol c).
Proof.
  unfold lex_start.
  destruct (is_newline c); [done|]. destruct (is_blank c); [done|].
  destruct (is_letter c) eqn:Hc; [by simpl; rewrite Hc|].
  destruct (is_digit_char c); [done|].
  repeat case_decide; try done; [by destruct bol|].
  by destruct (operator_of c), (separator_of c).
Qed.

Lemma emit_wf (r : lex_fault + token) (c : ascii) : wf_result r → wf_step (emit r c).
Proof.
  destruct r as [f|t]; [done|]. simpl. intros Ht. pose proof (lex_start_wf false c) as Hc.
  destruct (lex_start false c) as [f|[ts st]]; [done|]. simpl in *. by rewrite Ht.
Qed.

Lemma wordlike_snoc (w : string) (c : ascii) :
  wf_lex_state (InWord w) = true → is_ident_char c = true →
  wf_lex_state (InWord (snoc w c)) = true.
Proof.
  destruct w as [|a w]; [done|]. simpl. intros [-> Hw]%andb_prop Hc.
  change (all_chars is_ident_char (snoc w c) = true).
  by rewrite all_chars_snoc, Hw, Hc.
Qed.

(** Every transition from a state that satisfies the invariant completes
    tokens that can be written and leads to a state that satisfies it. *)
Lemma lex_step_wf (st : lex_state) (c : ascii) :
  wf_lex_state st = true → wf_step (lex_step st c).
Proof.
  intros Hst. destruct st; cbn [lex_step].
  - apply lex_start_wf.
  - destruct (is_ident_char c) eqn:Hc; [by split; [|apply wordlike_snoc]|].
    by apply emit_wf, word_token_wf.
  - destruct (is_digit_char c); [done|]. case_decide; [done|].
    destruct (is_letter c); [done|]. apply emit_wf, number_token_wf.
  - destruct (is_digit_char c); [done|]. destruct (_ || _); [done|].
    apply emit_wf, number_token_wf.
  - case_decide; [done|]. by apply emit_wf.
  - by case_decide.
  - by case_decide.
  - by destruct (is_newline c).
  - destruct (is_newline c) eqn:Hc.
    + pose proof (directive_token_wf text Hst) as Ht.
      destruct (directive_token text); [done|]. simpl in *. by rewrite Ht.
    + split; [done|]. simpl in *. rewrite all_chars_snoc, Hst. unfold no_newline.
      by rewrite Hc.
  - repeat case_decide; try done. by destruct (is_newline c).
  - by destruct (unescape c).
  - by case_decide.
  - repeat case_decide; try done. by destruct (is_newline c).
  - by destruct (unescape c).
Qed.

Lemma lex_end_wf (st : lex_state) : wf_lex_state st = true → wf_lexed (lex_end st).
Proof.
  intros Hst. destruct st; cbn [lex_end]; try done.
  - pose proof (word_token_wf w Hst) as Ht.
    destruct (word_token w); [done|]. simpl in *. by rewrite Ht.
  - pose proof (number_token_wf ip None) as Ht.
    destruct (number_token ip None); [done|]. simpl in *. by rewrite Ht.
  - pose proof (number_token_wf ip (Some fp)) as Ht.
    destruct (number_token ip (Some fp)); [done|]. simpl in *. by rewrite Ht.
  - pose proof (directive_token_wf text Hst) as Ht.
    destruct (directive_token text); [done|]. simpl in *. by rewrite Ht.
Qed.

(** ** The run *)

Lemma lex_go_wf (s : string) (st : lex_state) (line : nat) :
  wf_lex_state st = true → wf_lexed (lex_go s st line).
Proof.
  revert st line. induction s as [|c s IH]; intros st line Hst; simpl.
  - pose proof (lex_end_wf st Hst). by destruct (lex_end st).
  - pose proof (lex_step_wf st c Hst) as Hstep.
    destruct (lex_step st c) as [f|[ts st']]; [done|]. destruct Hstep as [Hts Hst'].
    simpl. specialize (IH st' (next_line c line) Hst').
    destruct (lex_go s st' _) as [e|ts']; [done|]. simpl in *.
    by rewrite forallb_app, Hts, IH.
Qed.

(** The tokens of a text that the lexer accepts can be written. *)
Lemma lex_wf (text : string) (ts : list token) :
  lex text = inr ts → forallb wf_token ts = true.
Proof.
  intros Hts. pose proof (lex_go_wf text (Start true) 1 eq_refl) as H.
  unfold lex in Hts. by rewrite Hts in H.
Qed.
