(* ===== verification/ParserProofs.v ===== *)
(** * The parser is complete

    The parser reads every phrase of the grammar of [Grammar] as the tree
    that it is a phrase of ([parse_unit_phrase]), with the number of tokens
    as fuel; so it reads the tokens that the printer writes for a tree
    back as the tree ([parse_unit_tokens]).

    Expressions take most of the work.  A parser [reads] the tokens [T] as
    [e] if, whatever follows [T] (within what can follow an expression of
    that level), it returns [e] and what follows.  The loop of a
    left-associative operator [extends]: reading [T] and entering the loop
    is the same as entering the loop with [e] already read.  A phrase of a
    level is read in the places of that level ([expr_at_read]), by
    induction on its derivation. *)

From S2P Require Import Prelude Syntax Lexer Parser Printer Grammar.

(** ** What can follow *)

(** The punctuator at the head of [R] is not [p]. *)
Definition not_next (p : punct) (R : list token) : Prop := head R ≠ Some (TPunct p).

(** What can follow a product, a sum, an expression. *)
Definition after_mul (R : list token) : Prop := not_next PStar R.
Definition after_add (R : list token) : Prop := after_mul R ∧ not_next PPlus R.
Definition after_expr (R : list token) : Prop := after_add R ∧ not_next PAssign R.

Lemma after_expr_punct (p : punct) (R : list token) :
  p ≠ PStar → p ≠ PPlus → p ≠ PAssign → after_expr (TPunct p :: R).
Proof. intros. unfold after_expr, after_add, after_mul, not_next. simpl. naive_solver. Qed.

(** The number of tokens of a list that is put together from others. *)
Ltac lengths :=
  repeat (rewrite length_app in * || rewrite length_cons in * ); simpl in *; lia.

(** Lists put together from others, as one list with a tail. *)
Ltac flatten :=
  repeat (rewrite <- app_assoc in * || rewrite <- app_comm_cons in * ); cbn [app] in *.

(** ** Reading with a tail *)

Section Reading.
Context (N : nat).

(** [parser] reads [T] as [e] when [R], which satisfies [ok], follows, and
    [d] is fuel enough for the tokens. *)
Definition reads {A} (parser : list token → parsed A) (ok : list token → Prop)
    (d : nat) (T : list token) (a : A) : Prop :=
  ∀ R, ok R → (length (T ++ R) ≤ d)%nat → parser (T ++ R) = inr (a, R).

Lemma expect_head (t : token) (R : list token) : expect t (t :: R) = inr R.
Proof. simpl. by rewrite decide_True. Qed.

(** *** Left-associative operators *)

Section Binary.
Context (p : punct) (op : binop) (next : list token → parsed expr).
Context (ok : list token → Prop) (d : nat).

(** Reading [T] and then the operands that follow is reading the operands
    that follow [e]. *)
Definition extends (T : list token) (e : expr) : Prop :=
  ∀ R n, ok R → (length (T ++ R) ≤ d)%nat → (length (T ++ R) ≤ n)%nat →
    ∃ n', (length R ≤ n')%nat ∧
      (next (T ++ R) ≫= λ '(a, ts), binary_rest p op next n a ts)
      = binary_rest p op next n' e R.

Lemma binary_rest_stop n e R : not_next p R → binary_rest p op next n e R = inr (e, R).
Proof.
  unfold not_next.
  destruct R as [|[| | | |p'] R], n; cbn [binary_rest head]; try done;
    intros Hp; case_decide; congruence.
Qed.

Lemma reads_extends T e : reads next ok d T e → extends T e.
Proof.
  intros Hnext R n HR Hd Hn. exists n. rewrite Hnext by done. split; [|done].
  rewrite length_app in Hn. lia.
Qed.

Lemma extends_operand Ta a Tb b :
  (∀ R, ok (TPunct p :: R)) →
  extends Ta a → reads next ok d Tb b → extends (Ta ++ TPunct p :: Tb) (EBin op a b).
Proof.
  intros Hok Ha Hb R n HR Hd Hn. rewrite <- app_assoc, <- app_comm_cons in *.
  destruct (Ha (TPunct p :: Tb ++ R) n) as (n1 & Hn1 & ->); [done..|].
  rewrite !length_app in *. simpl in *. rewrite length_app in *.
  destruct n1 as [|n2]; [lia|]. exists n2. split; [lia|].
  cbn [binary_rest]. rewrite decide_True by done.
  by rewrite Hb by (done || rewrite length_app; lia).
Qed.

Lemma extends_reads T e :
  (d ≤ N)%nat →
  extends T e → reads (binary N p op next) (λ R, ok R ∧ not_next p R) d T e.
Proof.
  intros fuel HT R [HR Hp] Hd. unfold binary.
  destruct (HT R N HR Hd ltac:(lia)) as (n' & _ & ->). by apply binary_rest_stop.
Qed.
End Binary.

(** *** The levels *)

Section Levels.
Context (d : nat).
Hypothesis fuel : (d ≤ N)%nat.

Let inner := parse_expr N d.

(** The tokens [T] do not start as an assignment does. *)
Definition no_assignment (T : list token) : Prop :=
  match T with
  | [] | TIdent _ :: TPunct PAssign :: _ => False
  | _ => True
  end.

Lemma parse_assign_sum T R :
  no_assignment T → not_next PAssign R →
  parse_assign N inner (T ++ R) = parse_add N inner (T ++ R).
Proof.
  unfold not_next. destruct T as [|[] [|[| | | |[]] T]]; try done.
  destruct R as [|[| | | |[]] R]; done.
Qed.

(** What is read as a primary expression is read as a product; what
    extends a product is read as a sum, if it does not start as an
    assignment. *)
Lemma primary_mul T e :
  reads (parse_primary inner) (λ _, True) d T e →
  extends PStar Mul (parse_primary inner) (λ _, True) d T e.
Proof. exact (reads_extends _ _ _ _ _ T e). Qed.

Lemma mul_reads T e :
  extends PStar Mul (parse_primary inner) (λ _, True) d T e →
  reads (parse_mul N inner) after_mul d T e.
Proof.
  intros HT R HR Hd.
  by apply (extends_reads PStar Mul (parse_primary inner) (λ _, True) d T e ltac:(lia)).
Qed.

Lemma mul_add T e :
  extends PStar Mul (parse_primary inner) (λ _, True) d T e →
  extends PPlus Add (parse_mul N inner) after_mul d T e.
Proof. intros HT. by apply reads_extends, mul_reads. Qed.

Lemma add_assign T e :
  extends PPlus Add (parse_mul N inner) after_mul d T e → no_assignment T →
  reads (parse_assign N inner) after_expr d T e.
Proof.
  intros HT HA R [[Hmul Hadd] Hassign] Hd. rewrite parse_assign_sum by done.
  by apply (extends_reads PPlus Add (parse_mul N inner) after_mul d T e ltac:(lia)).
Qed.

(** An expression in parentheses is a primary expression, one level of
    parentheses deeper. *)
Lemma assign_primary T e :
  reads (parse_assign N inner) after_expr d T e →
  reads (parse_primary (parse_expr N (S d))) (λ _, True) (S d)
    (TPunct PLParen :: T ++ [TPunct PRParen]) e.
Proof.
  intros HT R _ Hd. rewrite <- app_comm_cons, <- app_assoc. simpl in *.
  rewrite !length_app in *. simpl in *. fold inner.
  rewrite HT; [| by apply after_expr_punct | rewrite length_app; simpl; lia].
  unfold mbind, sum_bind. by rewrite expect_head.
Qed.

(** What it is to read [T] as [e] in a place of [level]. *)
Definition read_at (level : nat) (T : list token) (e : expr) : Prop :=
  match level with
  | O => reads (parse_assign N inner) after_expr d T e
  | S O => extends PPlus Add (parse_mul N inner) after_mul d T e
  | S (S O) => extends PStar Mul (parse_primary inner) (λ _, True) d T e
  | _ => reads (parse_primary inner) (λ _, True) d T e
  end.

(** What is read in a place is read in every place that binds less
    tightly. *)
Lemma read_at_weaken (l k : nat) T e :
  (k ≤ l ∨ 3 ≤ l)%nat → (k = 0%nat → l ≠ 0%nat → no_assignment T) →
  read_at l T e → read_at k T e.
Proof.
  intros Hk HT.
  destruct l as [|[|[|l]]], k as [|[|[|k]]]; simpl; try lia; try done;
    eauto using primary_mul, mul_add, add_assign.
Qed.
End Levels.

(** ** Expressions *)

Lemma no_assignment_app (A B : list token) (p : punct) :
  no_assignment A → p ≠ PAssign → no_assignment (A ++ TPunct p :: B).
Proof. destruct A as [|[] [|[| | | |[]] A]], p; done. Qed.

(** A sum does not start as an assignment does. *)
Lemma expr_at_no_assignment (k : nat) (ts : list token) (e : expr) :
  expr_at k ts e → (1 ≤ k)%nat → no_assignment ts.
Proof.
  induction 1 as [| | |op ta a tb b Ha IHa Hb IHb| |k ts e He IH]; intros Hk;
    try done; [|lia|apply IH; lia].
  apply no_assignment_app; [apply IHa|]; destruct op; simpl; (done || lia).
Qed.

(** A phrase of a level is read in the places of that level, at every
    depth of parentheses that the tokens allow. *)
Lemma expr_at_read (k : nat) (ts : list token) (e : expr) :
  expr_at k ts e → ∀ d, (d ≤ N)%nat → read_at d k ts e.
Proof.
  induction 1 as [l|x|ts e He IH|op ta a tb b Ha IHa Hb IHb|x ts e He IH|k ts e He IH];
    intros d Hd.
  - by intros R _ _.
  - by intros R _ _.
  - destruct d as [|d]; [intros R _ HR; simpl in HR; lia|].
    apply assign_primary; [lia|]. apply IH. lia.
  - destruct op; simpl in *.
    + apply extends_operand; [done | by apply IHa |]. apply mul_reads; [done|]. by apply IHb.
    + apply extends_operand; [done | by apply IHa | by apply IHb].
  - intros R HR HRd. simpl in *. by rewrite (IH d Hd R HR ltac:(lia)).
  - apply (read_at_weaken d Hd (S k) k); [lia | | by apply IH].
    intros -> _. by eapply (expr_at_no_assignment 1).
Qed.

Lemma expression_reads (ts : list token) (e : expr) :
  expr_at 0 ts e → reads (expression N) after_expr N ts e.
Proof. intros He. by apply (expr_at_read 0 ts e He N). Qed.

Lemma operand_reads (ts : list token) (e : expr) :
  expr_at 1 ts e → reads (operand N) after_add N ts e.
Proof.
  intros He R [Hmul Hadd] HR.
  by apply (extends_reads PPlus Add (parse_mul N (parse_expr N N)) after_mul N
              ts e ltac:(lia) (expr_at_read 1 ts e He N ltac:(lia))).
Qed.

(** An expression starts with a literal, a parenthesis, or a name that an
    operator of expressions follows: as no declaration and no insertion
    does. *)
Definition expr_start (ts : list token) : Prop :=
  match ts with
  | TLit _ :: _ | TPunct PLParen :: _ => True
  | TIdent _ :: TPunct p :: _ => p ≠ PShl
  | _ => False
  end.

Lemma expr_at_start (k : nat) (ts : list token) (e : expr) (p : punct) (R : list token) :
  expr_at k ts e → p ≠ PShl → expr_start (ts ++ TPunct p :: R).
Proof.
  intros He. revert p R.
  induction He as [| | |op ta a tb b Ha IHa Hb IHb| |k ts e He IH]; intros p R Hp;
    try done; [|by apply IH].
  rewrite <- app_assoc, <- app_comm_cons. apply IHa. by destruct op.
Qed.

(** ** Statements *)

Lemma type_reads (tt : list token) (t : tyname) (R : list token) :
  type_g tt t → parse_type (tt ++ R) = inr (t, R).
Proof. destruct 1 as [k t Hk|n]; simpl; [by rewrite Hk | done]. Qed.

Lemma declarator_reads (T : list token) (d : declarator) :
  declarator_g T d → reads (parse_declarator N) after_expr N T d.
Proof.
  destruct 1 as [x|x ts e He]; intros R HR Hlen; simpl in *.
  - destruct HR as [_ HR]. unfold not_next in HR. by destruct R as [|[| | | |[]] R].
  - by rewrite (expression_reads ts e He R HR ltac:(lia)).
Qed.

Lemma declarators_read (T : list token) (ds : list declarator) (n : nat) (R : list token) :
  declarators_g T ds → after_expr R → not_next PComma R →
  (length (T ++ R) ≤ N)%nat → (length (T ++ R) ≤ n)%nat →
  parse_declarators N n (T ++ R) = inr (ds, R).
Proof.
  intros Hds HR Hcomma. revert n.
  induction Hds as [ts d Hd|ts d ts' ds Hd Hds IH]; intros n HN Hn;
    destruct n as [|n]; cbn [parse_declarators].
  1,2: rewrite (declarator_reads ts d Hd R HR HN); unfold not_next in Hcomma;
    by destruct R as [|[| | | |[]] R].
  - lengths.
  - flatten. rewrite (declarator_reads ts d Hd) by (by apply after_expr_punct || lengths).
    simpl. by rewrite IH by lengths.
Qed.

Lemma operands_after_add (T : list token) (es : list expr) (R : list token) :
  operands_g T es → after_add R → after_add (T ++ R).
Proof. by destruct 1. Qed.

Lemma operands_read (T : list token) (es : list expr) (n : nat) (R : list token) :
  operands_g T es → after_add R → not_next PShl R →
  (length (T ++ R) ≤ N)%nat → (length (T ++ R) ≤ n)%nat →
  parse_operands N n (T ++ R) = inr (es, R).
Proof.
  intros Hes HR Hshl. revert n.
  induction Hes as [|ts e ts' es He Hes IH]; intros n HN Hn.
  - unfold not_next in Hshl. by destruct n, R as [|[| | | |[]] R].
  - flatten. destruct n as [|n]; [lengths|]. cbn [parse_operands].
    rewrite (operand_reads ts e He) by (by eapply operands_after_add || lengths).
    simpl. by rewrite IH by lengths.
Qed.

Lemma parse_decl_reads (c : bool) (tt tds : list token) (t : tyname)
    (ds : list declarator) (R : list token) :
  type_g tt t → declarators_g tds ds →
  (length (tt ++ tds ++ TPunct PSemi :: R) ≤ N)%nat →
  parse_decl N c (tt ++ tds ++ TPunct PSemi :: R) = inr (SDecl c t ds, R).
Proof.
  intros Ht Hds HN. unfold parse_decl. rewrite (type_reads tt t _ Ht). simpl.
  rewrite (declarators_read tds ds N _ Hds);
    [| by apply after_expr_punct | done | lengths..].
  unfold mbind, sum_bind. by rewrite expect_head.
Qed.

Lemma parse_stmt_expression (ts : list token) :
  expr_start ts →
  parse_stmt N ts
  = '(e, ts1) ← expression N ts; ts2 ← expect (TPunct PSemi) ts1; inr (SExpr e, ts2).
Proof. by destruct ts as [|[] [|[| | | |[]] ts]]. Qed.

Lemma parse_stmt_insert (x : string) (T : list token) (es : list expr) (R : list token) :
  operands_g T es → es ≠ [] →
  parse_stmt N (TIdent x :: T ++ R)
  = '(es, ts1) ← parse_operands N N (T ++ R);
    ts2 ← expect (TPunct PSemi) ts1; inr (SInsert x es, ts2).
Proof. by destruct 1. Qed.

Lemma parse_stmt_decl (tt tds : list token) (t : tyname) (ds : list declarator)
    (R : list token) :
  type_g tt t → declarators_g tds ds →
  parse_stmt N (tt ++ tds ++ R) = parse_decl N false (tt ++ tds ++ R).
Proof.
  destruct 1 as [[] t Hk|n]; try done.
  by destruct 1 as [? ? []|? ? ? ? []].
Qed.

Lemma stmt_reads (T : list token) (s : stmt) (R : list token) :
  stmt_g T s → (length (T ++ R) ≤ N)%nat → parse_stmt N (T ++ R) = inr (s, R).
Proof.
  destruct 1 as [c tt t tds ds Ht Hds|ts e He|x ts es Hes Hne|ts e He]; intros HN; flatten.
  - destruct c; cbn [app parse_stmt] in *.
    + apply parse_decl_reads; [done..|lengths].
    + rewrite (parse_stmt_decl tt tds t ds) by done. by apply parse_decl_reads.
  - rewrite parse_stmt_expression by (by eapply expr_at_start).
    rewrite (expression_reads ts e He) by (by apply after_expr_punct || done).
    unfold mbind, sum_bind. by rewrite expect_head.
  - rewrite (parse_stmt_insert x ts es) by done.
    rewrite (operands_read ts es N (TPunct PSemi :: R));
      [| done | by apply after_expr_punct | done | lengths..].
    unfold mbind, sum_bind. by rewrite expect_head.
  - unfold parse_stmt.
    rewrite (expression_reads ts e He) by (by apply after_expr_punct || lengths).
    unfold mbind, sum_bind. by rewrite expect_head.
Qed.

(** ** Blocks and functions *)

Lemma stmt_g_length (T : list token) (s : stmt) : stmt_g T s → (1 ≤ length T)%nat.
Proof. destruct 1; lengths. Qed.

(** Where a statement is read, the block has not ended. *)
Lemma parse_block_step (n : nat) (ts : list token) (r : stmt * list token) :
  parse_stmt N ts = inr r →
  parse_block N (S n) ts
  = '(s, ts1) ← parse_stmt N ts; '(ss, ts2) ← parse_block N n ts1; inr (s :: ss, ts2).
Proof. by destruct ts as [|[| | | |[]] ts]. Qed.

Lemma block_reads (T : list token) (ss : list stmt) (n : nat) (R : list token) :
  stmts_g T ss →
  (length (T ++ TPunct PRBrace :: R) ≤ N)%nat →
  (length (T ++ TPunct PRBrace :: R) ≤ n)%nat →
  parse_block N n (T ++ TPunct PRBrace :: R) = inr (ss, R).
Proof.
  intros Hss. revert n. induction Hss as [|ts s ts' ss Hs Hss IH]; intros n HN Hn.
  - by destruct n.
  - flatten. pose proof (stmt_g_length ts s Hs).
    destruct n as [|n]; [lengths|].
    rewrite (parse_block_step n _ _ (stmt_reads ts s _ Hs HN)), (stmt_reads ts s _ Hs HN).
    simpl. by rewrite IH by lengths.
Qed.

Lemma function_reads (T : list token) (f : function) (R : list token) :
  function_g T f → (length (T ++ R) ≤ N)%nat → parse_function N (T ++ R) = inr (f, R).
Proof.
  destruct 1 as [tt t x ts b Ht Hb]. unfold parse_function. intros HN. flatten.
  rewrite (type_reads tt t _ Ht). simpl.
  by rewrite (block_reads ts b) by (done || lengths).
Qed.
End Reading.

(** ** Translation units *)

Lemma parse_includes_tokens (hs : list string) (ts : list token) :
  (∀ h, head ts ≠ Some (TInclude h)) →
  parse_includes ((TInclude <$> hs) ++ ts) = (hs, ts).
Proof.
  intros Hts. induction hs as [|h hs IH].
  - destruct ts as [|[] ts]; naive_solver.
  - rewrite fmap_cons, <- app_comm_cons. cbn [parse_includes]. by rewrite IH.
Qed.

Lemma parse_usings_tokens (us : list string) (ts : list token) :
  head ts ≠ Some (TKeyword KUsing) →
  parse_usings ((us ≫= using_tokens) ++ ts) = (us, ts).
Proof.
  intros Hts. induction us as [|u us IH].
  - by destruct ts as [|[|[]| | |] ts].
  - rewrite bind_cons. unfold using_tokens at 1. flatten.
    cbn [parse_usings]. by rewrite IH.
Qed.

(** A function starts with its type. *)
Lemma function_g_start (T : list token) (f : function) :
  function_g T f →
  ∃ t ts, T = t :: ts ∧ (∀ h, t ≠ TInclude h) ∧ t ≠ TKeyword KUsing.
Proof.
  destruct 1 as [tt t x ts b [[] t' Hk|n] Hb]; try done; by eexists _, _.
Qed.

(** The parser reads a phrase as its tree, and rejects what follows it. *)
Lemma parse_unit_reads (T : list token) (tu : translation_unit) (R : list token) :
  unit_g T tu →
  parse_unit (T ++ R) = match R with [] => inr tu | _ => unexpected R end.
Proof.
  destruct 1 as [hs us ts f Hf]. unfold parse_unit.
  remember (length (((TInclude <$> hs) ++ (us ≫= using_tokens) ++ ts) ++ R)) as N eqn:HN.
  flatten. destruct (function_g_start ts f Hf) as (t & ts' & Hts & Hinc & Huse).
  rewrite parse_includes_tokens
    by (intros h; destruct us; [rewrite Hts; simpl; congruence | done]).
  rewrite parse_usings_tokens by (rewrite Hts; simpl; congruence).
  rewrite (function_reads N ts f) by (done || lengths). done.
Qed.

(** The parser is complete: it reads every phrase of the grammar as its
    tree. *)
Lemma parse_unit_phrase (ts : list token) (tu : translation_unit) :
  unit_g ts tu → parse_unit ts = inr tu.
Proof. intros Hg. by rewrite <- (app_nil_r ts), (parse_unit_reads ts tu). Qed.

(** A token after the function is the error. *)
Lemma parse_unit_trailing (T : list token) (tu : translation_unit) (t : token)
    (ts : list token) :
  unit_g T tu → parse_unit (T ++ t :: ts) = inl (Unexpected (Some t)).
Proof. intros Hg. by rewrite (parse_unit_reads T tu). Qed.

(** ** What the printer writes *)

Lemma parse_unit_complete (tu : translation_unit) :
  Forall complete (fn_body (unit_main tu)) → parse_unit (unit_tokens tu) = inr tu.
Proof. intros Hb. by apply parse_unit_phrase, unit_tokens_g. Qed.

Lemma wf_stmt_complete (s : stmt) : wf_stmt s = true → complete s.
Proof.
  destruct s; simpl; try done; rewrite !andb_true_iff, bool_decide_eq_true;
    by intros [[_ ?] _].
Qed.

Lemma wf_unit_complete (tu : translation_unit) :
  wf_unit tu = true → Forall complete (fn_body (unit_main tu)).
Proof.
  unfold wf_unit, wf_function. rewrite !andb_true_iff, Forall_forall.
  intros (_ & _ & Hb) s Hs. rewrite forallb_forall in Hb.
  apply wf_stmt_complete, Hb, Hs.
Qed.

Theorem parse_unit_tokens (tu : translation_unit) :
  wf_unit tu = true → parse_unit (unit_tokens tu) = inr tu.
Proof. intros Htu. by apply parse_unit_complete, wf_unit_complete. Qed.
