(* ===== verification/ParserSound.v ===== *)
(** * The parser implements the grammar

    What the parser reads is a phrase of the grammar of [Grammar]: where a
    parser returns a tree and the tokens that follow, the tokens that it
    has consumed are a phrase of the tree ([parses]).  With the
    completeness of [ParserProofs] the parser accepts a list of tokens as a
    tree if and only if the tokens are a phrase of the tree
    ([parse_unit_grammar]); so a list of tokens is a phrase of at most one
    tree, and [const], the operators and the separators are read as the
    grammar says, with no other reading. *)

From S2P Require Import Prelude Syntax Lexer Parser Source Printer Grammar ParserProofs.

(** [P] returns only phrases of [G]. *)
Definition parses {A} (G : list token → A → Prop) (P : list token → parsed A) : Prop :=
  ∀ ts a R, P ts = inr (a, R) → ∃ T, ts = T ++ R ∧ G T a.

Lemma bind_inr {E A B} (r : E + A) (f : A → E + B) (b : B) :
  r ≫= f = inr b → ∃ a, r = inr a ∧ f a = inr b.
Proof. destruct r as [e|a]; [done|]. by exists a. Qed.

Lemma expect_inr (t : token) (ts ts' : list token) :
  expect t ts = inr ts' → ts = t :: ts'.
Proof.
  destruct ts as [|t' ts]; [done|]. unfold expect.
  case_decide; [|done]. intros [= <-]. by subst.
Qed.

(** The parts of a sequence of two parsers. *)
Ltac unbind H :=
  let a := fresh "a" in let ts := fresh "ts" in let Ha := fresh "Ha" in
  apply bind_inr in H as ([a ts] & Ha & H); cbv beta iota in H.

(** The token that [expect] has read. *)
Ltac unexpect H :=
  let ts := fresh "ts" in let Ha := fresh "Ha" in
  apply bind_inr in H as (ts & Ha%expect_inr & H); cbv beta in H; subst.

(** Nothing read. *)
Ltac stop H := injection H as <- <-; exists []; by rewrite ?app_nil_r.

(** ** Expressions *)

Section Expressions.
Context (N : nat) (inner : list token → parsed expr).
Context (inner_sound : parses (expr_at 0) inner).

Lemma parse_primary_sound : parses (expr_at 3) (parse_primary inner).
Proof using inner_sound.
  intros [|[| | | |[]] ts] e R H; try done; cbn [parse_primary] in H.
  - injection H as <- <-. exists [TIdent x]. split; [done | constructor].
  - injection H as <- <-. exists [TLit l]. split; [done | constructor].
  - unbind H. unexpect H. injection H as <- <-.
    apply inner_sound in Ha as (T & -> & He).
    exists (TPunct PLParen :: T ++ [TPunct PRParen]).
    split; [by flatten | by constructor].
Qed.

Lemma binary_rest_sound (op : binop) (next : list token → parsed expr) (n : nat)
    (acc : expr) (Ta ts : list token) (e : expr) (R : list token) :
  parses (expr_at (S (binop_level op))) next →
  expr_at (binop_level op) Ta acc →
  binary_rest (binop_punct op) op next n acc ts = inr (e, R) →
  ∃ T, ts = T ++ R ∧ expr_at (binop_level op) (Ta ++ T) e.
Proof.
  intros Hnext. revert acc Ta ts.
  induction n as [|n IH]; intros acc Ta [|[| | | |p] ts] Hacc H;
    cbn [binary_rest] in H; try (by stop H); case_decide; try done; try (by stop H).
  subst. unbind H. apply Hnext in Ha as (Tb & -> & Hb).
  apply (IH _ (Ta ++ TPunct (binop_punct op) :: Tb)) in H as (T & -> & He);
    [|by apply g_bin].
  exists (TPunct (binop_punct op) :: Tb ++ T). split; by flatten.
Qed.

Lemma binary_sound (op : binop) (next : list token → parsed expr) :
  parses (expr_at (S (binop_level op))) next →
  parses (expr_at (binop_level op)) (binary N (binop_punct op) op next).
Proof.
  intros Hnext ts e R H. unfold binary in H. unbind H.
  pose proof Ha as (Ta & -> & Hacc)%Hnext.
  apply (binary_rest_sound op next N _ Ta) in H as (T & -> & He);
    [| done | by apply g_up].
  exists (Ta ++ T). by rewrite app_assoc.
Qed.

Lemma parse_add_sound : parses (expr_at 1) (parse_add N inner).
Proof using inner_sound.
  apply (binary_sound Add), (binary_sound Mul), parse_primary_sound.
Qed.

Lemma parse_assign_sound : parses (expr_at 0) (parse_assign N inner).
Proof using inner_sound.
  assert (∀ ts e R, parse_add N inner ts = inr (e, R) → ∃ T, ts = T ++ R ∧ expr_at 0 T e)
    as Hsum.
  { intros ts e R (T & -> & He)%parse_add_sound. exists T. split; [done | by apply g_up]. }
  assert (∀ k ts e R, (length ts ≤ k)%nat → parse_assign N inner ts = inr (e, R) →
            ∃ T, ts = T ++ R ∧ expr_at 0 T e) as H;
    [|by intros ts e R; apply (H (length ts))].
  induction k as [|k IH]; intros ts e R Hk H.
  { destruct ts; [by apply Hsum | simpl in Hk; lia]. }
  destruct ts as [|[] [|[| | | |[]] ts]]; try by apply Hsum.
  cbn [parse_assign] in H. unbind H. injection H as <- <-.
  apply IH in Ha as (T & -> & He); [|simpl in *; lia].
  exists (TIdent x :: TPunct PAssign :: T). split; [done | by constructor].
Qed.
End Expressions.

Lemma parse_expr_sound (N d : nat) : parses (expr_at 0) (parse_expr N d).
Proof. induction d as [|d IH]; [done|]. by apply parse_assign_sound. Qed.

(** ** Statements *)

Section Statements.
Context (N : nat).

Lemma operand_sound : parses (expr_at 1) (operand N).
Proof. apply parse_add_sound, parse_expr_sound. Qed.

Lemma parse_type_sound : parses type_g parse_type.
Proof.
  intros [|[|k|n| |] ts] t R H; try done; cbn [parse_type] in H.
  - destruct (type_keyword k) as [t'|] eqn:Hk; [|done]. injection H as <- <-.
    exists [TKeyword k]. split; [done | by constructor].
  - injection H as <- <-. exists [TIdent n]. split; [done | constructor].
Qed.

Lemma parse_declarator_sound : parses declarator_g (parse_declarator N).
Proof.
  assert (∀ x ts d R, (inr (without_init x, ts) : parsed declarator) = inr (d, R) →
            ∃ T, TIdent x :: ts = T ++ R ∧ declarator_g T d) as Hwithout.
  { intros x ts d R [= <- <-]. exists [TIdent x]. split; [done | constructor]. }
  intros [|[] [|[| | | |[]] ts]] d R H; try done; try by apply Hwithout.
  cbn [parse_declarator] in H. unbind H. injection H as <- <-.
  apply parse_expr_sound in Ha as (T & -> & He).
  exists (TIdent x :: TPunct PAssign :: T). split; [done | by constructor].
Qed.

Lemma parse_declarators_sound (n : nat) : parses declarators_g (parse_declarators N n).
Proof.
  assert (∀ T d R ds R', declarator_g T d →
            (inr ([d], R) : parsed (list declarator)) = inr (ds, R') →
            ∃ T', T ++ R = T' ++ R' ∧ declarators_g T' ds) as Hone.
  { intros T d R ds R' Hd [= <- <-]. exists T. split; [done | by constructor]. }
  induction n as [|n IH]; intros ts ds R H; cbn [parse_declarators] in H; unbind H;
    apply parse_declarator_sound in Ha as (T & -> & Hd);
    destruct ts0 as [|[| | | |[]] ts1]; try done; try by eapply Hone.
  unbind H. injection H as <- <-. apply IH in Ha as (T' & -> & Hds).
  exists (T ++ TPunct PComma :: T'). split; [by flatten | by constructor].
Qed.

Lemma parse_operands_sound (n : nat) : parses operands_g (parse_operands N n).
Proof.
  induction n as [|n IH]; intros [|[| | | |[]] ts] es R H;
    cbn [parse_operands] in H; try done;
    try (injection H as <- <-; exists []; split; [done | constructor]).
  unbind H. unbind H. injection H as <- <-.
  apply operand_sound in Ha as (T & -> & He). apply IH in Ha0 as (T' & -> & Hes).
  exists (TPunct PShl :: T ++ T'). split; [by flatten | by constructor].
Qed.

(** Where the operands start with [<<] there is one. *)
Lemma parse_operands_some (n : nat) (ts : list token) (es : list expr) (R : list token) :
  parse_operands N n (TPunct PShl :: ts) = inr (es, R) → es ≠ [].
Proof.
  destruct n as [|n]; [done|]. cbn [parse_operands]. intros H.
  unbind H. unbind H. by injection H as <- <-.
Qed.

Lemma parse_decl_sound (c : bool) (ts : list token) (s : stmt) (R : list token) :
  parse_decl N c ts = inr (s, R) →
  ∃ T, ts = T ++ R ∧ stmt_g ((if c then [TKeyword KConst] else []) ++ T) s.
Proof.
  unfold parse_decl. intros H. unbind H. unbind H. unexpect H. injection H as <- <-.
  apply parse_type_sound in Ha as (Tt & -> & Ht).
  apply parse_declarators_sound in Ha0 as (Td & -> & Hds).
  exists (Tt ++ Td ++ [TPunct PSemi]). split; [by flatten | by constructor].
Qed.

(** A statement that is an expression or that returns one. *)
Lemma expression_sound (ts : list token) (R : list token) (s : stmt) (f : expr → stmt) :
  ('(e, ts1) ← expression N ts; ts2 ← expect (TPunct PSemi) ts1; inr (f e, ts2))
  = inr (s, R) →
  ∃ T e, ts = T ++ TPunct PSemi :: R ∧ expr_at 0 T e ∧ s = f e.
Proof.
  intros H. unbind H. unexpect H. injection H as <- <-.
  apply parse_expr_sound in Ha as (T & -> & He). by exists T, a.
Qed.

Lemma parse_stmt_sound : parses stmt_g (parse_stmt N).
Proof.
  assert (∀ ts s R,
            ('(e, ts1) ← expression N ts; ts2 ← expect (TPunct PSemi) ts1; inr (SExpr e, ts2))
            = inr (s, R) → ∃ T, ts = T ++ R ∧ stmt_g T s) as Hexpr.
  { intros ts s R (T & e & -> & He & ->)%expression_sound.
    exists (T ++ [TPunct PSemi]). split; [by flatten | by constructor]. }
  assert (∀ ts s R, parse_decl N false ts = inr (s, R) → ∃ T, ts = T ++ R ∧ stmt_g T s)
    as Hdecl by (intros ts s R H; by apply (parse_decl_sound false)).
  intros [|[|k|x| |] ts] s R H; try by apply Hexpr.
  - destruct k; try (by apply Hdecl); cbn [parse_stmt] in H.
    + apply (parse_decl_sound true) in H as (T & -> & Hs). by exists (TKeyword KConst :: T).
    + apply (expression_sound _ _ _ SReturn) in H as (T & e & -> & He & ->).
      exists (TKeyword KReturn :: T ++ [TPunct PSemi]).
      split; [by flatten | by constructor].
  - destruct ts as [|[| | | |[]] ts]; try (by apply Hexpr); try by apply Hdecl.
    cbn [parse_stmt] in H. unbind H. unexpect H. injection H as <- <-.
    pose proof (parse_operands_some _ _ _ _ Ha) as Hsome.
    apply parse_operands_sound in Ha as (T & HT & Hes). rewrite HT.
    exists (TIdent x :: T ++ [TPunct PSemi]). split; [by flatten | by constructor].
Qed.

Lemma parse_block_sound (n : nat) (ts : list token) (ss : list stmt) (R : list token) :
  parse_block N n ts = inr (ss, R) → ∃ T, ts = T ++ TPunct PRBrace :: R ∧ stmts_g T ss.
Proof.
  assert (∀ ts n, head ts ≠ Some (TPunct PRBrace) →
            parse_block N (S n) ts
            = '(s, ts1) ← parse_stmt N ts; '(ss, ts2) ← parse_block N n ts1;
              inr (s :: ss, ts2)) as Hstep
    by (intros [|[| | | |[]] ?] ? ?; by try congruence).
  revert ts ss R. induction n as [|n IH]; intros ts ss R H.
  - destruct ts as [|[| | | |[]] ts]; try done. injection H as <- <-.
    exists []. split; [done | constructor].
  - destruct (decide (head ts = Some (TPunct PRBrace))) as [Hts|Hts].
    { destruct ts as [|t ts]; [done|]. injection Hts as ->. injection H as <- <-.
      exists []. split; [done | constructor]. }
    rewrite Hstep in H by done. unbind H. unbind H. injection H as <- <-.
    apply parse_stmt_sound in Ha as (T & -> & Hs). apply IH in Ha0 as (T' & -> & Hss).
    exists (T ++ T'). split; [by flatten | by constructor].
Qed.

Lemma parse_function_sound : parses function_g (parse_function N).
Proof.
  intros ts f R H. unfold parse_function in H. unbind H.
  apply parse_type_sound in Ha as (Tt & -> & Ht).
  destruct ts0 as [|[| |x| |] ts1]; try done.
  unexpect H. unexpect H. unexpect H. unbind H. injection H as <- <-.
  apply parse_block_sound in Ha as (T & -> & Hb).
  eexists. split; [|by apply (g_function Tt a x T)]. by flatten.
Qed.
End Statements.

(** ** Translation units *)

Lemma parse_includes_sound (ts : list token) (hs : list string) (R : list token) :
  parse_includes ts = (hs, R) → ts = (TInclude <$> hs) ++ R.
Proof.
  revert hs. induction ts as [|t ts IH]; intros hs H; [by injection H as <- <-|].
  destruct t; try by injection H as <- <-.
  cbn [parse_includes] in H. destruct (parse_includes ts) as [hs' R'].
  injection H as <- <-. by rewrite (IH hs').
Qed.

Lemma parse_usings_sound (ts : list token) (us : list string) (R : list token) :
  parse_usings ts = (us, R) → ts = (us ≫= using_tokens) ++ R.
Proof.
  assert (∀ k ts us R, (length ts ≤ k)%nat → parse_usings ts = (us, R) →
            ts = (us ≫= using_tokens) ++ R) as H;
    [|by apply (H (length ts))].
  clear. induction k as [|k IH]; intros ts us R Hk H.
  { destruct ts; [by injection H as <- <- | simpl in Hk; lia]. }
  destruct ts as [|[|[]| | |] ts]; try by injection H as <- <-.
  destruct ts as [|[|[]| | |] ts]; try by injection H as <- <-.
  destruct ts as [|[| |n| |] ts]; try by injection H as <- <-.
  destruct ts as [|[| | | |[]] ts]; try by injection H as <- <-.
  cbn [parse_usings] in H. destruct (parse_usings ts) as [us' R'] eqn:Hus.
  injection H as <- <-. apply IH in Hus; [|simpl in *; lia].
  rewrite bind_cons. unfold using_tokens at 1. flatten. by rewrite <- Hus.
Qed.

Lemma parse_unit_sound (ts : list token) (tu : translation_unit) :
  parse_unit ts = inr tu → unit_g ts tu.
Proof.
  unfold parse_unit.
  destruct (parse_includes ts) as [hs ts1] eqn:Hhs.
  destruct (parse_usings ts1) as [us ts2] eqn:Hus. intros H. unbind H.
  destruct ts0; [|done]. injection H as <-.
  apply parse_includes_sound in Hhs as ->. apply parse_usings_sound in Hus as ->.
  apply parse_function_sound in Ha as (T & -> & Hf). rewrite app_nil_r. by constructor.
Qed.

(** ** The parser and the grammar *)

(** C12: the parser of the front end implements the grammar of the
    fragment.  It returns the tree [tu] for the tokens [ts] exactly when
    [ts] is a phrase of [tu] in the grammar ([*] before [+] before [=], the
    first two grouping to the left and the last to the right; declarations
    with one declarator or more; insertions with one operand or more); the
    tokens of a phrase followed by one more token are rejected at that
    token; and the tokens are a phrase of no other tree. *)
Theorem parse_unit_grammar (ts : list token) (tu : translation_unit) :
  (parse_unit ts = inr tu ↔ unit_g ts tu) ∧
  (unit_g ts tu →
   (∀ t R, parse_unit (ts ++ t :: R) = inl (Unexpected (Some t))) ∧
   (∀ tu', unit_g ts tu' → tu' = tu)).
Proof.
  split_and!; [split; [apply parse_unit_sound | apply parse_unit_phrase]|].
  intros Hg. split; [intros t R; by apply (parse_unit_trailing ts tu)|].
  intros tu' Hg'. apply parse_unit_phrase in Hg, Hg'. congruence.
Qed.

(** The 154 tokens of the file are a phrase of its tree, and of no other. *)
Lemma parse_unit_grammar_witness :
  unit_g source_tokens source_unit ∧
  (∀ tu', unit_g source_tokens tu' → tu' = source_unit).
Proof.
  pose proof (parse_unit_grammar source_tokens source_unit) as [[Hg _] Hu].
  specialize (Hg (proj2 parse_source_tokens)). split; [done | by apply Hu].
Defined.

(** A text is accepted as a tree if and only if its tokens are a phrase of
    the tree. *)
Lemma front_end_grammar (text : string) (tu : translation_unit) :
  front_end text = inr tu ↔ ∃ ts, lex text = inr ts ∧ unit_g ts tu.
Proof.
  unfold front_end. split.
  - destruct (lex text) as [e|ts]; [done|].
    destruct (parse_unit ts) as [e|tu'] eqn:Hp; [done|].
    intros [= <-]. exists ts. split; [done | by apply parse_unit_sound].
  - intros (ts & -> & Hg). by rewrite (parse_unit_phrase ts tu Hg).
Qed.
