(* ===== verification/ParserFuel.v ===== *)
(** * The parser does not run out of fuel

    [parse_unit] gives the number of tokens as fuel to the loops of the
    parser and to the depth of the parentheses.  That is enough, whatever
    the tokens are ([parse_unit_fuel]): a parser that returns has read at
    least one token, so that no loop turns and no parenthesis nests more
    often than there are tokens.  A result is [fine] below [n] if it is not
    the error [TooDeep] and leaves fewer than [n] tokens.  For the file of
    the repository the fuel is 154; its 21 statements need 21
    ([source_fuel]). *)

From S2P Require Import Prelude Syntax Lexer Parser Source.

Definition fine {A} (r : parsed A) (n : nat) : Prop :=
  match r with
  | inl e => e ≠ TooDeep
  | inr (_, ts) => (length ts < n)%nat
  end.

Lemma fine_mono {A} (r : parsed A) (n m : nat) : (n ≤ m)%nat → fine r n → fine r m.
Proof. destruct r as [e|[a ts]]; simpl; [done|lia]. Qed.

Lemma fine_bind {A B} (r : parsed A) (f : A * list token → parsed B) (n m : nat) :
  fine r n → (∀ a ts, (length ts < n)%nat → fine (f (a, ts)) m) → fine (r ≫= f) m.
Proof. destruct r as [e|[a ts]]; simpl; auto. Qed.

Lemma fine_expect {B} (t : token) (ts : list token) (f : list token → parsed B) (m : nat) :
  (∀ ts', (length ts' < length ts)%nat → fine (f ts') m) → fine (expect t ts ≫= f) m.
Proof.
  intros Hf. destruct ts as [|t' ts]; [done|]. unfold expect.
  case_decide; [apply Hf; simpl; lia | done].
Qed.

Lemma fine_unexpected {A} (ts : list token) (n : nat) : fine (@unexpected (A * list token) ts) n.
Proof. done. Qed.

(** A parser that is fine on the lists of at most, or of fewer than, [m]
    tokens. *)
Definition fine_upto {A} (P : list token → parsed A) (m : nat) : Prop :=
  ∀ ts, (length ts ≤ m)%nat → fine (P ts) (length ts).

Definition fine_below {A} (P : list token → parsed A) (m : nat) : Prop :=
  ∀ ts, (length ts < m)%nat → fine (P ts) (length ts).

(** ** Expressions *)

Section Expressions.
Context (N m : nat) (inner : list token → parsed expr).

Lemma parse_primary_fine : fine_below inner m → fine_upto (parse_primary inner) m.
Proof.
  intros inner_fine [|[| | | |[]] ts] Hts; simpl in *; try done; try lia.
  eapply fine_bind; [apply inner_fine; lia|]. intros e ts1 Hts1.
  apply fine_expect. intros ts2 Hts2. simpl. lia.
Qed.

Lemma binary_rest_fine (p : punct) (op : binop) (next : list token → parsed expr)
    (n : nat) (acc : expr) (ts : list token) :
  fine_upto next m → (length ts ≤ n)%nat → (length ts ≤ m)%nat →
  fine (binary_rest p op next n acc ts) (S (length ts)).
Proof.
  intros Hnext. revert acc ts.
  induction n as [|n IH]; intros acc [|[| | | |p'] ts] Hn Hm;
    cbn [binary_rest]; simpl in *; try lia; case_decide; simpl; try lia.
  eapply fine_bind; [apply Hnext; lia|]. intros e ts1 Hts1.
  eapply fine_mono; [|apply IH]; lia.
Qed.

Lemma binary_fine (p : punct) (op : binop) (next : list token → parsed expr) :
  (m ≤ N)%nat → fine_upto next m → fine_upto (binary N p op next) m.
Proof.
  intros fuel Hnext ts Hts. eapply fine_bind; [by apply Hnext|]. intros e ts1 Hts1.
  eapply fine_mono; [|apply binary_rest_fine]; (done || lia).
Qed.

Lemma parse_add_fine :
  (m ≤ N)%nat → fine_below inner m → fine_upto (parse_add N inner) m.
Proof. intros. by do 2 (apply binary_fine; [done|]); apply parse_primary_fine. Qed.

Lemma parse_assign_fine :
  (m ≤ N)%nat → fine_below inner m → fine_upto (parse_assign N inner) m.
Proof.
  intros fuel inner_fine.
  assert (∀ k ts, (length ts ≤ k)%nat → (length ts ≤ m)%nat →
            fine (parse_assign N inner ts) (length ts)) as H;
    [|by intros ts Hts; apply (H (length ts))].
  induction k as [|k IH]; intros ts Hk Hm.
  { destruct ts; [by apply (parse_add_fine fuel inner_fine [])|simpl in Hk; lia]. }
  destruct ts as [|[] [|[| | | |[]] ts]]; try by apply parse_add_fine.
  cbn [parse_assign]. eapply fine_bind; [apply IH; simpl in *; lia|].
  intros e ts1 Hts1. simpl in *. lia.
Qed.
End Expressions.

Lemma parse_expr_fine (N d : nat) : (d ≤ S N)%nat → fine_below (parse_expr N d) d.
Proof.
  induction d as [|d IH]; intros Hd ts Hts; [lia|].
  apply (parse_assign_fine N d (parse_expr N d)); [lia | apply IH; lia | lia].
Qed.

(** ** Statements *)

Section Statements.
Context (N : nat).

Lemma expression_fine : fine_upto (expression N) N.
Proof. intros ts Hts. apply parse_expr_fine; lia. Qed.

Lemma operand_fine : fine_upto (operand N) N.
Proof. apply parse_add_fine; [done|]. by apply parse_expr_fine; lia. Qed.

Lemma parse_type_fine (ts : list token) : fine (parse_type ts) (length ts).
Proof. destruct ts as [|[|[]| | |] ts]; simpl; (done || lia). Qed.

Lemma parse_declarator_fine : fine_upto (parse_declarator N) N.
Proof.
  intros [|[] [|[| | | |[]] ts]] Hts; simpl in *; try done; try lia.
  eapply fine_bind; [apply expression_fine; lia|]. intros e ts1 Hts1. simpl. lia.
Qed.

Lemma parse_declarators_fine (n : nat) (ts : list token) :
  (length ts ≤ n)%nat → (length ts ≤ N)%nat →
  fine (parse_declarators N n ts) (length ts).
Proof.
  revert ts. induction n as [|n IH]; intros ts Hn HN; cbn [parse_declarators];
    (eapply fine_bind; [by apply parse_declarator_fine|]); intros d ts1 Hts1; [lia|].
  destruct ts1 as [|[| | | |[]] ts1]; simpl in *; try lia.
  eapply fine_bind; [apply IH; lia|]. intros ds ts2 Hts2. simpl. lia.
Qed.

Lemma parse_operands_fine (n : nat) (ts : list token) :
  (length ts ≤ n)%nat → (length ts ≤ N)%nat →
  fine (parse_operands N n ts) (S (length ts)).
Proof.
  revert ts. induction n as [|n IH]; intros [|[| | | |[]] ts] Hn HN;
    cbn [parse_operands]; simpl in *; try lia.
  eapply fine_bind; [apply operand_fine; lia|]. intros e ts1 Hts1.
  eapply fine_bind; [apply IH; lia|]. intros es ts2 Hts2. simpl. lia.
Qed.

Lemma parse_decl_fine (c : bool) (ts : list token) :
  (length ts ≤ N)%nat → fine (parse_decl N c ts) (length ts).
Proof.
  intros HN. eapply fine_bind; [apply parse_type_fine|]. intros t ts1 Hts1.
  eapply fine_bind; [apply parse_declarators_fine; lia|]. intros ds ts2 Hts2.
  apply fine_expect. intros ts3 Hts3. simpl. lia.
Qed.

(** The three ways of a statement. *)
Lemma statement_fine (ts : list token) (f : expr → stmt) (n : nat) :
  (length ts ≤ N)%nat → (length ts ≤ n)%nat →
  fine ('(e, ts1) ← expression N ts; ts2 ← expect (TPunct PSemi) ts1; inr (f e, ts2)) n.
Proof.
  intros HN Hn. eapply fine_bind; [by apply expression_fine|]. intros e ts1 Hts1.
  apply fine_expect. intros ts2 Hts2. simpl. lia.
Qed.

Lemma insertion_fine (ts : list token) (s : string) (n : nat) :
  (length ts ≤ N)%nat → (length ts < n)%nat →
  fine ('(es, ts1) ← parse_operands N N ts;
        ts2 ← expect (TPunct PSemi) ts1; inr (SInsert s es, ts2)) n.
Proof.
  intros HN Hn. eapply fine_bind; [by apply parse_operands_fine|]. intros e ts1 Hts1.
  apply fine_expect. intros ts2 Hts2. simpl. lia.
Qed.

Lemma parse_stmt_fine : fine_upto (parse_stmt N) N.
Proof.
  intros ts HN.
  destruct ts as [|[|[]| | |] [|[| | | |[]] ts]];
    first [ apply (statement_fine _ SExpr); simpl in *; lia
          | apply (statement_fine _ SReturn); simpl in *; lia
          | apply insertion_fine; simpl in *; lia
          | eapply fine_mono; [|apply parse_decl_fine]; simpl in *; lia ].
Qed.

Lemma parse_block_fine (n : nat) (ts : list token) :
  (length ts < n)%nat → (length ts ≤ N)%nat →
  fine (parse_block N n ts) (S (length ts)).
Proof.
  revert ts. induction n as [|n IH]; intros ts Hn HN; [lia|].
  assert (fine ('(s, ts1) ← parse_stmt N ts; '(ss, ts2) ← parse_block N n ts1;
                inr (s :: ss, ts2)) (S (length ts))) as Hstep.
  { eapply fine_bind; [by apply parse_stmt_fine|]. intros s ts1 Hts1.
    eapply fine_bind; [apply IH; lia|]. intros ss ts2 Hts2. simpl. lia. }
  destruct ts as [|[| | | |[]] ts]; try done. simpl. lia.
Qed.

Lemma parse_function_fine (ts : list token) :
  (length ts ≤ N)%nat → fine (parse_function N ts) (S (length ts)).
Proof.
  intros HN. eapply fine_bind; [apply parse_type_fine|]. intros t [|[] ts1] Hts1; try done.
  do 3 (apply fine_expect; intros ? ?).
  eapply fine_bind; [apply parse_block_fine; simpl in *; lia|].
  intros b ts6 Hts6. simpl in *. lia.
Qed.
End Statements.

(** ** Translation units *)

Lemma parse_includes_length (ts : list token) :
  (length (parse_includes ts).2 ≤ length ts)%nat.
Proof.
  induction ts as [|[] ts IH]; simpl; try lia.
  destruct (parse_includes ts). simpl in *. lia.
Qed.

Lemma parse_usings_length (ts : list token) :
  (length (parse_usings ts).2 ≤ length ts)%nat.
Proof.
  assert (∀ k ts, (length ts ≤ k)%nat → (length (parse_usings ts).2 ≤ length ts)%nat)
    as H; [|by eauto].
  clear ts. induction k as [|k IH]; intros ts Hk.
  all: destruct ts as [|[|[]| | |] ts1]; try (simpl in *; lia).
  all: destruct ts1 as [|[|[]| | |] ts2]; try (simpl in *; lia).
  all: destruct ts2 as [|[] ts3]; try (simpl in *; lia).
  all: destruct ts3 as [|[| | | |[]] ts4]; try (simpl in *; lia).
  specialize (IH ts4 ltac:(simpl in *; lia)). simpl. destruct (parse_usings ts4).
  simpl in *. lia.
Qed.

(** The number of tokens is fuel enough. *)
Lemma parse_unit_fine (ts : list token) : parse_unit ts ≠ inl TooDeep.
Proof.
  unfold parse_unit.
  pose proof (parse_includes_length ts) as H1. destruct (parse_includes ts) as [hs ts1].
  pose proof (parse_usings_length ts1) as H2. destruct (parse_usings ts1) as [us ts2].
  simpl in *. pose proof (parse_function_fine (length ts) ts2 ltac:(lia)) as Hf.
  destruct (parse_function (length ts) ts2) as [e|[f [|t ts3]]]; simpl in *;
    [congruence|done..].
Qed.

Lemma front_end_fuel (text : string) : front_end text ≠ inl (Syntactic TooDeep).
Proof.
  unfold front_end. destruct (lex text) as [e|ts]; [done|].
  pose proof (parse_unit_fine ts). destruct (parse_unit ts); congruence.
Qed.

(** The fuel that the file needs: the 21 statements of [main], which
    follow the five tokens of lines 1 and 2. *)
Lemma source_fuel :
  length source_tokens = 154%nat ∧ front_end source_text = inr source_unit ∧
  parse_function 21 (drop 5 source_tokens) = inr (main_function, []) ∧
  parse_function 20 (drop 5 source_tokens) = inl TooDeep.
Proof. by vm_compute. Qed.

(** C10: the parser does not run out of fuel.  Whatever the tokens are,
    [parse_unit] does not return [TooDeep], and whatever the text is, the
    front end does not: the number of tokens bounds the operands of every
    operator, the declarators of every declaration, the statements of the
    block and the depth of the parentheses, because every parser that
    returns has read a token.  So the front end is a total function whose
    errors are those of the text.  The fuel is needed: the file has 154
    tokens, with which the front end reads it as its tree; the parser of
    the function reads [main] with 21, the number of its statements, as
    fuel, and runs out with 20. *)
Theorem parse_unit_fuel (ts : list token) (text : string) :
  parse_unit ts ≠ inl TooDeep ∧ front_end text ≠ inl (Syntactic TooDeep) ∧
  length source_tokens = 154%nat ∧ front_end source_text = inr source_unit ∧
  parse_function 21 (drop 5 source_tokens) = inr (main_function, []) ∧
  parse_function 20 (drop 5 source_tokens) = inl TooDeep.
Proof. split_and!; [apply parse_unit_fine | apply front_end_fuel | apply source_fuel..]. Qed.

