(* ===== verification/ParserInvariant.v ===== *)
(** * What the parser returns can be written

    From tokens that can be written the parser builds trees that can be
    written ([parse_unit_wf]): the names and the literals of a tree are
    those of the tokens, and the parser returns no declaration without a
    declarator and no insertion without an operand.  A result is [good] if
    it is an error, or a tree that can be written and tokens that can be
    written. *)

From S2P Require Import Prelude Syntax Lexer Parser Printer.

Definition wf_tokens (ts : list token) : Prop := forallb wf_token ts = true.

Definition good {A} (wf : A → bool) (r : parsed A) : Prop :=
  match r with
  | inl _ => True
  | inr (a, ts) => wf a = true ∧ wf_tokens ts
  end.

(** A parser whose results are good on the tokens that can be written. *)
Definition keeps {A} (wf : A → bool) (P : list token → parsed A) : Prop :=
  ∀ ts, wf_tokens ts → good wf (P ts).

#[local] Hint Extern 0 (good _ (inl _)) => exact I : core.
#[local] Hint Extern 0 (good _ (unexpected _)) => exact I : core.

Lemma good_bind {A B} (wfA : A → bool) (wfB : B → bool) (r : parsed A)
    (f : A * list token → parsed B) :
  good wfA r → (∀ a ts, wfA a = true → wf_tokens ts → good wfB (f (a, ts))) →
  good wfB (r ≫= f).
Proof. destruct r as [e|[a ts]]; simpl; [done|]. intros [] Hf. by apply Hf. Qed.

Lemma good_expect {B} (wf : B → bool) (t : token) (ts : list token)
    (f : list token → parsed B) :
  wf_tokens ts → (∀ ts', wf_tokens ts' → good wf (f ts')) → good wf (expect t ts ≫= f).
Proof.
  intros Hts Hf. destruct ts as [|t' ts]; [done|]. unfold expect.
  apply andb_prop in Hts as [_ Hts]. case_decide; [by apply Hf | done].
Qed.

Lemma wf_tokens_cons (t : token) (ts : list token) :
  wf_tokens (t :: ts) → wf_token t = true ∧ wf_tokens ts.
Proof. apply andb_prop. Qed.

(** The head of the tokens, taken off. *)
Ltac uncons H :=
  repeat match type of H with
         | wf_tokens (_ :: _) =>
             let Ht := fresh "Ht" in apply wf_tokens_cons in H as [Ht H]
         end.

(** ** Expressions *)

Section Expressions.
Context (N : nat) (inner : list token → parsed expr).

Lemma parse_primary_wf : keeps wf_expr inner → keeps wf_expr (parse_primary inner).
Proof.
  intros Hinner [|[| | | |[]] ts] Hts; try done; uncons Hts; try done.
  eapply good_bind; [by apply Hinner|]. intros e ts1 He Hts1.
  apply good_expect; [done|]. by intros ts2 Hts2.
Qed.

Lemma binary_rest_wf (p : punct) (op : binop) (next : list token → parsed expr)
    (n : nat) (acc : expr) (ts : list token) :
  keeps wf_expr next → wf_expr acc = true → wf_tokens ts →
  good wf_expr (binary_rest p op next n acc ts).
Proof.
  intros Hnext. revert acc ts.
  induction n as [|n IH]; intros acc [|[| | | |p'] ts] Hacc Hts;
    cbn [binary_rest]; try done; case_decide; try done.
  uncons Hts. eapply good_bind; [by apply Hnext|]. intros e ts1 He Hts1.
  apply IH; [|done]. simpl. by rewrite Hacc, He.
Qed.

Lemma binary_wf (p : punct) (op : binop) (next : list token → parsed expr) :
  keeps wf_expr next → keeps wf_expr (binary N p op next).
Proof.
  intros Hnext ts Hts. eapply good_bind; [by apply Hnext|]. intros e ts1 He Hts1.
  by apply binary_rest_wf.
Qed.

Lemma parse_add_wf : keeps wf_expr inner → keeps wf_expr (parse_add N inner).
Proof. intros. by do 2 apply binary_wf; apply parse_primary_wf. Qed.

Lemma parse_assign_wf : keeps wf_expr inner → keeps wf_expr (parse_assign N inner).
Proof.
  intros Hinner.
  assert (∀ k ts, (length ts ≤ k)%nat → wf_tokens ts →
            good wf_expr (parse_assign N inner ts)) as H;
    [|by intros ts Hts; apply (H (length ts))].
  induction k as [|k IH]; intros ts Hk Hts.
  { destruct ts; [by apply (parse_add_wf Hinner [])|simpl in Hk; lia]. }
  destruct ts as [|[] [|[| | | |[]] ts]]; try by apply parse_add_wf.
  cbn [parse_assign]. uncons Hts.
  eapply good_bind; [apply IH; [simpl in *; lia|done]|].
  intros e ts1 He Hts1. simpl in *. by rewrite Ht, He.
Qed.
End Expressions.

Lemma parse_expr_wf (N d : nat) : keeps wf_expr (parse_expr N d).
Proof. induction d as [|d IH]; [done|]. by apply parse_assign_wf. Qed.

(** ** Statements *)

Section Statements.
Context (N : nat).

Lemma operand_wf : keeps wf_expr (operand N).
Proof. apply parse_add_wf, parse_expr_wf. Qed.

Lemma parse_type_wf : keeps wf_type parse_type.
Proof. intros [|[|[]| | |] ts] Hts; try done; by uncons Hts. Qed.

Lemma parse_declarator_wf : keeps wf_declarator (parse_declarator N).
Proof.
  intros [|[] ts] Hts; try done. apply wf_tokens_cons in Hts as [Hx Hts].
  assert (good wf_declarator (inr (without_init x, ts))) as Hwithout.
  { split; [|done]. unfold wf_declarator. simpl in *. by rewrite Hx. }
  destruct ts as [|[| | | |[]] ts]; try done. uncons Hts.
  eapply good_bind; [by apply parse_expr_wf|]. intros e ts1 He Hts1.
  split; [|done]. unfold wf_declarator. simpl in *. by rewrite Hx, He.
Qed.

(** At least one, each of which can be written. *)
Definition some_wf {A} (wf : A → bool) (l : list A) : bool :=
  bool_decide (l ≠ []) && forallb wf l.

Lemma parse_declarators_wf (n : nat) : keeps (some_wf wf_declarator) (parse_declarators N n).
Proof.
  induction n as [|n IH]; intros ts Hts; cbn [parse_declarators];
    (eapply good_bind; [by apply parse_declarator_wf|]); intros d ts1 Hd Hts1.
  - destruct ts1 as [|[| | | |[]] ts1]; try done;
      by (split; [unfold some_wf; simpl; rewrite Hd|]).
  - destruct ts1 as [|[| | | |[]] ts1];
      try by (split; [unfold some_wf; simpl; rewrite Hd|]).
    uncons Hts1. eapply good_bind; [by apply IH|]. intros ds ts2 Hds Hts2.
    split; [|done]. unfold some_wf in *. simpl.
    apply andb_prop in Hds as [_ Hds]. by rewrite Hd, Hds.
Qed.

Lemma parse_operands_wf (n : nat) : keeps (forallb wf_expr) (parse_operands N n).
Proof.
  induction n as [|n IH]; intros [|[| | | |[]] ts] Hts; cbn [parse_operands]; try done.
  uncons Hts. eapply good_bind; [by apply operand_wf|]. intros e ts1 He Hts1.
  eapply good_bind; [by apply IH|]. intros es ts2 Hes Hts2.
  split; [|done]. simpl. by rewrite He, Hes.
Qed.

(** After [<<] there is an operand. *)
Lemma parse_insertion_wf (n : nat) (ts : list token) :
  wf_tokens ts → good (some_wf wf_expr) (parse_operands N n (TPunct PShl :: ts)).
Proof.
  intros Hts. destruct n as [|n]; cbn [parse_operands]; [done|].
  eapply good_bind; [by apply operand_wf|]. intros e ts1 He Hts1.
  eapply good_bind; [by apply parse_operands_wf|]. intros es ts2 Hes Hts2.
  split; [|done]. unfold some_wf. simpl. by rewrite He, Hes.
Qed.

Lemma parse_decl_wf (c : bool) : keeps wf_stmt (parse_decl N c).
Proof.
  intros ts Hts. eapply good_bind; [by apply parse_type_wf|]. intros t ts1 Htype Hts1.
  eapply good_bind; [by apply parse_declarators_wf|]. intros ds ts2 Hds Hts2.
  apply good_expect; [done|]. intros ts3 Hts3. split; [|done].
  apply andb_prop in Hds as [Hsome Hds]. simpl. by rewrite Htype, Hsome, Hds.
Qed.

Lemma statement_wf (f : expr → stmt) (ts : list token) :
  (∀ e, wf_stmt (f e) = wf_expr e) → wf_tokens ts →
  good wf_stmt ('(e, ts1) ← expression N ts;
                ts2 ← expect (TPunct PSemi) ts1; inr (f e, ts2)).
Proof.
  intros Hf Hts. eapply good_bind; [by apply parse_expr_wf|]. intros e ts1 He Hts1.
  apply good_expect; [done|]. intros ts2 Hts2. by rewrite <- Hf in He.
Qed.

Lemma insertion_wf (s : string) (ts : list token) :
  wf_ident s = true → wf_tokens ts →
  good wf_stmt ('(es, ts1) ← parse_operands N N (TPunct PShl :: ts);
                ts2 ← expect (TPunct PSemi) ts1; inr (SInsert s es, ts2)).
Proof.
  intros Hs Hts. eapply good_bind; [by apply parse_insertion_wf|]. intros es ts1 Hes Hts1.
  apply good_expect; [done|]. intros ts2 Hts2. split; [|done].
  apply andb_prop in Hes as [Hsome Hes]. simpl. by rewrite Hs, Hsome, Hes.
Qed.

Lemma parse_stmt_wf : keeps wf_stmt (parse_stmt N).
Proof.
  intros ts Hts.
  destruct ts as [|[|[]| | |] [|[| | | |[]] ts]];
    first [ by apply (statement_wf SExpr)
          | by apply parse_decl_wf
          | apply wf_tokens_cons in Hts as [_ Hts];
            first [ by apply parse_decl_wf | by apply (statement_wf SReturn) ]
          | uncons Hts; by apply insertion_wf ].
Qed.

Lemma parse_block_wf (n : nat) : keeps (forallb wf_stmt) (parse_block N n).
Proof.
  induction n as [|n IH]; intros ts Hts.
  { by destruct ts as [|[| | | |[]] ts]. }
  assert (good (forallb wf_stmt)
            ('(s, ts1) ← parse_stmt N ts; '(ss, ts2) ← parse_block N n ts1;
             inr (s :: ss, ts2))) as Hstep.
  { eapply good_bind; [by apply parse_stmt_wf|]. intros s ts1 Hs Hts1.
    eapply good_bind; [by apply IH|]. intros ss ts2 Hss Hts2.
    split; [|done]. simpl. by rewrite Hs, Hss. }
  by destruct ts as [|[| | | |[]] ts].
Qed.

Lemma parse_function_wf : keeps wf_function (parse_function N).
Proof.
  intros ts Hts. eapply good_bind; [by apply parse_type_wf|].
  intros t [|[] ts1] Ht Hts1; try done. uncons Hts1.
  do 3 (apply good_expect; [done|]; intros ? ?).
  eapply good_bind; [by apply parse_block_wf|]. intros b ts6 Hb Hts6.
  split; [|done]. unfold wf_function. simpl in *. by rewrite Ht, Ht0, Hb.
Qed.
End Statements.

(** ** Translation units *)

Lemma parse_includes_wf (ts : list token) :
  wf_tokens ts →
  forallb wf_header (parse_includes ts).1 = true ∧ wf_tokens (parse_includes ts).2.
Proof.
  induction ts as [|[] ts IH]; intros Hts; try done.
  uncons Hts. destruct (IH Hts) as [Hhs Hrest]. simpl.
  destruct (parse_includes ts). simpl in *. by rewrite Ht, Hhs.
Qed.

Lemma parse_usings_wf (ts : list token) :
  wf_tokens ts →
  forallb wf_ident (parse_usings ts).1 = true ∧ wf_tokens (parse_usings ts).2.
Proof.
  assert (∀ k ts, (length ts ≤ k)%nat → wf_tokens ts →
            forallb wf_ident (parse_usings ts).1 = true ∧ wf_tokens (parse_usings ts).2)
    as H; [|by apply (H (length ts))].
  clear ts. induction k as [|k IH]; intros ts Hk Hts.
  all: destruct ts as [|[|[]| | |] ts1]; try done.
  all: destruct ts1 as [|[|[]| | |] ts2]; try done.
  all: destruct ts2 as [|[] ts3]; try done.
  all: destruct ts3 as [|[| | | |[]] ts4]; try done.
  { simpl in Hk. lia. }
  uncons Hts. destruct (IH ts4 ltac:(simpl in *; lia) Hts) as [Hus Hrest]. simpl.
  destruct (parse_usings ts4). simpl in *. by rewrite Ht1, Hus.
Qed.

(** The tree of tokens that can be written can be written. *)
Lemma parse_unit_wf (ts : list token) (tu : translation_unit) :
  wf_tokens ts → parse_unit ts = inr tu → wf_unit tu = true.
Proof.
  unfold parse_unit. intros Hts.
  destruct (parse_includes_wf ts Hts) as [Hhs Hts1].
  destruct (parse_includes ts) as [hs ts1].
  destruct (parse_usings_wf ts1 Hts1) as [Hus Hts2].
  destruct (parse_usings ts1) as [us ts2]. simpl in *.
  pose proof (parse_function_wf (length ts) ts2 Hts2) as Hf.
  destruct (parse_function (length ts) ts2) as [e|[f [|t ts3]]]; try done.
  simpl in *. intros [= <-]. unfold wf_unit. simpl. destruct Hf as [Hf _].
  by rewrite Hhs, Hus, Hf.
Qed.
