(* ===== verification/FrontEnd.v ===== *)
(** * The front end reads what the printer writes

    The text of a tree that can be written is read back as the tree
    ([front_end_show_unit]): the tokens of such a tree can be written
    ([unit_tokens_wf]), the lexer reads their text as the tokens
    ([lex_show_tokens]) and the parser reads the tokens as the tree
    ([parse_unit_tokens]).  So the grammar of [Parser] has no ambiguity
    that loses a tree, and the parentheses of [expr_tokens] are enough.

    In the other direction, the tree of a text that the front end accepts
    can be written, and the text written for it is read as the same tree
    ([front_end_canonical]): two texts with the same tree differ in white
    space, comments, parentheses that group nothing and the spelling of
    numbers only.

    The lexer implements the lexical grammar and the parser the grammar of
    phrases, so the front end accepts a text as a tree exactly when the
    text is made of tokens that are a phrase of the tree
    ([front_end_specification]), and then of no other tokens and no other
    tree ([front_end_unambiguous]). *)

From S2P Require Import Prelude Syntax Lexer Parser Source Printer Grammar Lexical.
From S2P Require Import LexerComplete LexerProofs LexerSound LexerInvariant.
From S2P Require Import ParserProofs ParserSound ParserInvariant.

(** ** The tokens of a tree can be written *)

(** Conjunctions of [bool]s in the goal and the hypotheses, taken apart. *)
Ltac wf_split :=
  repeat (rewrite ?forallb_app, ?andb_true_iff, ?bool_decide_eq_true in *; simpl in * );
  repeat match goal with H : _ ∧ _ |- _ => destruct H end.

Lemma expr_tokens_wf (e : expr) (k : nat) :
  wf_expr e = true → forallb wf_token (expr_tokens k e) = true.
Proof.
  revert k. induction e as [l|x|op a IHa b IHb|x e IHe]; intros k He; simpl;
    unfold parenthesise; case_decide; wf_split; auto.
Qed.

Lemma type_tokens_wf (t : tyname) :
  wf_type t = true → forallb wf_token (type_tokens t) = true.
Proof. destruct t; simpl; intros; wf_split; auto. Qed.

Lemma declarators_tokens_wf (ds : list declarator) :
  forallb wf_declarator ds = true → forallb wf_token (declarators_tokens ds) = true.
Proof.
  assert (∀ d, wf_declarator d = true → forallb wf_token (declarator_tokens d) = true)
    as Hd by (intros [x [e|]]; unfold wf_declarator, declarator_tokens; simpl; intros;
              wf_split; auto using expr_tokens_wf).
  induction ds as [|d [|d' ds] IH]; intros Hds; [done|..];
    cbn [declarators_tokens]; wf_split; auto.
Qed.

Lemma operands_tokens_wf (es : list expr) :
  forallb wf_expr es = true → forallb wf_token (operands_tokens es) = true.
Proof. induction es; simpl; intros; wf_split; auto using expr_tokens_wf. Qed.

Lemma stmt_tokens_wf (s : stmt) :
  wf_stmt s = true → forallb wf_token (stmt_tokens s) = true.
Proof.
  destruct s as [[] t ds|e|x es|e]; simpl; intros; wf_split;
    auto using expr_tokens_wf, type_tokens_wf, declarators_tokens_wf, operands_tokens_wf.
Qed.

Lemma stmts_tokens_wf (ss : list stmt) :
  forallb wf_stmt ss = true → forallb wf_token (ss ≫= stmt_tokens) = true.
Proof.
  induction ss as [|s ss IH]; [done|]. rewrite bind_cons. simpl. intros.
  wf_split. auto using stmt_tokens_wf.
Qed.

Lemma function_tokens_wf (f : function) :
  wf_function f = true → forallb wf_token (function_tokens f) = true.
Proof.
  destruct f as [t x b]. unfold wf_function, function_tokens. simpl. intros.
  wf_split. auto using type_tokens_wf, stmts_tokens_wf.
Qed.

Lemma unit_tokens_wf (tu : translation_unit) :
  wf_unit tu = true → forallb wf_token (unit_tokens tu) = true.
Proof.
  destruct tu as [hs us f]. unfold wf_unit, unit_tokens. simpl. intros. wf_split.
  split_and!; [| |by apply function_tokens_wf].
  - induction hs; simpl in *; wf_split; auto.
  - induction us; [done|]. rewrite bind_cons. simpl in *. wf_split. auto.
Qed.

(** ** The round trip *)

Lemma front_end_printed (tu : translation_unit) :
  wf_unit tu = true → front_end (show_unit tu) = inr tu.
Proof.
  intros Htu. unfold front_end, show_unit.
  by rewrite (lex_show_tokens _ (unit_tokens_wf tu Htu)), (parse_unit_tokens tu Htu).
Qed.

(** C8: the front end is a left inverse of the printer.  For every
    translation unit of the fragment whose names are identifiers that are
    not keywords, whose integer literals are not negative and whose
    declarations and insertions are not empty: the tokens of the unit can
    be written; the lexer reads the text of the unit, one token on a line,
    as these tokens; the parser, with the number of tokens as fuel, reads
    the tokens as the unit; so the front end reads the text as the unit.
    Operators group as the tree does, with the parentheses that
    [expr_tokens] writes and no others. *)
Theorem front_end_show_unit (tu : translation_unit) :
  wf_unit tu = true →
  forallb wf_token (unit_tokens tu) = true ∧
  lex (show_unit tu) = inr (unit_tokens tu) ∧
  parse_unit (unit_tokens tu) = inr tu ∧
  front_end (show_unit tu) = inr tu.
Proof.
  intros Htu. pose proof (unit_tokens_wf tu Htu) as Hts. split_and!; [done| | |].
  - by apply lex_go_show_tokens.
  - by apply parse_unit_complete, wf_unit_complete.
  - by apply front_end_printed.
Qed.

(** The file of the repository, and a unit whose expressions need
    parentheses: [(a = 1 + 2) * (3 + b) * c] and [a + (b + 1)]. *)
Definition grouping_unit : translation_unit :=
  {| includes := ["iostream"]; usings := ["std"];
     unit_main :=
       {| fn_type := TyInt; fn_name := "main";
          fn_body :=
            [ SDecl false TyInt [without_init "a"; with_init "b" (int_lit 2);
                                 without_init "c"];
              SExpr (EBin Mul (EBin Mul (EAssign "a" (EBin Add (int_lit 1) (int_lit 2)))
                                        (EBin Add (int_lit 3) (EVar "b")))
                              (EVar "c"));
              SInsert "cout" [EBin Add (EVar "a") (EBin Add (EVar "b") (int_lit 1));
                              ELit (LChar "010"); ELit (LFloat 15 1)];
              SReturn (int_lit 0) ] |} |}.

(** The tree of the file can be written, and its tokens are the tokens of
    the file: the file has the parentheses that its grouping needs, which
    are none, and no others. *)
Lemma source_tokens_printed :
  wf_unit source_unit = true ∧ unit_tokens source_unit = source_tokens.
Proof. by vm_compute. Qed.

Lemma front_end_show_unit_witness :
  (forallb wf_token (unit_tokens grouping_unit) = true ∧
   lex (show_unit grouping_unit) = inr (unit_tokens grouping_unit) ∧
   parse_unit (unit_tokens grouping_unit) = inr grouping_unit ∧
   front_end (show_unit grouping_unit) = inr grouping_unit) ∧
  front_end (show_unit source_unit) = inr source_unit.
Proof.
  split; [exact (front_end_show_unit grouping_unit eq_refl)|].
  exact (front_end_printed source_unit eq_refl).
Defined.

(** ** The tree of a text *)

(** C9: what the front end returns.  The tree of every text that the
    front end accepts can be written: its names are identifiers that are
    not keywords, its integer literals are not negative, the names of its
    headers are not empty, and its declarations and insertions are not
    empty.  The text written for the tree is read as the same tree: the
    printer gives every accepted text a normal form with the same tree.
    The proof is an invariant of the states of the lexer (the word being
    read starts with a letter, the directive being read has no line
    break) and of the results of every parser. *)
Theorem front_end_canonical (text : string) (tu : translation_unit) :
  front_end text = inr tu →
  wf_unit tu = true ∧ front_end (show_unit tu) = inr tu.
Proof.
  unfold front_end at 1. destruct (lex text) as [e|ts] eqn:Hlex; [done|].
  destruct (parse_unit ts) as [e|tu'] eqn:Hparse; [done|]. intros [= ->].
  assert (wf_unit tu = true) as Htu by (eapply parse_unit_wf, Hparse; by eapply lex_wf).
  split; [done | by apply front_end_printed].
Qed.

Lemma front_end_canonical_witness :
  wf_unit source_unit = true ∧ front_end (show_unit source_unit) = inr source_unit.
Proof. exact (front_end_canonical source_text source_unit front_end_source). Defined.

(** Two spellings of one tree: the second has a comment, parentheses that
    group nothing, a zero before a number and other white space. *)
Lemma front_end_spellings :
  front_end ("int main ( ) {" +:+ String "010" "  double a=(1.5)+((2*01.5)); // sum"
             +:+ String "010" "return (a);}")
  = front_end "int main() { double a = 1.5 + 2 * 1.5; return a; }" ∧
  front_end "int main() { double a = 1.5 + 2 * 1.5; return a; }"
  = inr {| includes := []; usings := [];
           unit_main :=
             {| fn_type := TyInt; fn_name := "main";
                fn_body :=
                  [ SDecl false TyDouble
                      [with_init "a" (EBin Add (ELit (LFloat 15 1))
                                        (EBin Mul (int_lit 2) (ELit (LFloat 15 1))))];
                    SReturn (EVar "a") ] |} |}.
Proof. by vm_compute. Qed.

(** ** The front end and the two grammars *)

(** The front end accepts a text as a tree if and only if the text is made
    of tokens that are a phrase of the tree; the tokens and the tree are
    then the only ones. *)
Lemma front_end_specification (text : string) (tu : translation_unit) :
  front_end text = inr tu ↔ ∃ ts, scans true text ts ∧ unit_g ts tu.
Proof.
  rewrite front_end_grammar.
  split; intros (ts & Hts & Hg); exists ts; (split; [|done]);
    first [by apply lex_sound | by apply lex_scans].
Qed.

Lemma front_end_unambiguous (text : string) (ts ts' : list token) (tu tu' : translation_unit) :
  scans true text ts → unit_g ts tu → scans true text ts' → unit_g ts' tu' →
  ts' = ts ∧ tu' = tu.
Proof.
  intros Hts Hg Hts' Hg'. apply lex_scans in Hts, Hts'.
  assert (ts' = ts) as -> by congruence. split; [done|].
  apply parse_unit_phrase in Hg, Hg'. congruence.
Qed.
