(* ===== verification/Typing.v ===== *)
(** * The static checks

    A compiler decides before the program runs whether its names are
    declared, declared once, used at their types and not assigned when
    [const]; with its warnings turned into errors it also decides whether
    a variable is read before it has a value.  [check_block] is that
    decision for the fragment of [Syntax]: the interpreter run on what is
    known of a frame without its values ([tenv]: the type of each variable,
    whether it is [const], whether it has a value).

    The language of the fragment has no branch, so the checker is exact: it
    accepts a block if and only if the block runs without error, except for
    what depends on the values ([abstracts]: signed overflow, and reads of
    variables without a value when the checker is not [strict]).  Type
    soundness is the direction from the checker to the run. *)

From stdpp Require Import gmap.
From S2P Require Import Prelude Result MachineInt Double Ostream Locals Program Syntax.
From S2P Require Import Lexer Parser Source.

(** ** What is known of a frame without its values *)

Record tslot : Type := TSlot {
  ts_type : ctype;
  ts_const : bool;
  ts_init : bool
}.

#[export] Instance tslot_eq_dec : EqDecision tslot.
Proof. solve_decision. Defined.

Abbreviation tenv := (gmap string tslot).

Definition abs_slot (sl : slot) : tslot :=
  TSlot (slot_type sl) (slot_const sl)
        (match slot_value sl with Some _ => true | None => false end).

Definition abs_frame (f : frame) : tenv := abs_slot <$> f.

(** ** The operations of the frame on types *)

Definition declare_t (x : string) (t : ctype) (Γ : tenv) : res tenv :=
  match Γ !! x with
  | Some _ => Err (Redeclared x)
  | None => OK (<[x := TSlot t false false]> Γ)
  end.

Definition init_t (x : string) (t : ctype) (c : bool) (tv : ctype) (Γ : tenv) : res tenv :=
  match Γ !! x with
  | Some _ => Err (Redeclared x)
  | None =>
      if decide (tv = t) then OK (<[x := TSlot t c true]> Γ)
      else Err (TypeMismatch x)
  end.

Definition assign_t (x : string) (tv : ctype) (Γ : tenv) : res tenv :=
  match Γ !! x with
  | None => Err (Undeclared x)
  | Some ts =>
      if ts_const ts then Err (ConstWrite x)
      else if decide (tv = ts_type ts)
           then OK (<[x := TSlot (ts_type ts) false true]> Γ)
           else Err (TypeMismatch x)
  end.

(** A strict check rejects the read of a variable that has no value. *)
Definition read_t (strict : bool) (x : string) (Γ : tenv) : res ctype :=
  match Γ !! x with
  | None => Err (Undeclared x)
  | Some ts =>
      if strict && negb (ts_init ts) then Err (UninitRead x)
      else OK (ts_type ts)
  end.

(** An update and a query of the environment, as computations. *)
Definition update (op : tenv → res tenv) : exec tenv unit := λ Γ,
  match op Γ with
  | OK Γ' => OK (tt, Γ')
  | Err e => Err e
  end.

Definition query {A} (q : tenv → res A) : exec tenv A := λ Γ,
  match q Γ with
  | OK a => OK (a, Γ)
  | Err e => Err e
  end.

(** ** The checker *)

Section Checker.
Context `{IntWidth}.
Context (scope : gmap string entity) (strict : bool).

Definition lit_type (l : literal) : res ctype := type_of <$> lit_value l.

Definition check_int (e : expr) (t : ctype) : res unit :=
  if decide (t = TInt) then OK tt else Err (TypeMismatch (expr_name e)).

Fixpoint type_expr (e : expr) : exec tenv ctype :=
  match e with
  | ELit l => lift (lit_type l)
  | EVar x => query (read_t strict x)
  | EBin op e1 e2 =>
      (t ← type_expr e1; lift (check_int e1 t)) ;;
      (t ← type_expr e2; lift (check_int e2 t)) ;;
      mret TInt
  | EAssign x e =>
      t ← type_expr e; update (assign_t x t) ;; query (read_t strict x)
  end.

Definition check_declarator (c : bool) (t : ctype) (d : declarator) : exec tenv unit :=
  match decl_init d with
  | None =>
      if c then raise (ConstWrite (decl_name d))
      else update (declare_t (decl_name d) t)
  | Some e => tv ← type_expr e; update (init_t (decl_name d) t c tv)
  end.

(** A value of each of the five types can be inserted. *)
Definition check_insert (e : expr) : exec tenv unit := type_expr e ;; mret tt.

Definition check_stmt (st : stmt) : exec tenv (option ctype) :=
  match st with
  | SDecl c t ds =>
      t' ← lift (resolve_type scope t); seq (check_declarator c t' <$> ds) ;; mret None
  | SExpr e => type_expr e ;; mret None
  | SInsert o es =>
      lift (resolve_stream scope o) ;; seq (check_insert <$> es) ;; mret None
  | SReturn e => t ← type_expr e; mret (Some t)
  end.

Fixpoint check_block (sts : list stmt) : exec tenv (option ctype) :=
  match sts with
  | [] => mret None
  | st :: sts =>
      r ← check_stmt st;
      match r with
      | Some t => mret (Some t)
      | None => check_block sts
      end
  end.

Definition check_main (f : function) : exec tenv unit :=
  t ← lift (resolve_type scope (fn_type f));
  if decide (t = TInt) then
    r ← check_block (fn_body f);
    match r with
    | None | Some TInt => mret tt
    | Some _ => raise (TypeMismatch (fn_name f))
    end
  else raise (TypeMismatch (fn_name f)).
End Checker.

(** The check of a translation unit: [OK] or the first error. *)
Definition check_unit `{IntWidth} (lib : library) (strict : bool)
    (tu : translation_unit) : res unit :=
  fst <$> check_main (unit_scope lib tu) strict (unit_main tu) ∅.

(** ** A run and its check *)

(** The errors that depend on the values, which the checker cannot see. *)
Definition allowed (strict : bool) (err : error) : Prop :=
  err = SignedOverflow ∨ (strict = false ∧ ∃ x, err = UninitRead x).

(** A value of a type; a value returned by a block. *)
Definition typed `{IntWidth} (v : value) (t : ctype) : Prop := type_of v = t ∧ wf_value v.

Definition returns `{IntWidth} : option value → option ctype → Prop := option_Forall2 typed.

Definition any {A B} : A → B → Prop := λ _ _, True.

(** [k] is the check of [c]: from a well-formed frame, if [c] completes
    then [k] completes on what is known of the frame, with what is known of
    the new frame and a related result; if [c] fails then [k] fails with
    the same error, unless the error depends on the values. *)
Definition abstracts `{IntWidth} (S : Type) (strict : bool) {A B : Type} (Q : A → B → Prop)
    (c : exec (state S) A) (k : exec tenv B) : Prop :=
  ∀ s, wf_frame (locals s) →
    match c s with
    | OK (a, s') =>
        wf_frame (locals s') ∧
        ∃ b, k (abs_frame (locals s)) = OK (b, abs_frame (locals s')) ∧ Q a b
    | Err err => allowed strict err ∨ k (abs_frame (locals s)) = Err err
    end.

(** ** Integer literals and the width of [int]

    An integer literal that fits sixteen bits is an [int] at every width. *)

Fixpoint small_expr (e : expr) : bool :=
  match e with
  | ELit (LInt z) => bool_decide (-32768 ≤ z ≤ 32767)
  | ELit _ | EVar _ => true
  | EBin _ e1 e2 => small_expr e1 && small_expr e2
  | EAssign _ e => small_expr e
  end.

Definition small_stmt (st : stmt) : bool :=
  match st with
  | SDecl _ _ ds => forallb (λ d, from_option small_expr true (decl_init d)) ds
  | SExpr e | SReturn e => small_expr e
  | SInsert _ es => forallb small_expr es
  end.

Definition small_literals (sts : list stmt) : bool := forallb small_stmt sts.

(** ** Variants of a translation unit *)

Definition with_include (h : string) (tu : translation_unit) : translation_unit :=
  {| includes := includes tu ++ [h]; usings := usings tu; unit_main := unit_main tu |}.

Definition without_using (tu : translation_unit) : translation_unit :=
  {| includes := includes tu; usings := []; unit_main := unit_main tu |}.

(** * The checker and the run *)

Section Operations.
Context `{IntWidth}.
Implicit Types (f : frame) (x : string) (v : value) (t : ctype) (c strict : bool).

Lemma abs_frame_lookup f x : abs_frame f !! x = abs_slot <$> f !! x.
Proof. apply lookup_fmap. Qed.

Lemma abs_frame_insert f x sl : abs_frame (<[x := sl]> f) = <[x := abs_slot sl]> (abs_frame f).
Proof. apply fmap_insert. Qed.

Lemma declare_abs x t f : declare_t x t (abs_frame f) = abs_frame <$> declare x t f.
Proof.
  unfold declare_t, declare. rewrite abs_frame_lookup.
  destruct (f !! x); simpl; [done|]. by rewrite abs_frame_insert.
Qed.

Lemma init_abs x t c v f :
  init_t x t c (type_of v) (abs_frame f) = abs_frame <$> init x t c v f.
Proof.
  unfold init_t, init. rewrite abs_frame_lookup.
  destruct (f !! x); simpl; [done|]. case_decide; simpl; [|done].
  by rewrite abs_frame_insert.
Qed.

Lemma assign_abs x v f :
  assign_t x (type_of v) (abs_frame f) = abs_frame <$> assign x v f.
Proof.
  unfold assign_t, assign. rewrite abs_frame_lookup.
  destruct (f !! x) as [sl|]; simpl; [|done].
  destruct (slot_const sl); [done|]. case_decide; simpl; [|done].
  by rewrite abs_frame_insert.
Qed.

(** A strict read of the environment is exact; a read that is not strict
    accepts the variables without a value. *)
Lemma read_abs_strict x f :
  wf_frame f → read_t true x (abs_frame f) = type_of <$> read x f.
Proof.
  intros Hwf. unfold read_t, read. rewrite abs_frame_lookup.
  destruct (f !! x) as [sl|] eqn:Hx; simpl; [|done].
  pose proof (wf_frame_lookup _ _ _ Hwf Hx) as Hsl. unfold wf_slot in Hsl.
  destruct (slot_value sl); simpl; [|done]. by destruct Hsl as [<- _].
Qed.

Lemma read_abs_lax x f :
  wf_frame f →
  match read x f with
  | OK v => read_t false x (abs_frame f) = OK (type_of v)
  | Err e => e = UninitRead x ∨ read_t false x (abs_frame f) = Err e
  end.
Proof.
  intros Hwf. unfold read_t, read. rewrite abs_frame_lookup.
  destruct (f !! x) as [sl|] eqn:Hx; simpl; [|by right].
  pose proof (wf_frame_lookup _ _ _ Hwf Hx) as Hsl. unfold wf_slot in Hsl.
  destruct (slot_value sl); simpl; [|by left]. by destruct Hsl as [<- _].
Qed.
End Operations.

(** ** Computations and their checks *)

Section Abstraction.
Context `{IntWidth} {S : Type} `{OStream S}.
Context (scope : gmap string entity) (strict : bool).
Implicit Types (f : frame) (x : string) (v : value) (t : ctype) (e : expr) (s : state S).

Lemma abstracts_ret {A B} (Q : A → B → Prop) a b : Q a b → abstracts S strict Q (mret a) (mret b).
Proof. intros HQ s Hwf. simpl. eauto. Qed.

Lemma abstracts_bind {A B A' B'} (Q : A → B → Prop) (Q' : A' → B' → Prop)
    (c : exec (state S) A) (k : exec tenv B) (c' : A → exec (state S) A') k' :
  abstracts S strict Q c k → (∀ a b, Q a b → abstracts S strict Q' (c' a) (k' b)) →
  abstracts S strict Q' (c ≫= c') (k ≫= k').
Proof.
  intros Hc Hc' s Hwf. specialize (Hc s Hwf). unfold mbind, exec_bind.
  destruct (c s) as [[a s']|err].
  - destruct Hc as (Hwf' & b & -> & HQ). apply (Hc' a b HQ s' Hwf').
  - destruct Hc as [?| ->]; [by left | by right].
Qed.

Lemma abstracts_lift {A B} (Q : A → B → Prop) (r : res A) (r' : res B) :
  match r with
  | OK a => ∃ b, r' = OK b ∧ Q a b
  | Err err => allowed strict err ∨ r' = Err err
  end →
  abstracts S strict Q (lift r) (lift r').
Proof.
  intros Hr s Hwf. unfold lift. destruct r as [a|err].
  - destruct Hr as (b & -> & HQ). eauto.
  - destruct Hr as [?| ->]; [by left | by right].
Qed.

Lemma abstracts_raise {A B} (Q : A → B → Prop) err : abstracts S strict Q (raise err) (raise err).
Proof. intros s Hwf. by right. Qed.

Lemma abstracts_on_locals op op' :
  (∀ f, op' (abs_frame f) = abs_frame <$> op f) →
  (∀ f f', wf_frame f → op f = OK f' → wf_frame f') →
  abstracts S strict any (on_locals op) (update op').
Proof.
  intros Hop Hwf' [f o] Hwf. unfold on_locals, update. simpl in *. rewrite Hop.
  destruct (op f) as [f'|err] eqn:Hf; simpl; [|by right]. split; [by eapply Hwf'|].
  by eexists.
Qed.

Lemma abstracts_read x : abstracts S strict typed (eval (read x)) (query (read_t strict x)).
Proof.
  intros [f o] Hwf. unfold eval, query. simpl in *.
  destruct strict eqn:Hstrict.
  - rewrite (read_abs_strict x f Hwf).
    destruct (read x f) as [v|err] eqn:Hr; simpl; [|by right].
    split; [done|]. eexists. split; [done|]. split; [done|]. by eapply read_wf.
  - pose proof (read_abs_lax x f Hwf) as Hx.
    destruct (read x f) as [v|err] eqn:Hr.
    + rewrite Hx. split; [done|]. eexists. split; [done|]. split; [done|]. by eapply read_wf.
    + destruct Hx as [->| ->]; [left; right; eauto | by right].
Qed.

Lemma abstracts_print {A} `{Insertable A} (a : A) : abstracts S strict any (print a) (mret tt).
Proof. intros [f o] Hwf. simpl. split; [done|]. by eexists. Qed.

Lemma abstracts_seq cs ks :
  Forall2 (abstracts S strict any) cs ks → abstracts S strict any (seq cs) (seq ks).
Proof.
  induction 1 as [|c k cs ks Hc _ IH]; simpl; [by apply abstracts_ret|].
  eapply abstracts_bind; [exact Hc | auto].
Qed.

(** A step of the run that the checker does not make. *)
Lemma abstracts_lift_left {A B C} (Q : B → C → Prop) (r : res A)
    (c : A → exec (state S) B) (k : exec tenv C) :
  (∀ err, r = Err err → allowed strict err) →
  (∀ a, r = OK a → abstracts S strict Q (c a) k) →
  abstracts S strict Q (lift r ≫= c) k.
Proof.
  intros Herr Hok s Hwf. unfold mbind, exec_bind, lift. destruct r as [a|err].
  - by apply Hok.
  - left. by apply Herr.
Qed.

(** *** Expressions *)

Lemma lit_value_wf (l : literal) v : lit_value l = OK v → wf_value v.
Proof. destruct l; simpl; [case_decide|..]; by intros [= <-]. Qed.

Lemma abstracts_lit (l : literal) : abstracts S strict typed (lift (lit_value l)) (lift (lit_type l)).
Proof.
  apply abstracts_lift. unfold lit_type. destruct (lit_value l) as [v|err] eqn:Hl; simpl.
  - eexists. split; [done|]. split; [done|]. by eapply lit_value_wf.
  - by right.
Qed.

Lemma abstracts_as_int e v t :
  typed v t → abstracts S strict (λ a _, in_range a) (lift (as_int e v)) (lift (check_int e t)).
Proof.
  intros [<- Hv]. apply abstracts_lift. unfold check_int.
  destruct v; simpl; [eexists; by split | by right..].
Qed.

Lemma binop_apply_ok op a b z : binop_apply op a b = OK z → in_range z.
Proof. destruct op; simpl; unfold int_add, int_mul; by intros [? ->]%checked_ok_inv. Qed.

Lemma binop_apply_err op a b err : binop_apply op a b = Err err → err = SignedOverflow.
Proof. destruct op; simpl; unfold int_add, int_mul; by intros [_ ?]%checked_err_inv. Qed.

Lemma abstracts_assign x v t :
  typed v t → abstracts S strict any (on_locals (assign x v)) (update (assign_t x t)).
Proof.
  intros [<- Hv]. apply abstracts_on_locals; [apply assign_abs|].
  intros f f' Hwf. by apply assign_wf.
Qed.

Lemma abstracts_expr e : abstracts S strict typed (eval_expr e) (type_expr strict e).
Proof.
  induction e as [l|x|op e1 IH1 e2 IH2|x e IH]; cbn [eval_expr type_expr].
  - apply abstracts_lit.
  - apply abstracts_read.
  - eapply abstracts_bind;
      [eapply abstracts_bind; [exact IH1 | intros; by apply abstracts_as_int]|].
    intros a u Ha. eapply abstracts_bind;
      [eapply abstracts_bind; [exact IH2 | intros; by apply abstracts_as_int]|].
    intros b u' Hb. apply abstracts_lift_left.
    + intros err ->%binop_apply_err. by left.
    + intros z Hz%binop_apply_ok. by apply abstracts_ret.
  - eapply abstracts_bind; [exact IH|]. intros v t Hvt. unfold assign_expr.
    eapply abstracts_bind; [by apply abstracts_assign | intros; apply abstracts_read].
Qed.

(** *** Statements *)

Lemma abstracts_declarator c t d :
  abstracts S strict any (exec_declarator c t d) (check_declarator strict c t d).
Proof.
  unfold exec_declarator, check_declarator. destruct (decl_init d) as [e|].
  - eapply abstracts_bind; [apply abstracts_expr|]. intros v tv [<- Hv].
    apply abstracts_on_locals; [apply init_abs|]. intros f f' Hwf. by apply init_wf.
  - destruct c; [apply abstracts_raise|].
    apply abstracts_on_locals; [apply declare_abs | apply declare_wf].
Qed.

Lemma abstracts_insert e : abstracts S strict any (exec_insert e) (check_insert strict e).
Proof.
  eapply abstracts_bind; [apply abstracts_expr|]. intros v t _. apply abstracts_print.
Qed.

Lemma abstracts_same {A} (r : res A) : abstracts S strict eq (lift r) (lift r).
Proof. apply abstracts_lift. destruct r; [by eexists | by right]. Qed.

Lemma abstracts_map {A} (c : A → exec (state S) unit) (k : A → exec tenv unit) l :
  (∀ a, abstracts S strict any (c a) (k a)) → abstracts S strict any (seq (c <$> l)) (seq (k <$> l)).
Proof.
  intros Hck. apply abstracts_seq, Forall2_fmap, Forall_Forall2_diag, Forall_forall.
  intros a _. apply Hck.
Qed.

Lemma abstracts_stmt st : abstracts S strict returns (exec_stmt scope st) (check_stmt scope strict st).
Proof.
  destruct st as [c t ds|e|o es|e]; cbn [exec_stmt check_stmt].
  - eapply abstracts_bind; [apply abstracts_same|]. intros t' _ <-.
    eapply abstracts_bind; [apply abstracts_map, abstracts_declarator|].
    intros. apply abstracts_ret. constructor.
  - eapply abstracts_bind; [apply abstracts_expr|].
    intros. apply abstracts_ret. constructor.
  - eapply abstracts_bind; [apply abstracts_same|]. intros _ _ _.
    eapply abstracts_bind; [apply abstracts_map, abstracts_insert|].
    intros. apply abstracts_ret. constructor.
  - eapply abstracts_bind; [apply abstracts_expr|].
    intros v t Hvt. apply abstracts_ret. by constructor.
Qed.

Lemma abstracts_block sts :
  abstracts S strict returns (exec_block scope sts) (check_block scope strict sts).
Proof.
  induction sts as [|st sts IH]; cbn [exec_block check_block].
  - apply abstracts_ret. constructor.
  - eapply abstracts_bind; [apply abstracts_stmt|].
    intros r r' [v t Hvt|]; [apply abstracts_ret; by constructor | exact IH].
Qed.

Lemma abstracts_main fn : abstracts S strict any (call_main scope fn) (check_main scope strict fn).
Proof.
  unfold call_main, check_main.
  eapply abstracts_bind; [apply abstracts_same|]. intros t _ <-.
  case_decide; [|apply abstracts_raise].
  eapply abstracts_bind; [apply abstracts_block|].
  intros r r' [v t' [<- _]|]; [|by apply abstracts_ret].
  destruct v; simpl; first [by apply abstracts_ret | apply abstracts_raise].
Qed.
End Abstraction.

(** ** The checker does not depend on the width *)

Section Width.
Context `{W : IntWidth}.
Context (scope : gmap string entity) (strict : bool).

Lemma seq_proper {St} (cs ds : list (exec St unit)) : Forall2 exec_eq cs ds → seq cs ≈ seq ds.
Proof.
  induction 1 as [|c d cs ds Hc _ IH]; simpl; [done|].
  apply exec_bind_proper; [by intros ? | done].
Qed.

Lemma seq_map_proper {St A} (c d : A → exec St unit) (l : list A) :
  Forall (λ a, c a ≈ d a) l → seq (c <$> l) ≈ seq (d <$> l).
Proof. intros Hl. by apply seq_proper, Forall2_fmap, Forall_Forall2_diag. Qed.

Lemma type_expr_width e :
  small_expr e → type_expr (H := W) strict e ≈ type_expr (H := int16) strict e.
Proof.
  induction e as [l|x|op e1 IH1 e2 IH2|x e IH]; cbn [small_expr type_expr]; intros Hs.
  - destruct l; try done. apply bool_decide_unpack in Hs. intros Γ.
    unfold lit_type. simpl. by rewrite !decide_True by (apply in_range_small; lia).
  - done.
  - apply andb_True in Hs as [Hs1 Hs2].
    assert (∀ e, type_expr (H := W) strict e ≈ type_expr (H := int16) strict e →
                 (t ← type_expr (H := W) strict e; lift (check_int e t))
                 ≈ (t ← type_expr (H := int16) strict e; lift (check_int e t))) as Hop
      by (intros e He; by apply exec_bind_proper).
    apply exec_bind_proper; [intros _; apply exec_bind_proper; [done|] |]; auto.
  - apply exec_bind_proper; [done | auto].
Qed.

Lemma check_stmt_width st :
  small_stmt st → check_stmt (H := W) scope strict st ≈ check_stmt (H := int16) scope strict st.
Proof.
  destruct st as [c t ds|e|o es|e]; cbn [small_stmt check_stmt]; intros Hs.
  - apply exec_bind_proper; [intros t'|done]. apply exec_bind_proper; [done|].
    apply seq_map_proper. apply forallb_True in Hs.
    eapply Forall_impl; [|exact Hs]. intros d Hd. simpl in Hd.
    unfold check_declarator. destruct (decl_init d) as [e|]; [simpl in Hd|done].
    apply exec_bind_proper; [done | by apply type_expr_width].
  - apply exec_bind_proper; [done | by apply type_expr_width].
  - apply exec_bind_proper; [intros _|done]. apply exec_bind_proper; [done|].
    apply seq_map_proper. apply forallb_True in Hs.
    eapply Forall_impl; [|exact Hs]. intros e He. simpl in He.
    apply exec_bind_proper; [done | by apply type_expr_width].
  - apply exec_bind_proper; [done | by apply type_expr_width].
Qed.

Lemma check_block_width sts :
  small_literals sts →
  check_block (H := W) scope strict sts ≈ check_block (H := int16) scope strict sts.
Proof.
  induction sts as [|st sts IH]; cbn [small_literals forallb check_block]; [done|].
  intros [Hst Hsts]%andb_True. apply exec_bind_proper; [|by apply check_stmt_width].
  intros [t|]; [done | by apply IH].
Qed.
End Width.

Lemma check_unit_width `{W : IntWidth} lib strict tu :
  small_literals (fn_body (unit_main tu)) →
  check_unit (H := W) lib strict tu = check_unit (H := int16) lib strict tu.
Proof.
  intros Hs. unfold check_unit, check_main. f_equal.
  apply exec_bind_proper; [intros t|done]. case_decide; [|done].
  apply exec_bind_proper; [done | by apply check_block_width].
Qed.

(** The checks of the file and of its variants, at every width. *)
Lemma source_unit_checks `{W : IntWidth} :
  check_unit hosted_library true source_unit = OK tt ∧
  check_unit strict_library true source_unit = Err (Undeclared "string") ∧
  check_unit strict_library true (with_include "string" source_unit) = OK tt ∧
  check_unit hosted_library true (without_using source_unit) = Err (Undeclared "string").
Proof. rewrite !(check_unit_width (W := W)) by (by vm_compute). by vm_compute. Qed.

(** * Type soundness *)

Section Soundness.
Context `{IntWidth} {S : Type} `{OStream S}.
Context (scope : gmap string entity).
Implicit Types (s : state S) (sts : list stmt).

Lemma allowed_undefined strict err : allowed strict err → classify err = UndefinedBehaviour.
Proof. by intros [->|[_ [x ->]]]. Qed.

Lemma allowed_strict err : allowed true err → err = SignedOverflow.
Proof. by intros [->|[? _]]. Qed.

(** The run of a unit from the entry of [main], and its check. *)
Lemma run_unit_check lib strict tu (o : S) :
  match run_unit lib tu (initial o) with
  | OK _ => check_unit lib strict tu = OK tt
  | Err err => allowed strict err ∨ check_unit lib strict tu = Err err
  end.
Proof.
  pose proof (abstracts_main (unit_scope lib tu) strict (unit_main tu) (initial o)
                wf_frame_empty) as Hs.
  unfold run_unit, check_unit. simpl in Hs. unfold abs_frame in Hs. rewrite fmap_empty in Hs.
  destruct (call_main _ _ _) as [[z s']|err].
  - by destruct Hs as (_ & [] & -> & _).
  - destruct Hs as [?| ->]; [by left | by right].
Qed.
End Soundness.

(** A block that the checker rejects does not complete: it fails with the
    error of the checker, or earlier with one that depends on the values. *)
Lemma check_block_rejects `{IntWidth} {S : Type} `{OStream S} scope strict sts (s : state S) err :
  wf_frame (locals s) →
  check_block scope strict sts (abs_frame (locals s)) = Err err →
  ∃ err', exec_block scope sts s = Err err' ∧ (err' = err ∨ allowed strict err').
Proof.
  intros Hwf Hck. pose proof (abstracts_block scope strict sts s Hwf) as Hs.
  destruct (exec_block scope sts s) as [[v s']|err'].
  - destruct Hs as (_ & r' & Hck' & _). congruence.
  - exists err'. split; [done|]. destruct Hs as [?|?]; [by right | left; congruence].
Qed.

(** * The theorems *)

Section Claims.
Context `{IntWidth} {S : Type} `{OStream S}.

(** C4: type soundness.  Whatever the names in scope and the width of
    [int]: if the checker accepts a block in the environment of a
    well-formed frame, then the block, run from any state with that frame,
    either completes, in a well-formed frame whose environment is the one
    the checker computed and with a returned value of the type it found, or
    fails with undefined behaviour, never with an ill-formed construct;
    under the strict check the only failure left is signed overflow. *)
Theorem check_block_sound scope strict sts (s : state S) r Γ' :
  wf_frame (locals s) →
  check_block scope strict sts (abs_frame (locals s)) = OK (r, Γ') →
  match exec_block scope sts s with
  | OK (v, s') => abs_frame (locals s') = Γ' ∧ wf_frame (locals s') ∧ returns v r
  | Err err => classify err = UndefinedBehaviour ∧ (strict = true → err = SignedOverflow)
  end.
Proof.
  intros Hwf Hck. pose proof (abstracts_block scope strict sts s Hwf) as Hs.
  destruct (exec_block scope sts s) as [[v s']|err].
  - destruct Hs as (Hwf' & r' & Hck' & Hr). rewrite Hck in Hck'. by simplify_eq.
  - destruct Hs as [Ha|Hck']; [|congruence]. split; [by eapply allowed_undefined|].
    intros ->. by apply allowed_strict.
Qed.

(** C3: the source file.  The front end reads the 1227 characters of
    [src/CPP/3_variables.cpp], comments and blank lines included, as the
    tree [source_unit].  For every width of [int] and every stream, the
    interpreter on this tree is [main]: the two
    agree on every state, errors included.  No variable of the file has
    the name of an entity of namespace [std].  The strict checker accepts
    the file with a library whose [<iostream>] declares [std::string]; with
    a library that declares only what the standard promises it rejects the
    file at [string myText], which including [<string>] repairs; without
    the using-directive it rejects the file at the same place. *)
Theorem source_unit_checked :
  front_end source_text = inr source_unit ∧
  run_unit hosted_library source_unit ≈ (main : exec (state S) Z) ∧
  in_fragment (unit_scope hosted_library source_unit) main_stmts ∧
  check_unit hosted_library true source_unit = OK tt ∧
  check_unit strict_library true source_unit = Err (Undeclared "string") ∧
  check_unit strict_library true (with_include "string" source_unit) = OK tt ∧
  check_unit hosted_library true (without_using source_unit) = Err (Undeclared "string").
Proof.
  split; [apply front_end_source|]. split; [apply run_source_unit|].
  split; [by vm_compute | apply source_unit_checks].
Qed.
End Claims.

(** ** At 32 bits *)

(** The file without line 7: [n] is read at line 15 before it has a value.
    The compiler accepts it, the strict check rejects it, and its run is
    undefined. *)
Definition without_line7 : translation_unit :=
  {| includes := includes source_unit; usings := usings source_unit;
     unit_main := {| fn_type := TyInt; fn_name := "main"; fn_body := delete 1%nat main_stmts |} |}.

Lemma without_line7_checks :
  check_unit (H := int32) hosted_library false without_line7 = OK tt ∧
  check_unit (H := int32) hosted_library true without_line7 = Err (UninitRead "n") ∧
  run_unit (H := int32) hosted_library without_line7 (initial cout_init) = Err (UninitRead "n").
Proof. by vm_compute. Qed.

(** The first two statements, [int n; n = 10;]. *)
Lemma check_block_sound_witness :
  match exec_block (H := int32) (unit_scope hosted_library source_unit) (take 2 main_stmts)
          (initial cout_init) with
  | OK (v, s') =>
      abs_frame (locals s') = {[ "n" := TSlot TInt false true ]} ∧
      wf_frame (H := int32) (locals s') ∧ returns (H := int32) v None
  | Err err => classify err = UndefinedBehaviour ∧ (true = true → err = SignedOverflow)
  end.
Proof.
  exact (check_block_sound (H := int32) (unit_scope hosted_library source_unit) true
           (take 2 main_stmts) (initial cout_init) None {[ "n" := TSlot TInt false true ]}
           wf_frame_empty ltac:(by vm_compute)).
Defined.
