(* ===== verification/Toolchain.v ===== *)
(** * From the source text to the exit of the process

    The parts of the development put together, in the order in which a
    user meets them: the text of the file is read as a tree ([Parser]);
    the tree is checked against a library ([Typing]); if
    the check accepts it, the tree is run from the entry of [main]
    ([Syntax]) on the stream of a device with a buffering policy and a
    given amount of room ([Process]); when [main] returns, the stream is
    flushed and the value returned is the exit status.  A file that the
    check rejects is never run: the build fails with the error of the
    check.

    [build_and_run] is this composition from the tree on, and
    [compile_and_run] from the text on.  For every translation unit of the
    fragment it can only end in three ways: the check rejects the unit, the
    run has undefined behaviour of a kind that depends on the values, or
    the process exits.  For the file of the repository it exits with status
    0 after writing the expected output, as far as the device has room. *)

From stdpp Require Import gmap.
From S2P Require Import Prelude Result MachineInt Ostream Locals Program Main.
From S2P Require Import Simulation Process Syntax Lexer Parser Source ParserFuel Typing.

Section Toolchain.
Context `{IntWidth} (policy : string → bool).

#[local] Instance toolchain_stream : OStream devstream := devstream_stream policy.

(** Check [tu] against [lib]; run it on a device with [room]; flush and
    exit. *)
Definition build_and_run (lib : library) (strict : bool) (tu : translation_unit)
    (room : nat) : res exit_record :=
  match check_unit lib strict tu with
  | Err e => Err e
  | OK _ =>
      match run_unit lib tu (initial (dev_init room)) with
      | OK (r, s) => OK {| exit_status := r; output := delivered (dev_flush (cout s)) |}
      | Err e => Err e
      end
  end.

(** Read [text]; build and run its tree.  A text that the front end
    rejects is neither checked nor run. *)
Definition compile_and_run (lib : library) (strict : bool) (text : string)
    (room : nat) : front_error + res exit_record :=
  match front_end text with
  | inl e => inl e
  | inr tu => inr (build_and_run lib strict tu room)
  end.

(** The text of the file is built and run as its tree is. *)
Lemma compile_and_run_source lib strict room :
  compile_and_run lib strict source_text room
  = inr (build_and_run lib strict source_unit room).
Proof. unfold compile_and_run. by rewrite front_end_source. Qed.

(** A unit that runs as [main] does, and that the check accepts, runs as
    the process of [Process] does. *)
Lemma build_and_run_main lib strict tu room :
  check_unit lib strict tu = OK tt →
  run_unit lib tu ≈ (main : exec (state devstream) Z) →
  build_and_run lib strict tu room = run_process policy room.
Proof. intros Hck Hrun. unfold build_and_run, run_process. by rewrite Hck, Hrun. Qed.

(** The file with [<string>] included, against the library that declares
    only what the standard promises, is [main] too. *)
Lemma run_with_string :
  run_unit strict_library (with_include "string" source_unit)
  ≈ (main : exec (state devstream) Z).
Proof. by apply call_main_function. Qed.

(** The outcomes of a build and run: a unit that the check rejects is not
    run, and the error is that of the check; a unit that the check accepts
    exits, or fails with an error that depends on the values. *)
Lemma build_and_run_outcomes lib strict tu room :
  match check_unit lib strict tu with
  | Err e => build_and_run lib strict tu room = Err e
  | OK _ => (∃ r, build_and_run lib strict tu room = OK r) ∨
            (∃ e, allowed strict e ∧ build_and_run lib strict tu room = Err e)
  end.
Proof.
  pose proof (run_unit_check lib strict tu (dev_init room)) as Hrun.
  unfold build_and_run. destruct (check_unit lib strict tu) as [[]|e]; [|done].
  destruct (run_unit lib tu (initial (dev_init room))) as [[r s]|e]; [by eauto|].
  destruct Hrun as [?|?]; [by eauto | done].
Qed.

(** C5: from the source text to the exit of the process, for every width
    of [int], every buffering policy and every amount of room on the
    device.  A text that the front end rejects is not checked: the build
    fails with the lexical or the syntactic error.  A text whose tree the
    strict check rejects is not run: the build fails with the error of the
    check.  One that the check accepts exits or fails with signed
    overflow: no other error is left at run time, and in no case is the
    error that the parser has run out of fuel.  The 1227 characters of the
    file of the
    repository, read by the front end and built against
    a library whose [<iostream>] declares [std::string], exit with status
    0, and the writes that the device has received are the expected output
    up to the room of the device, none of them empty.  Against a library
    that declares only what the standard promises the build fails at
    [string myText] and nothing is written; with [<string>] included the
    build and the run are the same as with the first library. *)
Theorem source_to_exit (room : nat) :
  (∀ lib text,
     (∃ e, front_end text = inl e ∧ e ≠ Syntactic TooDeep ∧
           compile_and_run lib true text room = inl e) ∨
     (∃ tu e, front_end text = inr tu ∧ check_unit lib true tu = Err e ∧
              compile_and_run lib true text room = inr (Err e)) ∨
     (∃ tu, front_end text = inr tu ∧ check_unit lib true tu = OK tt ∧
            ((∃ r, compile_and_run lib true text room = inr (OK r)) ∨
             compile_and_run lib true text room = inr (Err SignedOverflow)))) ∧
  (∃ evs, compile_and_run hosted_library true source_text room
            = inr (OK {| exit_status := 0; output := evs |}) ∧
          concat_events evs = str_take room expected_output ∧
          Forall (λ e, e ≠ "") evs) ∧
  compile_and_run strict_library true source_text room
  = inr (Err (Undeclared "string")) ∧
  build_and_run strict_library true (with_include "string" source_unit) room
  = build_and_run hosted_library true source_unit room.
Proof.
  destruct source_unit_checks as (Hhosted & Hstrict & Hstring & _). split_all.
  - intros lib text. unfold compile_and_run.
    destruct (front_end text) as [e|tu] eqn:Hfront.
    { left. exists e. split_all; [done | | done]. intros ->.
      by apply (front_end_fuel text). }
    right. pose proof (build_and_run_outcomes lib true tu room) as Hout.
    destruct (check_unit lib true tu) as [[]|e] eqn:Hck;
      [right | left; exists tu, e; by rewrite Hout].
    exists tu. split_all; [done..|].
    destruct Hout as [[r ->]|(e & ->%allowed_strict & ->)]; [left; by exists r | by right].
  - rewrite compile_and_run_source, (build_and_run_main _ _ _ _ Hhosted run_source_unit).
    destruct (run_process_output policy room) as (evs & -> & Hevs). by exists evs.
  - rewrite compile_and_run_source. unfold build_and_run. by rewrite Hstrict.
  - by rewrite (build_and_run_main _ _ _ _ Hhosted run_source_unit),
      (build_and_run_main _ _ _ _ Hstring run_with_string).
Qed.
End Toolchain.

(** ** At 32 bits, with a line buffer *)

(** The build and run of the file on a device with room for twenty bytes:
    two lines and the start of the third arrive, and the exit status is 0. *)
Lemma build_and_run_full_device :
  build_and_run (H := int32) line_policy hosted_library true source_unit 20
  = OK {| exit_status := 0;
          output := [ "1055.99DHello1" +:+ newline; newline; "19" +:+ newline; "1" ] |}.
Proof. by vm_compute. Qed.

(** [int a = 2147483647 + 1; b = 1;] is not built, because [b] is not
    declared.  Its run would not reach [b]: the sum overflows first.  The
    build reports the name, not the overflow. *)
Definition overflow_then_undeclared : translation_unit :=
  {| includes := []; usings := [];
     unit_main := {| fn_type := TyInt; fn_name := "main";
                     fn_body := [ SDecl false TyInt
                                    [with_init "a" (EBin Add (int_lit 2147483647) (int_lit 1))];
                                  SExpr (EAssign "b" (int_lit 1)) ] |} |}.

Lemma build_before_run :
  run_unit (H := int32) hosted_library overflow_then_undeclared (initial cout_init)
  = Err SignedOverflow ∧
  build_and_run (H := int32) line_policy hosted_library true overflow_then_undeclared 20
  = Err (Undeclared "b").
Proof. by vm_compute. Qed.
